(* ===== verification/_CoqProject ===== *)
-Q . S2P
Prelude.v
GoStrings.v
GoFlag.v
Glob.v
GlobSpec.v
Sanitize.v
FileSystem.v
Renamer.v
RenamerCollision.v
FileOps.v
RenamerSpec.v
RenamerLoop.v
ZipFormat.v
Archiver.v
ArchiverRun.v
ArchiverSafety.v
ArchiverLog.v
ArchiverStuck.v
Cli.v
