(* ===== verification/Prelude.v ===== *)
(** * A verification development of mtbls-file-utils

    The repository holds two independent Go command-line tools that work on a
    local directory tree:

    - [src/compress.go] (the Archiver, "mtbls-compress"): lists the immediate
      subdirectories of a root, keeps the visible ones that hold at least one
      file whose lower-cased base name matches the [--include] glob, writes
      each into [<name>.zip] beside it (skipping a folder whose zip already
      exists and opens, deleting it first when it does not open), and moves the
      archived folder into [<root>_original].
    - [src/rename.go] (the Renamer, "mtbls-rename"): walks the tree top-down,
      computes for every name outside [[0-9A-Za-z._-]+] a sanitized name
      ([+] becomes [_PLUS_], every other disallowed character [__]), resolves
      collisions with existing entries by appending [_1], [_2], ... to the
      stem, and applies the renames in reverse discovery order (bottom-up),
      or only reports them in dry-run mode.

    The tools share no state; both talk to the file system only, through
    [os.Stat], [os.ReadDir], [filepath.Walk]/[filepath.WalkDir], [os.Rename],
    [os.Remove], [os.Create], [os.MkdirAll] and [archive/zip].

    ** Files of the development (in dependency order)

    - [Prelude] (this file): runes, names and paths, the notation scope
      [mtbls_scope], the lexicographic order on names (Go compares strings
      byte-wise, which on UTF-8 is the code-point order modelled here), the
      tactics and the hint database [mtbls] shared by all files.
    - [GoStrings]: the Go library string and path helpers the sources call
      ([strings.HasPrefix], [strings.HasSuffix], [strings.TrimSuffix],
      [strings.ToLower], [filepath.Ext], the [%d] verb of [fmt.Sprintf]).
    - [GoFlag]: the part of Go's [flag] package the tools use: boolean and
      string flags, [flag.Parse] with its stop at the first positional
      argument, [-help], and the errors of [flag.CommandLine].
    - [Glob]: Go's [filepath.Match] (scanChunk / matchChunk / getEsc and the
      star retry loop) and the Archiver's case-insensitive [include_match].
    - [GlobSpec]: the glob semantics of [filepath.Match]'s documentation as
      a reference definition (a parser into terms, a declarative relation
      and a backtracking matcher that decides it), and the proof that Go's
      non-backtracking chunk algorithm computes it on names without a
      separator.
    - [Sanitize]: the Renamer's name policy of [rename.go] (the three regular
      expressions, [sanitizeName], the skip test, the stem/extension split and
      the collision candidates [%s_%d%s]).
    - [FileSystem]: the file-system tree, its well-formedness invariant
      (directory entries strictly sorted by name, names non-empty and free of
      separators), [os.Stat], the call sequences of [filepath.WalkDir] and
      [filepath.Walk], and [os.Rename] with Go's POSIX semantics.
    - [Renamer]: [rename.go]'s scan callback, its collision loop, the
      bottom-up application loop and [main].
    - [RenamerCollision]: the collision loop (lines 73-86) as a search for
      the first free path of the sequence [dir/sanitized], [dir/stem_1.ext],
      [dir/stem_2.ext], ....
    - [FileOps]: [os.Remove], [os.Create] with the writes through the open
      file, [os.Mkdir], [os.MkdirAll], and what [os.Stat] sees after each.
    - [RenamerSpec]: a recursive specification of the Renamer's live run
      (every entry under its new name, contents renamed, entries sorted)
      and the proof that [rename.go] implements it when no two siblings
      collide.
    - [RenamerLoop]: the Renamer's application loop as a transition system
      [loop_step] on the tree, the pairs still to visit and the printed
      lines; termination, determinism, agreement with [apply_renames].
    - [ZipFormat]: the type class [ZipFormat] stating what the Archiver needs
      from [archive/zip], [isValidZip]'s test on the bytes, and a concrete
      instance [Blob] for the examples.
    - [Archiver]: [compress.go]'s helpers, [zipFolder], the task list, the
      per-task loop and [main], over any [ZipFormat].
    - [ArchiverRun]: what one task and the whole loop do to the entries of the
      root, and the theorems about whole runs.
    - [ArchiverSafety]: what a run guarantees whatever fails in it.
    - [ArchiverLog]: the progress lines [[i/n] Checking: x] of a run.
    - [ArchiverStuck]: folders that no run archives, over any number of
      runs: one whose [<folder>.zip] is a valid archive, and one whose
      [<folder>.zip] is a directory.
    - [Cli]: both [main] functions from the argument list on: flag parsing,
      the missing-folder and flag-error paths with their exit status, the
      trimming of one trailing separator, and the resolution of the root
      string ([os.Stat] and [root + "_original"]) to paths.

    The Renamer uses [Sanitize] and [FileSystem]; the Archiver uses [Glob],
    [FileOps] and the [ZipFormat] interface, and its theorems hold for every
    instance of that class. [Cli] composes [GoFlag] with both tools.

    ** What the theorems show

    - Renamer ([Renamer], [RenamerCollision], [Sanitize], C1-C12): the
      collision loop always ends within its fuel and plans the first path of
      its sequence that is free when the scan runs (C7); every planned target
      is a fresh sibling made of allowed runes; valid names are never touched; renames run bottom-up; dry-run
      mode changes nothing. Sanitizing works rune by rune, yields allowed
      runes only, and is idempotent. A counterexample shows that two siblings
      that sanitize alike get the same target and one of them is lost
      ([live_run_loses_sibling]). When no two entries of a directory get
      the same new name, the live run plans exactly the specified pairs,
      every [os.Rename] succeeds, and the tree becomes the specified
      renamed tree; a second run then does nothing (C36-C37). The loop
      serves every pair: every execution ends, and at its end every pair
      has been printed, whatever failed on the way (C38); without
      collisions the dry run prints exactly the live run's lines (C39).
    - File system (C14-C15): [os.Rename] keeps the tree well formed;
      [filepath.WalkDir] visits a path before its descendants.
    - Archiver (C16-C23): a run that logs no failure moves every folder it
      archives, unchanged, to [<root>_original] and leaves a valid
      [<folder>.zip] in its place; a second run leaves the tree as the first
      left it when the first printed no zip error; hidden and empty folders are never
      touched; [zipFolder] writes exactly the matching files under
      [<folder>/<path>]; [isEmptyFolder] and the task list meet their
      declarative descriptions. A folder whose zip is valid is skipped by
      every later run and never changes (C20); this includes the partial
      archive that a failed [zipFolder] leaves, so that folder is never
      archived in full. The specification's scenario is checked as a
      concrete run (C23). The progress counters of a
      run are [1/n], ..., [n/n] in order (C33). Whatever fails during a
      run, a folder leaves the root only when a valid [<folder>.zip]
      stands in its place (C40). A folder whose [<folder>.zip] is a
      directory without a matching file is never archived: [fileExists] is
      false for a directory, so no run validates or removes it, and every
      run prints "Error zipping" for the folder and leaves it as it is
      (C13).
    - Glob (C24-C26): [filepath.Match] always returns; on a name without a
      separator it answers as the documented glob semantics (malformed
      patterns included), so the Archiver's [--include] test is glob matching
      of lower-cased base names. [GlobSpec.Match_glob_sep] shows that Go's
      greedy chunk matching misses matches on names with a separator that a
      class can match; the Archiver never matches such names.
    - Command lines (C27-C32): on a root written as an absolute path, with or
      without a trailing separator, both [main] functions run the models
      above, so their theorems hold of the tools as invoked; the Archiver
      honours its flags only before the folder and ignores them after it,
      although its usage text puts them there; the Renamer changes the tree
      only when [-dry=false] (or another false value) is given; a root with
      two trailing separators puts the Archiver's backup folder inside the
      root, and the next run then archives the backup folder itself.
    - Flags (C34-C35): after [flag.Parse] every declared flag holds a value
      of its declared kind; arguments [--name=value] parse back to the
      assignments they write, and each flag reads the last one given.

    ** What is modelled and how

    A name is the list of its Unicode code points ([rune]); Go's regular
    expressions and [strings] functions act rune by rune on valid UTF-8, so
    per-rune replacement here is per-character replacement there. A path is
    the list of its components below the file-system root; [filepath.Join]
    is [p </> x] and [filepath.Dir]/[filepath.Base] take the list apart. This
    is exact for the paths the tools build, whose components never contain a
    separator and are never [.] or [..].

    The file system is a tree whose directories hold their entries as a list
    sorted by name ([os.ReadDir] returns them sorted); each node carries one
    access bit, so the read errors that the walks report and the files that
    cannot be opened are modelled. File contents are a type parameter: the
    Renamer never reads them, and the Archiver needs only the [ZipFormat]
    operations on them. Symbolic links, write and search permissions, and
    concurrent modification of the tree by other processes are not modelled.
    Flag parsing follows Go's [flag] package; the usage texts and the
    messages are modelled as one log entry each, not as their characters. A
    root string is resolved against the working directory with [..] taken
    lexically, which differs from the kernel only through symbolic links or
    a [..] after a component that is not a directory.

    ** Not modelled

    - Unicode case mapping: [strings.ToLower] is modelled on ASCII letters
      only; Go's tables for the other scripts are data, not logic of this
      repository, and the [--include] patterns of the specification are
      ASCII.
    - The zip byte format (local headers, DEFLATE, CRC-32) of
      [archive/zip]: the class [ZipFormat] states the two facts the
      Archiver relies on, and every theorem holds for each instance.
    - Symbolic links, write and search permissions, other processes
      changing the tree during a run, and the exact characters printed
      (each message is one log entry).
    - The collision case of the Renamer beyond the counterexample
      [live_run_loses_sibling]: which sibling survives depends on the
      order of [os.Rename] calls on files, which the counterexample shows.

    Every line of [src/] other than the imports is mapped to a definition.

    ** Fuel

    Loops whose bound is not structural take fuel. The Renamer's collision
    loop gets one more iteration than there are entries in the whole tree;
    [Renamer.scan_total] proves that this fuel is never exhausted, since each
    iteration tests a different existing path. The loops of [filepath.Match]
    get one more iteration than the pattern has runes; each iteration
    consumes at least one rune, and [Glob.Match_total] proves that they
    never run out. All other functions are structurally recursive.

    ** Plan of the development (later parts extend it in this order)

    1. Sanitize and Renamer: done.
    2. Archiver over an abstract zip format, with the effects of a whole run
       and idempotence: done.
    3. Glob: [filepath.Match], its termination and its equivalence with the
       documented glob semantics: done.
    4. Command lines, flags and the root string: done.
    5. A refinement theorem for the Renamer's live run against a recursive
       specification of the renamed tree (when no two siblings collide):
       done.
    6. The Renamer's loop as a transition system with its liveness, the dry
       run as a preview, and the Archiver's safety under failures: done.
       What remains is listed under "Not modelled". *)

From Stdlib Require Import Ascii String.
From stdpp Require Import base list decidable.

(** ** Runes, names and paths *)

Definition rune := N.
Definition name := list rune.
Definition path := list name.

(** Code points of the characters the sources mention. *)
Definition r_slash : rune := 47%N.
Definition r_dot : rune := 46%N.
Definition r_plus : rune := 43%N.
Definition r_minus : rune := 45%N.
Definition r_underscore : rune := 95%N.
Definition r_zero : rune := 48%N.

(** A name written as an ASCII string literal, for concrete inputs. *)
Definition nm (s : string) : name := map N_of_ascii (list_ascii_of_string s).

Declare Scope mtbls_scope.
Delimit Scope mtbls_scope with mtbls.
Open Scope mtbls_scope.

Notation "⟨ s ⟩" := (nm s%string) (format "⟨ s ⟩") : mtbls_scope.
(** [filepath.Join(dir, x)] on a path given by its components. *)
Notation "p </> x" := (p ++ @cons name x nil) (at level 40, left associativity) : mtbls_scope.

(** ** Lexicographic order on names

    [os.ReadDir] sorts entries by [strings.Compare] on their names, a byte-wise
    comparison; on UTF-8 it coincides with the comparison of code points. *)

Fixpoint name_compare (a b : name) : comparison :=
  match a, b with
  | [], [] => Eq
  | [], _ :: _ => Lt
  | _ :: _, [] => Gt
  | x :: a', y :: b' =>
      match N.compare x y with
      | Eq => name_compare a' b'
      | c => c
      end
  end.

Definition name_ltb (a b : name) : bool :=
  match name_compare a b with Lt => true | _ => false end.

(** ** Tactics and hints shared by the development *)

Create HintDb mtbls.
Create Rewrite HintDb mtbls_rw.

(** Turn boolean tests of the models into propositions in hypotheses. *)
Ltac bool_to_prop :=
  repeat match goal with
  | H : (_ && _)%bool = true |- _ => apply andb_prop in H as [? ?]
  | H : (_ || _)%bool = false |- _ => apply orb_false_elim in H as [? ?]
  | H : negb _ = true |- _ => apply negb_true_iff in H
  | H : negb _ = false |- _ => apply negb_false_iff in H
  | H : bool_decide _ = true |- _ => apply bool_decide_eq_true_1 in H
  | H : bool_decide _ = false |- _ => apply bool_decide_eq_false_1 in H
  | H : N.eqb _ _ = true |- _ => apply N.eqb_eq in H
  | H : N.eqb _ _ = false |- _ => apply N.eqb_neq in H
  end.

(** Case analysis on the first [if]/[match] scrutinee of the goal, keeping the
    equation. *)
Ltac case_goal :=
  match goal with
  | |- context [if ?b then _ else _] => destruct b eqn:?
  | |- context [match ?x with _ => _ end] => destruct x eqn:?
  end.

(** ** Generic lemmas *)

Lemma name_compare_refl a : name_compare a a = Eq.
Proof. induction a as [|x a IH]; simpl; [done|]. by rewrite N.compare_refl. Qed.

Lemma name_compare_eq a b : name_compare a b = Eq -> a = b.
Proof.
  revert b; induction a as [|x a IH]; intros [|y b]; simpl; try done.
  destruct (N.compare_spec x y); intros Hc; try done. subst. f_equal. by apply IH.
Qed.


Lemma name_compare_antisym a b : name_compare b a = CompOpp (name_compare a b).
Proof.
  revert b; induction a as [|x a IH]; intros [|y b]; simpl; try done.
  rewrite (N.compare_antisym x y). destruct (N.compare x y); simpl; auto.
Qed.

Lemma name_compare_trans_lt a b c :
  name_compare a b = Lt -> name_compare b c = Lt -> name_compare a c = Lt.
Proof.
  revert b c; induction a as [|x a IH]; intros [|y b] [|z c]; simpl; try done.
  destruct (N.compare_spec x y), (N.compare_spec y z); subst; try done;
    intros H1 H2.
  1: (rewrite N.compare_refl; eauto).
  all: rewrite (proj2 (N.compare_lt_iff _ _)); [done|lia].
Qed.

Lemma name_ltb_irrefl a : name_ltb a a = false.
Proof. unfold name_ltb. by rewrite name_compare_refl. Qed.

Lemma name_ltb_trans a b c :
  name_ltb a b = true -> name_ltb b c = true -> name_ltb a c = true.
Proof.
  unfold name_ltb. do 2 case_match; try done.
  by rewrite (name_compare_trans_lt a b c).
Qed.

Lemma name_ltb_neq a b : name_ltb a b = true -> a <> b.
Proof. intros Hlt Heq. subst. by rewrite name_ltb_irrefl in Hlt. Qed.

Lemma name_ltb_total a b : a <> b -> name_ltb a b = false -> name_ltb b a = true.
Proof.
  unfold name_ltb. rewrite (name_compare_antisym a b).
  destruct (name_compare a b) eqn:E; simpl; try done.
  intros Hne. by apply name_compare_eq in E.
Qed.

#[export] Hint Resolve name_ltb_irrefl name_ltb_trans name_ltb_neq : mtbls.

(** A list of distinct elements all found in [l'] is no longer than [l']. *)
Lemma NoDup_incl_le {A} (l l' : list A) :
  NoDup l -> (forall x, In x l -> In x l') -> length l <= length l'.
Proof.
  intros Hnd Hincl. apply NoDup_incl_length; [|done].
  by apply NoDup_ListNoDup.
Qed.

Lemma last_app_single {A} (l : list A) (x d : A) : List.last (l ++ [x]) d = x.
Proof. by rewrite last_last. Qed.

Lemma removelast_app_single {A} (l : list A) (x : A) : removelast (l ++ [x]) = l.
Proof. by rewrite removelast_last. Qed.

#[export] Hint Rewrite @last_app_single @removelast_app_single : mtbls_rw.

(** ** Ordered pairs of a list

    [ForallOrdPairs R l]: [R a b] for every [a] that comes before [b] in [l]. *)

Lemma ForallOrdPairs_app {A} (R : A -> A -> Prop) l1 l2 :
  ForallOrdPairs R l1 -> ForallOrdPairs R l2 ->
  (forall a b, In a l1 -> In b l2 -> R a b) -> ForallOrdPairs R (l1 ++ l2).
Proof.
  induction l1 as [|a l1 IH]; simpl; intros H1 H2 Hx; [done|].
  inversion H1; subst. constructor.
  - apply Forall_app. split; [done|]. apply Forall_forall. auto.
  - apply IH; auto.
Qed.

Lemma ForallOrdPairs_snoc {A} (R : A -> A -> Prop) l a :
  ForallOrdPairs R (l ++ [a]) <-> ForallOrdPairs R l /\ Forall (fun b => R b a) l.
Proof.
  induction l as [|b l IH]; simpl.
  - split; [intros _; split; constructor|intros _; repeat constructor].
  - split.
    + intros H. inversion H as [|? ? Hb Hl]; subst. apply IH in Hl as [Hl Hf].
      apply Forall_app in Hb as [Hb Ha]. inversion Ha; subst.
      split; constructor; done.
    + intros [H Hf]. inversion H; subst. inversion Hf; subst.
      constructor; [apply Forall_app; split; [done|by constructor]|by apply IH].
Qed.

(** Reversing a list flips the relation. *)
Lemma ForallOrdPairs_rev {A} (R : A -> A -> Prop) l :
  ForallOrdPairs R l -> ForallOrdPairs (fun a b => R b a) (rev l).
Proof.
  induction l as [|a l IH]; simpl; intros H; [constructor|].
  inversion H; subst. apply ForallOrdPairs_snoc. split; [auto|].
  apply Forall_forall. intros b Hb. apply in_rev in Hb.
  by eapply Forall_forall in Hb; [|eassumption].
Qed.

Lemma ForallOrdPairs_impl {A} (R R' : A -> A -> Prop) l :
  (forall a b, R a b -> R' a b) -> ForallOrdPairs R l -> ForallOrdPairs R' l.
Proof.
  intros HR. induction 1 as [|a l Ha Hl IH]; constructor; [|exact IH].
  rewrite Forall_forall in *. auto.
Qed.
