(* ===== verification/GoStrings.v ===== *)
(** * Go library string and path helpers

    The functions of Go's [strings], [path/filepath] and [fmt] packages that
    [src/compress.go] and [src/rename.go] call, on names given as lists of
    runes ([Prelude.name]): [strings.HasPrefix], [strings.HasSuffix],
    [strings.TrimSuffix], [strings.ToLower], [filepath.Ext] and the decimal
    rendering of [fmt.Sprintf]'s [%d] verb. The lemmas state what the sources
    rely on: [TrimSuffix] undoes an appended suffix, [Ext] returns a suffix
    that starts with the last dot, and the decimal rendering is injective. *)

From Stdlib Require Import DecimalNat.
From stdpp Require Import base list sets.
From S2P Require Import Prelude.

(** ** Definitions *)

(** [strings.HasPrefix(s, prefix)]. *)
Fixpoint HasPrefix (s pre : name) {struct pre} : bool :=
  match pre, s with
  | [], _ => true
  | c :: pre', d :: s' => N.eqb c d && HasPrefix s' pre'
  | _ :: _, [] => false
  end.

(** [strings.HasSuffix(s, suffix)]. *)
Definition HasSuffix (s suf : name) : bool := HasPrefix (rev s) (rev suf).

(** [strings.TrimSuffix(s, suffix)]: [s] without [suffix] when it ends with
    it, [s] unchanged otherwise. *)
Definition TrimSuffix (s suf : name) : name :=
  if HasSuffix s suf then take (length s - length suf) s else s.

(** [os.IsPathSeparator] on Unix. *)
Definition is_sep (c : rune) : bool := N.eqb c r_slash.

(** [filepath.Ext(path)]: the loop runs from the last byte backwards while no
    separator is met and returns [path[i:]] at the first dot; [acc] holds the
    runes already passed, in their original order. *)
Fixpoint ext_scan (r : list rune) (acc : name) : name :=
  match r with
  | [] => []
  | c :: r' =>
      if is_sep c then []
      else if N.eqb c r_dot then c :: acc
      else ext_scan r' (c :: acc)
  end.

Definition Ext (p : name) : name := ext_scan (rev p) [].

(** [unicode.ToLower] on the ASCII range; [strings.ToLower] maps it over the
    runes. Case mappings outside ASCII are not modelled (identity there). *)
Definition to_lower_rune (c : rune) : rune :=
  if (65 <=? c)%N && (c <=? 90)%N then (c + 32)%N else c.

Definition ToLower (s : name) : name := map to_lower_rune s.

(** The digits of a decimal numeral, as runes ['0'..'9']. *)
Fixpoint uint_runes (d : Decimal.uint) : name :=
  match d with
  | Decimal.Nil => []
  | Decimal.D0 d => 48%N :: uint_runes d
  | Decimal.D1 d => 49%N :: uint_runes d
  | Decimal.D2 d => 50%N :: uint_runes d
  | Decimal.D3 d => 51%N :: uint_runes d
  | Decimal.D4 d => 52%N :: uint_runes d
  | Decimal.D5 d => 53%N :: uint_runes d
  | Decimal.D6 d => 54%N :: uint_runes d
  | Decimal.D7 d => 55%N :: uint_runes d
  | Decimal.D8 d => 56%N :: uint_runes d
  | Decimal.D9 d => 57%N :: uint_runes d
  end.

(** [fmt.Sprintf("%d", n)] for a non-negative [int]. *)
Definition itoa (n : nat) : name := uint_runes (Nat.to_uint n).

(** ** Lemmas *)

Lemma HasPrefix_app s t : HasPrefix (s ++ t) s = true.
Proof. induction s as [|c s IH]; simpl; [done|]. by rewrite N.eqb_refl, IH. Qed.

Lemma HasPrefix_spec s pre : HasPrefix s pre = true <-> exists t, s = pre ++ t.
Proof.
  split.
  - revert s; induction pre as [|c pre IH]; intros s H; [by exists s|].
    destruct s as [|d s]; simpl in H; [done|].
    apply andb_prop in H as [Hc Hs]. apply N.eqb_eq in Hc. subst.
    destruct (IH s Hs) as [t ->]. by exists t.
  - intros [t ->]. apply HasPrefix_app.
Qed.

Lemma HasSuffix_spec s suf : HasSuffix s suf = true <-> exists t, s = t ++ suf.
Proof.
  unfold HasSuffix. rewrite HasPrefix_spec. split.
  - intros [t Ht]. exists (rev t). apply (f_equal (fun l => rev l)) in Ht; simpl in Ht.
    by rewrite rev_involutive, rev_app_distr, rev_involutive in Ht.
  - intros [t ->]. exists (rev t). by rewrite rev_app_distr.
Qed.

Lemma TrimSuffix_app t suf : TrimSuffix (t ++ suf) suf = t.
Proof.
  unfold TrimSuffix.
  rewrite (proj2 (HasSuffix_spec _ _)) by eauto.
  rewrite length_app, Nat.add_sub, take_app_length. done.
Qed.

Lemma TrimSuffix_not_suffix s suf : HasSuffix s suf = false -> TrimSuffix s suf = s.
Proof. unfold TrimSuffix. by intros ->. Qed.

(** What [ext_scan] returns is a suffix of the scanned runes followed by
    [acc]. *)
Lemma ext_scan_suffix r acc : exists t, rev r ++ acc = t ++ ext_scan r acc.
Proof.
  revert acc; induction r as [|c r IH]; intros acc; simpl.
  - exists acc. by rewrite app_nil_r.
  - destruct (is_sep c); [exists (rev r ++ [c] ++ acc); by rewrite app_nil_r, <- app_assoc|].
    destruct (N.eqb c r_dot); [exists (rev r); by rewrite <- app_assoc|].
    destruct (IH (c :: acc)) as [t Ht]. exists t. by rewrite <- Ht, <- app_assoc.
Qed.

Lemma Ext_suffix n : exists stem, n = stem ++ Ext n.
Proof.
  unfold Ext. destruct (ext_scan_suffix (rev n) []) as [t Ht].
  rewrite rev_involutive, app_nil_r in Ht. eauto.
Qed.

(** [strings.TrimSuffix(base, filepath.Ext(base))] is the stem: stem and
    extension put back together give the name. *)
Lemma TrimSuffix_Ext n : TrimSuffix n (Ext n) ++ Ext n = n.
Proof.
  destruct (Ext_suffix n) as [stem Hs]. remember (Ext n) as e.
  rewrite Hs at 1. rewrite TrimSuffix_app. by symmetry.
Qed.

(** Every rune of [ext_scan]'s result comes from the scanned runes or from
    [acc]. *)
Lemma ext_scan_elem r acc c : c ∈ ext_scan r acc -> c ∈ r \/ c ∈ acc.
Proof.
  revert acc; induction r as [|d r IH]; intros acc; simpl; [set_solver|].
  destruct (is_sep d); [set_solver|].
  destruct (N.eqb d r_dot); [set_solver|].
  intros H. destruct (IH _ H); set_solver.
Qed.

Lemma Ext_elem n c : c ∈ Ext n -> c ∈ n.
Proof.
  unfold Ext. intros H. destruct (ext_scan_elem _ _ _ H) as [Hc|Hc]; [|set_solver].
  apply list_elem_of_In, in_rev. by apply list_elem_of_In.
Qed.

Lemma uint_runes_inj d d' : uint_runes d = uint_runes d' -> d = d'.
Proof.
  revert d'; induction d; intros []; simpl; intros H;
    try discriminate; try done; injection H as H; f_equal; auto.
Qed.

Lemma itoa_inj n m : itoa n = itoa m -> n = m.
Proof. unfold itoa. intros H. by apply Unsigned.to_uint_inj, uint_runes_inj. Qed.

(** Decimal digits are runes ['0'..'9']. *)
Lemma uint_runes_digits d c : c ∈ uint_runes d -> (48 <= c <= 57)%N.
Proof.
  induction d; simpl; intros H; try (by apply elem_of_nil in H);
    apply elem_of_cons in H as [->|H]; auto; lia.
Qed.

Lemma itoa_digits n c : c ∈ itoa n -> (48 <= c <= 57)%N.
Proof. apply uint_runes_digits. Qed.

#[export] Hint Resolve HasPrefix_app TrimSuffix_app : mtbls.
#[export] Hint Rewrite TrimSuffix_app TrimSuffix_Ext : mtbls_rw.
