(* ===== verification/GoFlag.v ===== *)
(** * Go's [flag] package, as the two tools use it

    Both tools declare their flags on [flag.CommandLine] ([src/compress.go]
    lines 17-20, [src/rename.go] line 19) and call [flag.Parse()]
    ([compress.go] line 31, [rename.go] line 28), which reads
    [os.Args[1:]] with [FlagSet.parseOne] until it fails or stops:

    - an argument that is shorter than two runes or does not start with [-]
      stops the parsing, and it and everything after it are the positional
      arguments ([flag.Arg], [flag.NArg]); [--] stops it and is dropped;
    - [-name] and [--name] name a flag, optionally with [=value]; a name that
      is empty or starts with [-] or [=] is a syntax error;
    - an undefined flag is an error, except [-help] and [-h], which ask for
      the usage text;
    - a boolean flag takes its value only after [=] ([strconv.ParseBool]),
      and is set to true without one; any other flag takes the text after
      [=] or else the next argument.

    [flag.CommandLine] exits on error: with status 0 after the usage text for
    [-help], with status 2 after the error and the usage text otherwise. The
    model returns the outcome of the parsing; the tools' [main] functions in
    [Cli] turn it into their exit status. *)

From stdpp Require Import base list strings.
From S2P Require Import Prelude GoStrings.

Definition r_equals : rune := 61%N.

Inductive flag_value :=
| FBool (b : bool)
| FString (s : name).

(** A flag as [flag.Bool] or [flag.String] declares it: name and default. *)
Record flag_def := MkFlag { flag_name : name; flag_default : flag_value }.

Inductive flag_error :=
| EBadSyntax (arg : name)               (* "bad flag syntax: %s" *)
| ENotDefined (nm : name)               (* "flag provided but not defined: -%s" *)
| EBadBool (nm v : name)                (* "invalid boolean value %q for -%s" *)
| ENeedsArg (nm : name).                (* "flag needs an argument: -%s" *)

(** Outcome of [flag.Parse]: the flags set, in reverse order of their
    arguments, and the positional arguments; the usage request; an error. *)
Inductive parse_res :=
| POk (set : list (name * flag_value)) (args : list name)
| PHelp
| PErr (e : flag_error).

(** [strconv.ParseBool]. *)
Definition ParseBool (v : name) : option bool :=
  if bool_decide (v ∈ [⟨"1"⟩; ⟨"t"⟩; ⟨"T"⟩; ⟨"TRUE"⟩; ⟨"true"⟩; ⟨"True"⟩]) then Some true
  else if bool_decide (v ∈ [⟨"0"⟩; ⟨"f"⟩; ⟨"F"⟩; ⟨"FALSE"⟩; ⟨"false"⟩; ⟨"False"⟩]) then Some false
  else None.

(** The loop [for i := 1; i < len(name); i++] looking for [=]. *)
Fixpoint split_value (s : name) : name * option name :=
  match s with
  | [] => ([], None)
  | c :: s' =>
      if N.eqb c r_equals then ([], Some s')
      else let '(nm, v) := split_value s' in (c :: nm, v)
  end.

Definition find_flag (defs : list flag_def) (nm : name) : option flag_def :=
  List.find (fun d => bool_decide (flag_name d = nm)) defs.

(** What [parseOne] does with the argument [s] at the head of the list. *)
Inductive one_res :=
| OStop                                 (* not a flag: parsing ends here *)
| OTerm                                 (* [--]: parsing ends after it *)
| OHelp
| OErr (e : flag_error)
| OSet (nm : name) (v : flag_value)      (* a flag and its value *)
| ONeedsValue (nm : name).              (* a non-boolean flag without [=] *)

(** [parseOne] after [numMinuses]: the flag named [name] in [s]. *)
Definition parse_named (defs : list flag_def) (s name : name) : one_res :=
  match name with
  | [] => OErr (EBadSyntax s)
  | c :: _ =>
      if N.eqb c r_minus || N.eqb c r_equals then OErr (EBadSyntax s) else
      let '(nm, ov) := split_value name in
      match find_flag defs nm with
      | None =>
          if bool_decide (nm = ⟨"help"⟩) || bool_decide (nm = ⟨"h"⟩) then OHelp
          else OErr (ENotDefined nm)
      | Some (MkFlag _ (FBool _)) =>
          match ov with
          | None => OSet nm (FBool true)
          | Some v => match ParseBool v with Some b => OSet nm (FBool b) | None => OErr (EBadBool nm v) end
          end
      | Some (MkFlag _ (FString _)) =>
          match ov with
          | Some v => OSet nm (FString v)
          | None => ONeedsValue nm
          end
      end
  end.

Definition parse_one (defs : list flag_def) (s : name) : one_res :=
  match s with
  | c0 :: c1 :: s2 =>
      if negb (N.eqb c0 r_minus) then OStop
      else if N.eqb c1 r_minus then
        match s2 with [] => OTerm | _ :: _ => parse_named defs s s2 end
      else parse_named defs s (c1 :: s2)
  | _ => OStop
  end.

(** [FlagSet.Parse]: [parseOne] until it stops or fails; a non-boolean flag
    without [=] takes the next argument as its value. *)
Fixpoint flag_parse (defs : list flag_def) (set : list (name * flag_value)) (args : list name)
    : parse_res :=
  match args with
  | [] => POk set []
  | s :: rest =>
      match parse_one defs s with
      | OStop => POk set args
      | OTerm => POk set rest
      | OHelp => PHelp
      | OErr e => PErr e
      | OSet nm v => flag_parse defs ((nm, v) :: set) rest
      | ONeedsValue nm =>
          match rest with
          | v :: rest' => flag_parse defs ((nm, FString v) :: set) rest'
          | [] => PErr (ENeedsArg nm)
          end
      end
  end.

(** The value a flag has after parsing: the last one set, or its default. *)
Definition flag_get (defs : list flag_def) (set : list (name * flag_value)) (nm : name) : option flag_value :=
  match List.find (fun e => bool_decide (e.1 = nm)) set with
  | Some e => Some e.2
  | None => option_map flag_default (find_flag defs nm)
  end.

Definition flag_bool (defs : list flag_def) (set : list (name * flag_value)) (nm : name) : bool :=
  match flag_get defs set nm with Some (FBool b) => b | _ => false end.

Definition flag_string (defs : list flag_def) (set : list (name * flag_value)) (nm : name) : name :=
  match flag_get defs set nm with Some (FString s) => s | _ => [] end.

(** ** Assignments written as arguments *)

(** The kind of a flag value: boolean or not. *)
Definition kind_bool (v : flag_value) : bool := match v with FBool _ => true | FString _ => false end.

(** The argument [--name=value] that sets a flag to a value. *)
Definition flag_arg (e : name * flag_value) : name :=
  ⟨"--"⟩ ++ e.1 ++ r_equals :: match e.2 with FBool b => if b then ⟨"true"⟩ else ⟨"false"⟩ | FString s => s end.

(** A name [parseOne] reads back whole: not empty, not starting with [-],
    without [=]. *)
Definition flag_name_ok (nm : name) : bool :=
  match nm with [] => false | c :: _ => negb (N.eqb c r_minus) && forallb (fun c => negb (N.eqb c r_equals)) nm end.

(** ** Where the parsing stops *)

(** An argument that is not a flag: shorter than two runes, or not starting
    with [-]. *)
Definition not_flag (s : name) : bool :=
  match s with c0 :: _ :: _ => negb (N.eqb c0 r_minus) | _ => true end.

Lemma parse_one_not_flag defs s : not_flag s = true -> parse_one defs s = OStop.
Proof. destruct s as [|c0 [|c1 s2]]; simpl; [done|done|]. by intros ->. Qed.

(** The first positional argument ends the flags: it and everything after it,
    flags included, are positional. *)
Lemma flag_parse_stop defs set a rest :
  not_flag a = true -> flag_parse defs set (a :: rest) = POk set (a :: rest).
Proof. intros Ha. simpl. by rewrite parse_one_not_flag. Qed.

(** ** Flags set by the arguments *)

Lemma split_value_Some s nm v : split_value s = (nm, Some v) -> s = nm ++ r_equals :: v.
Proof.
  revert nm; induction s as [|c s IH]; intros nm; simpl; [done|].
  destruct (N.eqb c r_equals) eqn:Ec; [apply N.eqb_eq in Ec as ->; by intros [= <- <-]|].
  destruct (split_value s) as [nm' ov] eqn:Es. intros [= <- ->]. by rewrite (IH nm').
Qed.

(** Every flag [flag.Parse] sets comes from an argument that sets it, or
    from a non-boolean flag and the argument after it. *)
Lemma flag_parse_entries defs set0 args set pos e :
  flag_parse defs set0 args = POk set pos -> In e set ->
  In e set0 \/ exists arg, In arg args /\
    (parse_one defs arg = OSet e.1 e.2 \/ exists nm v, parse_one defs arg = ONeedsValue nm /\ e = (nm, FString v)).
Proof.
  remember (length args) as n eqn:Hn. revert args set0 Hn.
  induction n as [n IH] using lt_wf_ind. intros args set0 Hn.
  destruct args as [|s rest]; simpl; [intros [= <- _]; by left|]. simpl in Hn.
  destruct (parse_one defs s) as [| | |ex|nm v|nm] eqn:Eo; try (by intros [= <- _]; left); try done.
  - intros Hp Hin. destruct (IH (length rest) ltac:(lia) rest _ eq_refl Hp Hin) as [[<-|Hin0]|(arg & Harg & Ha)].
    + right. exists s. split; [by left|]. by left.
    + by left.
    + right. exists arg. split; [by right|done].
  - destruct rest as [|v rest']; [done|]. simpl in Hn. intros Hp Hin.
    destruct (IH (length rest') ltac:(lia) rest' _ eq_refl Hp Hin) as [[<-|Hin0]|(arg & Harg & Ha)].
    + right. exists s. split; [by left|]. right. by exists nm, v.
    + by left.
    + right. exists arg. split; [by right; right|done].
Qed.

(** ** The kinds of the values set *)

(** What [parseOne] promises about a flag it sets: the flag is declared,
    and the value has the kind of the declaration. *)
Definition one_typed (defs : list flag_def) (o : one_res) : Prop :=
  match o with
  | OSet nm v => exists d, find_flag defs nm = Some d /\ kind_bool (flag_default d) = kind_bool v
  | ONeedsValue nm => exists d, find_flag defs nm = Some d /\ kind_bool (flag_default d) = false
  | _ => True
  end.

Lemma parse_named_typed defs s name : one_typed defs (parse_named defs s name).
Proof.
  unfold parse_named. destruct name as [|c q]; [done|].
  destruct (N.eqb c r_minus || N.eqb c r_equals); [done|].
  destruct (split_value (c :: q)) as [nm ov].
  destruct (find_flag defs nm) as [[nm' [b|s0]]|] eqn:Ef.
  - destruct ov as [v|]; [destruct (ParseBool v)|]; simpl; eauto.
  - destruct ov; simpl; eauto.
  - by destruct (bool_decide (nm = ⟨"help"⟩) || bool_decide (nm = ⟨"h"⟩)).
Qed.

Lemma parse_one_typed defs s : one_typed defs (parse_one defs s).
Proof.
  destruct s as [|c0 [|c1 s2]]; try done. unfold parse_one.
  destruct (negb (N.eqb c0 r_minus)); [done|].
  destruct (N.eqb c1 r_minus); [destruct s2; [done|]|]; apply parse_named_typed.
Qed.

(** ** Reading back [--name=value] *)

Lemma split_value_name nm v :
  forallb (fun c => negb (N.eqb c r_equals)) nm = true -> split_value (nm ++ r_equals :: v) = (nm, Some v).
Proof.
  induction nm as [|c nm IH]; simpl; [done|].
  intros [Hc Hnm]%andb_prop. apply negb_true_iff in Hc. by rewrite Hc, IH.
Qed.

Lemma parse_one_flag_arg defs e d :
  flag_name_ok e.1 = true -> find_flag defs e.1 = Some d -> kind_bool (flag_default d) = kind_bool e.2 ->
  parse_one defs (flag_arg e) = OSet e.1 e.2.
Proof.
  destruct e as [[|c q] v]; [done|]. cbn [fst snd flag_name_ok]. intros [Hc Hq]%andb_prop Hd Hk.
  change (parse_one defs (flag_arg ((c :: q), v)))
    with (parse_named defs (flag_arg ((c :: q), v)) ((c :: q) ++ r_equals :: match v with
          FBool b => if b then ⟨"true"⟩ else ⟨"false"⟩ | FString s => s end)).
  unfold parse_named. rewrite (split_value_name (c :: q)) by done. cbn [app].
  apply negb_true_iff in Hc. cbn [forallb] in Hq. apply andb_prop in Hq as [Hce _].
  apply negb_true_iff in Hce. rewrite Hc, Hce. cbn [orb].
  rewrite Hd. destruct d as [nm' [b|s0]], v as [[]|s']; done.
Qed.

(** The first [find] in the reversed list is the last match. *)
Lemma find_rev_last {A} (f : A -> bool) (l : list A) : List.find f (rev l) = last (List.filter f l).
Proof.
  induction l as [|x l IH] using rev_ind; [done|].
  rewrite rev_app_distr, List.filter_app. cbn [rev app List.find List.filter].
  destruct (f x); [by rewrite last_snoc|]. by rewrite app_nil_r.
Qed.

(** Assignments that name declared flags by names [parseOne] reads back,
    each with a value of the flag's kind. *)
Definition assignments_ok (defs : list flag_def) (asg : list (name * flag_value)) : Prop :=
  Forall (fun e => flag_name_ok e.1 = true /\
                   exists d, find_flag defs e.1 = Some d /\ kind_bool (flag_default d) = kind_bool e.2) asg.

Lemma flag_parse_args defs set0 asg a rest :
  assignments_ok defs asg -> not_flag a = true ->
  flag_parse defs set0 (map flag_arg asg ++ a :: rest) = POk (rev asg ++ set0) (a :: rest).
Proof.
  intros Hasg Ha. revert set0. induction Hasg as [|e asg [Hn (d & Hd & Hk)] _ IH]; intros set0.
  - by apply flag_parse_stop.
  - cbn [map app flag_parse]. rewrite (parse_one_flag_arg defs e d Hn Hd Hk). cbn iota beta.
    rewrite IH. destruct e. cbn [rev]. by rewrite <- app_assoc.
Qed.


(** C35: arguments [--name=value] written for a list of assignments, then
    a positional argument, parse back to those assignments and those
    positional arguments; each flag then reads the last value assigned to
    it, or its default when none is. *)
Theorem flag_parse_roundtrip defs asg a rest :
  assignments_ok defs asg -> not_flag a = true ->
  flag_parse defs [] (map flag_arg asg ++ a :: rest) = POk (rev asg) (a :: rest) /\
  forall nm, flag_get defs (rev asg) nm =
    match last (List.filter (fun e => bool_decide (e.1 = nm)) asg) with
    | Some e => Some e.2
    | None => option_map flag_default (find_flag defs nm)
    end.
Proof.
  intros Hasg Ha. split; [by rewrite flag_parse_args, app_nil_r|].
  intros nm. unfold flag_get. by rewrite find_rev_last.
Qed.

(** ** Concrete command lines *)

Definition ex_defs : list flag_def :=
  [MkFlag ⟨"include"⟩ (FString ⟨"*"⟩); MkFlag ⟨"verbose"⟩ (FBool false)].


Definition ex_asg : list (name * flag_value) :=
  [(⟨"include"⟩, FString ⟨"*.raw"⟩); (⟨"verbose"⟩, FBool true); (⟨"include"⟩, FString ⟨"a=b"⟩)].

Lemma flag_parse_roundtrip_witness :
  assignments_ok ex_defs ex_asg /\ not_flag ⟨"dir"⟩ = true /\
  flag_parse ex_defs [] (map flag_arg ex_asg ++ [⟨"dir"⟩]) = POk (rev ex_asg) [⟨"dir"⟩] /\
  forall nm, flag_get ex_defs (rev ex_asg) nm =
    match last (List.filter (fun e => bool_decide (e.1 = nm)) ex_asg) with
    | Some e => Some e.2
    | None => option_map flag_default (find_flag ex_defs nm)
    end.
Proof.
  assert (Hok : assignments_ok ex_defs ex_asg)
    by (repeat constructor; eexists; split; reflexivity).
  split; [exact Hok|]. split; [reflexivity|].
  exact (flag_parse_roundtrip ex_defs ex_asg ⟨"dir"⟩ [] Hok eq_refl).
Defined.
