(* ===== verification/Glob.v ===== *)
(** * Glob matching: Go's [filepath.Match]

    The Archiver decides which files count with
    [filepath.Match(strings.ToLower(includePattern), strings.ToLower(filepath.Base(p)))]
    ([src/compress.go] lines 126 and 169). This file models Go's [Match] on
    Unix (path/filepath/match.go: [Match], [scanChunk], [matchChunk],
    [getEsc]) rune by rune: a pattern is split into chunks, each an optional
    run of stars followed by literal runes, [?] and character classes; a chunk
    after a star is retried at every later position of the name that does not
    cross a separator; a malformed pattern gives [ErrBadPattern].

    The loops of [matchChunk] and of the class parser consume the chunk but not
    structurally, so they take fuel; [Match] gives them one more iteration
    than the chunk has runes, and the termination theorems show that this
    fuel never runs out. Go's star loop advances byte by byte, so it may also
    retry a chunk in the middle of a multi-byte rune; the model retries at
    rune boundaries only, which differs only when [?] or a class would match a
    lone UTF-8 continuation byte. *)

From stdpp Require Import base list sets strings.
From S2P Require Import Prelude GoStrings.

Definition r_star : rune := 42%N.
Definition r_question : rune := 63%N.
Definition r_lbracket : rune := 91%N.
Definition r_backslash : rune := 92%N.
Definition r_rbracket : rune := 93%N.
Definition r_caret : rune := 94%N.

(** ** [scanChunk] *)

(** Leading stars: [for len(pattern) > 0 && pattern[0] == '*']. *)
Fixpoint skip_stars (p : name) (star : bool) : bool * name :=
  match p with
  | c :: p' => if N.eqb c r_star then skip_stars p' true else (star, p)
  | [] => (star, [])
  end.

(** The [Scan] loop: up to the first star outside brackets; a backslash
    takes the next rune with it. Returns the chunk and the rest. *)
Fixpoint scan_chunk_body (p : name) (inrange : bool) : name * name :=
  match p with
  | [] => ([], [])
  | c :: p' =>
      if N.eqb c r_backslash then
        match p' with
        | [] => ([c], [])
        | d :: p'' => let '(ch, r) := scan_chunk_body p'' inrange in (c :: d :: ch, r)
        end
      else if N.eqb c r_lbracket then
        let '(ch, r) := scan_chunk_body p' true in (c :: ch, r)
      else if N.eqb c r_rbracket then
        let '(ch, r) := scan_chunk_body p' false in (c :: ch, r)
      else if N.eqb c r_star && negb inrange then ([], p)
      else let '(ch, r) := scan_chunk_body p' inrange in (c :: ch, r)
  end.

(** [scanChunk(pattern)]: [(star, chunk, rest)]. *)
Definition scanChunk (pattern : name) : bool * name * name :=
  let '(star, p) := skip_stars pattern false in
  let '(chunk, rest) := scan_chunk_body p false in
  (star, chunk, rest).

(** ** [getEsc] *)

(** [getEsc(chunk)]: one possibly escaped rune of a class and what follows
    it; [None] is [ErrBadPattern] (nothing left, an unescaped [-] or [], or
    nothing after the rune). *)
Definition getEsc (chunk : name) : option (rune * name) :=
  match chunk with
  | [] => None
  | c :: rest =>
      if N.eqb c r_minus || N.eqb c r_rbracket then None
      else
        let chunk' := if N.eqb c r_backslash then rest else chunk in
        match chunk' with
        | [] => None
        | r :: nchunk => match nchunk with [] => None | _ :: _ => Some (r, nchunk) end
        end
  end.

(** ** [matchChunk] *)

(** Outcome of the range loop of a character class. *)
Inductive class_res :=
| CDone (matched : bool) (rest : name)
| CErr
| CFuel.

(** The range loop of the [case '['] branch: until a [] after at least one
    range, read [lo] and optionally [-hi], and note whether [r] is in one of
    the ranges. *)
Fixpoint class_loop (fuel : nat) (chunk : name) (r : rune) (matched : bool) (nrange : nat)
    : class_res :=
  match fuel with
  | O => CFuel
  | S f =>
      let step :=
        match getEsc chunk with
        | None => CErr
        | Some (lo, ch1) =>
            match ch1 with
            | c1 :: ch2 =>
                if N.eqb c1 r_minus then
                  match getEsc ch2 with
                  | None => CErr
                  | Some (hi, ch3) =>
                      class_loop f ch3 r (matched || ((lo <=? r) && (r <=? hi))%N) (S nrange)
                  end
                else class_loop f ch1 r (matched || ((lo <=? r) && (r <=? lo))%N) (S nrange)
            | [] => CErr
            end
        end in
      match chunk with
      | c :: ch' => if N.eqb c r_rbracket && bool_decide (0 < nrange) then CDone matched ch'
                    else step
      | [] => step
      end
  end.

(** Outcome of [matchChunk]: [(rest, true, nil)], [(_, false, nil)], or
    [ErrBadPattern]; [MFuel] when the fuel runs out. *)
Inductive chunk_res :=
| MOk (rest : name)
| MFail
| MErr
| MFuel.

(** The loop of [matchChunk(chunk, s)] with its [failed] flag: once the match
    has failed, the chunk is still parsed (to report a malformed pattern) but
    [s] is no longer read. *)
Fixpoint match_chunk_loop (fuel : nat) (chunk s : name) (failed : bool) : chunk_res :=
  match fuel with
  | O => MFuel
  | S f =>
      match chunk with
      | [] => if failed then MFail else MOk s
      | c :: ch' =>
          let failed := failed || match s with [] => true | _ :: _ => false end in
          if N.eqb c r_lbracket then
            let '(r, s') :=
              if failed then (0%N, s)
              else match s with d :: s'' => (d, s'') | [] => (0%N, []) end in
            let '(negated, ch2) :=
              match ch' with
              | d :: ch'' => if N.eqb d r_caret then (true, ch'') else (false, ch')
              | [] => (false, [])
              end in
            match class_loop (S (length ch2)) ch2 r false 0 with
            | CDone m ch3 => match_chunk_loop f ch3 s' (failed || Bool.eqb m negated)
            | CErr => MErr
            | CFuel => MFuel
            end
          else if N.eqb c r_question then
            if failed then match_chunk_loop f ch' s failed
            else match s with
                 | d :: s' => match_chunk_loop f ch' s' (is_sep d)
                 | [] => MFail
                 end
          else
            let lit := if N.eqb c r_backslash then ch' else chunk in
            match lit with
            | [] => MErr
            | d :: ch2 =>
                if failed then match_chunk_loop f ch2 s failed
                else match s with
                     | e :: s' => match_chunk_loop f ch2 s' (negb (N.eqb d e))
                     | [] => MFail
                     end
            end
      end
  end.

Definition matchChunk (chunk s : name) : chunk_res :=
  match_chunk_loop (S (length chunk)) chunk s false.

(** ** [Match] *)

(** Outcome of [filepath.Match]: [(matched, nil)] or [(false, ErrBadPattern)];
    [RFuel] when the fuel runs out. *)
Inductive match_res :=
| RMatch (b : bool)
| RErr
| RFuel.

(** The retry loop of a star: [for i := 0; i < len(name) && name[i] != '/'; i++],
    trying the chunk on [name[i+1:]]; [last] says that the chunk is the last
    one, which must then consume the whole name. *)
Fixpoint star_loop (chunk : name) (last : bool) (s : name) : chunk_res :=
  match s with
  | [] => MFail
  | c :: s' =>
      if is_sep c then MFail
      else match matchChunk chunk s' with
           | MOk t => if last && negb (bool_decide (t = [])) then star_loop chunk last s' else MOk t
           | MFail => star_loop chunk last s'
           | MErr => MErr
           | MFuel => MFuel
           end
  end.

(** After a failed match, [Match] still checks the rest of the pattern. *)
Fixpoint check_rest (fuel : nat) (pattern : name) : match_res :=
  match fuel with
  | O => RFuel
  | S f =>
      match pattern with
      | [] => RMatch false
      | _ :: _ =>
          let '(_, chunk, rest) := scanChunk pattern in
          match matchChunk chunk [] with
          | MErr => RErr
          | MFuel => RFuel
          | _ => check_rest f rest
          end
      end
  end.

(** The [Pattern] loop of [Match]. *)
Fixpoint match_loop (fuel : nat) (pattern s : name) : match_res :=
  match fuel with
  | O => RFuel
  | S f =>
      match pattern with
      | [] => RMatch (bool_decide (s = []))
      | _ :: _ =>
          let '(star, chunk, rest) := scanChunk pattern in
          (* the star retries, then the syntax check of the rest *)
          let retry_star :=
            match (if star then star_loop chunk (bool_decide (rest = [])) s else MFail) with
            | MOk t => match_loop f rest t
            | MErr => RErr
            | MFuel => RFuel
            | MFail => check_rest (S (length rest)) rest
            end in
          if star && bool_decide (chunk = []) then RMatch (negb (existsb is_sep s))
          else
            match matchChunk chunk s with
            | MOk t => if bool_decide (t = []) || bool_decide (rest <> []) then match_loop f rest t
                       else retry_star
            | MErr => RErr
            | MFuel => RFuel
            | MFail => retry_star
            end
      end
  end.

(** [filepath.Match(pattern, name)]. *)
Definition Match (pattern s : name) : match_res :=
  match_loop (S (length pattern)) pattern s.

(** The Archiver's test ([compress.go] lines 126 and 169): the lower-cased
    base name matches the lower-cased pattern; a malformed pattern matches
    nothing. *)
Definition include_match (includePattern base : name) : bool :=
  match Match (ToLower includePattern) (ToLower base) with
  | RMatch b => b
  | _ => false
  end.

(** ** Termination: the fuel never runs out *)

Lemma getEsc_length chunk r ch : getEsc chunk = Some (r, ch) -> length ch < length chunk.
Proof.
  destruct chunk as [|c rest]; simpl; [done|].
  destruct (N.eqb c r_minus || N.eqb c r_rbracket); [done|].
  destruct (N.eqb c r_backslash).
  - destruct rest as [|x [|y t]]; simpl; [done|done|]. intros [= <- <-]. simpl. lia.
  - destruct rest as [|y t]; simpl; [done|]. intros [= <- <-]. simpl. lia.
Qed.

(** One iteration of the range loop consumes at least one rune. *)
Lemma class_loop_total f chunk r m n :
  length chunk < f -> class_loop f chunk r m n <> CFuel.
Proof.
  revert chunk m n; induction f as [|f IH]; intros chunk m n Hlen; [lia|]. simpl.
  assert (class_step_ok :
    match getEsc chunk with
    | None => CErr
    | Some (lo, ch1) =>
        match ch1 with
        | c1 :: ch2 =>
            if N.eqb c1 r_minus then
              match getEsc ch2 with
              | None => CErr
              | Some (hi, ch3) => class_loop f ch3 r (m || ((lo <=? r) && (r <=? hi))%N) (S n)
              end
            else class_loop f ch1 r (m || ((lo <=? r) && (r <=? lo))%N) (S n)
        | [] => CErr
        end
    end <> CFuel).
  { destruct (getEsc chunk) as [[lo ch1]|] eqn:E1; [|done].
    apply getEsc_length in E1.
    destruct ch1 as [|c1 ch2]; [done|].
    destruct (N.eqb c1 r_minus).
    - destruct (getEsc ch2) as [[hi ch3]|] eqn:E2; [|done].
      apply getEsc_length in E2. simpl in E1. apply IH. lia.
    - apply IH. lia. }
  destruct chunk as [|c ch']; [done|].
  by destruct (N.eqb c r_rbracket && bool_decide (0 < n)).
Qed.

(** The range loop ends past its closing bracket. *)
Lemma class_loop_length f chunk r m n m' ch :
  class_loop f chunk r m n = CDone m' ch -> length ch < length chunk.
Proof.
  revert chunk m n; induction f as [|f IH]; intros chunk m n; simpl; [done|].
  assert (Hstep : forall res, res =
    match getEsc chunk with
    | None => CErr
    | Some (lo, ch1) =>
        match ch1 with
        | c1 :: ch2 =>
            if N.eqb c1 r_minus then
              match getEsc ch2 with
              | None => CErr
              | Some (hi, ch3) => class_loop f ch3 r (m || ((lo <=? r) && (r <=? hi))%N) (S n)
              end
            else class_loop f ch1 r (m || ((lo <=? r) && (r <=? lo))%N) (S n)
        | [] => CErr
        end
    end -> res = CDone m' ch -> length ch < length chunk).
  { intros res ->. destruct (getEsc chunk) as [[lo ch1]|] eqn:E1; [|done].
    apply getEsc_length in E1.
    destruct ch1 as [|c1 ch2]; [done|].
    destruct (N.eqb c1 r_minus).
    - destruct (getEsc ch2) as [[hi ch3]|] eqn:E2; [|done].
      apply getEsc_length in E2. simpl in E1. intros H. apply IH in H. lia.
    - intros H. apply IH in H. lia. }
  destruct chunk as [|c ch']; [by apply Hstep|].
  destruct (N.eqb c r_rbracket && bool_decide (0 < n)); [intros [= <- <-]; simpl; lia|].
  by apply Hstep.
Qed.

Lemma match_chunk_loop_total f chunk s failed :
  length chunk < f -> match_chunk_loop f chunk s failed <> MFuel.
Proof.
  revert chunk s failed; induction f as [|f IH]; intros chunk s failed Hlen; [lia|].
  cbn [match_chunk_loop]. destruct chunk as [|c ch']; [by destruct failed|].
  simpl in Hlen.
  set (fl := failed || match s with [] => true | _ :: _ => false end).
  destruct (N.eqb c r_lbracket).
  - destruct (if fl then (0%N, s) else match s with d :: s'' => (d, s'') | [] => (0%N, []) end)
      as [r s'].
    destruct (match ch' with
              | d :: ch'' => if N.eqb d r_caret then (true, ch'') else (false, ch')
              | [] => (false, []) end) as [negated ch2] eqn:Eneg.
    assert (length ch2 <= length ch') as Hch2.
    { destruct ch' as [|d ch'']; simpl in Eneg; [by injection Eneg as <- <-|].
      destruct (N.eqb d r_caret); injection Eneg as <- <-; simpl; lia. }
    destruct (class_loop (S (length ch2)) ch2 r false 0) as [m ch3| |] eqn:Ec; [|done|].
    + apply class_loop_length in Ec. apply IH. lia.
    + exfalso. revert Ec. apply class_loop_total. lia.
  - destruct (N.eqb c r_question).
    + destruct fl; [apply IH; lia|]. destruct s; [done|]. apply IH; lia.
    + destruct (if N.eqb c r_backslash then ch' else c :: ch') as [|d ch2] eqn:Elit; [done|].
      assert (length ch2 <= length ch') as Hch2.
      { destruct (N.eqb c r_backslash); [subst ch'; simpl; lia|by injection Elit as <- <-]. }
      destruct fl; [apply IH; lia|]. destruct s; [done|]. apply IH; lia.
Qed.

Lemma matchChunk_total chunk s : matchChunk chunk s <> MFuel.
Proof. apply match_chunk_loop_total. lia. Qed.

Lemma star_loop_total chunk last s : star_loop chunk last s <> MFuel.
Proof.
  induction s as [|c s IH]; simpl; [done|].
  destruct (is_sep c); [done|].
  pose proof (matchChunk_total chunk s).
  destruct (matchChunk chunk s); try done.
  by destruct (last && negb (bool_decide (rest = []))).
Qed.

(** [skip_stars] either skips nothing or skips at least one star. *)
Lemma skip_stars_cases p st st' p' :
  skip_stars p st = (st', p') ->
  (p' = p /\ st' = st) \/ (st' = true /\ length p' < length p).
Proof.
  revert st; induction p as [|c p IH]; intros st; simpl.
  - intros [= <- <-]. by left.
  - destruct (N.eqb c r_star).
    + intros H. right. destruct (IH _ H) as [[-> ->]|[-> Hl]]; split; simpl; auto with lia.
    + intros [= <- <-]. by left.
Qed.

(** What [skip_stars] leaves does not start with a star. *)
Lemma skip_stars_head p st st' c q :
  skip_stars p st = (st', c :: q) -> N.eqb c r_star = false.
Proof.
  revert st; induction p as [|d p IH]; intros st; simpl; [done|].
  destruct (N.eqb d r_star) eqn:Ed; [apply IH|by intros [= _ <- _]].
Qed.

Lemma scan_chunk_body_length p b ch rest :
  scan_chunk_body p b = (ch, rest) -> length ch + length rest = length p.
Proof.
  remember (length p) as n eqn:Hn. revert p b ch rest Hn.
  induction n as [n IH] using lt_wf_ind. intros p b ch rest Hn.
  destruct p as [|c p]; simpl; [by intros [= <- <-]|]. simpl in Hn.
  destruct (N.eqb c r_backslash).
  - destruct p as [|d p'']; [by intros [= <- <-]|].
    destruct (scan_chunk_body p'' b) as [ch0 r0] eqn:E. intros [= <- <-].
    pose proof (IH (length p'') ltac:(simpl in Hn; lia) p'' b ch0 r0 eq_refl E).
    simpl in Hn |- *. lia.
  - destruct (N.eqb c r_lbracket); [|destruct (N.eqb c r_rbracket);
      [|destruct (N.eqb c r_star && negb b); [by intros [= <- <-]|]]].
    all: match goal with |- context [scan_chunk_body ?q ?b'] =>
           destruct (scan_chunk_body q b') as [ch0 r0] eqn:E end.
    all: intros [= <- <-];
      pose proof (IH (length p) ltac:(lia) p _ ch0 r0 eq_refl E); simpl in Hn |- *; lia.
Qed.

(** A chunk that does not start with a star is not empty. *)
Lemma scan_chunk_body_nonempty c q b ch rest :
  N.eqb c r_star = false -> scan_chunk_body (c :: q) b = (ch, rest) -> ch <> [].
Proof.
  intros Hc. simpl. rewrite Hc. simpl.
  destruct (N.eqb c r_backslash); [destruct q; [by intros [= <- _]|]|].
  - destruct (scan_chunk_body q b). by intros [= <- _].
  - destruct (N.eqb c r_lbracket); [|destruct (N.eqb c r_rbracket)].
    all: match goal with |- context [scan_chunk_body ?q0 ?b'] =>
           destruct (scan_chunk_body q0 b') end; by intros [= <- _].
Qed.

(** Each iteration of the [Pattern] loop shortens the pattern. *)
Lemma scanChunk_length pattern star chunk rest :
  pattern <> [] -> scanChunk pattern = (star, chunk, rest) -> length rest < length pattern.
Proof.
  intros Hne. unfold scanChunk.
  destruct (skip_stars pattern false) as [st p] eqn:Es.
  destruct (scan_chunk_body p false) as [ch r] eqn:Eb. intros [= <- <- <-].
  pose proof (scan_chunk_body_length _ _ _ _ Eb) as Hl.
  destruct (skip_stars_cases _ _ _ _ Es) as [[-> _]|[_ Hlt]]; [|lia].
  destruct pattern as [|c q]; [done|].
  apply skip_stars_head in Es. apply scan_chunk_body_nonempty in Eb; [|done].
  destruct ch; [done|]. simpl in *. lia.
Qed.

Lemma check_rest_total f pattern : length pattern < f -> check_rest f pattern <> RFuel.
Proof.
  revert pattern; induction f as [|f IH]; intros pattern Hlen; [lia|]. cbn [check_rest].
  destruct pattern as [|c q]; [done|].
  destruct (scanChunk (c :: q)) as [[star chunk] rest] eqn:Es.
  apply scanChunk_length in Es; [|done].
  pose proof (matchChunk_total chunk []).
  destruct (matchChunk chunk []); try done; apply IH; simpl in *; lia.
Qed.

Lemma match_loop_total f pattern s : length pattern < f -> match_loop f pattern s <> RFuel.
Proof.
  revert pattern s; induction f as [|f IH]; intros pattern s Hlen; [lia|]. cbn [match_loop].
  destruct pattern as [|c q]; [done|].
  destruct (scanChunk (c :: q)) as [[star chunk] rest] eqn:Es.
  apply scanChunk_length in Es; [|done]. simpl in Hlen, Es.
  assert (Hretry : match (if star then star_loop chunk (bool_decide (rest = [])) s else MFail) with
    | MOk t => match_loop f rest t | MErr => RErr | MFuel => RFuel
    | MFail => check_rest (S (length rest)) rest end <> RFuel).
  { destruct star; [|apply check_rest_total; lia].
    pose proof (star_loop_total chunk (bool_decide (rest = [])) s).
    destruct (star_loop _ _ _); try done; [apply IH; lia|apply check_rest_total; lia]. }
  destruct (star && bool_decide (chunk = [])); [done|].
  pose proof (matchChunk_total chunk s).
  destruct (matchChunk chunk s); try done.
  destruct (bool_decide (rest0 = []) || bool_decide (rest ≠ [])); [apply IH; lia|done].
Qed.

(** C24: [filepath.Match] always answers: on every pattern and name it
    returns a match result or [ErrBadPattern], and the fuel given to its loops
    (one more than the length of the pattern) never runs out. *)
Theorem Match_total pattern s : Match pattern s <> RFuel.
Proof. apply match_loop_total. lia. Qed.

(** ** Concrete patterns *)

Example Match_star_ext : Match ⟨"*.raw"⟩ ⟨"sample.raw"⟩ = RMatch true.
Proof. reflexivity. Qed.

Example Match_star_ext_no : Match ⟨"*.raw"⟩ ⟨"sample.raw.bak"⟩ = RMatch false.
Proof. reflexivity. Qed.

Example Match_class : Match ⟨"s[a-c]?.d"⟩ ⟨"sb1.d"⟩ = RMatch true.
Proof. reflexivity. Qed.

Example Match_negated_class : Match ⟨"[^a-c]*"⟩ ⟨"blank"⟩ = RMatch false.
Proof. reflexivity. Qed.

Example Match_bad_pattern : Match ⟨"[a-"⟩ ⟨"a"⟩ = RErr.
Proof. reflexivity. Qed.

Example Match_bad_after_fail : Match ⟨"x[a-"⟩ ⟨"a"⟩ = RErr.
Proof. reflexivity. Qed.

Example Match_star_no_sep : Match ⟨"*"⟩ ⟨"a/b"⟩ = RMatch false.
Proof. reflexivity. Qed.

Example include_match_case : include_match ⟨"*.RAW"⟩ ⟨"Sample.Raw"⟩ = true.
Proof. reflexivity. Qed.
