(* ===== verification/GlobSpec.v ===== *)
(** * The glob semantics that [filepath.Match] implements

    Go documents [filepath.Match] by a grammar: a pattern is a sequence of
    terms; [*] matches any sequence of non-separator characters, [?] any one
    non-separator character, a class [[...]] (negated by a leading [^]) one
    character in (or not in) its ranges [lo-hi] or single runes, [\c] and any
    other rune that rune itself; a pattern that does not follow the grammar is
    [ErrBadPattern]. This file gives that description as a reference
    definition, independent of the chunk-by-chunk algorithm of [Glob]:

    - [parse_gen] reads a pattern into a list of terms ([gitem]); the class
      bodies are read with [getEsc], the helper the documentation's grammar
      of [character-range] is written with;
    - [glob_rel] is the declarative semantics of a term list (a star takes
      any separator-free prefix), [gmatch] a backtracking matcher that
      decides it ([gmatch_glob_rel]);
    - [glob p s] is the documented answer: [ErrBadPattern] when the pattern
      does not parse, otherwise whether the name is in its language.

    The equivalence theorem [Match_glob] shows that Go's algorithm, which
    never backtracks over a chunk once it has matched, gives the documented
    answer on every name without a separator; [Match_glob_sep] shows that the
    restriction is needed. *)

From stdpp Require Import base list sets strings.
From S2P Require Import Prelude GoStrings Glob.

(** ** Terms of a pattern *)

Inductive gitem :=
| GStar
| GAny
| GLit (c : rune)
| GClass (negated : bool) (ranges : list (rune * rune)).

(** The body of a class, up to its closing bracket: ranges [lo-hi] or single
    runes, at least one of them; returns the ranges and what follows the
    bracket. *)
Fixpoint class_parse (fuel : nat) (q : name) (nrange : nat) : option (list (rune * rune) * name) :=
  match fuel with
  | O => None
  | S f =>
      let range :=
        match getEsc q with
        | None => None
        | Some (lo, q1) =>
            match q1 with
            | c1 :: q2 =>
                if N.eqb c1 r_minus then
                  match getEsc q2 with
                  | None => None
                  | Some (hi, q3) =>
                      option_map (fun '(rs, q4) => ((lo, hi) :: rs, q4)) (class_parse f q3 (S nrange))
                  end
                else option_map (fun '(rs, q4) => ((lo, lo) :: rs, q4)) (class_parse f q1 (S nrange))
            | [] => None
            end
        end in
      match q with
      | c :: q' => if N.eqb c r_rbracket && bool_decide (0 < nrange) then Some ([], q') else range
      | [] => range
      end
  end.

(** A leading [^] negates a class. *)
Definition class_negation (q : name) : bool * name :=
  match q with
  | d :: q' => if N.eqb d r_caret then (true, q') else (false, q)
  | [] => (false, [])
  end.

(** The terms of a pattern; with [star = false] a [*] is read as a literal
    rune, as [matchChunk] reads it. *)
Fixpoint parse_gen (star : bool) (fuel : nat) (p : name) : option (list gitem) :=
  match fuel with
  | O => None
  | S f =>
      match p with
      | [] => Some []
      | c :: q =>
          if star && N.eqb c r_star then option_map (cons GStar) (parse_gen star f q)
          else if N.eqb c r_question then option_map (cons GAny) (parse_gen star f q)
          else if N.eqb c r_lbracket then
            let '(neg, q1) := class_negation q in
            match class_parse (S (length q1)) q1 0 with
            | Some (rs, q2) => option_map (cons (GClass neg rs)) (parse_gen star f q2)
            | None => None
            end
          else if N.eqb c r_backslash then
            match q with
            | [] => None
            | d :: q' => option_map (cons (GLit d)) (parse_gen star f q')
            end
          else option_map (cons (GLit c)) (parse_gen star f q)
      end
  end.

(** With enough fuel: [pg true] reads a pattern, [pg false] a chunk. *)
Definition pg (star : bool) (p : name) : option (list gitem) := parse_gen star (S (length p)) p.

Definition parse_pattern (p : name) : option (list gitem) := pg true p.

(** Arithmetic on the lengths of concatenated names. *)
Ltac len_lia :=
  repeat match goal with
         | H : context [length (_ ++ _)] |- _ => rewrite length_app in H
         | H : context [length (_ :: _)] |- _ => rewrite length_cons in H
         | |- context [length (_ ++ _)] => rewrite length_app
         | |- context [length (_ :: _)] => rewrite length_cons
         end; lia.

(** ** The language of a term list *)

Definition in_ranges (rs : list (rune * rune)) (c : rune) : bool :=
  existsb (fun rg => (rg.1 <=? c)%N && (c <=? rg.2)%N) rs.

Definition in_class (negated : bool) (rs : list (rune * rune)) (c : rune) : bool :=
  negb (Bool.eqb (in_ranges rs c) negated).

(** The rune a term other than a star accepts. *)
Definition item_ok (it : gitem) (c : rune) : bool :=
  match it with
  | GStar => false
  | GAny => negb (is_sep c)
  | GLit d => N.eqb d c
  | GClass n rs => in_class n rs c
  end.

Definition no_sep (s : name) : bool := negb (existsb is_sep s).

Inductive glob_rel : list gitem -> name -> Prop :=
| GR_nil : glob_rel [] []
| GR_star u v its : no_sep u = true -> glob_rel its v -> glob_rel (GStar :: its) (u ++ v)
| GR_one it c s its : item_ok it c = true -> glob_rel its s -> glob_rel (it :: its) (c :: s).

(** A backtracking matcher: a star tries every separator-free prefix. *)
Fixpoint gmatch (its : list gitem) (s : name) : bool :=
  match its with
  | [] => bool_decide (s = [])
  | GStar :: its' =>
      (fix star (s : name) : bool :=
         gmatch its' s || match s with c :: s' => negb (is_sep c) && star s' | [] => false end) s
  | it :: its' => match s with c :: s' => item_ok it c && gmatch its' s' | [] => false end
  end.

(** What [filepath.Match] is documented to return. *)
Definition glob (p s : name) : match_res :=
  match parse_pattern p with
  | None => RErr
  | Some its => RMatch (gmatch its s)
  end.

(** ** The matcher decides the semantics *)

Lemma no_sep_cons c s : no_sep (c :: s) = negb (is_sep c) && no_sep s.
Proof. unfold no_sep. simpl. by destruct (is_sep c). Qed.

Lemma no_sep_app u v : no_sep (u ++ v) = no_sep u && no_sep v.
Proof. unfold no_sep. rewrite existsb_app. by destruct (existsb is_sep u). Qed.

Lemma gmatch_star its s :
  gmatch (GStar :: its) s = gmatch its s || match s with c :: s' => negb (is_sep c) && gmatch (GStar :: its) s' | [] => false end.
Proof. by destruct s. Qed.

(** A star matches exactly the separator-free prefixes. *)
Lemma gmatch_star_split its s :
  gmatch (GStar :: its) s = true <-> exists u v, s = u ++ v /\ no_sep u = true /\ gmatch its v = true.
Proof.
  induction s as [|c s IH]; rewrite gmatch_star.
  - rewrite orb_false_r. split; [by exists [], []|].
    intros (u & v & Huv & _ & Hv). by symmetry in Huv; apply app_eq_nil in Huv as [-> ->].
  - rewrite orb_true_iff, andb_true_iff, negb_true_iff, IH. split.
    + intros [Hm|(Hc & u & v & -> & Hu & Hv)]; [by exists [], (c :: s)|].
      exists (c :: u), v. rewrite no_sep_cons, Hc, Hu. done.
    + intros ([|d u] & v & Huv & Hu & Hv); [left; simpl in Huv; by subst|right].
      injection Huv as -> ->. rewrite no_sep_cons, andb_true_iff, negb_true_iff in Hu.
      destruct Hu as [Hc Hu]. split; [done|]. by exists u, v.
Qed.

Lemma gmatch_glob_rel its s : gmatch its s = true <-> glob_rel its s.
Proof.
  revert s. induction its as [|it its IH]; intros s.
  - simpl. rewrite bool_decide_eq_true. split; [intros ->; constructor|by inversion 1].
  - destruct it as [| |d|n rs].
    1: { rewrite gmatch_star_split. split.
      - intros (u & v & -> & Hu & Hv). constructor; [done|by apply IH].
      - inversion 1 as [|u v ? Hu Hv|? ? ? ? Hok]; subst; [|done].
        exists u, v. split; [done|]. split; [done|]. by apply IH. }
    all: destruct s as [|c s]; simpl; [split; [done|by inversion 1]|].
    all: rewrite andb_true_iff, IH; split; [intros [? ?]; by constructor|by inversion 1].
Qed.

(** ** Fuel *)

Lemma class_parse_length f q n rs q2 : class_parse f q n = Some (rs, q2) -> length q2 < length q.
Proof.
  revert q n rs; induction f as [|f IH]; intros q n rs; [done|]. cbn [class_parse].
  assert (Hrange : forall res, res =
    match getEsc q with
    | None => None
    | Some (lo, q1) =>
        match q1 with
        | c1 :: q3 =>
            if N.eqb c1 r_minus then
              match getEsc q3 with
              | None => None
              | Some (hi, q4) => option_map (fun '(rs, q5) => ((lo, hi) :: rs, q5)) (class_parse f q4 (S n))
              end
            else option_map (fun '(rs, q5) => ((lo, lo) :: rs, q5)) (class_parse f q1 (S n))
        | [] => None
        end
    end -> res = Some (rs, q2) -> length q2 < length q).
  { intros res ->. destruct (getEsc q) as [[lo q1]|] eqn:E1; [|done].
    apply getEsc_length in E1. destruct q1 as [|c1 q3]; [done|].
    destruct (N.eqb c1 r_minus).
    - destruct (getEsc q3) as [[hi q4]|] eqn:E2; [|done]. apply getEsc_length in E2.
      destruct (class_parse f q4 (S n)) as [[rs' q5]|] eqn:E3; [|done]. intros [= _ <-].
      apply IH in E3. simpl in E1. lia.
    - destruct (class_parse f (c1 :: q3) (S n)) as [[rs' q5]|] eqn:E3; [|done]. intros [= _ <-].
      apply IH in E3. lia. }
  destruct q as [|c q']; [by apply Hrange|].
  destruct (N.eqb c r_rbracket && bool_decide (0 < n)); [intros [= _ <-]; simpl; lia|].
  by apply Hrange.
Qed.

Lemma class_negation_length q neg q1 : class_negation q = (neg, q1) -> length q1 <= length q.
Proof. destruct q as [|d q]; simpl; [by intros [= _ <-]|]. case_match; intros [= _ <-]; simpl; lia. Qed.

(** Enough fuel gives the same terms. *)
Lemma parse_gen_fuel b f f' p : length p < f -> length p < f' -> parse_gen b f p = parse_gen b f' p.
Proof.
  revert f' p; induction f as [|f IH]; intros [|f'] p Hf Hf'; try lia.
  destruct p as [|c q]; [done|]. simpl in Hf, Hf'. cbn [parse_gen].
  repeat case_match; simplify_eq; try done;
    try (f_equal; apply IH; simpl in *; lia).
  all: match goal with
       | H : class_parse _ _ _ = Some _ |- _ => apply class_parse_length in H
       end.
  all: match goal with
       | H : class_negation _ = _ |- _ => apply class_negation_length in H
       end.
  all: f_equal; apply IH; lia.
Qed.

(** ** [matchChunk] against the terms of its chunk *)

(** The range loop computes the ranges of the class body. *)
Lemma class_loop_parse f q r m n :
  length q < f ->
  class_loop f q r m n =
  match class_parse f q n with
  | Some (rs, q2) => CDone (m || in_ranges rs r) q2
  | None => CErr
  end.
Proof.
  revert q m n; induction f as [|f IH]; intros q m n Hf; [lia|]. cbn [class_loop class_parse].
  assert (Hrange :
    match getEsc q with
    | None => CErr
    | Some (lo, ch1) =>
        match ch1 with
        | c1 :: ch2 =>
            if N.eqb c1 r_minus then
              match getEsc ch2 with
              | None => CErr
              | Some (hi, ch3) => class_loop f ch3 r (m || ((lo <=? r) && (r <=? hi))%N) (S n)
              end
            else class_loop f ch1 r (m || ((lo <=? r) && (r <=? lo))%N) (S n)
        | [] => CErr
        end
    end =
    match match getEsc q with
    | None => None
    | Some (lo, q1) =>
        match q1 with
        | c1 :: q3 =>
            if N.eqb c1 r_minus then
              match getEsc q3 with
              | None => None
              | Some (hi, q4) => option_map (fun '(rs, q5) => ((lo, hi) :: rs, q5)) (class_parse f q4 (S n))
              end
            else option_map (fun '(rs, q5) => ((lo, lo) :: rs, q5)) (class_parse f q1 (S n))
        | [] => None
        end
    end with
    | Some (rs, q2) => CDone (m || in_ranges rs r) q2
    | None => CErr
    end).
  { destruct (getEsc q) as [[lo q1]|] eqn:E1; [|done].
    pose proof (getEsc_length _ _ _ E1). destruct q1 as [|c1 q3]; [done|].
    destruct (N.eqb c1 r_minus).
    - destruct (getEsc q3) as [[hi q4]|] eqn:E2; [|done]. pose proof (getEsc_length _ _ _ E2).
      rewrite IH by (simpl in *; lia).
      destruct (class_parse f q4 (S n)) as [[rs q5]|]; [|done]. simpl. by rewrite orb_assoc.
    - rewrite IH by lia.
      destruct (class_parse f (c1 :: q3) (S n)) as [[rs q5]|]; [|done]. simpl. by rewrite orb_assoc. }
  destruct q as [|c q']; [exact Hrange|].
  destruct (N.eqb c r_rbracket && bool_decide (0 < n)); [by rewrite orb_false_r|exact Hrange].
Qed.

(** A chunk matches a fixed-length prefix: one rune per term. *)
Fixpoint cmatch (its : list gitem) (s : name) : option name :=
  match its with
  | [] => Some s
  | it :: its' =>
      match s with
      | c :: s' => if item_ok it c then cmatch its' s' else None
      | [] => None
      end
  end.

Definition chunk_res_of (o : option name) : chunk_res :=
  match o with Some t => MOk t | None => MFail end.

(** The loop of [matchChunk] reads the chunk as [parse_gen false] does and
    matches its terms rune by rune; once [failed] is set it only checks the
    syntax. *)
Lemma match_chunk_loop_parse f chunk s failed :
  length chunk < f ->
  match_chunk_loop f chunk s failed =
  match parse_gen false f chunk with
  | None => MErr
  | Some its => if failed then MFail else chunk_res_of (cmatch its s)
  end.
Proof.
  revert chunk s failed; induction f as [|f IH]; intros chunk s failed Hf; [lia|].
  destruct chunk as [|c ch']; [by destruct failed|]. simpl in Hf. cbn [match_chunk_loop parse_gen].
  cbn [andb].
  destruct (N.eqb c r_lbracket) eqn:Eb.
  - apply N.eqb_eq in Eb. subst c. cbn -[class_loop class_parse].
    replace (match ch' with d :: ch'' => if N.eqb d r_caret then (true, ch'') else (false, ch') | [] => (false, []) end)
      with (class_negation ch') by done.
    destruct (class_negation ch') as [neg q1] eqn:Eneg. pose proof (class_negation_length _ _ _ Eneg).
    destruct (if failed || match s with [] => true | _ :: _ => false end then (0%N, s)
              else match s with d :: s'' => (d, s'') | [] => (0%N, []) end) as [r s'] eqn:Ers.
    rewrite class_loop_parse by lia.
    destruct (class_parse (S (length q1)) q1 0) as [[rs q2]|] eqn:Ec; [|done].
    pose proof (class_parse_length _ _ _ _ _ Ec).
    rewrite IH by lia. destruct (parse_gen false f q2) as [its|]; [|done]. simpl.
    destruct failed; [done|]. destruct s as [|d s'']; simpl in Ers |- *; injection Ers as <- <-; [done|].
    unfold in_class. by destruct (in_ranges rs d), neg.
  - destruct (N.eqb c r_question) eqn:Eq.
    + apply N.eqb_eq in Eq. subst c. simpl.
      destruct failed.
      * simpl. rewrite IH by lia. by destruct (parse_gen false f ch').
      * destruct s as [|d s']; simpl; [rewrite IH by lia; by destruct (parse_gen false f ch')|].
        rewrite IH by lia.
        destruct (parse_gen false f ch'); [|done]. simpl. by destruct (is_sep d).
    + destruct (N.eqb c r_backslash) eqn:Eesc.
      * destruct ch' as [|d ch2]; [done|]. simpl in Hf.
        destruct (failed || match s with [] => true | _ :: _ => false end) eqn:Efl.
        -- rewrite IH by lia. destruct (parse_gen false f ch2); [|done]. simpl.
           destruct failed; [done|]. destruct s; [done|done].
        -- apply orb_false_iff in Efl as [-> Hs]. destruct s as [|e s']; [done|].
           rewrite IH by lia. destruct (parse_gen false f ch2); [|done]. simpl.
           rewrite N.eqb_sym. by destruct (N.eqb e d).
      * destruct (failed || match s with [] => true | _ :: _ => false end) eqn:Efl.
        -- rewrite IH by lia. destruct (parse_gen false f ch'); [|done]. simpl.
           destruct failed; [done|]. destruct s; [done|done].
        -- apply orb_false_iff in Efl as [-> Hs]. destruct s as [|e s']; [done|].
           rewrite IH by lia. destruct (parse_gen false f ch'); [|done]. simpl.
           rewrite N.eqb_sym. by destruct (N.eqb e c).
Qed.

(** ** [scanChunk] cuts the pattern between terms *)

(** Inside brackets the scan never cuts, and an ordinary rune is kept. *)
Lemma scan_true_cons c q :
  N.eqb c r_backslash = false -> N.eqb c r_rbracket = false ->
  scan_chunk_body (c :: q) true = let '(ch, r) := scan_chunk_body q true in (c :: ch, r).
Proof.
  intros Hb Hr. simpl. rewrite Hb, Hr, andb_false_r.
  by destruct (N.eqb c r_lbracket), (scan_chunk_body q true).
Qed.

Lemma scan_true_head d q : exists ch r, scan_chunk_body (d :: q) true = (d :: ch, r).
Proof.
  simpl. destruct (N.eqb d r_backslash); [destruct q as [|e q]; [by eexists _, _|]|].
  - destruct (scan_chunk_body q true). by eexists _, _.
  - rewrite andb_false_r. destruct (N.eqb d r_lbracket); [|destruct (N.eqb d r_rbracket)].
    all: match goal with |- context [scan_chunk_body ?q0 ?b] => destruct (scan_chunk_body q0 b) end.
    all: by eexists _, _.
Qed.

(** What the scan leaves starts with a star. *)
Lemma scan_rest p b : (scan_chunk_body p b).2 = [] \/ exists r', (scan_chunk_body p b).2 = r_star :: r'.
Proof.
  remember (length p) as n eqn:Hn. revert p b Hn.
  induction n as [n IH] using lt_wf_ind. intros p b Hn.
  destruct p as [|c p]; [by left|]. simpl in Hn. simpl.
  destruct (N.eqb c r_backslash).
  - destruct p as [|d p'']; [by left|].
    destruct (scan_chunk_body p'' b) as [ch r] eqn:E. simpl.
    pose proof (IH (length p'') ltac:(simpl in Hn; lia) p'' b eq_refl) as H. by rewrite E in H.
  - destruct (N.eqb c r_lbracket); [|destruct (N.eqb c r_rbracket);
      [|destruct (N.eqb c r_star && negb b) eqn:Es; [right; exists p; simpl;
        apply andb_true_iff in Es as [Es _]; by apply N.eqb_eq in Es as ->|]]].
    all: match goal with |- context [scan_chunk_body ?q ?b'] =>
           pose proof (IH (length p) ltac:(lia) p b' eq_refl) as H;
           destruct (scan_chunk_body q b') end; exact H.
Qed.

(** One possibly escaped rune of a class body, as the scan sees it. *)
Lemma getEsc_scan q lo q1 :
  getEsc q = Some (lo, q1) ->
  q1 <> [] /\ exists u, q = u ++ q1 /\ u <> [] /\
    (forall w, getEsc (u ++ w) = match w with [] => None | _ :: _ => Some (lo, w) end) /\
    scan_chunk_body q true = let '(ch, r) := scan_chunk_body q1 true in (u ++ ch, r).
Proof.
  destruct q as [|c rest]; [done|]. simpl.
  destruct (N.eqb c r_minus || N.eqb c r_rbracket) eqn:Ec; [done|].
  apply orb_false_iff in Ec as [Em Er].
  destruct (N.eqb c r_backslash) eqn:Eb.
  - destruct rest as [|r [|x nch]]; [done|done|]. intros [= <- <-]. split; [done|].
    exists [c; r]. split; [done|]. split; [done|]. split.
    + intros [|y w]; simpl; by rewrite Em, Er, Eb.
    + by destruct (scan_chunk_body (x :: nch) true).
  - destruct rest as [|x nch]; [done|]. intros [= <- <-]. split; [done|].
    exists [c]. split; [done|]. split; [done|]. split.
    + intros [|y w]; simpl; by rewrite Em, Er, Eb.
    + rewrite Er, andb_false_r.
      by destruct (N.eqb c r_lbracket), (scan_chunk_body (x :: nch) true).
Qed.

Lemma getEsc_scan_none q : getEsc q = None -> getEsc (scan_chunk_body q true).1 = None.
Proof.
  destruct q as [|c rest]; [done|]. intros He.
  destruct (N.eqb c r_backslash) eqn:Eb.
  - destruct rest as [|r [|x nch]].
    + simpl. by rewrite Eb.
    + simpl. rewrite Eb. done.
    + exfalso. revert He. simpl. rewrite Eb. by destruct (N.eqb c r_minus || N.eqb c r_rbracket) eqn:Ec;
        [apply orb_true_iff in Ec as [Ec|Ec]; apply N.eqb_eq in Ec; subst c|].
  - destruct (N.eqb c r_rbracket) eqn:Er.
    + apply N.eqb_eq in Er. subst c. simpl. by destruct (scan_chunk_body rest false).
    + rewrite scan_true_cons by done. revert He. simpl.
      destruct (N.eqb c r_minus) eqn:Em; simpl.
      * intros _. destruct (scan_chunk_body rest true). simpl. by rewrite Em.
      * rewrite Er, Eb. destruct rest as [|x nch]; [|done].
        intros _. simpl. by rewrite Em, Er, Eb.
Qed.

(** One step of [class_parse]: a range or a single rune. *)
Definition class_range (rec : name -> nat -> option (list (rune * rune) * name)) (q : name) (n : nat)
    : option (list (rune * rune) * name) :=
  match getEsc q with
  | None => None
  | Some (lo, q1) =>
      match q1 with
      | c1 :: q2 =>
          if N.eqb c1 r_minus then
            match getEsc q2 with
            | None => None
            | Some (hi, q3) => option_map (fun '(rs, q4) => ((lo, hi) :: rs, q4)) (rec q3 (S n))
            end
          else option_map (fun '(rs, q4) => ((lo, lo) :: rs, q4)) (rec q1 (S n))
      | [] => None
      end
  end.

Definition class_closes (q : name) (n : nat) : bool :=
  match q with c :: _ => N.eqb c r_rbracket && bool_decide (0 < n) | [] => false end.

Lemma class_parse_open f q n :
  class_closes q n = false -> class_parse (S f) q n = class_range (class_parse f) q n.
Proof. destruct q as [|c q]; simpl; [done|]. by intros ->. Qed.

Lemma class_closes_app u w w' n : u <> [] -> class_closes (u ++ w) n = class_closes (u ++ w') n.
Proof. by destruct u. Qed.

(** The class body read by [class_parse] is the part of the pattern the scan
    reads inside brackets: a class that closes ends where the scan leaves the
    brackets and reads the same on any continuation; a class that does not
    close does not close within the chunk either. *)
Lemma class_scan f q n :
  length q < f ->
  match class_parse f q n with
  | Some (rs, q2) =>
      exists u, q = u ++ q2 /\ u <> [] /\
        (forall f' w, length u < f' -> class_parse f' (u ++ w) n = Some (rs, w)) /\
        scan_chunk_body q true = (let '(ch, r) := scan_chunk_body q2 false in (u ++ ch, r))
  | None =>
      forall f', length (scan_chunk_body q true).1 < f' -> class_parse f' (scan_chunk_body q true).1 n = None
  end.
Proof.
  revert q n; induction f as [|f IH]; intros q n Hf; [lia|].
  destruct (class_closes q n) eqn:Ecl.
  { destruct q as [|c q']; [done|]. cbn [class_parse]. simpl in Ecl. rewrite Ecl.
    pose proof Ecl as Ecl'. apply andb_true_iff in Ecl' as [Ec _]. apply N.eqb_eq in Ec. subst c.
    exists [r_rbracket]. split; [done|]. split; [done|]. split.
    - intros [|f'] w Hf'; [simpl in Hf'; lia|]. cbn [class_parse app]. by rewrite Ecl.
    - simpl. by destruct (scan_chunk_body q' false). }
  rewrite class_parse_open by done. unfold class_range at 1.
  destruct (getEsc q) as [[lo q1]|] eqn:E1.
  2: { intros [|f'] Hf'; [lia|].
       destruct q as [|c q']; [done|]. destruct (scan_true_head c q') as (ch & r & Es).
       rewrite Es. cbn [fst]. rewrite class_parse_open by (simpl in Ecl |- *; exact Ecl).
       unfold class_range. pose proof (getEsc_scan_none _ E1) as Hn. rewrite Es in Hn. cbn [fst] in Hn. by rewrite Hn. }
  destruct (getEsc_scan _ _ _ E1) as (Hq1 & u1 & -> & Hu1 & Hesc1 & Hscan1).
  assert (Hu1l : 0 < length u1) by (destruct u1; [done|simpl; lia]).
  assert (Hcl : forall w, class_closes (u1 ++ w) n = false)
    by (intros w; rewrite (class_closes_app u1 w q1 n Hu1); exact Ecl).
  destruct q1 as [|c1 q2]; [done|].
  destruct (N.eqb c1 r_minus) eqn:Em.
  - apply N.eqb_eq in Em. subst c1.
    destruct (getEsc q2) as [[hi q3]|] eqn:E2.
    + destruct (getEsc_scan _ _ _ E2) as (Hq3 & u2 & -> & Hu2 & Hesc2 & Hscan2).
      assert (Hlen : length q3 < f).
      { destruct u1; [done|]. simpl in Hf. rewrite !length_app in Hf. simpl in Hf. rewrite length_app in Hf. lia. }
      specialize (IH q3 (S n) Hlen).
      destruct (class_parse f q3 (S n)) as [[rs q4]|] eqn:E3; simpl.
      * destruct IH as (u3 & -> & Hu3 & Hcp3 & Hscan3).
        exists (u1 ++ r_minus :: u2 ++ u3). split; [by rewrite <- !app_assoc; simpl; rewrite <- !app_assoc|]. split; [by destruct u1|]. split.
        -- intros [|f'] w Hf'; [lia|]. rewrite <- !app_assoc.
           rewrite class_parse_open by apply Hcl. unfold class_range.
           rewrite Hesc1. simpl. rewrite <- app_assoc, Hesc2.
           destruct u3 as [|c3 u3']; [done|]. cbn [app].
           pose proof (Hcp3 f' w ltac:(len_lia)) as E.
           cbn [app] in E. by rewrite E.
        -- rewrite Hscan1, scan_true_cons, Hscan2, Hscan3 by done.
           destruct (scan_chunk_body q4 false). simpl. by rewrite <- !app_assoc; simpl; rewrite <- !app_assoc.
      * intros [|f'] Hf'; [lia|].
        rewrite Hscan1, scan_true_cons, Hscan2 in Hf' |- * by done.
        destruct (scan_chunk_body q3 true) as [ch3 r3] eqn:Es3. cbn [fst] in Hf' |- *.
        rewrite class_parse_open by apply Hcl. unfold class_range.
        rewrite Hesc1. simpl. rewrite Hesc2.
        destruct q3 as [|d3 q3']; [done|]. destruct (scan_true_head d3 q3') as (ch3' & r3' & Es3').
        rewrite Es3 in Es3'. injection Es3' as -> ->.
        cbn [fst] in IH. rewrite IH; [done|]. len_lia.
    + intros [|f'] Hf'; [lia|].
      rewrite Hscan1, scan_true_cons in Hf' |- * by done.
      destruct (scan_chunk_body q2 true) as [ch2 r2] eqn:Es2. cbn [fst] in Hf' |- *.
      rewrite class_parse_open by apply Hcl. unfold class_range.
      rewrite Hesc1. simpl. pose proof (getEsc_scan_none _ E2) as Hn. rewrite Es2 in Hn. cbn [fst] in Hn. by rewrite Hn.
  - assert (Hlen : length (c1 :: q2) < f).
    { destruct u1; [done|]. simpl in Hf. rewrite length_app in Hf. simpl in *. lia. }
    specialize (IH (c1 :: q2) (S n) Hlen).
    destruct (class_parse f (c1 :: q2) (S n)) as [[rs q4]|] eqn:E3; simpl.
    + destruct IH as (u3 & Heq & Hu3 & Hcp3 & Hscan3).
      exists (u1 ++ u3). split; [by rewrite Heq, app_assoc|]. split; [by destruct u1|]. split.
      * intros [|f'] w Hf'; [lia|]. rewrite <- app_assoc.
        rewrite class_parse_open by apply Hcl. unfold class_range. rewrite Hesc1.
        destruct u3 as [|c3 u3']; [done|]. injection Heq as <- _. cbn [app]. rewrite Em.
        pose proof (Hcp3 f' w ltac:(len_lia)) as E.
        cbn [app] in E. by rewrite E.
      * rewrite Hscan1, Hscan3. destruct (scan_chunk_body q4 false). by rewrite app_assoc.
    + intros [|f'] Hf'; [lia|].
      rewrite Hscan1 in Hf' |- *.
      destruct (scan_true_head c1 q2) as (ch1 & r1 & Es1). rewrite Es1 in Hf' |- *. cbn [fst] in Hf' |- *.
      rewrite class_parse_open by apply Hcl. unfold class_range.
      rewrite Hesc1. simpl. rewrite Em.
      rewrite Es1 in IH. cbn [fst] in IH. rewrite IH; [done|]. len_lia.
Qed.

(** ** The terms of a pattern are those of its chunks *)

Lemma parse_gen_S b f c q :
  parse_gen b (S f) (c :: q) =
  if b && N.eqb c r_star then option_map (cons GStar) (parse_gen b f q)
  else if N.eqb c r_question then option_map (cons GAny) (parse_gen b f q)
  else if N.eqb c r_lbracket then
    let '(neg, q1) := class_negation q in
    match class_parse (S (length q1)) q1 0 with
    | Some (rs, q2) => option_map (cons (GClass neg rs)) (parse_gen b f q2)
    | None => None
    end
  else if N.eqb c r_backslash then
    match q with
    | [] => None
    | d :: q' => option_map (cons (GLit d)) (parse_gen b f q')
    end
  else option_map (cons (GLit c)) (parse_gen b f q).
Proof. reflexivity. Qed.

Lemma parse_gen_step b c q :
  pg b (c :: q) =
  if b && N.eqb c r_star then option_map (cons GStar) (pg b q)
  else if N.eqb c r_question then option_map (cons GAny) (pg b q)
  else if N.eqb c r_lbracket then
    let '(neg, q1) := class_negation q in
    match class_parse (S (length q1)) q1 0 with
    | Some (rs, q2) => option_map (cons (GClass neg rs)) (pg b q2)
    | None => None
    end
  else if N.eqb c r_backslash then
    match q with
    | [] => None
    | d :: q' => option_map (cons (GLit d)) (pg b q')
    end
  else option_map (cons (GLit c)) (pg b q).
Proof.
  unfold pg. cbn [length]. rewrite parse_gen_S.
  destruct (b && N.eqb c r_star); [f_equal; apply parse_gen_fuel; lia|].
  destruct (N.eqb c r_question); [f_equal; apply parse_gen_fuel; lia|].
  destruct (N.eqb c r_lbracket).
  { destruct (class_negation q) as [neg q1] eqn:Eneg. apply class_negation_length in Eneg.
    destruct (class_parse (S (length q1)) q1 0) as [[rs q2]|] eqn:Ec; [|done].
    apply class_parse_length in Ec. f_equal; apply parse_gen_fuel; lia. }
  destruct (N.eqb c r_backslash); [destruct q; [done|]; f_equal; apply parse_gen_fuel; simpl; lia|].
  f_equal; apply parse_gen_fuel; lia.
Qed.

Definition opt_app (o1 o2 : option (list gitem)) : option (list gitem) :=
  match o1, o2 with Some a, Some b => Some (a ++ b) | _, _ => None end.

Lemma opt_app_cons x o1 o2 : opt_app (option_map (cons x) o1) o2 = option_map (cons x) (opt_app o1 o2).
Proof. by destruct o1, o2. Qed.

(** The [^] of a negated class, as the scan sees it. *)
Lemma negation_scan q neg q1 :
  class_negation q = (neg, q1) ->
  exists pre, scan_chunk_body q true = (let '(ch, r) := scan_chunk_body q1 true in (pre ++ ch, r)) /\
    class_negation (pre ++ (scan_chunk_body q1 true).1) = (neg, (scan_chunk_body q1 true).1).
Proof.
  destruct q as [|c q']; cbn [class_negation]; [intros [= <- <-]; by exists []|].
  destruct (N.eqb c r_caret) eqn:Ec; intros [= <- <-].
  - apply N.eqb_eq in Ec. subst c. exists [r_caret].
    rewrite scan_true_cons by done. destruct (scan_chunk_body q' true). done.
  - exists []. split; [by destruct (scan_chunk_body (c :: q') true)|].
    destruct (scan_true_head c q') as (ch & r & ->). simpl. by rewrite Ec.
Qed.

(** The pattern reads as its first chunk followed by the rest, and the
    chunk reads alike whether or not a [*] is a star. *)
Lemma scan_parse p :
  let '(ch, r) := scan_chunk_body p false in
  parse_pattern p = opt_app (parse_pattern ch) (parse_pattern r) /\ pg true ch = pg false ch.
Proof.
  unfold parse_pattern. remember (length p) as len eqn:Hn. revert p Hn.
  induction len as [len IH] using lt_wf_ind. intros p Hn.
  destruct p as [|c q]; [done|]. simpl in Hn.
  destruct (N.eqb c r_star) eqn:Es.
  { apply N.eqb_eq in Es. subst c. simpl. split; [by destruct (pg true (r_star :: q))|done]. }
  destruct (N.eqb c r_lbracket) eqn:Eb.
  - apply N.eqb_eq in Eb. subst c.
    cbn [scan_chunk_body]. cbn [N.eqb r_backslash r_lbracket Pos.eqb].
    destruct (class_negation q) as [neg q1] eqn:Eneg.
    destruct (negation_scan _ _ _ Eneg) as (pre & Hscan & Hneg).
    pose proof (class_negation_length _ _ _ Eneg).
    rewrite Hscan. rewrite !parse_gen_step. cbn -[class_parse pg]. rewrite Eneg.
    pose proof (class_scan (S (length q1)) q1 0 ltac:(lia)) as Hcl.
    destruct (class_parse (S (length q1)) q1 0) as [[rs q2]|] eqn:Ec.
    + destruct Hcl as (u & -> & Hu & Hcp & Hsc). rewrite Hsc in Hneg |- *.
      destruct (scan_chunk_body q2 false) as [ch2 r] eqn:Es2. cbn [fst] in Hneg |- *.
      pose proof (IH (length q2) ltac:(len_lia) q2 eq_refl) as IH2. rewrite Es2 in IH2.
      destruct IH2 as [IH2 IH2'].
      rewrite !parse_gen_step. cbn -[class_parse pg]. rewrite Hneg.
      rewrite Hcp by len_lia. split; [by rewrite opt_app_cons, IH2|by rewrite IH2'].
    + destruct (scan_chunk_body q1 true) as [ch1 r] eqn:Es1. cbn [fst] in Hneg, Hcl |- *.
      rewrite !parse_gen_step. cbn -[class_parse pg]. rewrite Hneg.
      rewrite Hcl by lia. done.
  - destruct (N.eqb c r_backslash) eqn:Ebs.
    + apply N.eqb_eq in Ebs. subst c. destruct q as [|d q'']; [done|].
      cbn [scan_chunk_body]. cbn [N.eqb r_backslash Pos.eqb].
      pose proof (IH (length q'') ltac:(simpl in Hn; lia) q'' eq_refl) as IH2.
      destruct (scan_chunk_body q'' false) as [ch0 r0]. destruct IH2 as [IH2 IH2'].
      rewrite !parse_gen_step. cbn -[pg]. split; [by rewrite opt_app_cons, IH2|by rewrite IH2'].
    + assert (Hsc : scan_chunk_body (c :: q) false = let '(ch, r) := scan_chunk_body q false in (c :: ch, r)).
      { simpl. rewrite Ebs, Eb, Es. simpl. by destruct (N.eqb c r_rbracket), (scan_chunk_body q false). }
      rewrite Hsc.
      pose proof (IH (length q) ltac:(lia) q eq_refl) as IH2.
      destruct (scan_chunk_body q false) as [ch0 r0]. destruct IH2 as [IH2 IH2'].
      rewrite !parse_gen_step. rewrite Es, Eb, Ebs. simpl.
      destruct (N.eqb c r_question); (split; [by rewrite opt_app_cons, IH2|by rewrite IH2']).
Qed.

(** ** Leading stars *)

Lemma skip_stars_repeat p b b' p' :
  skip_stars p b = (b', p') ->
  exists k, p = repeat r_star k ++ p' /\ b' = b || bool_decide (0 < k) /\
    (p' = [] \/ exists c q, p' = c :: q /\ N.eqb c r_star = false).
Proof.
  revert b. induction p as [|c p IH]; intros b; simpl.
  - intros [= <- <-]. exists 0. split; [done|]. split; [by rewrite orb_false_r|by left].
  - destruct (N.eqb c r_star) eqn:Ec.
    + intros Hs. destruct (IH true Hs) as (k & -> & -> & Hp'). apply N.eqb_eq in Ec. subst c.
      exists (S k). split; [done|]. split; [|done]. by destruct b.
    + intros [= <- <-]. exists 0. split; [done|]. split; [by rewrite orb_false_r|right; by exists c, p].
Qed.

Lemma parse_stars k p : parse_pattern (repeat r_star k ++ p) = option_map (app (repeat GStar k)) (parse_pattern p).
Proof.
  unfold parse_pattern. induction k as [|k IH]; simpl; [by destruct (pg true p)|].
  rewrite parse_gen_step. simpl. rewrite IH. by destruct (pg true p).
Qed.

Lemma gmatch_star_star its s : gmatch (GStar :: GStar :: its) s = gmatch (GStar :: its) s.
Proof.
  apply eq_bool_prop_intro. rewrite !Is_true_true, !gmatch_star_split. split.
  - intros (u1 & v1 & -> & Hu1 & Hv1). apply gmatch_star_split in Hv1 as (u2 & v2 & -> & Hu2 & Hv2).
    exists (u1 ++ u2), v2. rewrite <- app_assoc, no_sep_app, Hu1, Hu2. done.
  - intros (u & v & -> & Hu & Hv). exists u, v. split; [done|]. split; [done|].
    apply gmatch_star_split. by exists [], v.
Qed.

Lemma gmatch_stars k its s :
  gmatch (repeat GStar (S k) ++ its) s = gmatch (GStar :: its) s.
Proof. induction k as [|k IH]; [done|]. rewrite <- IH. exact (gmatch_star_star (repeat GStar k ++ its) s). Qed.

(** A lone star matches the names without a separator. *)
Lemma gmatch_star_nil s : gmatch [GStar] s = no_sep s.
Proof.
  apply eq_bool_prop_intro. rewrite !Is_true_true, gmatch_star_split. split.
  - intros (u & v & -> & Hu & Hv). simpl in Hv. apply bool_decide_eq_true in Hv as ->. by rewrite app_nil_r.
  - intros Hs. exists s, []. rewrite app_nil_r. done.
Qed.

(** ** Chunks: terms without stars *)

Definition no_star (its : list gitem) : Prop := Forall (fun it => it <> GStar) its.

Lemma option_map_cons_inv {A} (x : A) o l :
  option_map (cons x) o = Some l -> exists l', o = Some l' /\ l = x :: l'.
Proof. destruct o as [l'|]; [intros [= <-]; by exists l'|done]. Qed.

Lemma parse_gen_false_no_star f p its : parse_gen false f p = Some its -> no_star its.
Proof.
  revert p its; induction f as [|f IH]; intros p its; [done|].
  destruct p as [|c q]; [intros [= <-]; constructor|]. rewrite parse_gen_S. cbn [andb].
  assert (Hc : forall x o, x <> GStar -> (forall l, o = Some l -> no_star l) ->
            option_map (cons x) o = Some its -> no_star its).
  { intros x o Hx Ho (l & -> & ->)%option_map_cons_inv. constructor; [done|by apply Ho]. }
  destruct (N.eqb c r_question); [apply Hc; [done|apply IH]|].
  destruct (N.eqb c r_lbracket).
  { destruct (class_negation q) as [neg q1].
    destruct (class_parse (S (length q1)) q1 0) as [[rs q2]|]; [apply Hc; [done|apply IH]|done]. }
  destruct (N.eqb c r_backslash); [destruct q; [done|apply Hc; [done|apply IH]]|].
  apply Hc; [done|apply IH].
Qed.

Lemma gmatch_item it its d s : it <> GStar -> gmatch (it :: its) (d :: s) = item_ok it d && gmatch its s.
Proof. by destruct it. Qed.

Lemma cmatch_gmatch ci x s :
  no_star ci -> gmatch (ci ++ x) s = match cmatch ci s with Some t => gmatch x t | None => false end.
Proof.
  revert s. induction ci as [|it ci IH]; intros s Hns; [done|].
  inversion Hns as [|? ? Hit Hns']; subst.
  destruct s as [|d s']; [by destruct it|].
  cbn [app]. rewrite (gmatch_item it _ d s' Hit). simpl. destruct (item_ok it d); [by apply IH|done].
Qed.

Lemma cmatch_drop ci s t : cmatch ci s = Some t -> t = drop (length ci) s.
Proof.
  revert s; induction ci as [|it ci IH]; intros s; simpl; [by intros [= <-]|].
  destruct s as [|c s']; [done|]. destruct (item_ok it c); [|done]. apply IH.
Qed.

Lemma no_sep_take n s : no_sep s = true -> no_sep (take n s) = true.
Proof. rewrite <- (take_drop n s) at 1. rewrite no_sep_app. by intros [? _]%andb_prop. Qed.

Lemma no_sep_drop n s : no_sep s = true -> no_sep (drop n s) = true.
Proof. rewrite <- (take_drop n s) at 1. rewrite no_sep_app. by intros [_ ?]%andb_prop. Qed.

Lemma gmatch_star_prefix u its s :
  no_sep u = true -> gmatch (GStar :: its) s = true -> gmatch (GStar :: its) (u ++ s) = true.
Proof.
  intros Hu. rewrite !gmatch_star_split. intros (u' & v & -> & Hu' & Hv).
  exists (u ++ u'), v. rewrite <- app_assoc, no_sep_app, Hu, Hu'. done.
Qed.

(** Go takes the leftmost place where a chunk matches and never comes back
    to it; on a name without separators that loses nothing when a star
    follows the chunk, since that star can absorb what a later place would
    have skipped. *)
Lemma greedy_chunk ci x v t :
  no_star ci -> no_sep v = true -> cmatch ci v = Some t ->
  gmatch (GStar :: ci ++ GStar :: x) v = gmatch (GStar :: x) t.
Proof.
  intros Hns Hv Ht. apply eq_bool_prop_intro. rewrite !Is_true_true. split.
  - rewrite gmatch_star_split. intros (u & w & -> & Hu & Hw).
    rewrite cmatch_gmatch in Hw by done.
    destruct (cmatch ci w) as [t'|] eqn:Ht'; [|done].
    apply cmatch_drop in Ht, Ht'. subst t t'.
    rewrite <- (take_drop (length u) (drop (length ci) (u ++ w))).
    rewrite drop_drop, Nat.add_comm, <- drop_drop, drop_app_length.
    apply gmatch_star_prefix; [|done]. by apply no_sep_take, no_sep_drop.
  - intros Hm. rewrite gmatch_star, orb_true_iff. left. by rewrite cmatch_gmatch, Ht.
Qed.

(** ** The loops of [Match] *)

(** [scanChunk] splits the terms of the pattern into its leading stars, the
    terms of the chunk and those of the rest, which starts with a star. *)
Lemma scanChunk_parse pattern star chunk rest :
  scanChunk pattern = (star, chunk, rest) ->
  exists k, star = bool_decide (0 < k) /\
    parse_pattern pattern = option_map (app (repeat GStar k)) (opt_app (pg false chunk) (parse_pattern rest)) /\
    (rest = [] \/ exists r', rest = r_star :: r') /\ (chunk = [] -> rest = []).
Proof.
  unfold scanChunk. destruct (skip_stars pattern false) as [st p] eqn:Es.
  destruct (scan_chunk_body p false) as [ch r] eqn:Eb. intros [= <- <- <-].
  destruct (skip_stars_repeat _ _ _ _ Es) as (k & -> & -> & Hp).
  exists k. split; [done|]. split.
  - rewrite parse_stars. pose proof (scan_parse p) as Hsp. rewrite Eb in Hsp.
    destruct Hsp as [-> Hch]. unfold parse_pattern in *. by rewrite Hch.
  - split; [pose proof (scan_rest p false) as Hr; rewrite Eb in Hr; exact Hr|].
    intros ->. destruct Hp as [->|(c & q & -> & Hc)]; [simpl in Eb; by inversion Eb|].
    exfalso. by apply (scan_chunk_body_nonempty c q false [] r Hc Eb).
Qed.

Lemma matchChunk_parse chunk s :
  matchChunk chunk s = match pg false chunk with None => MErr | Some ci => chunk_res_of (cmatch ci s) end.
Proof. unfold matchChunk, pg. rewrite match_chunk_loop_parse by lia. by destruct (parse_gen false _ chunk). Qed.

Lemma cmatch_no_sep ci s t : no_sep s = true -> cmatch ci s = Some t -> no_sep t = true.
Proof. intros Hs ->%cmatch_drop. by apply no_sep_drop. Qed.

(** The retry loop of a star answers as a star that has absorbed at least one
    rune. *)
Lemma star_loop_gmatch chunk ci ri last s :
  pg false chunk = Some ci -> no_sep s = true ->
  (last = true -> ri = []) -> (last = false -> exists x, ri = GStar :: x) ->
  exists o, star_loop chunk last s = chunk_res_of o /\
    match o with Some t => no_sep t = true | None => True end /\
    match o with Some t => gmatch ri t | None => false end =
    match s with c :: s' => negb (is_sep c) && gmatch (GStar :: ci ++ ri) s' | [] => false end.
Proof.
  intros Hci Hs Hlast Hnot. pose proof (parse_gen_false_no_star _ _ _ Hci) as Hns.
  induction s as [|c s' IH]; [by exists None|].
  rewrite no_sep_cons in Hs. apply andb_prop in Hs as [Hc Hs']. apply negb_true_iff in Hc.
  cbn [star_loop]. rewrite Hc, matchChunk_parse, Hci.
  destruct (IH Hs') as (o' & Ho' & Hsep' & Heq').
  rewrite gmatch_star, cmatch_gmatch by done.
  destruct (cmatch ci s') as [t|] eqn:Ht; cbn [chunk_res_of].
  - destruct (last && negb (bool_decide (t = []))) eqn:El.
    + exists o'. split; [done|]. split; [done|]. rewrite Heq'.
      apply andb_prop in El as [El Ent]. apply negb_true_iff in Ent. rewrite (Hlast El). simpl. by rewrite Ent.
    + exists (Some t). split; [done|]. split; [by eapply cmatch_no_sep|].
      destruct last.
      * rewrite (Hlast eq_refl). simpl in El. apply negb_false_iff, bool_decide_eq_true in El as ->. done.
      * destruct (Hnot eq_refl) as [x ->].
        pose proof (greedy_chunk ci x s' t Hns Hs' Ht) as Hg.
        rewrite gmatch_star, cmatch_gmatch, Ht in Hg by done. cbn [negb andb]. by rewrite Hg.
  - exists o'. split; [done|]. split; [done|]. by rewrite Heq'.
Qed.

(** After a failed match, [Match] reports exactly the malformed patterns. *)
Lemma check_rest_parse f p :
  length p < f -> check_rest f p = match parse_pattern p with None => RErr | Some _ => RMatch false end.
Proof.
  revert p; induction f as [|f IH]; intros p Hf; [lia|].
  destruct p as [|c q]; [done|]. cbn [check_rest].
  destruct (scanChunk (c :: q)) as [[star chunk] rest] eqn:Es.
  pose proof (scanChunk_length (c :: q) _ _ _ ltac:(done) Es) as Hlen.
  destruct (scanChunk_parse _ _ _ _ Es) as (k & _ & -> & _).
  rewrite matchChunk_parse. destruct (pg false chunk) as [ci|]; [|done].
  assert (Hr : check_rest f rest = match parse_pattern rest with None => RErr | Some _ => RMatch false end)
    by (apply IH; simpl in *; lia).
  destruct (cmatch ci []); cbn [chunk_res_of]; rewrite Hr; by destruct (parse_pattern rest).
Qed.

Lemma parse_rest_terms (rest : name) ri :
  (rest = [] \/ exists r', rest = r_star :: r') -> parse_pattern rest = Some ri ->
  (bool_decide (rest = []) = true -> ri = []) /\ (bool_decide (rest = []) = false -> exists x, ri = GStar :: x).
Proof.
  intros [->|[r' ->]] Hri.
  - injection Hri as <-. split; [done|]. by rewrite bool_decide_eq_true_2.
  - split; [by rewrite bool_decide_eq_false_2|intros _].
    unfold parse_pattern in Hri. rewrite parse_gen_step in Hri. simpl in Hri.
    apply option_map_cons_inv in Hri as (x & _ & ->). by exists x.
Qed.

(** The [Pattern] loop of [Match] gives the documented answer on names
    without separators. *)
Lemma match_loop_glob f p s : length p < f -> no_sep s = true -> match_loop f p s = glob p s.
Proof.
  revert p s; induction f as [|f IH]; intros p s Hf Hs; [lia|].
  destruct p as [|c q]; [done|]. cbn [match_loop]. unfold glob.
  destruct (scanChunk (c :: q)) as [[star chunk] rest] eqn:Es.
  pose proof (scanChunk_length (c :: q) _ _ _ ltac:(done) Es) as Hlen.
  destruct (scanChunk_parse _ _ _ _ Es) as (k & -> & -> & Hrest & Hnil).
  assert (IHr : forall t, no_sep t = true ->
            match_loop f rest t = match parse_pattern rest with None => RErr | Some ri => RMatch (gmatch ri t) end)
    by (intros t Ht; rewrite IH; [done|simpl in *; lia|done]).
  assert (Hcr : check_rest (S (length rest)) rest =
                match parse_pattern rest with None => RErr | Some _ => RMatch false end)
    by (apply check_rest_parse; lia).
  destruct (bool_decide (0 < k) && bool_decide (chunk = [])) eqn:Et.
  { apply andb_prop in Et as [Ek Ec]. apply bool_decide_eq_true in Ek, Ec. subst chunk.
    rewrite (Hnil eq_refl). destruct k as [|k]; [lia|].
    change (pg false []) with (Some (@nil gitem)). change (parse_pattern []) with (Some (@nil gitem)).
    cbn [opt_app option_map]. by rewrite gmatch_stars, gmatch_star_nil. }
  rewrite matchChunk_parse. destruct (pg false chunk) as [ci|] eqn:Eci; [|done].
  pose proof (parse_gen_false_no_star _ _ _ Eci) as Hns.
  destruct (parse_pattern rest) as [ri|] eqn:Eri.
  - destruct (parse_rest_terms rest ri Hrest Eri) as [Hlast Hnot].
    destruct (star_loop_gmatch chunk ci ri _ s Eci Hs Hlast Hnot) as (o & Hso & Hos & Heq).
    set (M := match s with c :: s' => negb (is_sep c) && gmatch (GStar :: ci ++ ri) s' | [] => false end) in *.
    assert (Hretry : match (if bool_decide (0 < k) then star_loop chunk (bool_decide (rest = [])) s else MFail) with
                     | MOk t => match_loop f rest t | MErr => RErr | MFuel => RFuel
                     | MFail => check_rest (S (length rest)) rest end = RMatch (bool_decide (0 < k) && M)).
    { destruct (bool_decide (0 < k)); [|by rewrite Hcr].
      rewrite Hso, <- Heq. destruct o as [t|]; cbn [chunk_res_of]; [|by rewrite Hcr].
      by rewrite IHr. }
    assert (Hspec : gmatch (repeat GStar k ++ ci ++ ri) s =
                    match cmatch ci s with Some t => gmatch ri t | None => false end || (bool_decide (0 < k) && M)).
    { destruct k as [|k]; [change (bool_decide (0 < 0)) with false; rewrite andb_false_l, orb_false_r; change (repeat GStar 0 ++ ci ++ ri) with (ci ++ ri); by rewrite cmatch_gmatch|].
      by rewrite gmatch_stars, gmatch_star, cmatch_gmatch. }
    cbn [opt_app option_map]. rewrite Hspec. clear Hspec.
    destruct (cmatch ci s) as [t|] eqn:Ht; cbn [chunk_res_of]; [|exact Hretry].
    destruct (bool_decide (t = []) || bool_decide (rest <> [])) eqn:Ec.
    + rewrite IHr by (by eapply cmatch_no_sep). f_equal.
      destruct (bool_decide (rest = [])) eqn:Er.
      * rewrite (Hlast eq_refl). apply bool_decide_eq_true in Er.
        apply orb_true_iff in Ec as [Ec|Ec]; apply bool_decide_eq_true in Ec; [subst t|done]. done.
      * destruct (Hnot eq_refl) as [x ->].
        pose proof (greedy_chunk ci x s t Hns Hs Ht) as Hg.
        rewrite gmatch_star, cmatch_gmatch, Ht in Hg by done.
        unfold M. destruct (bool_decide (0 < k)); [by rewrite andb_true_l, Hg|by rewrite andb_false_l, orb_false_r].
    + rewrite Hretry. f_equal.
      apply orb_false_iff in Ec as [E1 E2]. apply bool_decide_eq_false in E2.
      assert (rest = []) as -> by (destruct rest; [done|by exfalso; apply E2]).
      rewrite (Hlast eq_refl). cbn [gmatch]. by rewrite E1.
  - destruct (star_loop_gmatch chunk ci (if bool_decide (rest = []) then [] else [GStar]) (bool_decide (rest = [])) s Eci Hs)
      as (o & Hso & Hos & _).
    { intros ->. done. }
    { intros ->. by exists []. }
    assert (Hretry : match (if bool_decide (0 < k) then star_loop chunk (bool_decide (rest = [])) s else MFail) with
                     | MOk t => match_loop f rest t | MErr => RErr | MFuel => RFuel
                     | MFail => check_rest (S (length rest)) rest end = RErr).
    { destruct (bool_decide (0 < k)); [|by rewrite Hcr].
      rewrite Hso. destruct o as [t|]; cbn [chunk_res_of]; [|by rewrite Hcr]. by rewrite IHr. }
    cbn [opt_app option_map].
    destruct (cmatch ci s) as [t|] eqn:Ht; cbn [chunk_res_of]; [|exact Hretry].
    destruct (bool_decide (t = []) || bool_decide (rest <> [])); [|exact Hretry].
    rewrite IHr by (by eapply cmatch_no_sep). done.
Qed.

(** ** The equivalence *)

(** C25: on every pattern and every name without a separator,
    [filepath.Match] returns what its documentation describes:
    [ErrBadPattern] exactly when the pattern does not follow the grammar, and
    otherwise whether the name is in the language of the pattern, although
    the implementation never backtracks over a chunk it has matched. *)
Theorem Match_glob p s : no_sep s = true -> Match p s = glob p s.
Proof. intros Hs. apply match_loop_glob; [lia|done]. Qed.

Lemma to_lower_rune_sep c : is_sep (to_lower_rune c) = is_sep c.
Proof.
  unfold is_sep, to_lower_rune, r_slash.
  destruct ((65 <=? c)%N && (c <=? 90)%N) eqn:E; [|done].
  apply andb_true_iff in E as [E1 E2]. apply N.leb_le in E1, E2.
  destruct (N.eqb_spec (c + 32) 47), (N.eqb_spec c 47); lia.
Qed.

Lemma no_sep_ToLower s : no_sep (ToLower s) = no_sep s.
Proof.
  unfold no_sep, ToLower. f_equal. induction s as [|c s IH]; [done|].
  cbn [map existsb]. by rewrite to_lower_rune_sep, IH.
Qed.

(** C26: the Archiver's [--include] test on a base name is glob matching of
    the lower-cased name against the lower-cased pattern, and a malformed
    pattern includes nothing. *)
Theorem include_match_glob pat b :
  no_sep b = true ->
  include_match pat b =
  match parse_pattern (ToLower pat) with Some its => gmatch its (ToLower b) | None => false end.
Proof.
  intros Hb. unfold include_match, Match. rewrite match_loop_glob by (lia || by rewrite no_sep_ToLower).
  unfold glob. by destruct (parse_pattern (ToLower pat)).
Qed.

(** With a separator in the name the equivalence fails: Go tries the class
    at the first place, where it matches [a], and then the last star cannot
    absorb the [/]; the documented semantics lets the first star take [a] and
    the class take [/]. *)
Example Match_glob_sep :
  Match ⟨"*[/a]*"⟩ ⟨"a/"⟩ = RMatch false /\ glob ⟨"*[/a]*"⟩ ⟨"a/"⟩ = RMatch true.
Proof. split; vm_compute; reflexivity. Qed.

Lemma Match_glob_witness :
  no_sep ⟨"sb1.d"⟩ = true /\ Match ⟨"s[a-c]?.d"⟩ ⟨"sb1.d"⟩ = glob ⟨"s[a-c]?.d"⟩ ⟨"sb1.d"⟩.
Proof. split; [reflexivity|]. apply Match_glob. reflexivity. Defined.

Lemma include_match_glob_witness :
  no_sep ⟨"Sample.Raw"⟩ = true /\
  include_match ⟨"*.RAW"⟩ ⟨"Sample.Raw"⟩ =
  match parse_pattern (ToLower ⟨"*.RAW"⟩) with Some its => gmatch its (ToLower ⟨"Sample.Raw"⟩) | None => false end.
Proof. split; [reflexivity|]. apply include_match_glob. reflexivity. Defined.
