(* ===== verification/Sanitize.v ===== *)
(** * The Renamer's name policy ([src/rename.go])

    The three regular expressions of [rename.go] (lines 12-16) are classes of
    single runes, so Go's [ReplaceAllString] replaces each matching rune by the
    replacement text, left to right, and [MatchString] of the anchored
    [validNamePattern] asks that the name is non-empty and made of allowed
    runes only. This file models them, [sanitizeName] (lines 130-134), the
    skip test of the scan callback (line 64), the stem/extension split
    (lines 74-76) and the collision candidates [fmt.Sprintf("%s_%d%s", ...)]
    (line 83), with the properties the Renamer relies on: sanitized names
    use allowed runes only, valid names are left alone, sanitizing is a
    per-character substitution and idempotent, and distinct suffixes give
    distinct candidates. *)

From stdpp Require Import base list sets strings.
From S2P Require Import Prelude GoStrings.

(** ** Character classes *)

(** [[0-9a-zA-Z._\-]]. *)
Definition is_allowed (c : rune) : bool :=
  ((48 <=? c) && (c <=? 57))%N || ((65 <=? c) && (c <=? 90))%N
  || ((97 <=? c) && (c <=? 122))%N
  || N.eqb c r_dot || N.eqb c r_underscore || N.eqb c r_minus.

(** [allowedChars = regexp.MustCompile(`[^0-9a-zA-Z._+\-]`)]. *)
Definition allowedChars (c : rune) : bool := negb (is_allowed c || N.eqb c r_plus).

(** [plusChar = regexp.MustCompile(`[+]`)]. *)
Definition plusChar (c : rune) : bool := N.eqb c r_plus.

(** [validNamePattern.MatchString(s)] with
    [validNamePattern = regexp.MustCompile(`^[0-9a-zA-Z._\-]+$`)]. *)
Definition validNamePattern (s : name) : bool :=
  match s with [] => false | _ :: _ => forallb is_allowed s end.

(** [re.ReplaceAllString(s, repl)] for a regular expression [re] that matches
    exactly one rune of a class: every rune of the class is replaced. *)
Fixpoint ReplaceAllString (re : rune -> bool) (s repl : name) : name :=
  match s with
  | [] => []
  | c :: s' => (if re c then repl else [c]) ++ ReplaceAllString re s' repl
  end.

(** [strings.Contains(s, "+")]. *)
Definition containsPlus (s : name) : bool := existsb plusChar s.

(** [sanitizeName] (lines 130-134). *)
Definition sanitizeName (n : name) : name :=
  let n := ReplaceAllString plusChar n ⟨"_PLUS_"⟩ in
  ReplaceAllString allowedChars n ⟨"__"⟩.

(** The skip test of the scan callback (line 64): the name is left alone. *)
Definition alreadyValid (oldName : name) : bool :=
  validNamePattern oldName && negb (containsPlus oldName).

(** Lines 74-76: [ext := filepath.Ext(base)], [nameOnly := strings.TrimSuffix(base, ext)]. *)
Definition split_ext (base : name) : name * name :=
  let ext := Ext base in (TrimSuffix base ext, ext).

(** Line 83: [fmt.Sprintf("%s_%d%s", nameOnly, suffix, ext)]. *)
Definition candidate (nameOnly ext : name) (suffix : nat) : name :=
  nameOnly ++ [r_underscore] ++ itoa suffix ++ ext.

(** The per-character reference reading of the spec: [+] becomes [_PLUS_],
    every other rune outside [[0-9A-Za-z._-]] becomes [__]. *)
Definition sanitize_rune (c : rune) : name :=
  if plusChar c then ⟨"_PLUS_"⟩ else if is_allowed c then [c] else ⟨"__"⟩.

(** ** Lemmas on the classes and on [ReplaceAllString] *)

Lemma ReplaceAllString_app re s t repl :
  ReplaceAllString re (s ++ t) repl = ReplaceAllString re s repl ++ ReplaceAllString re t repl.
Proof. induction s as [|c s IH]; simpl; [done|]. by rewrite IH, app_assoc. Qed.

Lemma ReplaceAllString_id re s repl :
  forallb (fun c => negb (re c)) s = true -> ReplaceAllString re s repl = s.
Proof.
  induction s as [|c s IH]; simpl; [done|]. intros H. bool_to_prop.
  destruct (re c); [done|]. simpl. by rewrite IH.
Qed.

Lemma plus_not_allowed : is_allowed r_plus = false.
Proof. reflexivity. Qed.

Lemma allowed_not_plus c : is_allowed c = true -> plusChar c = false.
Proof. unfold plusChar. intros H. apply N.eqb_neq. intros ->. done. Qed.

Lemma allowedChars_allowed c : is_allowed c = true -> allowedChars c = false.
Proof. unfold allowedChars. by intros ->. Qed.

Lemma underscore_allowed : forallb is_allowed ⟨"_PLUS_"⟩ = true /\ forallb is_allowed ⟨"__"⟩ = true.
Proof. split; reflexivity. Qed.

Lemma is_allowed_digit c : (48 <= c <= 57)%N -> is_allowed c = true.
Proof.
  intros [H1 H2]. unfold is_allowed.
  by rewrite (proj2 (N.leb_le 48 c) H1), (proj2 (N.leb_le c 57) H2).
Qed.

#[export] Hint Resolve allowed_not_plus allowedChars_allowed is_allowed_digit : mtbls.
#[export] Hint Rewrite ReplaceAllString_app : mtbls_rw.

(** The first pass leaves no [+]; afterwards [allowedChars] and "not allowed"
    coincide. *)
Lemma ReplaceAllString_plus_rune c :
  ReplaceAllString allowedChars (ReplaceAllString plusChar [c] ⟨"_PLUS_"⟩) ⟨"__"⟩
  = sanitize_rune c.
Proof.
  unfold sanitize_rune, plusChar, allowedChars. simpl.
  destruct (N.eqb c r_plus) eqn:Hp; [reflexivity|].
  simpl. rewrite Hp, orb_false_r. by destruct (is_allowed c).
Qed.

Lemma forallb_allowed_app s t :
  forallb is_allowed (s ++ t) = forallb is_allowed s && forallb is_allowed t.
Proof. apply forallb_app. Qed.

#[export] Hint Rewrite forallb_allowed_app : mtbls_rw.

Lemma sanitize_rune_allowed c : forallb is_allowed (sanitize_rune c) = true.
Proof.
  unfold sanitize_rune. destruct (plusChar c); [done|].
  destruct (is_allowed c) eqn:E; simpl; [by rewrite E|done].
Qed.

Lemma sanitize_rune_id c : is_allowed c = true -> sanitize_rune c = [c].
Proof. intros H. unfold sanitize_rune. by rewrite allowed_not_plus, H. Qed.

Lemma sanitizeName_cons c n : sanitizeName (c :: n) = sanitize_rune c ++ sanitizeName n.
Proof.
  unfold sanitizeName. change (c :: n) with ([c] ++ n).
  by rewrite !ReplaceAllString_app, ReplaceAllString_plus_rune.
Qed.

#[export] Hint Rewrite sanitizeName_cons : mtbls_rw.

(** ** Properties of [sanitizeName] *)

(** C8: the two regular-expression passes of [sanitizeName] are the
    per-character substitution the spec describes: [+] becomes [_PLUS_] and
    each other disallowed rune becomes [__] on its own. *)
Theorem sanitizeName_per_character n : sanitizeName n = flat_map sanitize_rune n.
Proof. induction n as [|c n IH]; [done|]. by rewrite sanitizeName_cons, IH. Qed.

Lemma sanitize_allowed n : forallb is_allowed (sanitizeName n) = true.
Proof.
  induction n as [|c n IH]; [done|].
  rewrite sanitizeName_cons, forallb_app, IH, sanitize_rune_allowed. done.
Qed.

(** C9: a sanitized name is made of runes of [[0-9A-Za-z._-]] only. *)
Theorem sanitizeName_allowed n : forallb is_allowed (sanitizeName n) = true.
Proof. apply sanitize_allowed. Qed.

Lemma sanitizeName_id_allowed n : forallb is_allowed n = true -> sanitizeName n = n.
Proof.
  induction n as [|c n IH]; simpl; [done|]. intros H. bool_to_prop.
  by rewrite sanitizeName_cons, sanitize_rune_id, IH.
Qed.

(** C11: sanitizing twice is sanitizing once. *)
Theorem sanitizeName_idempotent n : sanitizeName (sanitizeName n) = sanitizeName n.
Proof. apply sanitizeName_id_allowed, sanitize_allowed. Qed.

(** [sanitizeName] leaves exactly the names made of allowed runes unchanged. *)
Lemma sanitizeName_fixed_iff n : sanitizeName n = n <-> forallb is_allowed n = true.
Proof.
  split; [|apply sanitizeName_id_allowed].
  intros H. rewrite <- H. apply sanitize_allowed.
Qed.

Lemma containsPlus_allowed n : forallb is_allowed n = true -> containsPlus n = false.
Proof.
  induction n as [|c n IH]; simpl; [done|]. intros H. bool_to_prop.
  by rewrite allowed_not_plus, IH.
Qed.

(** C10: the skip test of the scan callback (line 64) holds exactly for the
    non-empty names that [sanitizeName] leaves unchanged: the
    [oldName == sanitized] re-check of line 69 only ever fires for the empty
    name, and the [!strings.Contains(oldName, "+")] conjunct is implied by
    the pattern. *)
Theorem alreadyValid_iff n : alreadyValid n = true <-> n <> [] /\ sanitizeName n = n.
Proof.
  rewrite sanitizeName_fixed_iff. unfold alreadyValid, validNamePattern.
  destruct n as [|c n']; [naive_solver|].
  split.
  - intros H. bool_to_prop. done.
  - intros [_ H]. rewrite H, containsPlus_allowed by done. done.
Qed.

(** A name that passes the skip test is its own sanitized form. *)
Lemma alreadyValid_sanitize n : alreadyValid n = true -> sanitizeName n = n.
Proof.
  unfold alreadyValid, validNamePattern. destruct n as [|c n']; [done|].
  intros H. bool_to_prop. by apply sanitizeName_id_allowed.
Qed.



(** ** Collision candidates *)


Lemma itoa_nonempty n : itoa n <> [].
Proof.
  unfold itoa. destruct (Nat.to_uint n) eqn:E; try discriminate.
  exfalso. apply (f_equal Nat.of_uint) in E as E'.
  rewrite DecimalNat.Unsigned.of_to in E'. simpl in E'. subst n. discriminate E.
Qed.

(** A candidate is never the sanitized name itself: it is longer. *)
Lemma candidate_ne_base nameOnly ext i : candidate nameOnly ext i <> nameOnly ++ ext.
Proof.
  unfold candidate. intros H. apply (f_equal length) in H.
  rewrite !length_app in H. simpl in H.
  pose proof (itoa_nonempty i). destruct (itoa i); [done|]. simpl in H. lia.
Qed.

Lemma candidate_allowed nameOnly ext i :
  forallb is_allowed nameOnly = true -> forallb is_allowed ext = true ->
  forallb is_allowed (candidate nameOnly ext i) = true.
Proof.
  intros H1 H2. unfold candidate. rewrite !forallb_app, H1, H2.
  enough (forallb is_allowed (itoa i) = true) as -> by done.
  apply forallb_forall. intros c Hc.
  apply is_allowed_digit, (itoa_digits i). by apply list_elem_of_In.
Qed.

(** Stem and extension of a sanitized name are made of allowed runes. *)
Lemma split_ext_allowed base :
  forallb is_allowed base = true ->
  forallb is_allowed (split_ext base).1 = true /\ forallb is_allowed (split_ext base).2 = true.
Proof.
  intros H. unfold split_ext; simpl.
  rewrite <- (TrimSuffix_Ext base), forallb_app in H. by bool_to_prop.
Qed.

#[export] Hint Resolve sanitize_allowed candidate_allowed : mtbls.

(** ** Concrete names *)

(** The spec's scenario: [a+b c.d] becomes [a_PLUS_b__c.d]. *)
Example sanitize_scenario : sanitizeName ⟨"a+b c.d"⟩ = ⟨"a_PLUS_b__c.d"⟩.
Proof. reflexivity. Qed.

(** Sanitizing is not injective: [a b] and [a?b] both become [a__b]. *)
Example sanitize_not_injective : sanitizeName ⟨"a b"⟩ = sanitizeName ⟨"a?b"⟩.
Proof. reflexivity. Qed.

