(* ===== verification/FileSystem.v ===== *)
(** * The file system both tools act on

    A file-system tree ([node]) whose directories list their entries sorted by
    name, as [os.ReadDir] returns them; each node carries its read permission,
    so the read errors that [filepath.Walk] and [filepath.WalkDir] report are
    modelled. File contents are a parameter [D]. On the tree: [lookup]
    ([os.Stat]/[os.Lstat]), the entry updates [put_entry]/[del_entry] that keep
    a directory sorted, [rename] (Go's [os.Rename] on Unix: it refuses an
    existing directory as target, then follows rename(2)), and the sequences
    of callback invocations of [filepath.WalkDir] and [filepath.Walk]. The
    invariant [wf] (entries strictly sorted, components non-empty, free of
    [/], not [.] or [..]) is preserved by [rename]. *)

From stdpp Require Import base list sets strings.
From S2P Require Import Prelude GoStrings.

(** ** The tree *)

Inductive node (D : Type) :=
| File (readable : bool) (data : D)
| Dir (readable : bool) (entries : list (name * node D)).
Arguments File {D} _ _.
Arguments Dir {D} _ _.

(** Errors of the system calls, as far as the tools distinguish them. *)
Inductive fs_error :=
| ErrNotExist    (* ENOENT *)
| ErrExist       (* EEXIST: Go's os.Rename onto an existing directory *)
| ErrNotDir      (* ENOTDIR *)
| ErrIsDir       (* EISDIR *)
| ErrInvalid     (* EINVAL: a directory moved below itself *)
| ErrNotEmpty    (* ENOTEMPTY *)
| ErrPermission  (* EACCES *)
| ErrBusy.       (* EBUSY: removing the root *)

#[export] Instance fs_error_eq_dec : EqDecision fs_error.
Proof. solve_decision. Defined.

Section FS.
Context {D : Type}.

Abbreviation node := (node D).
Abbreviation entries := (list (name * node)).

(** Induction on trees, with a hypothesis for every entry of a directory. *)
Fixpoint node_ind' (P : node -> Prop)
    (Hf : forall r d, P (File r d))
    (Hd : forall r es, Forall (fun e => P e.2) es -> P (Dir r es))
    (t : node) : P t :=
  match t with
  | File r d => Hf r d
  | Dir r es =>
      Hd r es ((fix go (es : entries) : Forall (fun e => P e.2) es :=
                  match es with
                  | [] => Forall_nil_2 _
                  | e :: es' => Forall_cons_2 _ _ _ (node_ind' P Hf Hd e.2) (go es')
                  end) es)
  end.

Definition is_dir (t : node) : bool := match t with Dir _ _ => true | File _ _ => false end.

Definition readable (t : node) : bool :=
  match t with File r _ => r | Dir r _ => r end.

(** The first entry named [x]. *)
Fixpoint find_entry (x : name) (es : entries) : option node :=
  match es with
  | [] => None
  | (y, c) :: es' => if bool_decide (x = y) then Some c else find_entry x es'
  end.

(** [os.Stat(p)]: the node at path [p] (no symbolic links are modelled, so
    [os.Lstat] is the same). *)
Fixpoint lookup (t : node) (p : path) : option node :=
  match p with
  | [] => Some t
  | x :: p' =>
      match t with
      | File _ _ => None
      | Dir _ es => match find_entry x es with Some c => lookup c p' | None => None end
      end
  end.

(** [rename.go]'s [fileExists]: [os.Stat] succeeds. *)
Definition exists_path (t : node) (p : path) : bool :=
  match lookup t p with Some _ => true | None => false end.

(** Every path of the tree, the root [[]] first. *)
Fixpoint paths (t : node) : list path :=
  match t with
  | File _ _ => [[]]
  | Dir _ es => [] :: flat_map (fun e => map (cons e.1) (paths e.2)) es
  end.

(** Insert or replace the entry [x], keeping the names sorted. *)
Fixpoint put_entry (x : name) (n : node) (es : entries) : entries :=
  match es with
  | [] => [(x, n)]
  | (y, c) :: es' =>
      match name_compare x y with
      | Lt => (x, n) :: es
      | Eq => (x, n) :: es'
      | Gt => (y, c) :: put_entry x n es'
      end
  end.

(** Remove the entry [x]. *)
Fixpoint del_entry (x : name) (es : entries) : entries :=
  match es with
  | [] => []
  | (y, c) :: es' => if bool_decide (x = y) then es' else (y, c) :: del_entry x es'
  end.

(** Apply [f] to the entries of the directory at [p]; [None] when there is
    no directory there. *)
Fixpoint update_dir (t : node) (p : path) (f : entries -> entries) : option node :=
  match t, p with
  | Dir r es, [] => Some (Dir r (f es))
  | Dir r es, x :: p' =>
      match find_entry x es with
      | Some c =>
          match update_dir c p' f with
          | Some c' => Some (Dir r (put_entry x c' es))
          | None => None
          end
      | None => None
      end
  | File _ _, _ => None
  end.

Definition parent (p : path) : path := removelast p.
Definition base (p : path) : name := List.last p [].

(** A proper prefix of a path is one of its ancestors. *)
Definition strict_prefix (a b : path) : Prop := exists s, s <> [] /\ b = a ++ s.

Definition strict_prefixb (a b : path) : bool :=
  bool_decide (length a < length b) && bool_decide (take (length a) b = a).

(** [os.Rename(src, dst)] on Unix. Go's [rename] first refuses a target that is
    an existing directory ([EEXIST]); rename(2) then needs the source, refuses
    to move a directory below itself or onto a file, does nothing when source
    and target are the same file, and otherwise detaches the source and
    attaches it at the target, replacing a file found there. *)
Definition rename (t : node) (src dst : path) : node + fs_error :=
  match lookup t dst with
  | Some (Dir _ _) => inr ErrExist
  | odst =>
      match lookup t src with
      | None => inr ErrNotExist
      | Some n =>
          if strict_prefixb src dst then inr ErrInvalid
          else match n, odst with
          | Dir _ _, Some (File _ _) => inr ErrNotDir
          | _, _ =>
              if bool_decide (src = dst) then inl t
              else match lookup t (parent dst) with
              | Some (Dir _ _) =>
                  match update_dir t (parent src) (del_entry (base src)) with
                  | Some t1 =>
                      match update_dir t1 (parent dst) (put_entry (base dst) n) with
                      | Some t2 => inl t2
                      | None => inr ErrNotExist
                      end
                  | None => inr ErrNotExist
                  end
              | Some (File _ _) => inr ErrNotDir
              | None => inr ErrNotExist
              end
          end
      end
  end.

(** ** Well-formedness *)

Fixpoint sorted_names (es : entries) : bool :=
  match es with
  | (x, _) :: (((y, _) :: _) as es') => name_ltb x y && sorted_names es'
  | _ => true
  end.

(** A path component: non-empty, no separator, not [.] or [..]. *)
Definition valid_component (x : name) : bool :=
  bool_decide (x <> []) && negb (existsb is_sep x)
  && bool_decide (x <> ⟨"."⟩) && bool_decide (x <> ⟨".."⟩).

Fixpoint wf (t : node) : bool :=
  match t with
  | File _ _ => true
  | Dir _ es => sorted_names es && forallb (fun e => valid_component e.1 && wf e.2) es
  end.


(** ** Directory entries *)

Lemma find_entry_put x y n (es : entries) :
  find_entry y (put_entry x n es) = if bool_decide (y = x) then Some n else find_entry y es.
Proof.
  induction es as [|[z c] es IH]; simpl; [done|].
  destruct (name_compare x z) eqn:E; simpl.
  - apply name_compare_eq in E. subst. by repeat case_bool_decide.
  - done.
  - rewrite IH. repeat case_bool_decide; subst; try done.
    by rewrite name_compare_refl in E.
Qed.

Lemma find_entry_Some x (es : entries) c : find_entry x es = Some c -> In (x, c) es.
Proof.
  induction es as [|[y d] es IH]; simpl; [done|].
  case_bool_decide as Hxy; [intros Hc; injection Hc as ->; subst; auto|auto].
Qed.

Lemma find_entry_None x (es : entries) : find_entry x es = None -> x ∉ map fst es.
Proof.
  induction es as [|[y d] es IH]; simpl; [set_solver|].
  case_bool_decide as Hxy; [done|]. intros Hn. specialize (IH Hn). set_solver.
Qed.

(** All names of [es] are above [x]. *)
Definition names_above (x : name) (es : entries) : Prop :=
  Forall (fun e => name_ltb x e.1 = true) es.

Lemma sorted_names_cons x c (es : entries) :
  sorted_names ((x, c) :: es) = true <-> names_above x es /\ sorted_names es = true.
Proof.
  unfold names_above. revert x c; induction es as [|[y d] es IH]; intros x c.
  - simpl. split; [intros _; split; [constructor|done]|done].
  - change (sorted_names ((x, c) :: (y, d) :: es))
      with (name_ltb x y && sorted_names ((y, d) :: es)).
    rewrite andb_true_iff, IH, Forall_cons. simpl. split.
    + intros (Hxy & Hy & Hs). repeat split; try done.
      eapply Forall_impl; [exact Hy|]. intros e He. eauto using name_ltb_trans.
    + intros ((Hxy & _) & Hy & Hs). done.
Qed.

Lemma names_above_not_in x (es : entries) : names_above x es -> x ∉ map fst es.
Proof.
  unfold names_above. rewrite Forall_forall. intros H Hin.
  apply list_elem_of_In, in_map_iff in Hin as [[y c] [Hy Hin]]. simpl in Hy. subst.
  apply list_elem_of_In in Hin. specialize (H _ Hin). simpl in H.
  by rewrite name_ltb_irrefl in H.
Qed.

Lemma sorted_names_NoDup (es : entries) : sorted_names es = true -> NoDup (map fst es).
Proof.
  induction es as [|[x c] es IH]; [intros; constructor|].
  intros H. apply sorted_names_cons in H as [Ha Hs].
  apply NoDup_cons; split; [by apply names_above_not_in|by apply IH].
Qed.

Lemma names_above_put z x n (es : entries) :
  name_ltb z x = true -> names_above z es -> names_above z (put_entry x n es).
Proof.
  unfold names_above. intros Hzx. induction es as [|[y c] es IH]; simpl; intros H.
  - by constructor.
  - inversion H; subst. destruct (name_compare x y); repeat constructor; auto.
Qed.

Lemma sorted_put x n (es : entries) :
  sorted_names es = true -> sorted_names (put_entry x n es) = true.
Proof.
  induction es as [|[y c] es IH]; [done|].
  intros H. pose proof H as H'. cbn [put_entry]. apply sorted_names_cons in H' as [Ha Hs].
  destruct (name_compare x y) eqn:E.
  - apply name_compare_eq in E. subst. apply sorted_names_cons. by split.
  - apply sorted_names_cons. split; [|done]. constructor; [|].
    + unfold name_ltb. simpl. by rewrite E.
    + eapply Forall_impl; [exact Ha|]. intros e He. apply (name_ltb_trans _ y); [|done].
      unfold name_ltb. by rewrite E.
  - apply sorted_names_cons. split; [|auto]. apply names_above_put; [|done].
    unfold name_ltb. rewrite name_compare_antisym, E. done.
Qed.

Lemma names_above_del z x (es : entries) : names_above z es -> names_above z (del_entry x es).
Proof.
  unfold names_above. induction es as [|[y c] es IH]; simpl; intros H; [done|].
  inversion H; subst. case_bool_decide; [done|]. constructor; auto.
Qed.

Lemma sorted_del x (es : entries) :
  sorted_names es = true -> sorted_names (del_entry x es) = true.
Proof.
  induction es as [|[y c] es IH]; [done|].
  intros H. apply sorted_names_cons in H as [Ha Hs]. cbn [del_entry].
  case_bool_decide; [done|]. apply sorted_names_cons. split; [|auto].
  by apply names_above_del.
Qed.

Lemma find_entry_del x y (es : entries) :
  NoDup (map fst es) ->
  find_entry y (del_entry x es) = if bool_decide (y = x) then None else find_entry y es.
Proof.
  induction es as [|[z c] es IH]; intros Hnd; cbn [del_entry find_entry].
  - by case_bool_decide.
  - apply NoDup_cons in Hnd as [Hz Hnd].
    destruct (decide (x = z)) as [->|Hxz].
    + rewrite bool_decide_eq_true_2 by done.
      destruct (decide (y = z)) as [->|Hyz].
      * rewrite bool_decide_eq_true_2 by done.
        destruct (find_entry z es) eqn:E; [|done].
        apply find_entry_Some in E. exfalso. apply Hz.
        apply list_elem_of_In, in_map_iff. by exists (z, n).
      * by rewrite !bool_decide_eq_false_2 by done.
    + rewrite (bool_decide_eq_false_2 (x = z)) by done. cbn [find_entry].
      rewrite IH by done.
      destruct (decide (y = x)) as [->|Hyx].
      * by rewrite (bool_decide_eq_true_2 (x = x)), (bool_decide_eq_false_2 (x = z)) by done.
      * by rewrite (bool_decide_eq_false_2 (y = x)) by done.
Qed.

(** ** The walks *)

(** One invocation [fn(path, d, err)] of a walk callback; [wc_err] says that
    it reports the failure to read the directory [wc_path]. *)
Record wcall := WCall { wc_path : path; wc_node : node; wc_err : bool }.

(** [filepath.WalkDir(root, fn)] for a callback that never returns
    [filepath.SkipDir]: [fn] on the entry itself first; for a directory,
    then, when [os.ReadDir] fails, [fn] once more with the error, otherwise the
    entries in the sorted order [os.ReadDir] returns them. *)
Fixpoint walkdir_calls (p : path) (t : node) : list wcall :=
  match t with
  | File _ _ => [WCall p t false]
  | Dir r es =>
      WCall p t false ::
        (if r then flat_map (fun e => walkdir_calls (p </> e.1) e.2) es
         else [WCall p t true])
  end.

(** [filepath.Walk(root, fn)]: a directory is read first and [fn] is called
    once, with the read error if there is one; the entries follow only when
    the read succeeded. *)
Fixpoint walk_calls (p : path) (t : node) : list wcall :=
  match t with
  | File _ _ => [WCall p t false]
  | Dir r es =>
      if r then WCall p t false :: flat_map (fun e => walk_calls (p </> e.1) e.2) es
      else [WCall p t true]
  end.

(** ** Lookup *)

Lemma lookup_app t p q :
  lookup t (p ++ q) = match lookup t p with Some c => lookup c q | None => None end.
Proof.
  revert t; induction p as [|x p IH]; intros t; simpl; [done|].
  destruct t as [r d|r es]; [done|]. destruct (find_entry x es); [apply IH|done].
Qed.

(** Every path that [os.Stat] finds is among [paths]. *)
Lemma lookup_in_paths t p n : lookup t p = Some n -> In p (paths t).
Proof.
  revert t; induction p as [|x p IH]; intros t; simpl.
  - intros _. destruct t; by left.
  - destruct t as [r d|r es]; [done|].
    destruct (find_entry x es) as [c|] eqn:E; [|done]. intros Hl.
    right. apply in_flat_map. exists (x, c). split; [by apply find_entry_Some|].
    apply in_map. eauto.
Qed.

Lemma put_entry_elem x n e (es : entries) : In e (put_entry x n es) -> e = (x, n) \/ In e es.
Proof.
  induction es as [|[y c] es IH]; simpl; [naive_solver|].
  destruct (name_compare x y); simpl; naive_solver.
Qed.

Lemma del_entry_elem x e (es : entries) : In e (del_entry x es) -> In e es.
Proof.
  induction es as [|[y c] es IH]; simpl; [done|].
  case_bool_decide; simpl; naive_solver.
Qed.

Lemma wf_dir r (es : entries) :
  wf (Dir r es) = true <->
  sorted_names es = true /\ (forall e, In e es -> valid_component e.1 = true /\ wf e.2 = true).
Proof.
  simpl. split.
  - intros H. apply andb_prop in H as [Hs Hf]. split; [done|]. intros e He.
    eapply forallb_forall in Hf; [|exact He]. by apply andb_prop in Hf.
  - intros [Hs Hf]. apply andb_true_intro. split; [done|].
    apply forallb_forall. intros e He. apply andb_true_intro. by apply Hf.
Qed.

Lemma lookup_wf t p n : wf t = true -> lookup t p = Some n -> wf n = true.
Proof.
  revert t; induction p as [|x p IH]; intros t Hwf; simpl; [by intros [= <-]|].
  destruct t as [r d|r es]; [done|].
  destruct (find_entry x es) as [c|] eqn:E; [|done].
  apply IH. apply wf_dir in Hwf as [_ Hes].
  apply find_entry_Some in E. apply (Hes _ E).
Qed.

(** Updating a directory's entries keeps the tree well formed when the update
    does. *)
Lemma update_dir_wf t p f t' :
  (forall r es, wf (Dir r es) = true -> wf (Dir r (f es)) = true) ->
  wf t = true -> update_dir t p f = Some t' -> wf t' = true.
Proof.
  intros Hf. revert t t'; induction p as [|x p IH]; intros t t' Hwf.
  - destruct t; simpl; [done|]. intros [= <-]. by apply Hf.
  - destruct t as [r d|r es]; simpl; [done|].
    destruct (find_entry x es) as [c|] eqn:E; [|done].
    destruct (update_dir c p f) as [c'|] eqn:Ec; [|done]. intros [= <-].
    apply wf_dir in Hwf as [Hs Hes]. apply find_entry_Some in E as Hin.
    apply wf_dir. split; [by apply sorted_put|].
    intros e He. apply put_entry_elem in He as [->|He]; [|by apply Hes].
    split; [apply (Hes _ Hin)|]. apply (IH c); [apply (Hes _ Hin)|done].
Qed.

Lemma del_entry_wf x r (es : entries) :
  wf (Dir r es) = true -> wf (Dir r (del_entry x es)) = true.
Proof.
  rewrite !wf_dir. intros [Hs Hes]. split; [by apply sorted_del|].
  intros e He. apply Hes. by apply del_entry_elem in He.
Qed.

Lemma put_entry_wf x n r (es : entries) :
  valid_component x = true -> wf n = true ->
  wf (Dir r es) = true -> wf (Dir r (put_entry x n es)) = true.
Proof.
  rewrite !wf_dir. intros Hx Hn [Hs Hes]. split; [by apply sorted_put|].
  intros e He. apply put_entry_elem in He as [->|He]; [done|by apply Hes].
Qed.

(** Detaching an entry and attaching a well-formed node under a valid name
    keeps the tree well formed. *)
Lemma move_wf t q1 q2 y x n t1 t2 :
  wf t = true -> valid_component x = true -> wf n = true ->
  update_dir t q1 (del_entry y) = Some t1 ->
  update_dir t1 q2 (put_entry x n) = Some t2 -> wf t2 = true.
Proof.
  intros Hwf Hx Hn E1 E2.
  assert (wf t1 = true) as Ht1.
  { eapply update_dir_wf; [|exact Hwf|exact E1]. intros r es. apply del_entry_wf. }
  eapply update_dir_wf; [|exact Ht1|exact E2]. intros r es. by apply put_entry_wf.
Qed.

Lemma rename_keeps_wf t src dst t' :
  wf t = true -> valid_component (base dst) = true ->
  rename t src dst = inl t' -> wf t' = true.
Proof.
  intros Hwf Hv. unfold rename.
  repeat case_match; intros Heq; simplify_eq; try done.
  all: refine (move_wf _ _ _ _ _ _ _ _ Hwf Hv _ ltac:(eassumption) ltac:(eassumption)).
  all: eapply lookup_wf; [exact Hwf|eassumption].
Qed.


Lemma base_snoc p x : base (p </> x) = x.
Proof. apply last_app_single. Qed.

Lemma parent_snoc p x : parent (p </> x) = p.
Proof. apply removelast_app_single. Qed.

(** ** Order of the walk *)

Lemma not_strict_prefix_ext p s : ~ strict_prefix (p ++ s) p.
Proof.
  intros [s' [Hs' Heq]]. apply (f_equal length) in Heq.
  rewrite !length_app in Heq. destruct s'; [done|]. simpl in Heq. lia.
Qed.

(** Paths below two different entries of a directory are not ancestors of
    each other. *)
Lemma not_strict_prefix_siblings p x y s1 s2 :
  x <> y -> ~ strict_prefix ((p </> y) ++ s2) ((p </> x) ++ s1).
Proof.
  intros Hxy [s [_ Heq]]. rewrite <- !app_assoc in Heq. simpl in Heq.
  apply app_inv_head in Heq. by injection Heq.
Qed.

Lemma walkdir_calls_prefix p t c :
  In c (walkdir_calls p t) -> exists s, wc_path c = p ++ s.
Proof.
  revert p c. induction t as [r d|r es IH] using node_ind'; intros p c; simpl.
  - intros [<-|[]]. exists []. by rewrite app_nil_r.
  - intros [<-|Hc]; [exists []; by rewrite app_nil_r|].
    destruct r; [|destruct Hc as [<-|[]]; exists []; by rewrite app_nil_r].
    apply in_flat_map in Hc as [e [He Hc]].
    rewrite List.Forall_forall in IH. destruct (IH e He (p </> e.1) c Hc) as [s Hs].
    exists (e.1 :: s). by rewrite Hs, <- app_assoc.
Qed.

(** The walk visits the entries of one directory after the other: a call on
    a path below the first entry is never followed by a call on its
    ancestor. *)
Lemma flat_map_walk_ordered p x c (es : entries) :
  names_above x es ->
  forall a b, In a (walkdir_calls (p </> x) c) ->
  In b (flat_map (fun e => walkdir_calls (p </> e.1) e.2) es) ->
  ~ strict_prefix (wc_path b) (wc_path a).
Proof.
  intros Ha a b HA HB. apply in_flat_map in HB as [e [He HB]].
  destruct (walkdir_calls_prefix _ _ _ HA) as [s1 ->].
  destruct (walkdir_calls_prefix _ _ _ HB) as [s2 ->].
  apply not_strict_prefix_siblings. unfold names_above in Ha.
  rewrite List.Forall_forall in Ha. apply name_ltb_neq. by apply Ha.
Qed.

Lemma walkdir_order p t :
  wf t = true ->
  ForallOrdPairs (fun c c' => ~ strict_prefix (wc_path c') (wc_path c)) (walkdir_calls p t).
Proof.
  revert p. induction t as [r d|r es IH] using node_ind'; intros p Hwf; simpl.
  - repeat constructor.
  - constructor.
    + apply List.Forall_forall. intros c Hc.
      assert (In c (walkdir_calls p (Dir r es))) as Hin by (simpl; by right).
      destruct (walkdir_calls_prefix _ _ _ Hin) as [s ->]. apply not_strict_prefix_ext.
    + destruct r; [|repeat constructor].
      apply wf_dir in Hwf as [Hs Hes].
      induction es as [|[x c] es IHes]; simpl; [constructor|].
      inversion IH as [|? ? Hc IHrest]; subst.
      apply sorted_names_cons in Hs as [Ha Hs'].
      apply ForallOrdPairs_app.
      * apply Hc. apply (Hes (x, c)). by left.
      * apply IHes; [done|done|]. intros e He. apply Hes. by right.
      * by apply flat_map_walk_ordered.
Qed.

(** C15: [filepath.WalkDir] on a well-formed tree discovers every path before
    its descendants: no call is followed by a call on one of its ancestors. *)
Theorem walkdir_calls_ordered p t :
  wf t = true ->
  ForallOrdPairs (fun c c' => ~ strict_prefix (wc_path c') (wc_path c)) (walkdir_calls p t).
Proof. apply walkdir_order. Qed.

End FS.

Arguments node_ind' {D} P Hf Hd t.

#[export] Hint Resolve sorted_put sorted_del sorted_names_NoDup : mtbls.
#[export] Hint Rewrite @base_snoc @parent_snoc : mtbls_rw.

(** ** Concrete trees *)

Definition ex_fs : node nat :=
  Dir true [(⟨"d"⟩, Dir true [(⟨"a b"⟩, File true 1); (⟨"c"⟩, Dir false [])])].


Lemma walkdir_calls_ordered_witness :
  wf ex_fs = true /\
  ForallOrdPairs (fun c c' => ~ strict_prefix (wc_path c') (wc_path c)) (walkdir_calls [] ex_fs).
Proof.
  assert (Hwf : wf ex_fs = true) by reflexivity.
  split; [exact Hwf|]. exact (walkdir_calls_ordered [] ex_fs Hwf).
Defined.
