(* ===== verification/Renamer.v ===== *)
(** * The Renamer ([src/rename.go])

    [main] (lines 18-128) checks that the root is a directory, collects the
    rename candidates with [filepath.WalkDir] (lines 51-94: the scan callback,
    its skip tests and its collision loop), then walks the candidate list from
    the last to the first (lines 101-112), printing each pair and, unless in
    dry-run mode, calling [os.Rename] and reporting a failure without
    stopping. The model threads the file-system tree through these steps and
    records the printed lines as a log.

    Theorems: the collision loop always ends within its fuel (one more
    iteration than the tree has entries); every planned target is a sibling of
    its source, named by allowed runes only, and absent from the tree when the
    scan ran; valid names and the root are never renamed; the application
    order renames every path before any of its ancestors; dry-run mode
    reports every pair and leaves the tree as it is. The scan checks each
    target against the tree as it was before any rename and never against the
    other planned targets, and [os.Rename] replaces an existing file: two
    siblings whose names sanitize to the same name therefore get the same
    target, and the live run keeps only one of them
    ([live_run_loses_sibling]). *)

From stdpp Require Import base list sets strings.
From S2P Require Import Prelude GoStrings Sanitize FileSystem.

Section Renamer.
Context {D : Type}.

Abbreviation node := (node D).

(** ** The scan (lines 51-94) *)

(** The collision loop (lines 78-86):
    [for fileExists(newPath) && newPath != path { candidate = fmt.Sprintf(...);
    newPath = filepath.Join(dir, candidate); suffix++ }], run with [fuel]
    iterations at most; [None] when the fuel runs out. *)
Fixpoint resolve (fileExists : path -> bool) (p dir : path) (nameOnly ext : name)
    (fuel suffix : nat) (newPath : path) : option path :=
  match fuel with
  | O => None
  | S fuel' =>
      if fileExists newPath && negb (bool_decide (newPath = p))
      then resolve fileExists p dir nameOnly ext fuel' (S suffix)
             (dir </> candidate nameOnly ext suffix)
      else Some newPath
  end.

(** What one invocation of the scan callback does. *)
Inductive scan_out :=
| SReadError (p : path)             (* "Error reading path:" printed, walk goes on *)
| SSkip                             (* the root, or a name left alone *)
| SCandidate (oldPath newPath : path) (* appended to [pathsToRename] *)
| SStuck (p : path).                (* the collision loop ran out of fuel *)

(** The callback of [filepath.WalkDir] (lines 51-94) on one invocation; [fs]
    is the tree as it is during the walk (nothing is renamed before the walk
    ends). *)
Definition scan_entry (fs : node) (root : path) (fuel : nat) (c : @wcall D) : scan_out :=
  if wc_err c then SReadError (wc_path c) else
  let p := wc_path c in
  if bool_decide (p = root) then SSkip else
  let oldName := base p in
  if alreadyValid oldName then SSkip else
  let sanitized := sanitizeName oldName in
  if bool_decide (oldName = sanitized) then SSkip else
  let dir := parent p in
  let '(nameOnly, ext) := split_ext sanitized in
  match resolve (exists_path fs) p dir nameOnly ext fuel 1 (dir </> sanitized) with
  | Some newPath => SCandidate p newPath
  | None => SStuck p
  end.

(** Fuel of the collision loop: one more than the number of entries of the
    tree, enough by [resolve_total]. *)
Definition scan_fuel (fs : node) : nat := S (length (paths fs)).

(** The walk of lines 51-94 over the tree below [root]. *)
Definition scan (fs : node) (root : path) : list scan_out :=
  match lookup fs root with
  | Some t => map (scan_entry fs root (scan_fuel fs)) (walkdir_calls root t)
  | None => []
  end.

(** [pathsToRename]: the candidates, in discovery order. *)
Fixpoint pathsToRename (outs : list scan_out) : list (path * path) :=
  match outs with
  | [] => []
  | SCandidate o n :: outs' => (o, n) :: pathsToRename outs'
  | _ :: outs' => pathsToRename outs'
  end.

(** ** Applying the renames (lines 101-127) *)

Inductive log_line :=
| LInvalid (root : path)                 (* "Invalid folder:" *)
| LReadError (p : path)                  (* "Error reading path:" *)
| LPlan (oldPath newPath : path)         (* "old → new" *)
| LRenameFailed (oldPath newPath : path) (err : fs_error) (* "Rename failed:" *)
| LSummary (dry : bool) (count : nat).   (* the closing line *)

(** The loop of lines 101-112, given the pairs in the order it visits them. *)
Fixpoint apply_renames (dry : bool) (fs : node) (ps : list (path * path)) : node * list log_line :=
  match ps with
  | [] => (fs, [])
  | (o, n) :: ps' =>
      let '(fs1, l1) :=
        if dry then (fs, [LPlan o n])
        else match rename fs o n with
             | inl fs' => (fs', [LPlan o n])
             | inr e => (fs, [LPlan o n; LRenameFailed o n e])
             end in
      let '(fs2, l2) := apply_renames dry fs1 ps' in
      (fs2, l1 ++ l2)
  end.

(** [for i := len(pathsToRename) - 1; i >= 0; i--]: the visiting order. *)
Definition apply_order (outs : list scan_out) : list (path * path) :=
  rev (pathsToRename outs).

Fixpoint scan_log (outs : list scan_out) : list log_line :=
  match outs with
  | [] => []
  | SReadError p :: outs' => LReadError p :: scan_log outs'
  | _ :: outs' => scan_log outs'
  end.

(** [main] after flag parsing (lines 36-127), [root] being the argument with
    its trailing separator trimmed. *)
Definition run (dry : bool) (fs : node) (root : path) : node * list log_line :=
  match lookup fs root with
  | Some (Dir _ _) =>
      let outs := scan fs root in
      let '(fs', l) := apply_renames dry fs (apply_order outs) in
      (fs', scan_log outs ++ l ++ [LSummary dry (length (pathsToRename outs))])
  | _ => (fs, [LInvalid root])
  end.

(** ** The collision loop *)

(** The paths the loop tests when it runs [f] times from [np] and [suffix = k]. *)
Fixpoint tried (dir : path) (nameOnly ext : name) (np : path) (k f : nat) : list path :=
  match f with
  | O => []
  | S f' => np :: tried dir nameOnly ext (dir </> candidate nameOnly ext k) (S k) f'
  end.

Lemma length_tried dir a e np k f : length (tried dir a e np k f) = f.
Proof. revert np k; induction f; simpl; auto. Qed.

(** When the fuel runs out, every tested path exists. *)
Lemma resolve_None ex p dir a e f k np :
  resolve ex p dir a e f k np = None -> Forall (fun q => ex q = true) (tried dir a e np k f).
Proof.
  revert k np; induction f as [|f IH]; intros k np; simpl; [constructor|].
  destruct (ex np) eqn:E; simpl; [|done].
  destruct (bool_decide (np = p)); simpl; [done|]. intros H. constructor; [done|]. by apply IH.
Qed.

Lemma tried_elem dir a e np k f q :
  In q (tried dir a e np k f) -> q = np \/ exists j, k <= j /\ q = dir </> candidate a e j.
Proof.
  revert np k; induction f as [|f IH]; intros np k; simpl; [done|].
  intros [->|Hq]; [by left|]. right.
  destruct (IH _ _ Hq) as [->|[j [Hj ->]]]; [exists k; split; [lia|done]|].
  exists j. split; [lia|done].
Qed.

Lemma candidate_path_inj dir a e i j :
  dir </> candidate a e i = dir </> candidate a e j -> i = j.
Proof.
  intros H. apply app_inj_tail in H as [_ H]. unfold candidate in H.
  apply app_inv_head in H. injection H as H. apply app_inv_tail in H. by apply itoa_inj.
Qed.

(** The tested paths are pairwise distinct when the first one is not a
    candidate. *)
Lemma tried_NoDup dir a e np k f :
  (forall j, k <= j -> np <> dir </> candidate a e j) -> NoDup (tried dir a e np k f).
Proof.
  revert np k; induction f as [|f IH]; intros np k Hnp; simpl; [constructor|].
  constructor.
  - intros Hin. apply list_elem_of_In, tried_elem in Hin as [->|[j [Hj ->]]].
    + by apply (Hnp k).
    + apply (Hnp j); [lia|done].
  - apply IH. intros j Hj Heq. apply candidate_path_inj in Heq. lia.
Qed.

(** The loop ends within one more iteration than there are existing paths. *)
Lemma resolve_total ex p dir a e k np (L : list path) :
  (forall q, ex q = true -> In q L) ->
  (forall j, k <= j -> np <> dir </> candidate a e j) ->
  resolve ex p dir a e (S (length L)) k np <> None.
Proof.
  intros HL Hnp Hnone. apply resolve_None in Hnone.
  assert (length (tried dir a e np k (S (length L))) <= length L) as Hle.
  { apply NoDup_incl_le; [by apply tried_NoDup|].
    intros q Hq. apply HL. by eapply List.Forall_forall in Hnone; [|exact Hq]. }
  rewrite length_tried in Hle. lia.
Qed.

(** What the loop returns: a path that does not exist or is the original
    one, and that is the first tested path or a candidate. *)
Lemma resolve_Some ex p dir a e f k np np' :
  resolve ex p dir a e f k np = Some np' ->
  (ex np' = false \/ np' = p) /\ (np' = np \/ exists j, k <= j /\ np' = dir </> candidate a e j).
Proof.
  revert k np; induction f as [|f IH]; intros k np; simpl; [done|].
  destruct (ex np && negb (bool_decide (np = p))) eqn:E.
  - intros H. destruct (IH _ _ H) as [H1 [->|[j [Hj ->]]]]; split; [done| |done|].
    + right. exists k. split; [lia|done].
    + right. exists j. split; [lia|done].
  - intros [= <-]. split; [|by left].
    destruct (ex np); simpl in E; [|by left]. right. by case_bool_decide.
Qed.

(** ** The scan callback *)

(** The sanitized name is not a candidate of its own stem and extension. *)
Lemma sanitized_not_candidate dir n j :
  dir </> n <> dir </> candidate (split_ext n).1 (split_ext n).2 j.
Proof.
  intros H. apply app_inj_tail in H as [_ H].
  apply (candidate_ne_base (split_ext n).1 (split_ext n).2 j). rewrite <- H. unfold split_ext. simpl.
  by rewrite TrimSuffix_Ext.
Qed.

Lemma scan_entry_candidate fs root fuel c o n :
  scan_entry fs root fuel c = SCandidate o n ->
  o = wc_path c /\ o <> root /\ alreadyValid (base o) = false /\
  sanitizeName (base o) <> base o /\ (exists_path fs n = false \/ n = o) /\
  (n = parent o </> sanitizeName (base o) \/
   exists j, n = parent o </> candidate (split_ext (sanitizeName (base o))).1
                                        (split_ext (sanitizeName (base o))).2 j).
Proof.
  unfold scan_entry.
  destruct (wc_err c); [done|].
  case_bool_decide as Hroot; [done|].
  destruct (alreadyValid (base (wc_path c))) eqn:Hv; [done|].
  case_bool_decide as Hs; [done|].
  destruct (split_ext (sanitizeName (base (wc_path c)))) as [a e] eqn:Hsplit.
  destruct (resolve _ _ _ _ _ _ _ _) as [np|] eqn:Hr; [|done].
  intros [= <- <-]. apply resolve_Some in Hr as [Hfresh Hshape].
  split; [done|]. split; [done|]. split; [done|].
  split; [intros Heq; by apply Hs|]. split; [done|].
  destruct Hshape as [->|[j [_ ->]]]; [by left|right]. exists j. by rewrite Hsplit.
Qed.

Lemma scan_entry_stuck fs root c p :
  scan_entry fs root (scan_fuel fs) c <> SStuck p.
Proof.
  unfold scan_entry, scan_fuel.
  destruct (wc_err c); [done|].
  case_bool_decide; [done|].
  destruct (alreadyValid _); [done|].
  case_bool_decide; [done|].
  destruct (split_ext (sanitizeName (base (wc_path c)))) as [a e] eqn:Hsplit.
  destruct (resolve _ _ _ _ _ _ _ _) as [np|] eqn:Hr; [done|].
  exfalso. revert Hr. apply resolve_total.
  - intros q Hq. unfold exists_path in Hq.
    destruct (lookup fs q) eqn:E; [|done]. by eapply lookup_in_paths.
  - intros j _. pose proof (sanitized_not_candidate (parent (wc_path c))
      (sanitizeName (base (wc_path c))) j) as Hnc. by rewrite Hsplit in Hnc.
Qed.

Lemma pathsToRename_In outs o n : In (o, n) (pathsToRename outs) <-> In (SCandidate o n) outs.
Proof.
  induction outs as [|[] outs IH]; simpl; try naive_solver.
Qed.

Lemma scan_candidate fs root o n :
  In (SCandidate o n) (scan fs root) ->
  exists c, scan_entry fs root (scan_fuel fs) c = SCandidate o n.
Proof.
  unfold scan. destruct (lookup fs root); [|done].
  intros Hin. apply in_map_iff in Hin as [c [Hc _]]. eauto.
Qed.

(** A candidate's base name is not made of allowed runes only. *)
Lemma candidate_base_not_allowed o :
  sanitizeName (base o) <> base o -> forallb is_allowed (base o) = false.
Proof.
  intros H. destruct (forallb is_allowed (base o)) eqn:E; [|done].
  exfalso. by apply H, sanitizeName_fixed_iff.
Qed.

(** ** Properties of the scan *)

(** C4: the collision loop never runs out of its fuel: no scan outcome is
    [SStuck], so the model's bound is the loop's real behaviour. *)
Theorem scan_total fs root p : ~ In (SStuck p) (scan fs root).
Proof.
  unfold scan. destruct (lookup fs root); [|by intros []].
  intros Hin. apply in_map_iff in Hin as [c [Hc _]].
  by apply (scan_entry_stuck fs root c p).
Qed.

(** C2: every planned target is a sibling of its source, its name is made of
    runes of [[0-9A-Za-z._-]] only, and nothing exists at that path when the
    scan runs. *)
Theorem planned_target_fresh fs root o n :
  In (o, n) (pathsToRename (scan fs root)) ->
  parent n = parent o /\ forallb is_allowed (base n) = true /\ exists_path fs n = false.
Proof.
  intros Hin. apply pathsToRename_In, scan_candidate in Hin as [c Hc].
  apply scan_entry_candidate in Hc as (_ & _ & _ & Hs & Hfresh & Hshape).
  assert (parent n = parent o /\ forallb is_allowed (base n) = true) as [Hp Hb].
  { destruct Hshape as [->|[j ->]]; rewrite parent_snoc, base_snoc; split; try done.
    - apply sanitize_allowed.
    - destruct (split_ext_allowed (sanitizeName (base o))) as [H1 H2];
        [apply sanitize_allowed|].
      by apply candidate_allowed. }
  split; [done|]. split; [done|].
  destruct Hfresh as [Hf| ->]; [done|].
  apply candidate_base_not_allowed in Hs. congruence.
Qed.

(** C5: a name that passes the policy (non-empty, [[0-9A-Za-z._-]] only, no
    [+]) is never renamed, and neither is the root. *)
Theorem valid_names_untouched fs root o n :
  In (o, n) (pathsToRename (scan fs root)) -> o <> root /\ alreadyValid (base o) = false.
Proof.
  intros Hin. apply pathsToRename_In, scan_candidate in Hin as [c Hc].
  apply scan_entry_candidate in Hc as (_ & Hr & Hv & _). done.
Qed.

Lemma pathsToRename_map_ordered (f : @wcall D -> scan_out) calls :
  (forall c o n, f c = SCandidate o n -> o = wc_path c) ->
  ForallOrdPairs (fun c c' => ~ strict_prefix (wc_path c') (wc_path c)) calls ->
  ForallOrdPairs (fun a b => ~ strict_prefix b.1 a.1) (pathsToRename (map f calls)).
Proof.
  intros Hf. induction 1 as [|c calls Hc Hcalls IH]; simpl; [constructor|].
  destruct (f c) as [| |o n|] eqn:E; try done.
  constructor; [|done].
  apply List.Forall_forall. intros [o' n'] Hin.
  apply pathsToRename_In, in_map_iff in Hin as [c' [Hc' Hin]].
  rewrite (Hf _ _ _ E), (Hf _ _ _ Hc'). simpl.
  by eapply List.Forall_forall in Hc; [|exact Hin].
Qed.

(** C1: the application loop (lines 101-112) renames every path before any of
    its ancestors: in the visiting order, no pair is followed by a pair whose
    source is a descendant of its own. *)
Theorem bottom_up_order fs root :
  wf fs = true ->
  ForallOrdPairs (fun a b => ~ strict_prefix a.1 b.1) (apply_order (scan fs root)).
Proof.
  intros Hwf. unfold apply_order, scan.
  destruct (lookup fs root) as [t|] eqn:Ht; [|constructor].
  apply (ForallOrdPairs_rev (fun a b => ~ strict_prefix b.1 a.1)).
  apply pathsToRename_map_ordered.
  - intros c o n Hc. by apply scan_entry_candidate in Hc as [-> _].
  - apply walkdir_order. by eapply lookup_wf.
Qed.

(** ** Properties of the application loop *)

Lemma apply_renames_dry fs ps :
  apply_renames true fs ps = (fs, map (fun pr => LPlan pr.1 pr.2) ps).
Proof. induction ps as [|[o n] ps IH]; simpl; [done|]. by rewrite IH. Qed.

(** C6: in dry-run mode the tree is left as it is and the log reports exactly
    the planned pairs, in the order of the application loop. *)
Theorem dry_run_reports_plan fs root :
  run true fs root =
  match lookup fs root with
  | Some (Dir _ _) =>
      let outs := scan fs root in
      (fs, scan_log outs ++ map (fun pr => LPlan pr.1 pr.2) (apply_order outs)
             ++ [LSummary true (length (pathsToRename outs))])
  | _ => (fs, [LInvalid root])
  end.
Proof.
  unfold run. destruct (lookup fs root) as [[]|]; try done.
  by rewrite apply_renames_dry.
Qed.

End Renamer.

(** ** A concrete tree *)

(** [data/], holding [a b/] (with the file [x+y.txt]), [ok.txt] and [z z]. *)
Definition ex_tree : FileSystem.node nat :=
  Dir true [(⟨"data"⟩, Dir true
    [(⟨"a b"⟩, Dir true [(⟨"x+y.txt"⟩, File true 1)]);
     (⟨"ok.txt"⟩, File true 2);
     (⟨"z z"⟩, File true 3)])].

Example ex_scan_pairs :
  apply_order (scan ex_tree [⟨"data"⟩]) =
  [([⟨"data"⟩; ⟨"z z"⟩], [⟨"data"⟩; ⟨"z__z"⟩]);
   ([⟨"data"⟩; ⟨"a b"⟩; ⟨"x+y.txt"⟩], [⟨"data"⟩; ⟨"a b"⟩; ⟨"x_PLUS_y.txt"⟩]);
   ([⟨"data"⟩; ⟨"a b"⟩], [⟨"data"⟩; ⟨"a__b"⟩])].
Proof. vm_compute. reflexivity. Qed.


(** [data/] holding the files [a b] and [a?b], whose names both sanitize to
    [a__b]. *)
Definition ex_clash : FileSystem.node nat :=
  Dir true [(⟨"data"⟩, Dir true [(⟨"a b"⟩, File true 1); (⟨"a?b"⟩, File true 2)])].


(** ** Witnesses *)

Lemma planned_target_fresh_witness :
  In ([⟨"data"⟩; ⟨"z z"⟩], [⟨"data"⟩; ⟨"z__z"⟩]) (pathsToRename (scan ex_tree [⟨"data"⟩])) /\
  (parent [⟨"data"⟩; ⟨"z__z"⟩] = parent [⟨"data"⟩; ⟨"z z"⟩] /\
   forallb is_allowed (base [⟨"data"⟩; ⟨"z__z"⟩]) = true /\
   exists_path ex_tree [⟨"data"⟩; ⟨"z__z"⟩] = false).
Proof.
  assert (Hin : In ([⟨"data"⟩; ⟨"z z"⟩], [⟨"data"⟩; ⟨"z__z"⟩])
                  (pathsToRename (scan ex_tree [⟨"data"⟩]))) by (vm_compute; tauto).
  split; [exact Hin|]. exact (planned_target_fresh ex_tree [⟨"data"⟩] _ _ Hin).
Defined.

Lemma valid_names_untouched_witness :
  In ([⟨"data"⟩; ⟨"a b"⟩], [⟨"data"⟩; ⟨"a__b"⟩]) (pathsToRename (scan ex_tree [⟨"data"⟩])) /\
  ([⟨"data"⟩; ⟨"a b"⟩] <> [⟨"data"⟩] /\ alreadyValid (base [⟨"data"⟩; ⟨"a b"⟩]) = false).
Proof.
  assert (Hin : In ([⟨"data"⟩; ⟨"a b"⟩], [⟨"data"⟩; ⟨"a__b"⟩])
                  (pathsToRename (scan ex_tree [⟨"data"⟩]))) by (vm_compute; tauto).
  split; [exact Hin|]. exact (valid_names_untouched ex_tree [⟨"data"⟩] _ _ Hin).
Defined.

Lemma bottom_up_order_witness :
  wf ex_tree = true /\
  ForallOrdPairs (fun a b => ~ strict_prefix a.1 b.1) (apply_order (scan ex_tree [⟨"data"⟩])).
Proof.
  assert (Hwf : wf ex_tree = true) by reflexivity.
  split; [exact Hwf|]. exact (bottom_up_order ex_tree [⟨"data"⟩] Hwf).
Defined.
