(* ===== verification/RenamerCollision.v ===== *)
(** * The collision loop of the Renamer

    Lines 73-86 of [src/rename.go] try, in order, the paths
    [dir/sanitized], [dir/stem_1.ext], [dir/stem_2.ext], ... and stop at the
    first one that does not exist or is the path being renamed. [nth_try]
    is the path tried at iteration [j]; this file shows that the target the
    scan plans is the first path of that sequence that is free when the scan
    runs, every earlier one being taken. *)

From stdpp Require Import base list strings.
From S2P Require Import Prelude GoStrings Sanitize FileSystem Renamer.

Section Collision.
Context {D : Type}.
Abbreviation node := (FileSystem.node D).

(** The path tested at iteration [j]: [filepath.Join(dir, base)] first
    (lines 78-79), then [filepath.Join(dir, fmt.Sprintf("%s_%d%s", nameOnly,
    j, ext))] with the suffix [j] (lines 83-84). *)
Definition nth_try (dir : path) (base : name) (j : nat) : path :=
  match j with
  | O => dir </> base
  | S _ => dir </> candidate (split_ext base).1 (split_ext base).2 j
  end.

(** The path [resolve] tests at its [j]-th iteration when it starts at
    [np] with the suffix [k]. *)
Definition tried_at (dir : path) (nameOnly ext : name) (np : path) (k j : nat) : path :=
  match j with
  | O => np
  | S j' => dir </> candidate nameOnly ext (k + j')
  end.

Lemma tried_at_shift dir a e np k j :
  tried_at dir a e (dir </> candidate a e k) (S k) j = tried_at dir a e np k (S j).
Proof. destruct j as [|j]; simpl; [by rewrite Nat.add_0_r|do 3 f_equal; lia]. Qed.

(** [resolve] returns the first tested path that is free or the original
    one; all the paths tested before exist and differ from the original. *)
Lemma resolve_first ex p dir a e f k np np' :
  resolve ex p dir a e f k np = Some np' ->
  exists j, np' = tried_at dir a e np k j /\ (ex np' = false \/ np' = p) /\
    forall i, i < j -> ex (tried_at dir a e np k i) = true /\ tried_at dir a e np k i <> p.
Proof.
  revert k np; induction f as [|f IH]; intros k np; simpl; [done|].
  destruct (ex np) eqn:Ex; simpl; [case_bool_decide as Hp; simpl|].
  - intros [= <-]. exists 0. split; [done|]. split; [by right|]. lia.
  - intros H. destruct (IH _ _ H) as (j & -> & Hf & Hlt). exists (S j).
    rewrite (tried_at_shift dir a e np k j) in Hf |- *. split; [done|]. split; [done|].
    intros [|i] Hi; [done|]. rewrite <- (tried_at_shift dir a e np k i). apply Hlt. lia.
  - intros [= <-]. exists 0. split; [done|]. split; [by left|]. lia.
Qed.

Lemma tried_at_nth_try dir s j :
  tried_at dir (split_ext s).1 (split_ext s).2 (dir </> s) 1 j = nth_try dir s j.
Proof. by destruct j. Qed.

(** Every tested path is a sibling named by allowed runes only. *)
Lemma nth_try_allowed dir n j :
  parent (nth_try dir (sanitizeName n) j) = dir /\
  forallb is_allowed (base (nth_try dir (sanitizeName n) j)) = true.
Proof.
  destruct j as [|j]; simpl; rewrite parent_snoc, base_snoc; (split; [done|]); [apply sanitize_allowed|].
  destruct (split_ext_allowed (sanitizeName n)) as [H1 H2]; [apply sanitize_allowed|].
  by apply candidate_allowed.
Qed.

(** The callback's candidate is [nth_try] at the first iteration whose path
    is free or the original one. *)
Lemma scan_entry_first (fs : node) root fuel c o n :
  scan_entry fs root fuel c = SCandidate o n ->
  sanitizeName (base o) <> base o /\
  exists j, n = nth_try (parent o) (sanitizeName (base o)) j /\
    (exists_path fs n = false \/ n = o) /\
    forall i, i < j -> exists_path fs (nth_try (parent o) (sanitizeName (base o)) i) = true.
Proof.
  unfold scan_entry.
  destruct (wc_err c); [done|].
  case_bool_decide; [done|].
  destruct (alreadyValid (base (wc_path c))); [done|].
  case_bool_decide as Hs; [done|].
  rewrite (surjective_pairing (split_ext _)).
  destruct (resolve _ _ _ _ _ _ _ _) as [np|] eqn:Hr; [|done].
  intros [= <- <-]. split; [intros Heq; by apply Hs|].
  destruct (resolve_first _ _ _ _ _ _ _ _ _ Hr) as (j & -> & Hf & Hlt).
  exists j. rewrite !tried_at_nth_try in Hf |- *. split; [done|]. split; [done|].
  intros i Hi. rewrite <- tried_at_nth_try. by apply Hlt.
Qed.

(** C7: the collision loop of lines 78-86 plans, for a path whose name
    needs sanitizing, the first of [dir/sanitized], [dir/stem_1.ext],
    [dir/stem_2.ext], ... that is free when the scan runs: the target does
    not exist, and every path of the sequence before it does. *)
Theorem collision_first_free (fs : node) root o n :
  In (o, n) (pathsToRename (scan fs root)) ->
  exists j, n = nth_try (parent o) (sanitizeName (base o)) j /\ exists_path fs n = false /\
    forall i, i < j -> exists_path fs (nth_try (parent o) (sanitizeName (base o)) i) = true.
Proof.
  intros Hin. apply pathsToRename_In, scan_candidate in Hin as [c Hc].
  destruct (scan_entry_first _ _ _ _ _ _ Hc) as (Hs & j & -> & Hf & Hlt).
  exists j. split; [done|]. split; [|done].
  destruct Hf as [Hf|Heq]; [done|]. exfalso.
  apply candidate_base_not_allowed in Hs. rewrite <- Heq in Hs.
  by rewrite (proj2 (nth_try_allowed (parent o) (base o) j)) in Hs.
Qed.

End Collision.

(** ** A concrete scan *)

(** [data/] holding [a b.txt], [a__b.txt] and [a__b_1.txt]. *)
Definition ex_taken : FileSystem.node nat :=
  Dir true [(⟨"data"⟩, Dir true
    [(⟨"a b.txt"⟩, File true 1); (⟨"a__b.txt"⟩, File true 2); (⟨"a__b_1.txt"⟩, File true 3)])].

(** [a b.txt] is planned as [a__b_2.txt], the third path tried. *)
Lemma collision_first_free_witness :
  In ([⟨"data"⟩; ⟨"a b.txt"⟩], [⟨"data"⟩; ⟨"a__b_2.txt"⟩]) (pathsToRename (scan ex_taken [⟨"data"⟩])) /\
  exists j, [⟨"data"⟩; ⟨"a__b_2.txt"⟩] = nth_try [⟨"data"⟩] (sanitizeName ⟨"a b.txt"⟩) j /\
    exists_path ex_taken [⟨"data"⟩; ⟨"a__b_2.txt"⟩] = false /\
    forall i, i < j -> exists_path ex_taken (nth_try [⟨"data"⟩] (sanitizeName ⟨"a b.txt"⟩) i) = true.
Proof.
  assert (Hin : In ([⟨"data"⟩; ⟨"a b.txt"⟩], [⟨"data"⟩; ⟨"a__b_2.txt"⟩])
                  (pathsToRename (scan ex_taken [⟨"data"⟩]))) by (vm_compute; tauto).
  split; [exact Hin|].
  exact (collision_first_free ex_taken [⟨"data"⟩] _ _ Hin).
Defined.
