(* ===== verification/FileOps.v ===== *)
(** * File-system calls of the Archiver

    The calls [src/compress.go] makes besides [os.Stat], [os.ReadDir] and
    [os.Rename] (which [FileSystem] models): [os.Remove] (line 92),
    [os.Create] and the writes of the zip writer through the open file
    (lines 155-162), and [os.MkdirAll] (line 52). Each is a function on the
    tree that returns the new tree or the error of the system call.

    The lemmas describe what [os.Stat] sees after a call: an update of the
    entries of one directory changes only the paths below it, and there only
    the entries the update changes ([update_dir_lookup_entry],
    [update_dir_lookup_diverge]); each call keeps the tree well formed. *)

From stdpp Require Import base list sets strings.
From S2P Require Import Prelude GoStrings FileSystem.

Section Ops.
Context {D : Type}.

Abbreviation node := (node D).

(** ** The calls *)

(** [os.Remove(p)]: [unlink], or [rmdir] for an empty directory. *)
Definition remove (t : node) (p : path) : node + fs_error :=
  match p with
  | [] => inr ErrBusy
  | _ :: _ =>
      match lookup t p with
      | None => inr ErrNotExist
      | Some (Dir _ (_ :: _)) => inr ErrNotEmpty
      | Some _ =>
          match update_dir t (parent p) (del_entry (base p)) with
          | Some t' => inl t'
          | None => inr ErrNotExist
          end
      end
  end.

(** [os.Create(p)] followed by writing [d] through the returned file and
    closing it: a directory cannot be opened for writing, an existing file
    without access is refused, any other file is truncated. *)
Definition create (t : node) (p : path) (d : D) : node + fs_error :=
  match lookup t p with
  | Some (Dir _ _) => inr ErrIsDir
  | Some (File false _) => inr ErrPermission
  | _ =>
      match update_dir t (parent p) (put_entry (base p) (File true d)) with
      | Some t' => inl t'
      | None => match lookup t (parent p) with
                | Some (File _ _) => inr ErrNotDir
                | _ => inr ErrNotExist
                end
      end
  end.

(** The content of the file open at [p] becomes [d]. *)
Definition write_file (t : node) (p : path) (d : D) : node + fs_error :=
  match lookup t p with
  | Some (File r _) =>
      match update_dir t (parent p) (put_entry (base p) (File r d)) with
      | Some t' => inl t'
      | None => inr ErrNotExist
      end
  | Some (Dir _ _) => inr ErrIsDir
  | None => inr ErrNotExist
  end.

(** [os.Mkdir(p)]. *)
Definition mkdir (t : node) (p : path) : node + fs_error :=
  match lookup t p with
  | Some _ => inr ErrExist
  | None =>
      match lookup t (parent p) with
      | Some (Dir _ _) =>
          match update_dir t (parent p) (put_entry (base p) (Dir true [])) with
          | Some t' => inl t'
          | None => inr ErrNotExist
          end
      | Some (File _ _) => inr ErrNotDir
      | None => inr ErrNotExist
      end
  end.

(** [os.MkdirAll(p)], on the reversed path [rp] so that the recursion on
    [filepath.Dir(p)] is structural: nothing to do when [p] is a directory,
    [ENOTDIR] when it is a file, otherwise create the parent and then [p]. *)
Fixpoint mkdir_all_rev (t : node) (rp : list name) : node + fs_error :=
  match lookup t (rev rp) with
  | Some (Dir _ _) => inl t
  | Some (File _ _) => inr ErrNotDir
  | None =>
      match rp with
      | [] => inr ErrNotExist
      | _ :: rp' =>
          match mkdir_all_rev t rp' with
          | inl t1 => mkdir t1 (rev rp)
          | inr e => inr e
          end
      end
  end.

Definition MkdirAll (t : node) (p : path) : node + fs_error := mkdir_all_rev t (rev p).


(** ** What [os.Stat] sees after an update *)

Lemma lookup_snoc (t : node) q x :
  lookup t (q </> x) = match lookup t q with Some (Dir _ es) => find_entry x es | _ => None end.
Proof.
  rewrite lookup_app. destruct (lookup t q) as [[r d|r es]|]; simpl; [done| |done].
  by destruct (find_entry x es).
Qed.

Lemma update_dir_Some (t : node) q f r es :
  lookup t q = Some (Dir r es) -> exists t', update_dir t q f = Some t'.
Proof.
  revert t; induction q as [|x q IH]; intros t; simpl.
  - intros [= ->]. by eexists.
  - destruct t as [r' d|r' es']; [done|].
    destruct (find_entry x es') as [c|]; [|done]. intros Hl.
    destruct (IH c Hl) as [c' ->]. by eexists.
Qed.

Lemma update_dir_lookup_at (t : node) q f t' :
  update_dir t q f = Some t' ->
  exists r es, lookup t q = Some (Dir r es) /\ lookup t' q = Some (Dir r (f es)).
Proof.
  revert t t'; induction q as [|x q IH]; intros t t'.
  - destruct t as [r d|r es]; simpl; [done|]. intros [= <-]. by exists r, es.
  - destruct t as [r d|r es]; simpl; [done|].
    destruct (find_entry x es) as [c|] eqn:E; [|done].
    destruct (update_dir c q f) as [c'|] eqn:Ec; [|done]. intros [= <-].
    destruct (IH _ _ Ec) as (r' & es' & H1 & H2). exists r', es'.
    simpl. rewrite find_entry_put, bool_decide_eq_true_2 by done. done.
Qed.

(** An update changes nothing at a path that is neither above nor below the
    updated directory. *)
Lemma update_dir_lookup_diverge (t : node) q f t' p :
  update_dir t q f = Some t' -> ~ q `prefix_of` p -> ~ p `prefix_of` q ->
  lookup t' p = lookup t p.
Proof.
  revert t t' p; induction q as [|x q IH]; intros t t' p Hu Hqp Hpq.
  - exfalso. apply Hqp, prefix_nil.
  - destruct p as [|y p]; [exfalso; apply Hpq, prefix_nil|].
    destruct t as [r d|r es]; simpl in Hu; [done|].
    destruct (find_entry x es) as [c|] eqn:E; [|done].
    destruct (update_dir c q f) as [c'|] eqn:Ec; [|done]. injection Hu as <-.
    simpl. rewrite find_entry_put. case_bool_decide as Hyx; [|done]. subst y.
    rewrite E. apply (IH c); [done| |]; intros H; [apply Hqp|apply Hpq]; by apply prefix_cons.
Qed.

(** Below the updated directory, an entry reads as the update left it. *)
Lemma update_dir_lookup_entry (t : node) q f t' r es x s :
  update_dir t q f = Some t' -> lookup t q = Some (Dir r es) ->
  lookup t' (q </> x ++ s) = match find_entry x (f es) with Some c => lookup c s | None => None end.
Proof.
  intros Hu Hl. destruct (update_dir_lookup_at _ _ _ _ Hu) as (r' & es' & Hl' & Ht').
  rewrite Hl in Hl'. injection Hl' as <- <-.
  rewrite <- app_assoc, lookup_app, Ht'. simpl. by destruct (find_entry x (f es)).
Qed.

Lemma lookup_entry (t : node) q r es x s :
  lookup t q = Some (Dir r es) ->
  lookup t (q </> x ++ s) = match find_entry x es with Some c => lookup c s | None => None end.
Proof.
  intros Hl. rewrite <- app_assoc, lookup_app, Hl. simpl. by destruct (find_entry x es).
Qed.

(** Two paths that part at some component are not prefixes of each other. *)
Lemma diverge_app (P : path) a b s1 s2 :
  a <> b -> ~ (P ++ a :: s1) `prefix_of` (P ++ b :: s2).
Proof.
  intros Hab [k Hk]. rewrite <- app_assoc in Hk. apply app_inv_head in Hk.
  by injection Hk.
Qed.

Lemma wf_lookup_NoDup (t : node) q r es :
  wf t = true -> lookup t q = Some (Dir r es) -> NoDup (map fst es).
Proof.
  intros Hwf Hl. apply (lookup_wf _ _ _ Hwf), wf_dir in Hl as [Hs _].
  by apply sorted_names_NoDup.
Qed.

Lemma find_entry_In x c (es : list (name * node)) :
  NoDup (map fst es) -> In (x, c) es -> find_entry x es = Some c.
Proof.
  induction es as [|[y d] es IH]; simpl; [done|]. intros Hnd Hin.
  apply NoDup_cons in Hnd as [Hy Hnd].
  destruct Hin as [[= -> ->]|Hin]; [by rewrite bool_decide_eq_true_2|].
  rewrite bool_decide_eq_false_2; [by apply IH|]. intros ->. apply Hy.
  apply list_elem_of_In, in_map_iff. by exists (y, c).
Qed.

(** Storing [n] under the name [w] of the directory [q]. *)
Lemma update_put_lookup (t : node) q w n t' x s :
  update_dir t q (put_entry w n) = Some t' ->
  lookup t' (q </> x ++ s) = if bool_decide (x = w) then lookup n s else lookup t (q </> x ++ s).
Proof.
  intros Hu. destruct (update_dir_lookup_at _ _ _ _ Hu) as (r & es & Hl & _).
  rewrite (update_dir_lookup_entry _ _ _ _ r es x s Hu Hl), (lookup_entry _ _ r es x s Hl).
  rewrite find_entry_put. by case_bool_decide.
Qed.

(** Removing the entry [w] of the directory [q]. *)
Lemma update_del_lookup (t : node) q w t' x s :
  wf t = true -> update_dir t q (del_entry w) = Some t' ->
  lookup t' (q </> x ++ s) = if bool_decide (x = w) then None else lookup t (q </> x ++ s).
Proof.
  intros Hwf Hu. destruct (update_dir_lookup_at _ _ _ _ Hu) as (r & es & Hl & _).
  rewrite (update_dir_lookup_entry _ _ _ _ r es x s Hu Hl), (lookup_entry _ _ r es x s Hl).
  rewrite find_entry_del by (eapply wf_lookup_NoDup; eauto). by case_bool_decide.
Qed.

(** ** Successful calls *)

Lemma create_inl (t : node) p d t' :
  create t p d = inl t' ->
  (forall n, lookup t p = Some n -> is_dir n = false) /\
  update_dir t (parent p) (put_entry (base p) (File true d)) = Some t'.
Proof.
  unfold create. destruct (lookup t p) as [[[] d0|r es]|] eqn:Hl; try done.
  all: destruct (update_dir _ _ _) as [t1|]; [intros [= <-]|by repeat case_match].
  all: split; [|done]; by intros n [= <-].
Qed.

Lemma write_file_inl (t : node) p d t' :
  write_file t p d = inl t' ->
  exists r d0, lookup t p = Some (File r d0) /\
    update_dir t (parent p) (put_entry (base p) (File r d)) = Some t'.
Proof.
  unfold write_file. destruct (lookup t p) as [[r d0|r es]|]; try done.
  destruct (update_dir _ _ _) as [t1|] eqn:Hu; [intros [= <-]|done]. exists r, d0. by split.
Qed.

Lemma remove_inl (t : node) p t' :
  remove t p = inl t' ->
  p <> [] /\ (exists n, lookup t p = Some n) /\
  update_dir t (parent p) (del_entry (base p)) = Some t'.
Proof.
  unfold remove. destruct p as [|x p]; [done|].
  destruct (lookup t (x :: p)) as [n|]; [|done]. intros H.
  assert (update_dir t (parent (x :: p)) (del_entry (base (x :: p))) = Some t') as Hu
    by (repeat case_match; simplify_eq; done).
  split; [done|]. split; [by exists n|done].
Qed.

(** A rename of a path to another one detaches the source node and attaches
    it at the target. *)
Lemma rename_inl (t : node) src dst t' :
  src <> dst -> rename t src dst = inl t' ->
  exists n t1, lookup t src = Some n /\
    update_dir t (parent src) (del_entry (base src)) = Some t1 /\
    update_dir t1 (parent dst) (put_entry (base dst) n) = Some t'.
Proof.
  intros Hne. unfold rename.
  repeat case_match; intros Heq; simplify_eq; bool_to_prop; try done; eauto 6.
Qed.

Lemma mkdir_all_rev_dir (t : node) rp r es :
  lookup t (rev rp) = Some (Dir r es) -> mkdir_all_rev t rp = inl t.
Proof. intros Hl. destruct rp; cbn [mkdir_all_rev]; by rewrite Hl. Qed.

(** [os.MkdirAll] on an existing directory changes nothing. *)
Lemma MkdirAll_dir (t : node) p r es : lookup t p = Some (Dir r es) -> MkdirAll t p = inl t.
Proof. intros Hl. apply (mkdir_all_rev_dir _ _ r es). by rewrite rev_involutive. Qed.

(** [os.MkdirAll] below an existing directory is [os.Mkdir]. *)
Lemma MkdirAll_mkdir (t : node) p r es :
  p <> [] -> lookup t (parent p) = Some (Dir r es) -> lookup t p = None -> MkdirAll t p = mkdir t p.
Proof.
  intros Hne Hp Hl. destruct (exists_last Hne) as (p' & x & ->).
  unfold MkdirAll. rewrite rev_app_distr. simpl. rewrite rev_involutive, Hl.
  rewrite parent_snoc in Hp. by rewrite (mkdir_all_rev_dir _ _ r es) by by rewrite rev_involutive.
Qed.

Lemma MkdirAll_file (t : node) p r d : lookup t p = Some (File r d) -> MkdirAll t p = inr ErrNotDir.
Proof.
  intros Hl. unfold MkdirAll. destruct (rev p) as [|x rp] eqn:E;
    cbn [mkdir_all_rev]; by rewrite <- E, rev_involutive, Hl.
Qed.

(** ** Well-formedness *)

Lemma create_wf (t : node) p d t' :
  wf t = true -> valid_component (base p) = true -> create t p d = inl t' -> wf t' = true.
Proof.
  intros Hwf Hv Hc. apply create_inl in Hc as [_ Hu].
  eapply update_dir_wf; [|exact Hwf|exact Hu]. intros r es. by apply put_entry_wf.
Qed.

Lemma remove_wf (t : node) p t' : wf t = true -> remove t p = inl t' -> wf t' = true.
Proof.
  intros Hwf Hr. apply remove_inl in Hr as (_ & _ & Hu).
  eapply update_dir_wf; [|exact Hwf|exact Hu]. intros r es. apply del_entry_wf.
Qed.

Lemma mkdir_wf (t : node) p t' :
  wf t = true -> valid_component (base p) = true -> mkdir t p = inl t' -> wf t' = true.
Proof.
  intros Hwf Hv. unfold mkdir. repeat case_match; intros Heq; simplify_eq.
  eapply update_dir_wf; [|exact Hwf|eassumption]. intros r es. by apply put_entry_wf.
Qed.

(** A well-formed tree names every entry it holds by a valid component. *)
Lemma lookup_valid_base (t : node) q x n :
  wf t = true -> lookup t (q </> x) = Some n -> valid_component x = true.
Proof.
  intros Hwf Hl. rewrite lookup_snoc in Hl.
  destruct (lookup t q) as [[r d|r es]|] eqn:Hq; try done.
  apply (lookup_wf _ _ _ Hwf), wf_dir in Hq as [_ Hes].
  apply find_entry_Some in Hl. apply (Hes _ Hl).
Qed.

Lemma write_file_wf (t : node) p d t' : wf t = true -> write_file t p d = inl t' -> wf t' = true.
Proof.
  intros Hwf Hw. apply write_file_inl in Hw as (r & d0 & Hl & Hu).
  destruct (exists_last (l := p)) as (p' & x & ->).
  { intros ->. destruct t; simpl in *; congruence. }
  rewrite base_snoc, parent_snoc in Hu.
  eapply update_dir_wf; [|exact Hwf|exact Hu]. intros r' es. apply put_entry_wf; [|done].
  eapply lookup_valid_base; eauto.
Qed.

(** ** Composing calls *)

Lemma put_entry_put x (a b : node) es : put_entry x a (put_entry x b es) = put_entry x a es.
Proof.
  induction es as [|[y c] es IH]; simpl.
  - by rewrite name_compare_refl.
  - destruct (name_compare x y) eqn:E; simpl; rewrite ?name_compare_refl, ?E; by f_equal.
Qed.

Lemma update_dir_compose (t : node) q f g t1 :
  update_dir t q f = Some t1 -> update_dir t1 q g = update_dir t q (fun es => g (f es)).
Proof.
  revert t t1; induction q as [|x q IH]; intros t t1.
  - destruct t; simpl; [done|]. by intros [= <-].
  - destruct t as [r d|r es]; simpl; [done|].
    destruct (find_entry x es) as [c|] eqn:E; [|done].
    destruct (update_dir c q f) as [c'|] eqn:Ec; [|done]. intros [= <-]. simpl.
    rewrite find_entry_put, bool_decide_eq_true_2 by done. rewrite (IH _ _ Ec).
    destruct (update_dir c q (fun es => g (f es))); [|done]. by rewrite put_entry_put.
Qed.

(** [os.Create] succeeds on a path of an existing directory that is not a
    directory nor a file without access. *)
Definition can_create (t : node) (p : path) : bool :=
  match lookup t p with
  | Some (Dir _ _) => false
  | Some (File r _) => r
  | None => true
  end.

Lemma create_ok (t : node) q x d r es :
  lookup t q = Some (Dir r es) -> can_create t (q </> x) = true ->
  exists t', create t (q </> x) d = inl t' /\
    update_dir t q (put_entry x (File true d)) = Some t'.
Proof.
  intros Hq Hc. destruct (update_dir_Some t q (put_entry x (File true d)) r es Hq) as [t' Ht'].
  exists t'. split; [|done]. unfold create, can_create in *.
  rewrite parent_snoc, base_snoc, Ht'. by repeat case_match.
Qed.

(** Creating a file and writing [d] through it is storing [d]. *)
Lemma create_write (t : node) q x d0 d t1 :
  create t (q </> x) d0 = inl t1 ->
  exists t2, write_file t1 (q </> x) d = inl t2 /\
    update_dir t q (put_entry x (File true d)) = Some t2.
Proof.
  intros Hc. apply create_inl in Hc as [_ Hu]. rewrite parent_snoc, base_snoc in Hu.
  unfold write_file. rewrite parent_snoc, base_snoc.
  pose proof (update_put_lookup _ _ _ _ _ x [] Hu) as Hl. rewrite app_nil_r in Hl.
  rewrite Hl, bool_decide_eq_true_2 by done. simpl.
  rewrite (update_dir_compose _ _ _ _ _ Hu).
  destruct (update_dir_lookup_at _ _ _ _ Hu) as (r & es & Hq & _).
  destruct (update_dir_Some t q (fun es => put_entry x (File true d) (put_entry x (File true d0) es)) r es Hq)
    as [t2 Ht2].
  rewrite Ht2. exists t2. split; [done|]. rewrite <- Ht2.
  (* both updates store the same entries *)
  clear Ht2 Hl Hu. revert t Hq. induction q as [|y q IH]; intros t Hq.
  - destruct t; simpl in *; [done|]. injection Hq as -> ->. by rewrite put_entry_put.
  - destruct t as [r' d'|r' es']; simpl in *; [done|].
    destruct (find_entry y es'); [|done]. by rewrite IH.
Qed.

End Ops.
