(* ===== verification/RenamerSpec.v ===== *)
(** * What a live run of the Renamer does to the tree

    A recursive specification of [rename.go]: below the root, every entry
    [x] of a readable directory is renamed to [new_name x] (its sanitized
    name when the scan callback plans a rename, lines 63-70), its contents
    renamed in the same way; a directory that cannot be read keeps its
    contents. When the new names of the entries of each readable directory
    are pairwise distinct ([no_collision]), the scan plans exactly the pairs
    of [plan] (each target the sanitized name, the collision loop never
    running), and the live run of lines 101-112 performs every one of them
    without an error and produces the tree [renamed], the directories'
    entries sorted as [os.ReadDir] returns them. *)

From stdpp Require Import base list sets strings.
From S2P Require Import Prelude GoStrings Sanitize FileSystem Renamer FileOps.

Section Spec.
Context {D : Type}.
Abbreviation node := (FileSystem.node D).
Abbreviation entries := (list (name * node)).

(** ** The specification *)

(** The scan callback plans a rename of [x] (lines 63-70). *)
Definition changed (x : name) : bool :=
  negb (alreadyValid x) && negb (bool_decide (x = sanitizeName x)).

Definition new_name (x : name) : name := if changed x then sanitizeName x else x.

(** The renamed tree: entries under their new names, sorted. *)
Fixpoint renamed (t : node) : node :=
  match t with
  | File r d => File r d
  | Dir true es => Dir true (fold_right (fun e acc => put_entry (new_name e.1) (renamed e.2) acc) [] es)
  | Dir false es => Dir false es
  end.

Definition entries_of (t : node) : entries := match t with Dir _ es => es | File _ _ => [] end.

(** The pairs the scan plans below [p], in discovery order. *)
Fixpoint plan (p : path) (t : node) : list (path * path) :=
  match t with
  | Dir true es =>
      flat_map (fun e => (if changed e.1 then [(p </> e.1, p </> new_name e.1)] else [])
                         ++ plan (p </> e.1) e.2) es
  | _ => []
  end.

(** In every readable directory, no two entries get the same new name. *)
Fixpoint no_collision (t : node) : bool :=
  match t with
  | Dir true es =>
      bool_decide (NoDup (map (fun e => new_name e.1) es)) && forallb (fun e => no_collision e.2) es
  | _ => true
  end.

(** The lines the loop of lines 101-112 prints when no rename fails. *)
Definition plan_log (ps : list (path * path)) : list log_line := map (fun e => LPlan e.1 e.2) ps.

(** ** New names *)

Lemma sanitize_nonempty x : x <> [] -> sanitizeName x <> [].
Proof.
  destruct x as [|c x]; [done|]. intros _. rewrite sanitizeName_cons.
  unfold sanitize_rune. by repeat case_match.
Qed.

(** A sanitized name passes the skip test. *)
Lemma alreadyValid_sanitizeName x : x <> [] -> alreadyValid (sanitizeName x) = true.
Proof.
  intros Hx. pose proof (sanitize_allowed x) as Ha. pose proof (sanitize_nonempty x Hx) as Hn.
  unfold alreadyValid, validNamePattern. destruct (sanitizeName x) as [|c s] eqn:E; [done|].
  rewrite <- E in *. rewrite Ha, containsPlus_allowed by done. done.
Qed.

Lemma changed_new x : changed x = true -> new_name x = sanitizeName x /\ new_name x <> x.
Proof.
  unfold new_name. intros Hc. rewrite Hc. split; [done|].
  unfold changed in Hc. apply andb_prop in Hc as [_ Hc].
  apply negb_true_iff, bool_decide_eq_false in Hc. intros Heq. apply Hc. by rewrite Heq.
Qed.

Lemma unchanged_new x : changed x = false -> new_name x = x.
Proof. unfold new_name. by intros ->. Qed.

(** A new name is never another entry's name: that entry would keep its
    name and collide. *)
Lemma name_not_new (A B : entries) e e0 :
  Forall (fun e => e.1 <> []) (A ++ e :: B) ->
  NoDup (map fst (A ++ e :: B)) -> NoDup (map (fun e => new_name e.1) (A ++ e :: B)) ->
  In e0 (A ++ B) -> e0.1 <> new_name e.1.
Proof.
  intros Hne Hnd Hndn Hin Heq.
  rewrite map_app in Hnd, Hndn. cbn [map] in Hnd, Hndn.
  apply NoDup_app in Hnd as (_ & HA & HB). apply NoDup_app in Hndn as (_ & HA' & HB').
  apply NoDup_cons in HB as [HB _]. apply NoDup_cons in HB' as [HB' _].
  assert (Hnot : forall f : name * node -> name, f e ∉ map f B -> f e ∉ map f A ->
                   ~ In e0 (A ++ B) \/ f e0 <> f e).
  { intros f H1 H2. right. intros Hf. apply in_app_or in Hin as [Hin|Hin].
    - apply H2. rewrite <- Hf. apply list_elem_of_In, in_map, Hin.
    - apply H1. rewrite <- Hf. apply list_elem_of_In, in_map, Hin. }
  assert (HfA : forall f : name * node -> name,
            (forall x, x ∈ map f A -> x ∉ map f (e :: B)) -> f e ∉ map f A).
  { intros f Hd Hi. apply (Hd _ Hi). by left. }
  destruct (changed e.1) eqn:Ec.
  - destruct (changed_new _ Ec) as [Hs _].
    assert (Hv : alreadyValid e0.1 = true).
    { rewrite Heq, Hs. apply alreadyValid_sanitizeName.
      rewrite List.Forall_forall in Hne. apply Hne, in_or_app. by right; left. }
    assert (Hu : new_name e0.1 = e0.1) by (apply unchanged_new; unfold changed; by rewrite Hv).
    destruct (Hnot (fun e => new_name e.1) HB' (HfA _ HA')) as [[]|Hn]; [done|].
    apply Hn. by rewrite Hu.
  - rewrite unchanged_new in Heq by done.
    destruct (Hnot fst HB (HfA _ HA)) as [[]|Hn]; [done|]. by apply Hn.
Qed.

(** ** Sorted entry lists *)

Lemma find_entry_notin x (L : entries) : x ∉ map fst L -> find_entry x L = None.
Proof.
  induction L as [|[y c] L IH]; simpl; [done|]. intros Hx.
  rewrite bool_decide_eq_false_2; [apply IH|]; set_solver.
Qed.

(** Two sorted entry lists with the same entries are equal. *)
Lemma sorted_ext (L1 L2 : entries) :
  sorted_names L1 = true -> sorted_names L2 = true ->
  (forall y, find_entry y L1 = find_entry y L2) -> L1 = L2.
Proof.
  assert (Hbelow : forall x y c (L : entries), names_above y L -> In (x, c) L -> name_ltb y x = true).
  { intros x y c L HL Hin. unfold names_above in HL. rewrite List.Forall_forall in HL. by apply (HL (x, c)). }
  revert L2; induction L1 as [|[x c] L1 IH]; intros L2 H1 H2 Hf.
  - destruct L2 as [|[y d] L2]; [done|]. specialize (Hf y). simpl in Hf.
    by rewrite bool_decide_eq_true_2 in Hf.
  - destruct L2 as [|[y d] L2].
    { specialize (Hf x). simpl in Hf. by rewrite bool_decide_eq_true_2 in Hf. }
    apply sorted_names_cons in H1 as [A1 S1]. apply sorted_names_cons in H2 as [A2 S2].
    assert (x = y) as <-.
    { destruct (decide (x = y)) as [|Hne]; [done|]. exfalso.
      destruct (name_ltb x y) eqn:Hxy.
      - specialize (Hf x). simpl in Hf. rewrite bool_decide_eq_true_2, bool_decide_eq_false_2 in Hf by done.
        symmetry in Hf. apply find_entry_Some in Hf.
        pose proof (name_ltb_trans x y x Hxy (Hbelow _ _ _ _ A2 Hf)) as Hxx.
        by rewrite name_ltb_irrefl in Hxx.
      - pose proof (name_ltb_total _ _ Hne Hxy) as Hyx.
        specialize (Hf y). simpl in Hf. rewrite bool_decide_eq_false_2, bool_decide_eq_true_2 in Hf by done.
        apply find_entry_Some in Hf. pose proof (Hbelow _ _ _ _ A1 Hf) as Hxy'.
        pose proof (name_ltb_trans y x y Hyx Hxy') as Hyy. by rewrite name_ltb_irrefl in Hyy. }
    pose proof (Hf x) as Hx. simpl in Hx. rewrite !bool_decide_eq_true_2 in Hx by done.
    injection Hx as <-. f_equal. apply IH; [done|done|]. intros z. specialize (Hf z). simpl in Hf.
    case_bool_decide as Hz; [|done]. subst z.
    rewrite !find_entry_notin; [done| |]; by apply names_above_not_in.
Qed.

(** ** One directory of the loop *)

(** A directory's entries after the loop has handled the entry [e]: its
    renamed contents stored under its name, then moved to its new name. *)
Definition step (e : name * node) (L : entries) : entries :=
  let L1 := put_entry e.1 (renamed e.2) L in
  if changed e.1 then put_entry (new_name e.1) (renamed e.2) (del_entry e.1 L1) else L1.

Definition renamed_entries (es : entries) : entries :=
  fold_right (fun e acc => put_entry (new_name e.1) (renamed e.2) acc) [] es.

Lemma renamed_dir es : renamed (Dir true es) = Dir true (renamed_entries es).
Proof. done. Qed.

Lemma step_sorted e L : sorted_names L = true -> sorted_names (step e L) = true.
Proof. intros H. unfold step. destruct (changed e.1); auto using sorted_put, sorted_del. Qed.

Lemma fold_step_sorted L es : sorted_names L = true -> sorted_names (fold_right step L es) = true.
Proof. intros H. induction es as [|e es IH]; [done|]. by apply step_sorted. Qed.

Lemma renamed_entries_sorted es : sorted_names (renamed_entries es) = true.
Proof. induction es as [|e es IH]; [done|]. by apply sorted_put. Qed.

Ltac decide_names := repeat case_bool_decide; subst; try done; congruence.

Lemma find_entry_step e L y :
  sorted_names L = true ->
  find_entry y (step e L) =
  if bool_decide (y = new_name e.1) then Some (renamed e.2)
  else if bool_decide (y = e.1) then None else find_entry y L.
Proof.
  intros HL. unfold step. destruct (changed e.1) eqn:Ec.
  - rewrite find_entry_put, find_entry_del, find_entry_put by (apply sorted_names_NoDup, sorted_put, HL).
    decide_names.
  - rewrite unchanged_new, find_entry_put by done. decide_names.
Qed.

(** What [os.Stat] finds in a directory after the loop handled [es]. *)
Fixpoint spec_find (L0 es : entries) (y : name) : option node :=
  match es with
  | [] => find_entry y L0
  | e :: es' =>
      if bool_decide (y = new_name e.1) then Some (renamed e.2)
      else if bool_decide (y = e.1) then None else spec_find L0 es' y
  end.

Lemma find_fold_step L0 es y :
  sorted_names L0 = true -> find_entry y (fold_right step L0 es) = spec_find L0 es y.
Proof.
  intros H. induction es as [|e es IH]; [done|]. cbn [fold_right spec_find].
  by rewrite find_entry_step, IH by (by apply fold_step_sorted).
Qed.

Lemma spec_find_skip L0 A R y :
  (forall e0, In e0 A -> y <> new_name e0.1 /\ y <> e0.1) -> spec_find L0 (A ++ R) y = spec_find L0 R y.
Proof.
  induction A as [|e0 A IH]; intros HA; [done|]. cbn [app spec_find].
  destruct (HA e0 (or_introl eq_refl)) as [H1 H2].
  rewrite !bool_decide_eq_false_2 by done. apply IH. intros e1 He1. apply HA. by right.
Qed.

Lemma find_renamed_entries es y :
  find_entry y (renamed_entries es) =
  match List.find (fun e => bool_decide (y = new_name e.1)) es with Some e => Some (renamed e.2) | None => None end.
Proof.
  induction es as [|e es IH]; [done|]. cbn [renamed_entries fold_right List.find].
  rewrite find_entry_put. fold (renamed_entries es). rewrite IH. decide_names.
Qed.

Lemma NoDup_map_split {A B} (f : A -> B) (P Q : list A) a a0 :
  NoDup (map f (P ++ a :: Q)) -> In a0 (P ++ Q) -> f a0 <> f a.
Proof.
  rewrite map_app. cbn [map]. intros (_ & HP & HQ)%NoDup_app Hin Heq.
  apply NoDup_cons in HQ as [HQ _]. apply in_app_or in Hin as [Hin|Hin].
  - apply (HP (f a0)); [apply list_elem_of_In, in_map, Hin|]. rewrite Heq. by left.
  - apply HQ. rewrite <- Heq. apply list_elem_of_In, in_map, Hin.
Qed.

(** Conditions on the entries of one directory. *)
Definition names_ok (es : entries) : Prop :=
  Forall (fun e => e.1 <> []) es /\ NoDup (map fst es) /\ NoDup (map (fun e => new_name e.1) es).

(** The loop leaves in a directory the renamed entries and nothing else. *)
Lemma spec_find_all es y :
  names_ok es ->
  spec_find es es y =
  match List.find (fun e => bool_decide (y = new_name e.1)) es with Some e => Some (renamed e.2) | None => None end.
Proof.
  intros (Hne & Hnd & Hndn).
  destruct (List.find (fun e => bool_decide (y = new_name e.1)) es) as [e|] eqn:Ef.
  - apply find_some in Ef as [Hin Hy]. apply bool_decide_eq_true in Hy. subst y.
    apply in_split in Hin as (A & B & ->). rewrite spec_find_skip.
    + cbn [spec_find]. by rewrite bool_decide_eq_true_2.
    + intros e0 He0. assert (In e0 (A ++ B)) by (apply in_or_app; by left). split.
      * intros Heq. by apply (NoDup_map_split (fun e => new_name e.1) A B e e0).
      * intros Heq. by apply (name_not_new A B e e0).
  - assert (Hn : forall e, In e es -> y <> new_name e.1).
    { intros e He Hy. pose proof (find_none _ _ Ef e He) as H. cbn beta in H.
      by rewrite bool_decide_eq_true_2 in H. }
    destruct (decide (y ∈ map fst es)) as [Hy|Hy].
    + apply list_elem_of_In, in_map_iff in Hy as (e & <- & Hin).
      pose proof Hin as Hin'. apply in_split in Hin' as (A & B & Hes).
      rewrite Hes at 2. rewrite spec_find_skip.
      * cbn [spec_find]. rewrite bool_decide_eq_false_2, bool_decide_eq_true_2 by (done || by apply Hn). done.
      * intros e0 He0. split; [apply Hn; rewrite Hes; apply in_or_app; by left|].
        intros Heq. rewrite Hes in Hnd. apply (NoDup_map_split fst A B e e0); [done|by apply in_or_app; left|done].
    + rewrite <- (app_nil_r es) at 2. rewrite spec_find_skip; [by apply find_entry_notin|].
      intros e0 He0. split; [by apply Hn|]. intros ->. apply Hy, list_elem_of_In, in_map, He0.
Qed.

Lemma fold_step_renamed es :
  sorted_names es = true -> names_ok es -> fold_right step es es = renamed_entries es.
Proof.
  intros Hs Hok. apply sorted_ext; [by apply fold_step_sorted|apply renamed_entries_sorted|].
  intros y. by rewrite find_fold_step, spec_find_all, find_renamed_entries.
Qed.

(** ** New names are path components *)

Lemma allowed_no_sep s : forallb is_allowed s = true -> existsb is_sep s = false.
Proof.
  induction s as [|c s IH]; simpl; [done|]. intros [Hc Hs]%andb_prop. rewrite IH by done.
  unfold is_sep. destruct (N.eqb c r_slash) eqn:E; [|done]. apply N.eqb_eq in E as ->.
  by vm_compute in Hc.
Qed.

(** A rune outside the allowed class leaves [_] in the sanitized name. *)
Lemma sanitize_underscore x : forallb is_allowed x = false -> In r_underscore (sanitizeName x).
Proof.
  induction x as [|c x IH]; [done|]. rewrite sanitizeName_cons. cbn [forallb].
  intros Hx. apply in_or_app. destruct (is_allowed c) eqn:Hc; [right; by apply IH|left].
  unfold sanitize_rune. rewrite Hc. destruct (plusChar c); vm_compute; by left.
Qed.

Lemma valid_component_nonempty x : valid_component x = true -> x <> [].
Proof. unfold valid_component. intros Hx. by bool_to_prop. Qed.

Lemma new_name_valid x : valid_component x = true -> valid_component (new_name x) = true.
Proof.
  unfold new_name. destruct (changed x) eqn:Ec; [|done]. intros Hx.
  pose proof (valid_component_nonempty x Hx) as Hne.
  assert (Hna : forallb is_allowed x = false).
  { unfold changed in Ec. apply andb_prop in Ec as [Ec _]. apply negb_true_iff in Ec.
    destruct (forallb is_allowed x) eqn:Ha; [|done]. unfold alreadyValid, validNamePattern in Ec.
    destruct x as [|c x']; [done|]. by rewrite Ha, containsPlus_allowed in Ec. }
  pose proof (sanitize_underscore x Hna) as Hu.
  unfold valid_component. rewrite allowed_no_sep by apply sanitize_allowed.
  rewrite !bool_decide_eq_true_2; [done|..];
    first [apply sanitize_nonempty, Hne|intros E; rewrite E in Hu; vm_compute in Hu; naive_solver].
Qed.

Lemma plan_valid (t : node) p :
  wf t = true -> Forall (fun pr => valid_component (base pr.2) = true) (plan p t).
Proof.
  revert p. induction t as [r d|r es IH] using node_ind'; intros p Hwf; [constructor|].
  destruct r; [|constructor]. apply wf_dir in Hwf as [_ Hes].
  apply List.Forall_forall. intros pr (e & He & Hin)%in_flat_map.
  destruct (Hes e He) as [Hv Hw]. apply in_app_or in Hin as [Hin|Hin].
  - destruct (changed e.1); [|done]. destruct Hin as [<-|[]]. cbn [snd]. rewrite base_snoc.
    by apply new_name_valid.
  - rewrite List.Forall_forall in IH. by apply (proj1 (List.Forall_forall _ _) (IH e He (p </> e.1) Hw)).
Qed.

(** ** The file system along the loop *)

Lemma update_dir_ext (t : node) q f g :
  (forall r L, lookup t q = Some (Dir r L) -> f L = g L) -> update_dir t q f = update_dir t q g.
Proof.
  revert t; induction q as [|x q IH]; intros t H; destruct t as [r0 d|r0 es]; try done.
  - simpl. by rewrite (H r0 es).
  - simpl. destruct (find_entry x es) as [c|] eqn:E; [|done]. rewrite (IH c); [done|].
    intros r L Hl. apply (H r). simpl. by rewrite E.
Qed.

Lemma put_entry_find x c (L : entries) :
  sorted_names L = true -> find_entry x L = Some c -> put_entry x c L = L.
Proof.
  induction L as [|[y d] L IH]; [done|]. intros HL Hx. pose proof HL as HL'.
  apply sorted_names_cons in HL' as [Ha Hs]. cbn [put_entry].
  destruct (name_compare x y) eqn:E.
  - apply name_compare_eq in E as ->. simpl in Hx. rewrite bool_decide_eq_true_2 in Hx by done.
    by injection Hx as ->.
  - exfalso. simpl in Hx. rewrite bool_decide_eq_false_2 in Hx
      by (intros ->; by rewrite name_compare_refl in E).
    apply find_entry_Some in Hx. unfold names_above in Ha. rewrite List.Forall_forall in Ha.
    pose proof (Ha _ Hx) as Hyx. cbn [fst] in Hyx.
    assert (Hxy : name_ltb x y = true) by (unfold name_ltb; by rewrite E).
    pose proof (name_ltb_trans _ _ _ Hxy Hyx) as Hxx. by rewrite name_ltb_irrefl in Hxx.
  - simpl in Hx. rewrite bool_decide_eq_false_2 in Hx by (intros ->; by rewrite name_compare_refl in E).
    by rewrite IH.
Qed.

Lemma update_dir_id (t : node) q r L :
  wf t = true -> lookup t q = Some (Dir r L) -> update_dir t q (fun L0 => L0) = Some t.
Proof.
  revert t; induction q as [|x q IH]; intros t Hwf Hl.
  - by injection Hl as ->.
  - destruct t as [r0 d|r0 es]; [done|]. simpl in Hl |- *.
    destruct (find_entry x es) as [c|] eqn:E; [|done].
    pose proof Hwf as Hw. apply wf_dir in Hw as [Hs Hes].
    rewrite (IH c); [|apply (Hes (x, c)), find_entry_Some, E|done]. by rewrite put_entry_find.
Qed.

(** Updating an entry of the directory [q] is updating [q]. *)
Lemma update_dir_snoc (t : node) q x f r L r' es :
  lookup t q = Some (Dir r L) -> find_entry x L = Some (Dir r' es) ->
  update_dir t (q </> x) f = update_dir t q (put_entry x (Dir r' (f es))).
Proof.
  revert t; induction q as [|y q IH]; intros t Hl Hx.
  - injection Hl as ->. simpl. by rewrite Hx.
  - destruct t as [r0 d|r0 es0]; [done|]. simpl in Hl |- *.
    destruct (find_entry y es0) as [c|]; [|done]. by rewrite (IH c).
Qed.

(** [os.Rename] of an entry to a name that is free in the same directory. *)
Lemma rename_sibling (t : node) q r L x y n :
  lookup t q = Some (Dir r L) -> find_entry x L = Some n -> find_entry y L = None ->
  exists t', update_dir t q (fun L0 => put_entry y n (del_entry x L0)) = Some t' /\
             rename t (q </> x) (q </> y) = inl t'.
Proof.
  intros Hq Hx Hy.
  assert (Hxy : x <> y) by (intros ->; congruence).
  destruct (update_dir_Some t q (del_entry x) r L Hq) as [t1 Ht1].
  destruct (update_dir_Some t q (fun L0 => put_entry y n (del_entry x L0)) r L Hq) as [t2 Ht2].
  exists t2. split; [done|].
  unfold rename. rewrite !lookup_snoc, Hq. cbn iota. rewrite Hy, Hx.
  assert (Hsp : strict_prefixb (q </> x) (q </> y) = false).
  { unfold strict_prefixb. rewrite !length_app. cbn [length].
    by rewrite bool_decide_eq_false_2 by lia. }
  rewrite Hsp. cbn iota.
  assert (Hne : q </> x <> q </> y) by (intros Heq; apply app_inj_tail in Heq as [_ ?]; congruence).
  destruct n; rewrite bool_decide_eq_false_2 by done;
    rewrite !parent_snoc, !base_snoc, Hq, Ht1, (update_dir_compose _ _ _ _ _ Ht1), Ht2; done.
Qed.

Lemma apply_renames_cat dry (T T1 T2 : node) ps1 ps2 l1 l2 :
  apply_renames dry T ps1 = (T1, l1) -> apply_renames dry T1 ps2 = (T2, l2) ->
  apply_renames dry T (ps1 ++ ps2) = (T2, l1 ++ l2).
Proof.
  revert T l1; induction ps1 as [|[o n] ps1 IH]; intros T l1; [by intros [= -> <-]|].
  cbn [app apply_renames].
  destruct (if dry then _ else _) as [T0 l0].
  destruct (apply_renames dry T0 ps1) as [T3 l3] eqn:E. intros [= <- <-] H2.
  rewrite (IH _ _ E H2). by rewrite app_assoc.
Qed.

Lemma apply_renames_wf (T T' : node) ps l :
  wf T = true -> Forall (fun pr => valid_component (base pr.2) = true) ps ->
  apply_renames false T ps = (T', l) -> wf T' = true.
Proof.
  revert T l; induction ps as [|[o n] ps IH]; intros T l Hwf Hps; [by intros [= <- _]|].
  inversion Hps as [|? ? Hn Hps']; subst. cbn [apply_renames].
  destruct (rename T o n) as [T1|e] eqn:Er;
    destruct (apply_renames false _ ps) as [T2 l2] eqn:E; intros [= <- _];
    (eapply IH; [| |exact E]; [|done]); [by eapply rename_keeps_wf|done].
Qed.

(** ** The loop, directory by directory *)

Definition entry_plan (p : path) (e : name * node) : list (path * path) :=
  (if changed e.1 then [(p </> e.1, p </> new_name e.1)] else []) ++ plan (p </> e.1) e.2.

Lemma plan_log_app ps1 ps2 : plan_log (ps1 ++ ps2) = plan_log ps1 ++ plan_log ps2.
Proof. apply map_app. Qed.

Lemma rev_entry_plans p es' x c :
  rev (flat_map (entry_plan p) (es' ++ [(x, c)])) =
  rev (plan (p </> x) c) ++ rev (if changed x then [(p </> x, p </> new_name x)] else [])
    ++ rev (flat_map (entry_plan p) es').
Proof.
  rewrite flat_map_app, rev_app_distr. cbn [flat_map]. rewrite app_nil_r.
  unfold entry_plan. cbn [fst snd]. by rewrite rev_app_distr, <- app_assoc.
Qed.

(** What the renames planned below an entry [x] of the directory [q] do:
    they leave at [q/x] the renamed contents of [x]. *)
Definition entry_ok (c : node) : Prop :=
  wf c = true -> no_collision c = true ->
  forall (T : node) q r L x, wf T = true -> lookup T q = Some (Dir r L) -> find_entry x L = Some c ->
  exists T', update_dir T q (put_entry x (renamed c)) = Some T' /\
    apply_renames false T (rev (plan (q </> x) c)) = (T', plan_log (rev (plan (q </> x) c))).

(** What the loop needs of the entries [es'] still to handle in a directory
    whose entries are [L]: each is still there, and its new name is free. *)
Definition pending (es' L : entries) : Prop :=
  (forall e, In e es' -> find_entry e.1 L = Some e.2) /\
  (forall e, In e es' -> changed e.1 = true -> find_entry (new_name e.1) L = None).

Definition children_ok (es : entries) : Prop :=
  names_ok es /\ Forall (fun e => valid_component e.1 = true /\ wf e.2 = true /\ no_collision e.2 = true) es.

Lemma children_ok_prefix es' e : children_ok (es' ++ [e]) -> children_ok es'.
Proof.
  intros [(Hne & Hnd & Hndn) Hf]. rewrite map_app in Hnd, Hndn.
  apply Forall_app in Hne as [? _]. apply Forall_app in Hf as [? _].
  apply NoDup_app in Hnd as (? & _ & _). apply NoDup_app in Hndn as (? & _ & _). by repeat split.
Qed.

(** Handling the last pending entry keeps the others pending. *)
Lemma pending_step es' x c L :
  children_ok (es' ++ [(x, c)]) -> sorted_names L = true -> pending (es' ++ [(x, c)]) L ->
  pending es' (step (x, c) L).
Proof.
  intros [(Hne & Hnd & Hndn) _] HL [H1 H2].
  assert (Hnn : forall e', In e' es' -> e'.1 <> new_name x /\ e'.1 <> x /\ new_name e'.1 <> new_name x).
  { intros e' He'. split; [|split].
    - apply (name_not_new es' [] (x, c) e'); [done|done|done|by rewrite app_nil_r].
    - intros Heq. apply (NoDup_map_split fst es' [] (x, c) e'); [done|by rewrite app_nil_r|done].
    - apply (NoDup_map_split (fun e => new_name e.1) es' [] (x, c) e'); [done|by rewrite app_nil_r]. }
  split.
  - intros e' He'. destruct (Hnn e' He') as (Ha & Hb & _).
    rewrite find_entry_step by done. cbn [fst snd].
    rewrite !bool_decide_eq_false_2 by done. apply H1, in_or_app. by left.
  - intros e' He' Hc. destruct (Hnn e' He') as (_ & _ & Hc').
    rewrite find_entry_step by done. cbn [fst snd]. rewrite bool_decide_eq_false_2 by done.
    case_bool_decide; [done|]. apply H2; [apply in_or_app; by left|done].
Qed.

Lemma apply_renames_one (T T' : node) o n :
  rename T o n = inl T' -> apply_renames false T [(o, n)] = (T', plan_log [(o, n)]).
Proof. intros Hr. cbn [apply_renames]. by rewrite Hr. Qed.

(** One entry [x] of the directory [p]: the renames below it, then its own. *)
Lemma loop_entry p x c (T : node) L :
  entry_ok c -> wf c = true -> no_collision c = true -> valid_component x = true ->
  wf T = true -> lookup T p = Some (Dir true L) -> find_entry x L = Some c ->
  (changed x = true -> find_entry (new_name x) L = None) ->
  exists T2, update_dir T p (step (x, c)) = Some T2 /\ wf T2 = true /\
    apply_renames false T (rev (plan (p </> x) c) ++ rev (if changed x then [(p </> x, p </> new_name x)] else []))
      = (T2, plan_log (rev (plan (p </> x) c) ++ rev (if changed x then [(p </> x, p </> new_name x)] else []))).
Proof.
  intros Hok Hwc Hnc Hx Hwf Hl Hxc Hfree.
  destruct (Hok Hwc Hnc T p true L x Hwf Hl Hxc) as (T1 & Hu1 & Ha1).
  assert (Hl1 : lookup T1 p = Some (Dir true (put_entry x (renamed c) L))).
  { destruct (update_dir_lookup_at _ _ _ _ Hu1) as (r' & L' & Hl' & ?). rewrite Hl in Hl'. by simplify_eq. }
  assert (Hwf1 : wf T1 = true).
  { eapply apply_renames_wf; [exact Hwf| |exact Ha1]. apply List.Forall_rev, plan_valid, Hwc. }
  rewrite plan_log_app.
  destruct (changed x) eqn:Ec.
  - destruct (rename_sibling T1 p true (put_entry x (renamed c) L) x (new_name x) (renamed c) Hl1)
      as (T2 & Hu2 & Hr).
    + by rewrite find_entry_put, bool_decide_eq_true_2.
    + rewrite find_entry_put, bool_decide_eq_false_2; [by apply Hfree|apply changed_new, Ec].
    + exists T2. split; [|split].
      * rewrite (update_dir_compose _ _ _ _ _ Hu1) in Hu2. rewrite <- Hu2.
        apply update_dir_ext. intros r0 L0 _. unfold step. cbn [fst snd]. by rewrite Ec.
      * eapply rename_keeps_wf; [exact Hwf1| |exact Hr]. rewrite base_snoc. by apply new_name_valid.
      * eapply apply_renames_cat; [exact Ha1|]. by apply apply_renames_one.
  - exists T1. split; [|split; [done|]].
    + rewrite <- Hu1. apply update_dir_ext. intros r0 L0 _. unfold step. cbn [fst snd]. by rewrite Ec.
    + rewrite !app_nil_r. done.
Qed.

Lemma dir_loop p es' (T : node) L :
  Forall (fun e => entry_ok e.2) es' -> children_ok es' ->
  wf T = true -> lookup T p = Some (Dir true L) -> pending es' L ->
  exists T', update_dir T p (fun L0 => fold_right step L0 es') = Some T' /\
    apply_renames false T (rev (flat_map (entry_plan p) es')) = (T', plan_log (rev (flat_map (entry_plan p) es'))).
Proof.
  revert T L. induction es' as [|[x c] es' IH] using rev_ind; intros T L Hok Hch Hwf Hl Hp.
  { exists T. split; [by apply (update_dir_id _ _ true L)|done]. }
  pose proof Hch as [_ Hf]. apply Forall_app in Hf as [_ Hf]. apply Forall_cons in Hf as [(Hx & Hwc & Hnc) _].
  apply Forall_app in Hok as [Hok Hok']. apply Forall_cons in Hok' as [Hokc _].
  assert (HL : sorted_names L = true) by (apply (lookup_wf _ _ _ Hwf), wf_dir in Hl as [? _]; done).
  destruct Hp as [H1 H2].
  destruct (loop_entry p x c T L Hokc Hwc Hnc Hx Hwf Hl) as (T2 & Hu2 & Hwf2 & Ha2).
  { apply (H1 (x, c)), in_or_app. by right; left. }
  { apply (H2 (x, c)), in_or_app. by right; left. }
  assert (Hl2 : lookup T2 p = Some (Dir true (step (x, c) L))).
  { destruct (update_dir_lookup_at _ _ _ _ Hu2) as (r' & L' & Hl' & ?). rewrite Hl in Hl'. by simplify_eq. }
  destruct (IH T2 (step (x, c) L) Hok (children_ok_prefix _ _ Hch) Hwf2 Hl2) as (T3 & Hu3 & Ha3).
  { by apply pending_step. }
  exists T3. split.
  - rewrite (update_dir_compose _ _ _ _ _ Hu2) in Hu3. rewrite <- Hu3.
    apply update_dir_ext. intros r0 L0 _. by rewrite fold_right_app.
  - rewrite rev_entry_plans, app_assoc, plan_log_app. by eapply apply_renames_cat.
Qed.

(** A readable directory of a well-formed tree without collisions: all its
    entries pending, none handled yet. *)
Lemma dir_start es :
  wf (Dir true es) = true -> no_collision (Dir true es) = true -> children_ok es /\ pending es es.
Proof.
  intros Hw Hn. apply wf_dir in Hw as [Hs Hes]. cbn [no_collision] in Hn.
  apply andb_prop in Hn as [Hndn Hnc]. apply bool_decide_eq_true in Hndn.
  rewrite forallb_forall in Hnc. pose proof (sorted_names_NoDup es Hs) as Hnd.
  assert (Hch : children_ok es).
  { split; [split; [|split; done]|].
    - apply List.Forall_forall. intros e He. apply valid_component_nonempty, (Hes e He).
    - apply List.Forall_forall. intros e He. destruct (Hes e He). split; [done|split; [done|by apply Hnc]]. }
  split; [done|]. split.
  - intros [y c] He. by apply find_entry_In.
  - intros e He Hc. apply find_entry_notin. intros Hin.
    apply list_elem_of_In, in_map_iff in Hin as (e0 & Heq & He0).
    assert (Hne : e0 <> e) by (intros ->; by apply (proj2 (changed_new _ Hc))).
    apply in_split in He as (A & B & HeqL). subst es.
    assert (In e0 (A ++ B)).
    { apply in_app_or in He0 as [|[|]]; [apply in_or_app; by left|congruence|apply in_or_app; by right]. }
    destruct Hch as [(Hne' & Hnd' & Hndn') _]. by apply (name_not_new A B e e0).
Qed.

Lemma apply_entry (c : node) : entry_ok c.
Proof.
  induction c as [r d|r es IH] using node_ind'; [|destruct r].
  2: { intros Hwc Hnc T q r0 L x Hwf Hl Hx.
       destruct (dir_start es Hwc Hnc) as [Hch Hp].
       assert (Hs : sorted_names es = true) by (apply wf_dir in Hwc as [? _]; done).
       assert (Hlp : lookup T (q </> x) = Some (Dir true es)) by (rewrite lookup_snoc, Hl; done).
       destruct (dir_loop (q </> x) es T es IH Hch Hwf Hlp Hp) as (T' & Hu & Ha).
       exists T'. split; [|exact Ha].
       rewrite renamed_dir, <- (fold_step_renamed es Hs (proj1 Hch)).
       by rewrite <- (update_dir_snoc T q x (fun L0 => fold_right step L0 es) r0 L true es Hl Hx). }
  all: intros _ _ T q r0 L x Hwf Hl Hx; exists T; split; [|done];
    rewrite (update_dir_ext _ _ _ (fun L0 => L0)); [by eapply update_dir_id|];
    intros r1 L1 Hl1; rewrite Hl in Hl1; injection Hl1 as <- <-;
    apply put_entry_find; [apply (lookup_wf _ _ _ Hwf), wf_dir in Hl as [? _]; done|done].
Qed.

(** ** The scan *)

Section Scan.
Context (fs : node) (root : path) (f : nat).

(** The callback on an entry [x] of a directory [q] below the root, when
    the new name of [x] is free there: the collision loop stops at once. *)
Lemma scan_entry_call q L x c :
  root `prefix_of` q -> lookup fs q = Some (Dir true L) ->
  (changed x = true -> find_entry (new_name x) L = None) ->
  scan_entry fs root (S f) (WCall (q </> x) c false) =
  if changed x then SCandidate (q </> x) (q </> new_name x) else SSkip.
Proof.
  intros [s ->] Hl Hfree. unfold scan_entry. cbn [wc_err wc_path].
  rewrite bool_decide_eq_false_2
    by (intros Heq; apply (f_equal length) in Heq; rewrite !length_app in Heq; simpl in Heq; lia).
  rewrite base_snoc, parent_snoc. unfold new_name, changed in *.
  destruct (alreadyValid x); [done|]. cbn [negb andb] in *.
  destruct (bool_decide (x = sanitizeName x)); [done|]. cbn [negb] in Hfree |- *.
  destruct (split_ext (sanitizeName x)) as [nameOnly ext]. cbn [resolve].
  unfold exists_path. rewrite lookup_snoc, Hl, Hfree by done. done.
Qed.

Lemma pathsToRename_flat_map {A} (g : A -> list (@wcall D)) h (l : list A) :
  (forall a, In a l -> pathsToRename (map (scan_entry fs root (S f)) (g a)) = h a) ->
  pathsToRename (map (scan_entry fs root (S f)) (flat_map g l)) = flat_map h l.
Proof.
  induction l as [|a l IH]; intros Hl; [done|]. cbn [flat_map].
  rewrite map_app. unfold pathsToRename. fold pathsToRename.
  rewrite <- (Hl a (or_introl eq_refl)), <- IH by (intros; apply Hl; by right).
  generalize (map (scan_entry fs root (S f)) (g a)). intros outs.
  induction outs as [|[] outs IHo]; cbn [app pathsToRename]; rewrite ?IHo; done.
Qed.

Lemma scan_children q es :
  root `prefix_of` q -> lookup fs q = Some (Dir true es) ->
  wf (Dir true es) = true -> no_collision (Dir true es) = true ->
  Forall (fun e => forall q L, root `prefix_of` q -> lookup fs q = Some (Dir true L) ->
            find_entry e.1 L = Some e.2 -> (changed e.1 = true -> find_entry (new_name e.1) L = None) ->
            wf e.2 = true -> no_collision e.2 = true ->
            pathsToRename (map (scan_entry fs root (S f)) (walkdir_calls (q </> e.1) e.2)) = entry_plan q e) es ->
  pathsToRename (map (scan_entry fs root (S f)) (flat_map (fun e => walkdir_calls (q </> e.1) e.2) es)) =
  plan q (Dir true es).
Proof.
  intros Hq Hl Hw Hn IH. destruct (dir_start es Hw Hn) as [[_ Hf] [H1 H2]].
  apply pathsToRename_flat_map. intros e He. rewrite List.Forall_forall in IH, Hf.
  destruct (Hf e He) as (_ & Hwe & Hne). apply (IH e He q es); auto.
Qed.

(** The calls below an entry plan the entry's own rename and those below it. *)
Lemma scan_entry_plan (c : node) : forall q L x,
  root `prefix_of` q -> lookup fs q = Some (Dir true L) -> find_entry x L = Some c ->
  (changed x = true -> find_entry (new_name x) L = None) -> wf c = true -> no_collision c = true ->
  pathsToRename (map (scan_entry fs root (S f)) (walkdir_calls (q </> x) c)) = entry_plan q (x, c).
Proof.
  induction c as [r d|r es IH] using node_ind'; intros q L x Hq Hl Hx Hfree Hw Hn;
    cbn [walkdir_calls map]; rewrite (scan_entry_call q L x _ Hq Hl Hfree);
    unfold entry_plan; cbn [fst snd].
  - rewrite app_nil_r. by destruct (changed x).
  - assert (Hrest : pathsToRename (map (scan_entry fs root (S f))
              (if r then flat_map (fun e => walkdir_calls (q </> x </> e.1) e.2) es
               else [WCall (q </> x) (Dir r es) true])) = plan (q </> x) (Dir r es)).
    { destruct r; [|done]. apply scan_children; [by apply prefix_app_r|by rewrite lookup_snoc, Hl|done|done|].
      eapply Forall_impl; [exact IH|]. intros [y c'] He q' L'. apply He. }
    destruct (changed x); cbn [pathsToRename]; by rewrite Hrest.
Qed.

End Scan.

(** The scan of a root without collisions plans exactly [plan]. *)
Lemma scan_plan (fs : node) root r es :
  wf fs = true -> lookup fs root = Some (Dir r es) -> no_collision (Dir r es) = true ->
  pathsToRename (scan fs root) = plan root (Dir r es).
Proof.
  intros Hwf Hl Hn. unfold scan. rewrite Hl. unfold scan_fuel. cbn [walkdir_calls map].
  unfold scan_entry at 1. cbn [wc_err wc_path]. rewrite bool_decide_eq_true_2 by done.
  cbn [pathsToRename]. destruct r; [|done].
  apply scan_children; [done|done|by eapply lookup_wf|done|].
  apply List.Forall_forall. intros [y c] _ q L. apply scan_entry_plan.
Qed.

(** ** The renamed tree *)

(** A new name is left alone by a second scan. *)
Lemma changed_new_name x : changed (new_name x) = false.
Proof.
  destruct (changed x) eqn:Ec; [|by rewrite unchanged_new].
  destruct (changed_new _ Ec) as [-> _].
  assert (Hx : x <> []) by (intros ->; by vm_compute in Ec).
  unfold changed. by rewrite alreadyValid_sanitizeName.
Qed.

Lemma renamed_entries_elem es e :
  In e (renamed_entries es) -> exists e0, In e0 es /\ e = (new_name e0.1, renamed e0.2).
Proof.
  induction es as [|e1 es IH]; [done|]. cbn [renamed_entries fold_right]. fold (renamed_entries es).
  intros [->|Hin]%put_entry_elem; [exists e1; split; [by left|done]|].
  destruct (IH Hin) as (e0 & ? & ->). exists e0. split; [by right|done].
Qed.

Lemma renamed_wf (t : node) : wf t = true -> wf (renamed t) = true.
Proof.
  induction t as [r d|r es IH] using node_ind'; [done|]. destruct r; [|done].
  intros Hw. apply wf_dir in Hw as [_ Hes]. apply wf_dir. split; [apply renamed_entries_sorted|].
  intros e (e0 & He0 & ->)%renamed_entries_elem. destruct (Hes e0 He0) as [Hv Hw].
  split; [by apply new_name_valid|]. rewrite List.Forall_forall in IH. by apply IH.
Qed.

Lemma renamed_no_collision (t : node) : no_collision (renamed t) = true.
Proof.
  induction t as [r d|r es IH] using node_ind'; [done|]. destruct r; [|done].
  cbn [renamed no_collision]. fold (renamed_entries es). apply andb_true_intro. split.
  - apply bool_decide_eq_true_2.
    rewrite (map_ext_in _ fst); [apply sorted_names_NoDup, renamed_entries_sorted|].
    intros e (e0 & _ & ->)%renamed_entries_elem. apply unchanged_new, changed_new_name.
  - apply forallb_forall. intros e (e0 & He0 & ->)%renamed_entries_elem.
    rewrite List.Forall_forall in IH. by apply IH.
Qed.

Lemma flat_map_nil_In {A B} (g : A -> list B) l : (forall a, In a l -> g a = []) -> flat_map g l = [].
Proof.
  induction l as [|a l IH]; intros Hl; [done|]. cbn [flat_map].
  by rewrite (Hl a (or_introl eq_refl)), IH by (intros; apply Hl; by right).
Qed.

(** The renamed tree plans no rename. *)
Lemma plan_renamed (t : node) p : plan p (renamed t) = [].
Proof.
  revert p. induction t as [r d|r es IH] using node_ind'; intros p; [done|]. destruct r; [|done].
  change (plan p (renamed (Dir true es))) with (flat_map (entry_plan p) (renamed_entries es)).
  apply flat_map_nil_In. intros e (e0 & He0 & ->)%renamed_entries_elem.
  unfold entry_plan. cbn [fst snd]. rewrite changed_new_name. cbn [app].
  rewrite List.Forall_forall in IH. by apply IH.
Qed.

(** ** The live run *)

Lemma renamed_shape r (es : entries) : renamed (Dir r es) = Dir r (entries_of (renamed (Dir r es))).
Proof. by destruct r. Qed.

(** The loop of lines 101-112 on the pairs of [plan], in reverse. *)
Lemma apply_plan (fs : node) root r es :
  wf fs = true -> lookup fs root = Some (Dir r es) -> no_collision (Dir r es) = true ->
  exists fs', update_dir fs root (fun _ => entries_of (renamed (Dir r es))) = Some fs' /\
    apply_renames false fs (rev (plan root (Dir r es))) = (fs', plan_log (rev (plan root (Dir r es)))).
Proof.
  intros Hwf Hl Hn. destruct r.
  - pose proof (lookup_wf _ _ _ Hwf Hl) as Hwr. destruct (dir_start es Hwr Hn) as [Hch Hp].
    assert (Hok : Forall (fun e => entry_ok e.2) es)
      by (apply List.Forall_forall; intros; apply apply_entry).
    destruct (dir_loop root es fs es Hok Hch Hwf Hl Hp) as (fs' & Hu & Ha).
    exists fs'. split; [|exact Ha].
    rewrite <- Hu. apply update_dir_ext. intros r0 L0 Hl0. rewrite Hl in Hl0. simplify_eq.
    cbn [renamed entries_of]. symmetry. apply fold_step_renamed; [|apply Hch].
    by apply wf_dir in Hwr as [? _].
  - exists fs. split; [|done].
    rewrite (update_dir_ext _ _ _ (fun L0 => L0)); [by apply (update_dir_id _ _ false es)|].
    intros r0 L0 Hl0. rewrite Hl in Hl0. by simplify_eq.
Qed.

(** [main]'s tree when the scan plans no rename. *)
Lemma run_no_plan (fs : node) root : pathsToRename (scan fs root) = [] -> (run false fs root).1 = fs.
Proof.
  intros Hs. unfold run. destruct (lookup fs root) as [[]|]; try done.
  unfold apply_order. by rewrite Hs.
Qed.

(** C36: on a well-formed tree in which no two entries of a readable
    directory below the root get the same new name, the live run of
    [rename.go] implements the specification: the scan plans exactly the
    pairs of [plan], every [os.Rename] succeeds (the log holds one
    ["old → new"] line per pair and no failure), and the tree becomes the
    one in which the root holds the entries of [renamed], contents renamed
    and entries sorted by their new names. *)
Theorem live_run_refines (fs : node) root r es :
  wf fs = true -> lookup fs root = Some (Dir r es) -> no_collision (Dir r es) = true ->
  pathsToRename (scan fs root) = plan root (Dir r es) /\
  exists fs', update_dir fs root (fun _ => entries_of (renamed (Dir r es))) = Some fs' /\
    run false fs root =
      (fs', scan_log (scan fs root) ++ plan_log (rev (plan root (Dir r es)))
              ++ [LSummary false (length (plan root (Dir r es)))]).
Proof.
  intros Hwf Hl Hn. pose proof (scan_plan fs root r es Hwf Hl Hn) as Hs.
  destruct (apply_plan fs root r es Hwf Hl Hn) as (fs' & Hu & Ha).
  split; [done|]. exists fs'. split; [done|].
  unfold run. rewrite Hl. unfold apply_order. rewrite Hs. destruct r; by rewrite Ha.
Qed.

(** C37: such a live run leaves nothing to do: a second run on the tree it
    produced plans no rename and leaves that tree as it is. *)
Theorem live_run_idempotent (fs : node) root r es :
  wf fs = true -> lookup fs root = Some (Dir r es) -> no_collision (Dir r es) = true ->
  pathsToRename (scan (run false fs root).1 root) = [] /\
  (run false (run false fs root).1 root).1 = (run false fs root).1.
Proof.
  intros Hwf Hl Hn. pose proof (scan_plan fs root r es Hwf Hl Hn) as Hs.
  destruct (apply_plan fs root r es Hwf Hl Hn) as (fs' & Hu & Ha).
  assert (Hrun : (run false fs root).1 = fs').
  { unfold run. rewrite Hl. unfold apply_order. rewrite Hs. destruct r; by rewrite Ha. }
  rewrite Hrun.
  assert (Hl' : lookup fs' root = Some (Dir r (entries_of (renamed (Dir r es))))).
  { destruct (update_dir_lookup_at _ _ _ _ Hu) as (r0 & L0 & Hl0 & ?). rewrite Hl in Hl0. by simplify_eq. }
  assert (Hwf' : wf fs' = true).
  { eapply update_dir_wf; [|exact Hwf|exact Hu]. intros r0 L0 _.
    pose proof (renamed_wf _ (lookup_wf _ _ _ Hwf Hl)) as Hw. rewrite renamed_shape in Hw.
    apply wf_dir in Hw. by apply wf_dir. }
  assert (Hn' : no_collision (Dir r (entries_of (renamed (Dir r es)))) = true)
    by (rewrite <- renamed_shape; apply renamed_no_collision).
  assert (Hs' : pathsToRename (scan fs' root) = []).
  { rewrite (scan_plan fs' root r _ Hwf' Hl' Hn'), <- renamed_shape. apply plan_renamed. }
  split; [done|]. by apply run_no_plan.
Qed.

End Spec.

(** ** A concrete tree *)

Definition ex_live_es : list (name * FileSystem.node nat) :=
  [(⟨"a b"⟩, Dir true [(⟨"c+d.txt"⟩, File true 1)]); (⟨"ok.txt"⟩, File true 2)].

Definition ex_live : FileSystem.node nat := Dir true [(⟨"data"⟩, Dir true ex_live_es)].

Lemma live_run_refines_witness :
  wf ex_live = true /\ lookup ex_live [⟨"data"⟩] = Some (Dir true ex_live_es) /\
  no_collision (Dir true ex_live_es) = true /\
  (pathsToRename (scan ex_live [⟨"data"⟩]) = plan [⟨"data"⟩] (Dir true ex_live_es) /\
   exists fs', update_dir ex_live [⟨"data"⟩] (fun _ => entries_of (renamed (Dir true ex_live_es))) = Some fs' /\
     run false ex_live [⟨"data"⟩] =
       (fs', scan_log (scan ex_live [⟨"data"⟩]) ++ plan_log (rev (plan [⟨"data"⟩] (Dir true ex_live_es)))
               ++ [LSummary false (length (plan [⟨"data"⟩] (Dir true ex_live_es)))])).
Proof.
  assert (H1 : wf ex_live = true) by reflexivity.
  assert (H2 : lookup ex_live [⟨"data"⟩] = Some (Dir true ex_live_es)) by reflexivity.
  assert (H3 : no_collision (Dir true ex_live_es) = true) by reflexivity.
  split; [exact H1|split; [exact H2|split; [exact H3|]]].
  exact (live_run_refines ex_live [⟨"data"⟩] true ex_live_es H1 H2 H3).
Defined.

Lemma live_run_idempotent_witness :
  wf ex_live = true /\ lookup ex_live [⟨"data"⟩] = Some (Dir true ex_live_es) /\
  no_collision (Dir true ex_live_es) = true /\
  (pathsToRename (scan (run false ex_live [⟨"data"⟩]).1 [⟨"data"⟩]) = [] /\
   (run false (run false ex_live [⟨"data"⟩]).1 [⟨"data"⟩]).1 = (run false ex_live [⟨"data"⟩]).1).
Proof.
  assert (H1 : wf ex_live = true) by reflexivity.
  assert (H2 : lookup ex_live [⟨"data"⟩] = Some (Dir true ex_live_es)) by reflexivity.
  assert (H3 : no_collision (Dir true ex_live_es) = true) by reflexivity.
  split; [exact H1|split; [exact H2|split; [exact H3|]]].
  exact (live_run_idempotent ex_live [⟨"data"⟩] true ex_live_es H1 H2 H3).
Defined.

(** On the concrete tree, the run moves [a b/c+d.txt] to [a__b/c_PLUS_d.txt]. *)
Example live_run_ex :
  lookup (run false ex_live [⟨"data"⟩]).1 [⟨"data"⟩; ⟨"a__b"⟩; ⟨"c_PLUS_d.txt"⟩] = Some (File true 1) /\
  lookup (run false ex_live [⟨"data"⟩]).1 [⟨"data"⟩; ⟨"a b"⟩] = None.
Proof. vm_compute. split; reflexivity. Qed.
