(* ===== verification/RenamerLoop.v ===== *)
(** * The Renamer's application loop as a transition system

    The loop of [src/rename.go] lines 101-112 takes the pairs of
    [pathsToRename] from the last to the first; for each it prints the pair
    and, unless in dry-run mode, calls [os.Rename], printing the error when
    the call fails and going on with the next pair. [loop_step] is one
    iteration on a state made of the tree, the pairs still to visit and the
    lines printed so far. The file shows that every execution ends, that the
    loop is deterministic and computes [apply_renames], that it never stops
    early: at its end every pair has been reported, whatever failed before,
    and that without collisions the dry run's report is exactly the live
    run's. *)

From stdpp Require Import base list relations sets strings.
From S2P Require Import Prelude GoStrings Sanitize FileSystem Renamer FileOps RenamerSpec.

Section Loop.
Context {D : Type}.
Abbreviation node := (FileSystem.node D).

(** The variables of the loop: the tree, the pairs [pathsToRename[i]],
    [i >= 0] still to visit, and what was printed. *)
Record loop_state := LoopState {
  ls_fs : node;
  ls_todo : list (path * path);
  ls_out : list log_line
}.

(** One iteration (lines 103-111). *)
Inductive loop_step (dry : bool) : loop_state -> loop_state -> Prop :=
| Step_dry fs o n ps out :
    dry = true ->
    loop_step dry (LoopState fs ((o, n) :: ps) out) (LoopState fs ps (out ++ [LPlan o n]))
| Step_renamed fs fs' o n ps out :
    dry = false -> rename fs o n = inl fs' ->
    loop_step dry (LoopState fs ((o, n) :: ps) out) (LoopState fs' ps (out ++ [LPlan o n]))
| Step_failed fs o n e ps out :
    dry = false -> rename fs o n = inr e ->
    loop_step dry (LoopState fs ((o, n) :: ps) out) (LoopState fs ps (out ++ [LPlan o n; LRenameFailed o n e])).

(** ** The shape of a step *)

(** A step visits the first pending pair, reports it, and keeps what was
    printed before. *)
Lemma loop_step_inv dry s s' :
  loop_step dry s s' ->
  exists o n, ls_todo s = (o, n) :: ls_todo s' /\ exists l, ls_out s' = ls_out s ++ LPlan o n :: l.
Proof. destruct 1; simpl; eexists _, _; (split; [done|]); eexists; done. Qed.

(** The loop never gets stuck while a pair is pending: a failed rename is
    reported and the loop goes on. *)
Lemma loop_step_progress dry fs o n ps out : exists s', loop_step dry (LoopState fs ((o, n) :: ps) out) s'.
Proof.
  destruct dry; [eexists; by constructor|].
  destruct (rename fs o n) as [fs'|e] eqn:E; eexists; [by apply Step_renamed|by apply Step_failed].
Qed.

Lemma loop_nf dry s : nf (loop_step dry) s <-> ls_todo s = [].
Proof.
  split.
  - destruct s as [fs [|[o n] ps] out]; [done|]. intros Hnf. exfalso.
    destruct (loop_step_progress dry fs o n ps out) as [s' Hs']. apply Hnf. by exists s'.
  - intros Ht [s' Hs']. destruct (loop_step_inv _ _ _ Hs') as (o & n & Ht' & _). congruence.
Qed.

Lemma loop_step_det dry s s1 s2 : loop_step dry s s1 -> loop_step dry s s2 -> s1 = s2.
Proof. destruct 1; inversion 1; subst; congruence. Qed.

(** Every execution ends: each step visits one pair. *)
Lemma loop_sn dry s : sn (loop_step dry) s.
Proof.
  remember (length (ls_todo s)) as k eqn:Hk. revert s Hk.
  induction k as [k IH] using lt_wf_ind. intros s Hk. constructor. intros s' Hs'.
  destruct (loop_step_inv _ _ _ Hs') as (o & n & Ht & _).
  apply (IH (length (ls_todo s'))); [rewrite Hk, Ht; simpl; lia|done].
Qed.

(** ** The loop computes [apply_renames] *)

Lemma apply_renames_steps dry fs ps out :
  rtc (loop_step dry) (LoopState fs ps out)
      (LoopState (apply_renames dry fs ps).1 [] (out ++ (apply_renames dry fs ps).2)).
Proof.
  revert fs out; induction ps as [|[o n] ps IH]; intros fs out.
  { rewrite app_nil_r. apply rtc_refl. }
  cbn [apply_renames]. destruct dry.
  - destruct (apply_renames true fs ps) as [fs2 l2] eqn:E. cbn [fst snd].
    eapply rtc_l; [by apply Step_dry|]. specialize (IH fs (out ++ [LPlan o n])).
    rewrite E in IH. by rewrite <- app_assoc in IH.
  - destruct (rename fs o n) as [fs1|e] eqn:Er;
      destruct (apply_renames false _ ps) as [fs2 l2] eqn:E; cbn [fst snd];
      (eapply rtc_l; [first [by apply Step_renamed|by apply Step_failed]|]);
      [specialize (IH fs1 (out ++ [LPlan o n]))|specialize (IH fs (out ++ [LPlan o n; LRenameFailed o n e]))];
      rewrite E in IH; by rewrite <- app_assoc in IH.
Qed.

(** An execution that has reached its end stops at the state [apply_renames]
    computes. *)
Lemma loop_end_unique dry s s1 s2 :
  rtc (loop_step dry) s s1 -> nf (loop_step dry) s1 ->
  rtc (loop_step dry) s s2 -> nf (loop_step dry) s2 -> s1 = s2.
Proof.
  intros H1. revert s2. induction H1 as [s|s s' s1 Hs Hrest IH]; intros s2 Hnf1 H2 Hnf2.
  - destruct H2 as [|s s'' s2 Hs' _]; [done|]. exfalso. apply Hnf1. by exists s''.
  - destruct H2 as [|s s'' s2 Hs' H2']; [exfalso; apply Hnf2; by exists s'|].
    rewrite (loop_step_det _ _ _ _ Hs Hs') in IH. by apply IH.
Qed.

(** Nothing printed is taken back. *)
Lemma loop_out_mono dry s s' : rtc (loop_step dry) s s' -> ls_out s `prefix_of` ls_out s'.
Proof.
  induction 1 as [|x y z Hxy _ IH]; [done|]. etrans; [|exact IH].
  destruct (loop_step_inv _ _ _ Hxy) as (? & ? & _ & l & ->). by eexists.
Qed.

(** What every reachable state has printed of the pairs it started with:
    each one is still pending or already reported. *)
Lemma loop_reports dry s s' :
  rtc (loop_step dry) s s' ->
  forall o n, In (o, n) (ls_todo s) -> In (o, n) (ls_todo s') \/ LPlan o n ∈ ls_out s'.
Proof.
  induction 1 as [s|x y z Hxy Hyz IH]; intros o n Hin; [by left|].
  destruct (loop_step_inv _ _ _ Hxy) as (o1 & n1 & Ht & l & Hout). rewrite Ht in Hin.
  destruct Hin as [[= -> ->]|Hin]; [|by apply IH].
  right. destruct (loop_out_mono _ _ _ Hyz) as [k ->]. rewrite Hout. set_solver.
Qed.

(** ** The loop serves every pair *)

(** C38: the loop of lines 101-112 serves every pair it is given: no
    execution is infinite, and every execution that has ended is the one
    [apply_renames] computes and has printed [old → new] for every pair, in
    dry-run and live mode alike, whatever renames failed on the way. *)
Theorem loop_serves_every_pair dry (fs : node) ps :
  sn (loop_step dry) (LoopState fs ps []) /\
  forall s', rtc (loop_step dry) (LoopState fs ps []) s' -> nf (loop_step dry) s' ->
    s' = LoopState (apply_renames dry fs ps).1 [] (apply_renames dry fs ps).2 /\
    forall o n, In (o, n) ps -> LPlan o n ∈ ls_out s'.
Proof.
  split; [apply loop_sn|]. intros s' Hr Hnf.
  assert (Hend : s' = LoopState (apply_renames dry fs ps).1 [] (apply_renames dry fs ps).2).
  { apply (loop_end_unique dry (LoopState fs ps []) _ _ Hr Hnf (apply_renames_steps dry fs ps [])).
    by apply loop_nf. }
  split; [done|]. intros o n Hin.
  destruct (loop_reports _ _ _ Hr o n Hin) as [Ht|]; [|done].
  apply loop_nf in Hnf. rewrite Hnf in Ht. done.
Qed.

(** ** The dry run as a preview *)

(** C39: on a tree without collisions, the dry run is an exact preview of
    the live run: both print the same lines, the read errors of the scan and
    one [old → new] line per rename in the same order, and differ only in
    the mode shown by the closing line. *)
Theorem dry_run_previews_live (fs : node) root r es :
  wf fs = true -> lookup fs root = Some (Dir r es) -> no_collision (Dir r es) = true ->
  exists pre k, (run true fs root).2 = pre ++ [LSummary true k] /\ (run false fs root).2 = pre ++ [LSummary false k].
Proof.
  intros Hwf Hl Hn. destruct (apply_plan fs root r es Hwf Hl Hn) as (fs' & _ & Ha).
  pose proof (scan_plan fs root r es Hwf Hl Hn) as Hs.
  exists (scan_log (scan fs root) ++ plan_log (rev (plan root (Dir r es)))), (length (plan root (Dir r es))).
  unfold run. rewrite Hl. unfold apply_order. rewrite Hs, apply_renames_dry.
  destruct r; rewrite Ha; cbn [snd]; rewrite <- !app_assoc; done.
Qed.

End Loop.

(** ** Concrete runs *)

(** Two pairs on an empty tree: both renames fail, and both are reported. *)
Definition ex_pairs : list (path * path) := [([⟨"a"⟩], [⟨"b"⟩]); ([⟨"c"⟩], [⟨"d"⟩])].

Definition ex_end : loop_state (D := nat) :=
  LoopState (Dir true []) []
    [LPlan [⟨"a"⟩] [⟨"b"⟩]; LRenameFailed [⟨"a"⟩] [⟨"b"⟩] ErrNotExist;
     LPlan [⟨"c"⟩] [⟨"d"⟩]; LRenameFailed [⟨"c"⟩] [⟨"d"⟩] ErrNotExist].

Lemma loop_serves_every_pair_witness :
  rtc (loop_step false) (LoopState (Dir true []) ex_pairs []) ex_end /\ nf (loop_step false) ex_end /\
  LPlan [⟨"c"⟩] [⟨"d"⟩] ∈ ls_out ex_end.
Proof.
  assert (Hr : rtc (loop_step false) (LoopState (Dir true []) ex_pairs []) ex_end)
    by exact (apply_renames_steps false (Dir true []) ex_pairs []).
  assert (Hnf : nf (loop_step false) ex_end) by (by apply loop_nf).
  split; [exact Hr|split; [exact Hnf|]].
  exact (proj2 (proj2 (loop_serves_every_pair false (Dir true []) ex_pairs) ex_end Hr Hnf)
           [⟨"c"⟩] [⟨"d"⟩] (or_intror (or_introl eq_refl))).
Defined.

Lemma dry_run_previews_live_witness :
  wf ex_live = true /\ lookup ex_live [⟨"data"⟩] = Some (Dir true ex_live_es) /\
  no_collision (Dir true ex_live_es) = true /\
  exists pre k, (run true ex_live [⟨"data"⟩]).2 = pre ++ [LSummary true k] /\
                (run false ex_live [⟨"data"⟩]).2 = pre ++ [LSummary false k].
Proof.
  assert (H1 : wf ex_live = true) by reflexivity.
  assert (H2 : lookup ex_live [⟨"data"⟩] = Some (Dir true ex_live_es)) by reflexivity.
  assert (H3 : no_collision (Dir true ex_live_es) = true) by reflexivity.
  split; [exact H1|split; [exact H2|split; [exact H3|]]].
  exact (dry_run_previews_live ex_live [⟨"data"⟩] true ex_live_es H1 H2 H3).
Defined.
