(* ===== verification/ZipFormat.v ===== *)
(** * What the Archiver relies on from [archive/zip]

    [src/compress.go] writes archives with [zip.NewWriter], [Writer.Create],
    [io.Copy] and [Writer.Close] (lines 161-195) and checks them with
    [zip.OpenReader] and [File.Open] (lines 137-152). The development does not
    model the zip byte format; the class [ZipFormat] states what the Archiver
    needs from it, over the type [D] of file contents:

    - [empty_file]: what [os.Create] leaves before anything is written;
    - [zip_write es]: the bytes a writer produces when the entries [es] are
      created in order and the writer is closed;
    - [zip_read d]: [zip.OpenReader] on the bytes [d]: [None] when it fails,
      otherwise, per entry of the central directory, its name and the
      content [File.Open] reads ([None] when it fails);

    with the laws that an archive reads back as written and that an empty
    file is no archive. [isValidZip]'s test on the bytes is [valid_archive].
    [Blob] is a concrete instance, used by the examples. *)

From stdpp Require Import base list sets strings.
From S2P Require Import Prelude.

Class ZipFormat (D : Type) := {
  empty_file : D;
  zip_write : list (path * D) -> D;
  zip_read : D -> option (list (path * option D));
  zip_read_write es : zip_read (zip_write es) = Some (map (fun e => (e.1, Some e.2)) es);
  zip_read_empty : zip_read empty_file = None;
}.

Section Valid.
Context {D : Type} `{ZipFormat D}.

(** Lines 138-151: the archive opens and one of its entries opens. *)
Definition valid_archive (d : D) : bool :=
  match zip_read d with
  | Some fs => existsb (fun f => bool_decide (is_Some f.2)) fs
  | None => false
  end.

(** An archive the writer closed is valid exactly when it has an entry. *)
Lemma valid_archive_write es : valid_archive (zip_write es) = bool_decide (es <> []).
Proof.
  unfold valid_archive. rewrite zip_read_write.
  by destruct es.
Qed.

Lemma valid_archive_empty : valid_archive empty_file = false.
Proof. unfold valid_archive. by rewrite zip_read_empty. Qed.

End Valid.

(** ** A concrete format

    File contents are opaque byte strings, archives that read back as
    written, or damaged archives whose central directory lists entries that
    cannot be opened. *)
Module Blob.

Inductive blob :=
| Bytes (n : nat)
| Empty
| Archive (es : list (path * blob))
| Damaged (names : list path).

Definition read (b : blob) : option (list (path * option blob)) :=
  match b with
  | Archive es => Some (map (fun e => (e.1, Some e.2)) es)
  | Damaged ns => Some (map (fun p => (p, None)) ns)
  | _ => None
  end.

#[export] Program Instance blob_zip : ZipFormat blob := {
  empty_file := Empty;
  zip_write := Archive;
  zip_read := read;
}.
Next Obligation. done. Qed.
Next Obligation. done. Qed.

End Blob.
