(* ===== verification/Archiver.v ===== *)
(** * The Archiver ([src/compress.go])

    [main] (lines 30-111) checks that the root is a directory, reads its
    entries, creates [<root>_original], turns every visible subdirectory that
    holds a file matching the [--include] pattern into a task (lines 58-73),
    and then processes the tasks in order (lines 83-108): a task whose zip
    exists and is valid is skipped, an invalid zip is removed, the folder is
    archived by [zipFolder] (lines 154-197) and, when that succeeds, moved
    into [<root>_original]. Errors of one task are printed and the loop goes
    on. The model threads the tree through these steps and records the
    printed lines as a log; the [--include] pattern and the [--verbose] flag
    are section variables, as they are global variables set once by
    [flag.Parse]. *)

From stdpp Require Import base list sets strings.
From S2P Require Import Prelude GoStrings Glob FileSystem FileOps ZipFormat.

(** The lines the Archiver prints. *)
Inductive alog :=
| AInvalid (root : path)                   (* "Invalid folder:" *)
| AReadDirFailed (e : fs_error)            (* "Failed to read directory:" *)
| AMkdirFailed (e : fs_error)              (* "Failed to create _original folder:" *)
| ANoTasks                                 (* "No non-empty, visible folders found." *)
| AFound (total : nat)                     (* "Found %d folders to process." *)
| AChecking (i total : nat) (folder : name) (* "[%d/%d] Checking: %s" *)
| ASkipValid                               (* "Valid zip exists — skipping" *)
| AReCompress                              (* "Invalid zip — re-compressing" *)
| AAdded (rel : path)                      (* "+ relPath" in verbose mode *)
| AZipError (e : fs_error)                 (* "Error zipping:" *)
| AMoveFailed (e : fs_error)               (* "Failed to move folder to _original:" *)
| ADone.                                   (* "All done." *)

(** [type Task struct] (lines 23-28). *)
Record Task := MkTask { index : nat; folderName : name; subfolder : path; zipPath : path }.

Section Archiver.
Context {D : Type} `{ZipFormat D}.
Context (includePattern : name) (verbose : bool).

Abbreviation node := (node D).

(** ** Helpers (lines 113-152) *)

Definition isHidden (n : name) : bool := HasPrefix n ⟨"."⟩.

Definition fileExists (t : node) (p : path) : bool :=
  match lookup t p with Some (File _ _) => true | _ => false end.

(** The test of the [isEmptyFolder] callback (line 125-127): no error, not a
    directory, the base name matches. *)
Definition counts (c : @wcall D) : bool :=
  negb (wc_err c) && negb (is_dir (wc_node c)) && include_match includePattern (base (wc_path c)).

(** [isEmptyFolder(p)]: the walk stops at the first file that counts
    ([io.EOF]); when [p] cannot be read the callback sees only the error. *)
Definition isEmptyFolder (t : node) (p : path) : bool :=
  match lookup t p with
  | Some n => negb (existsb counts (walk_calls p n))
  | None => true
  end.

Definition isValidZip (t : node) (p : path) : bool :=
  match lookup t p with
  | Some (File true d) => valid_archive d
  | _ => false
  end.

(** [os.Open(p)] and [io.Copy] of its content. *)
Definition open_file (t : node) (p : path) : D + fs_error :=
  match lookup t p with
  | Some (File true d) => inl d
  | Some (File false _) => inr ErrPermission
  | Some (Dir _ _) => inr ErrIsDir
  | None => inr ErrNotExist
  end.

(** ** [zipFolder] (lines 154-197) *)

(** The callback of the [filepath.Walk] of line 164 on each invocation: a
    read error aborts the walk; directories and files that do not match are
    passed over; a matching file is printed in verbose mode, opened and
    copied into the entry [filepath.Rel(filepath.Dir(folderPath), path)].
    Returns the entries written, the printed lines and the error that ended
    the walk. *)
Fixpoint zip_walk (t : node) (folderPath : path) (cs : list (@wcall D))
    : list (path * D) * list alog * option fs_error :=
  match cs with
  | [] => ([], [], None)
  | c :: cs' =>
      if wc_err c then ([], [], Some ErrPermission)
      else if is_dir (wc_node c) then zip_walk t folderPath cs'
      else if negb (include_match includePattern (base (wc_path c))) then zip_walk t folderPath cs'
      else
        let relPath := drop (length (parent folderPath)) (wc_path c) in
        let l := if verbose then [AAdded relPath] else [] in
        match open_file t (wc_path c) with
        | inr e => ([], l, Some e)
        | inl d =>
            let '(es, ls, err) := zip_walk t folderPath cs' in
            ((relPath, d) :: es, l ++ ls, err)
        end
  end.

(** [os.Create(zipPath)], the walk, and the deferred [Close] calls, which
    write the archive of the entries added so far whether or not the walk
    failed. *)
Definition zipFolder (t : node) (folderPath zipPath : path) : node * list alog * option fs_error :=
  match create t zipPath empty_file with
  | inr e => (t, [], Some e)
  | inl t1 =>
      let '(es, ls, err) :=
        match lookup t1 folderPath with
        | Some n => zip_walk t1 folderPath (walk_calls folderPath n)
        | None => ([], [], Some ErrNotExist)
        end in
      let t2 := match write_file t1 zipPath (zip_write es) with inl t2 => t2 | inr _ => t1 end in
      (t2, ls, err)
  end.

(** ** [main] *)

(** The task list of lines 58-73, [n] tasks being already listed. *)
Fixpoint prepare_tasks (t : node) (root : path) (entries : list (name * node)) (n : nat) : list Task :=
  match entries with
  | [] => []
  | (x, c) :: es =>
      if is_dir c && negb (isHidden x) && negb (isEmptyFolder t (root </> x)) then
        MkTask (S n) x (root </> x) (root </> (x ++ ⟨".zip"⟩)) :: prepare_tasks t root es (S n)
      else prepare_tasks t root es n
  end.

(** One iteration of the loop of lines 83-108, the [i]-th of [total]. *)
Definition process_task (t : node) (originalDir : path) (total i : nat) (task : Task)
    : node * list alog :=
  let l0 := [AChecking (S i) total (folderName task)] in
  let '(t1, l1, proceed) :=
    if fileExists t (zipPath task) then
      if isValidZip t (zipPath task) then (t, [ASkipValid], false)
      else ((match remove t (zipPath task) with inl t' => t' | inr _ => t end), [AReCompress], true)
    else (t, [], true) in
  if negb proceed then (t1, l0 ++ l1) else
  let '(t2, l2, err) := zipFolder t1 (subfolder task) (zipPath task) in
  match err with
  | Some e => (t2, l0 ++ l1 ++ l2 ++ [AZipError e])
  | None =>
      match rename t2 (subfolder task) (originalDir </> folderName task) with
      | inl t3 => (t3, l0 ++ l1 ++ l2)
      | inr e => (t2, l0 ++ l1 ++ l2 ++ [AMoveFailed e])
      end
  end.

Fixpoint process_tasks (t : node) (originalDir : path) (total i : nat) (tasks : list Task)
    : node * list alog :=
  match tasks with
  | [] => (t, [])
  | task :: ts =>
      let '(t1, l1) := process_task t originalDir total i task in
      let '(t2, l2) := process_tasks t1 originalDir total (S i) ts in
      (t2, l1 ++ l2)
  end.

(** [root + "_original"] (line 51). *)
Definition originalDir_of (root : path) : path := parent root </> (base root ++ ⟨"_original"⟩).

(** [main] after flag parsing, from [os.Stat(root)] on (lines 39-110), with
    the root and the backup folder [originalDir] resolved to paths. *)
Definition archive_run_at (t : node) (root originalDir : path) : node * list alog :=
  match lookup t root with
  | Some (Dir r entries) =>
      if negb r then (t, [AReadDirFailed ErrPermission]) else
      match MkdirAll t originalDir with
      | inr e => (t, [AMkdirFailed e])
      | inl t1 =>
          match prepare_tasks t1 root entries 0 with
          | [] => (t1, [ANoTasks])
          | tasks =>
              let '(t2, l) := process_tasks t1 originalDir (length tasks) 0 tasks in
              (t2, AFound (length tasks) :: l ++ [ADone])
          end
      end
  | _ => (t, [AInvalid root])
  end.

(** [main] on a root given as the path of a directory: the empty root string
    (what [strings.TrimSuffix] leaves of ["/"]) is no folder, and the backup
    folder is the sibling [<root>_original] (line 51). *)
Definition archive_run (t : node) (root : path) : node * list alog :=
  match root with
  | [] => (t, [AInvalid root])
  | _ :: _ => archive_run_at t root (originalDir_of root)
  end.

(** ** The files a walk reaches

    [visible_files n]: the files below [n] (their paths relative to [n]) that
    a walk reaches: the entries of the readable directories, in order. *)
Fixpoint visible_files (n : node) : list (path * (bool * D)) :=
  match n with
  | File r d => [([], (r, d))]
  | Dir r es =>
      if r then flat_map (fun e => map (fun sf => (e.1 :: sf.1, sf.2)) (visible_files e.2)) es
      else []
  end.

(** Every directory below [n] can be read. *)
Fixpoint dirs_readable (n : node) : bool :=
  match n with
  | File _ _ => true
  | Dir r es => r && forallb (fun e => dirs_readable e.2) es
  end.

Definition walk_ok (c : @wcall D) : bool := negb (wc_err c) && negb (is_dir (wc_node c)).

(** The invocations of [filepath.Walk] without error on files are the visible
    files. *)
Lemma walk_calls_files p n :
  List.filter walk_ok (walk_calls p n) =
  map (fun sf => WCall (p ++ sf.1) (File sf.2.1 sf.2.2) false) (visible_files n).
Proof.
  revert p. induction n as [r d|r es IH] using node_ind'; intros p; simpl.
  - by rewrite app_nil_r.
  - destruct r; simpl; [|done].
    induction es as [|[x c] es IHes]; simpl; [done|].
    inversion IH as [|? ? Hc IHr]; subst.
    rewrite List.filter_app, map_app, IHes by done. f_equal.
    rewrite Hc, map_map. apply map_ext. intros sf. by rewrite <- app_assoc.
Qed.

(** Without an unreadable directory, the walk reports no error. *)
Lemma walk_calls_no_err p n :
  dirs_readable n = true -> Forall (fun c => wc_err c = false) (walk_calls p n).
Proof.
  revert p. induction n as [r d|r es IH] using node_ind'; intros p; simpl.
  - repeat constructor.
  - intros Hr. apply andb_prop in Hr as [-> Hes]. constructor; [done|].
    apply List.Forall_forall. intros c Hc. apply in_flat_map in Hc as [e [He Hc]].
    rewrite List.Forall_forall in IH. eapply forallb_forall in Hes; [|exact He].
    specialize (IH e He (p </> e.1) Hes). rewrite List.Forall_forall in IH. by apply IH.
Qed.

Lemma visible_files_lookup n s r d :
  wf n = true -> In (s, (r, d)) (visible_files n) -> lookup n s = Some (File r d).
Proof.
  revert s. induction n as [r' d'|r' es IH] using node_ind'; intros s Hwf; simpl.
  - by intros [[= <- <- <-]|[]].
  - destruct r'; [|done]. intros Hs. apply in_flat_map in Hs as [[x c] [Hin Hs]].
    apply in_map_iff in Hs as [[s' f] [Heq Hs']]. simpl in Heq. injection Heq as <- ->.
    pose proof Hwf as Hnd. apply wf_dir in Hnd as [Hnd Hes]. apply sorted_names_NoDup in Hnd.
    simpl. rewrite (find_entry_In x c es Hnd Hin).
    rewrite List.Forall_forall in IH. apply (IH (x, c) Hin); [apply (Hes _ Hin)|done].
Qed.

(** What [filepath.Rel(filepath.Dir(folderPath), path)] gives below the
    folder: the folder's name followed by the path inside it. *)
Lemma rel_path fp s : fp <> [] -> drop (length (parent fp)) (fp ++ s) = base fp :: s.
Proof.
  intros Hne. destruct (exists_last Hne) as (P & b & ->).
  rewrite parent_snoc, base_snoc, <- app_assoc. simpl. by rewrite drop_app_length.
Qed.

(** The callback passes over directories when no call reports an error. *)
Lemma zip_walk_dirs t fp cs :
  Forall (fun c => wc_err c = false) cs ->
  zip_walk t fp cs = zip_walk t fp (List.filter walk_ok cs).
Proof.
  induction 1 as [|c cs Hc Hcs IH]; [done|]. simpl. unfold walk_ok at 1. rewrite Hc. simpl.
  destruct (is_dir (wc_node c)) eqn:Ed; simpl; [exact IH|]. rewrite ?Hc, ?Ed. simpl. by rewrite IH.
Qed.

(** The entries [zipFolder] writes for the files [L] when each matching one
    can be opened. *)
Lemma zip_walk_files t fp (L : list (path * (bool * D))) :
  (forall s r d, In (s, (r, d)) L -> lookup t (fp ++ s) = Some (File r d)) ->
  Forall (fun sf => include_match includePattern (base (fp ++ sf.1)) = true -> sf.2.1 = true) L ->
  let es := map (fun sf => (drop (length (parent fp)) (fp ++ sf.1), sf.2.2))
                (List.filter (fun sf => include_match includePattern (base (fp ++ sf.1))) L) in
  zip_walk t fp (map (fun sf => WCall (fp ++ sf.1) (File sf.2.1 sf.2.2) false) L) =
    (es, flat_map (fun e => if verbose then [AAdded e.1] else []) es, None).
Proof.
  intros Hl Hr. induction L as [|[s [r d]] L IH]; [done|]. simpl.
  inversion Hr as [|? ? Hr1 Hr2]; subst. simpl in Hr1.
  destruct (include_match includePattern (base (fp ++ s))); simpl.
  - unfold open_file. rewrite (Hl s r d) by (by left). rewrite Hr1 by done.
    rewrite IH; [done| |done]. intros; apply Hl; by right.
  - apply IH; [|done]. intros; apply Hl; by right.
Qed.

(** The archive of the folder [fp] holding [n]: every visible file whose
    lower-cased base name matches, under the folder's name followed by its
    path in the folder, in walk order. *)
Definition archive_entries (fp : path) (n : node) : list (path * D) :=
  map (fun sf => (base fp :: sf.1, sf.2.2))
      (List.filter (fun sf => include_match includePattern (base (fp ++ sf.1))) (visible_files n)).

(** Every matching visible file of [n], the folder [fp], can be opened. *)
Definition matching_readable (fp : path) (n : node) : Prop :=
  Forall (fun sf => include_match includePattern (base (fp ++ sf.1)) = true -> sf.2.1 = true)
         (visible_files n).

(** C19: [zipFolder] on a folder [q/y] whose directories can all be read and
    whose matching files can all be opened, writing to a sibling [q/z] that
    [os.Create] accepts, succeeds; the archive it leaves at [q/z] holds
    exactly the matching files of the folder, each under the folder's name
    followed by its path in the folder, in walk order, and nothing else of
    the tree changes. In verbose mode it prints each entry's path. *)
Theorem zipFolder_archive t q y z r es n :
  wf t = true -> y <> z -> lookup t q = Some (Dir r es) -> lookup t (q </> y) = Some n ->
  can_create t (q </> z) = true -> dirs_readable n = true -> matching_readable (q </> y) n ->
  exists t',
    zipFolder t (q </> y) (q </> z) =
      (t', flat_map (fun e => if verbose then [AAdded e.1] else []) (archive_entries (q </> y) n), None) /\
    update_dir t q (put_entry z (File true (zip_write (archive_entries (q </> y) n)))) = Some t'.
Proof.
  intros Hwf Hyz Hq Hy Hc Hrd Hmr.
  destruct (create_ok t q z empty_file r es Hq Hc) as (t1 & Hcr & Hu1).
  assert (Hsame : forall s, lookup t1 ((q </> y) ++ s) = lookup t ((q </> y) ++ s)).
  { intros s. rewrite (update_put_lookup _ _ _ _ _ y s Hu1). by rewrite bool_decide_eq_false_2. }
  assert (Hentries : archive_entries (q </> y) n =
    map (fun sf => (drop (length (parent (q </> y))) ((q </> y) ++ sf.1), sf.2.2))
        (List.filter (fun sf => include_match includePattern (base ((q </> y) ++ sf.1)))
           (visible_files n))).
  { unfold archive_entries. apply map_ext. intros sf. by rewrite rel_path by (by destruct q). }
  destruct (create_write t q z empty_file (zip_write (archive_entries (q </> y) n)) t1 Hcr)
    as (t2 & Hw & Hu2).
  exists t2. split; [|done].
  unfold zipFolder. rewrite Hcr.
  pose proof (Hsame []) as Hy1. rewrite app_nil_r, Hy in Hy1. rewrite Hy1.
  rewrite zip_walk_dirs by (by apply walk_calls_no_err).
  rewrite walk_calls_files, zip_walk_files.
  - by rewrite <- Hentries, Hw.
  - intros s r' d Hin. rewrite Hsame, lookup_app, Hy.
    apply (visible_files_lookup _ _ _ _ (lookup_wf _ _ _ Hwf Hy) Hin).
  - exact Hmr.
Qed.

Lemma existsb_counts (l : list (@wcall D)) :
  existsb counts l = existsb (fun c => include_match includePattern (base (wc_path c))) (List.filter walk_ok l).
Proof.
  induction l as [|c l IH]; [done|]. simpl. unfold counts at 1, walk_ok at 1.
  destruct (wc_err c), (is_dir (wc_node c)); simpl; rewrite ?IH; done.
Qed.

(** C21: [isEmptyFolder] answers "not empty" exactly when the folder holds a
    visible file (reached through readable directories only) whose
    lower-cased base name matches the lower-cased pattern. *)
Theorem isEmptyFolder_spec t p :
  isEmptyFolder t p = false <->
  exists n sf, lookup t p = Some n /\ In sf (visible_files n) /\
               include_match includePattern (base (p ++ sf.1)) = true.
Proof.
  unfold isEmptyFolder. destruct (lookup t p) as [n|]; [|split; [done|naive_solver]].
  rewrite negb_false_iff, existsb_counts, walk_calls_files, existsb_exists.
  split.
  - intros (c & Hc & Hm). apply in_map_iff in Hc as (sf & <- & Hin). by exists n, sf.
  - intros (n' & sf & [= <-] & Hin & Hm). eexists. split; [apply in_map_iff; by exists sf|done].
Qed.

(** C22: the task list of lines 58-73 is the list of the visible,
    non-empty directories among the entries, in [os.ReadDir] order, numbered
    from one on. *)
Theorem prepare_tasks_spec t root es n :
  prepare_tasks t root es n =
  imap (fun i x => MkTask (S n + i) x (root </> x) (root </> (x ++ ⟨".zip"⟩)))
    (map fst (List.filter (fun e => is_dir e.2 && negb (isHidden e.1) && negb (isEmptyFolder t (root </> e.1))) es)).
Proof.
  revert n. induction es as [|[x c] es IH]; intros n; [done|]. simpl.
  destruct (is_dir c && negb (isHidden x) && negb (isEmptyFolder t (root </> x))); simpl; rewrite IH.
  - rewrite Nat.add_0_r. f_equal. apply imap_ext. intros i y _. simpl. f_equal. lia.
  - done.
Qed.

(** A walk that ends without error and meets a file that counts has added
    an entry. *)
Lemma zip_walk_none_nonempty t fp cs es ls :
  zip_walk t fp cs = (es, ls, None) -> existsb counts cs = true -> es <> [].
Proof.
  revert es ls. induction cs as [|c cs IH]; intros es ls; simpl; [done|].
  unfold counts at 1.
  destruct (wc_err c); simpl; [done|]. destruct (is_dir (wc_node c)); simpl; [apply IH|].
  destruct (include_match includePattern (base (wc_path c))); simpl; [|apply IH].
  destruct (open_file t (wc_path c)); [|done].
  destruct (zip_walk t fp cs) as [[es' ls'] err']. by intros [= <- _ _].
Qed.

(** What [zipFolder] does to the tree when the archive is a sibling [q/w] of
    the folder [q/y]: nothing when [os.Create] fails; otherwise it stores
    the archive of the entries written at [q/w], where no directory was, and
    when it reports no error on a folder that is not empty that archive has
    an entry. *)
Lemma zipFolder_effect t q y w t' ls err :
  y <> w -> zipFolder t (q </> y) (q </> w) = (t', ls, err) ->
  (t' = t /\ is_Some err) \/
  (exists es, update_dir t q (put_entry w (File true (zip_write es))) = Some t' /\
     (forall n, lookup t (q </> w) = Some n -> is_dir n = false) /\
     (err = None -> isEmptyFolder t (q </> y) = false -> es <> [])).
Proof.
  intros Hyw. unfold zipFolder.
  destruct (create t (q </> w) empty_file) as [t1|e] eqn:Hc; [|intros [= <- _ <-]; by left].
  pose proof Hc as Hc'. apply create_inl in Hc' as [Hnd Hu1].
  rewrite parent_snoc, base_snoc in Hu1.
  assert (Hy : lookup t1 (q </> y) = lookup t (q </> y)).
  { pose proof (update_put_lookup _ _ _ _ _ y [] Hu1) as E. rewrite !app_nil_r in E.
    by rewrite E, bool_decide_eq_false_2. }
  destruct (match lookup t1 (q </> y) with
            | Some n => zip_walk t1 (q </> y) (walk_calls (q </> y) n)
            | None => ([], [], Some ErrNotExist) end) as [[es ls'] err'] eqn:Ew.
  destruct (create_write t q w empty_file (zip_write es) t1 Hc) as (t2 & Hw & Hu2).
  simpl. rewrite Hw. intros [= <- <- <-]. right. exists es. split; [done|]. split; [done|].
  intros -> Hne. unfold isEmptyFolder in Hne. rewrite <- Hy in Hne.
  destruct (lookup t1 (q </> y)) as [n|]; [|done].
  apply negb_false_iff in Hne. by eapply zip_walk_none_nonempty.
Qed.

End Archiver.

(** ** Concrete runs *)

Import Blob.

(** The scenario of the specification: [A] holds two matching files, [B]
    none, [.hidden] is hidden. *)
Definition ex_study : FileSystem.node blob :=
  Dir true [(⟨"study"⟩, Dir true [
     (⟨".hidden"⟩, Dir true [(⟨"x.raw"⟩, File true (Bytes 3))]);
     (⟨"A"⟩, Dir true [(⟨"a1.raw"⟩, File true (Bytes 1)); (⟨"a2.RAW"⟩, File true (Bytes 2))]);
     (⟨"B"⟩, Dir true [(⟨"notes.txt"⟩, File true (Bytes 4))])])].


(** A folder with a matching file that cannot be opened. *)
Definition ex_partial : FileSystem.node blob :=
  Dir true [(⟨"study"⟩, Dir true [
     (⟨"A"⟩, Dir true [(⟨"a1.raw"⟩, File true (Bytes 1)); (⟨"a2.raw"⟩, File false (Bytes 2))])])].

(** When [zipFolder] fails half-way, the deferred [Close] leaves an
    archive of the files added so far; it opens and has an entry, so every
    later run reports "Valid zip exists" and skips the folder: [A] is never
    archived in full and never moved. *)
Theorem partial_zip_skipped_forever :
  let '(t1, l1) := archive_run ⟨"*.raw"⟩ false ex_partial [⟨"study"⟩] in
  l1 = [AFound 1; AChecking 1 1 ⟨"A"⟩; AZipError ErrPermission; ADone] /\
  lookup t1 [⟨"study"⟩; ⟨"A.zip"⟩] = Some (File true (Archive [([⟨"A"⟩; ⟨"a1.raw"⟩], Bytes 1)])) /\
  lookup t1 [⟨"study"⟩; ⟨"A"⟩] = lookup ex_partial [⟨"study"⟩; ⟨"A"⟩] /\
  archive_run ⟨"*.raw"⟩ false t1 [⟨"study"⟩] =
    (t1, [AFound 1; AChecking 1 1 ⟨"A"⟩; ASkipValid; ADone]).
Proof. vm_compute. repeat split. Qed.

Lemma zipFolder_archive_witness :
  exists t',
    zipFolder ⟨"*.raw"⟩ false ex_study ([⟨"study"⟩] </> ⟨"A"⟩) ([⟨"study"⟩] </> ⟨"A.zip"⟩) =
      (t', flat_map (fun e => if false then [AAdded e.1] else [])
             (archive_entries ⟨"*.raw"⟩ ([⟨"study"⟩] </> ⟨"A"⟩)
                (Dir true [(⟨"a1.raw"⟩, File true (Bytes 1)); (⟨"a2.RAW"⟩, File true (Bytes 2))])), None) /\
    update_dir ex_study [⟨"study"⟩]
      (put_entry ⟨"A.zip"⟩ (File true (zip_write (archive_entries ⟨"*.raw"⟩ ([⟨"study"⟩] </> ⟨"A"⟩)
         (Dir true [(⟨"a1.raw"⟩, File true (Bytes 1)); (⟨"a2.RAW"⟩, File true (Bytes 2))]))))) = Some t'.
Proof.
  refine (zipFolder_archive ⟨"*.raw"⟩ false ex_study [⟨"study"⟩] ⟨"A"⟩ ⟨"A.zip"⟩ true _ _
            eq_refl _ eq_refl eq_refl eq_refl eq_refl _).
  - by vm_compute.
  - unfold matching_readable. vm_compute. repeat constructor.
Defined.
