(* ===== verification/ArchiverRun.v ===== *)
(** * Whole runs of the Archiver

    The root is [P/b] and [<root>_original] is its sibling [P/o] (with
    [o = b ++ "_original"] in [archive_run]). A task for the folder [y] acts
    on [root/y], [root/y.zip] and [orig/y] only. This file shows what each
    system call of a task does to the entries of the root ([DirsKept]: the
    directories of the root other than [y] are left as they were, and no new
    one appears; [FilesKept]: every other entry is left as it was), chains
    these facts along the loop of lines 83-108, and derives the properties
    of whole runs: a folder that is not a task is never touched, and a
    second run leaves the tree as the first left it when the first reported
    no zip error. *)

From stdpp Require Import base list sets strings.
From S2P Require Import Prelude GoStrings Glob FileSystem FileOps ZipFormat Archiver.

Section Run.
Context {D : Type} `{ZipFormat D}.
Context (includePattern : name) (verbose : bool).
Context (P : path) (b o : name).
Hypothesis Hbo : b <> o.
Hypothesis Ho : valid_component o = true.

Abbreviation node := (node D).
Local Notation root := (P </> b).
Local Notation orig := (P </> o).
Local Notation zx y := (y ++ ⟨".zip"⟩).

Definition dir_at (t : node) (p : path) : bool :=
  match lookup t p with Some (Dir _ _) => true | _ => false end.

(** The tree is well formed, the root a readable directory and
    [<root>_original] a directory. *)
Definition Inv (t : node) : Prop :=
  wf t = true /\ (exists es, lookup t root = Some (Dir true es)) /\
  (exists r es, lookup t orig = Some (Dir r es)).

(** No directory of the root outside [E] changes, and none appears. *)
Definition DirsKept (E : list name) (t t' : node) : Prop :=
  forall x, x ∉ E -> dir_at t (root </> x) = true \/ dir_at t' (root </> x) = true ->
  forall s, lookup t' (root </> x ++ s) = lookup t (root </> x ++ s).

(** No entry of the root outside [E] changes. *)
Definition FilesKept (E : list name) (t t' : node) : Prop :=
  forall x s, x ∉ E -> lookup t' (root </> x ++ s) = lookup t (root </> x ++ s).

(** ** Paths below the root and below [orig] *)

Lemma orig_root_diverge s : ~ orig `prefix_of` (root ++ s) /\ ~ (root ++ s) `prefix_of` orig.
Proof.
  rewrite <- !app_assoc. simpl. split.
  - replace (P ++ [o]) with (P ++ o :: []) by done. by apply diverge_app.
  - replace (P ++ [o]) with (P ++ o :: []) by done. by apply diverge_app.
Qed.

Lemma update_orig_frame (t t' : node) f s :
  update_dir t orig f = Some t' -> lookup t' (root ++ s) = lookup t (root ++ s).
Proof. intros Hu. destruct (orig_root_diverge s). by eapply update_dir_lookup_diverge. Qed.

Lemma update_root_frame (t t' : node) f :
  update_dir t root f = Some t' -> lookup t' orig = lookup t orig.
Proof.
  intros Hu. destruct (orig_root_diverge []) as [H1 H2]. rewrite app_nil_r in H1, H2.
  by eapply update_dir_lookup_diverge.
Qed.

Lemma root_below x s : root </> x ++ s = root ++ x :: s.
Proof. by rewrite <- app_assoc. Qed.

Lemma update_root_Inv (t t' : node) f :
  Inv t -> (forall r es, wf (Dir r es) = true -> wf (Dir r (f es)) = true) ->
  update_dir t root f = Some t' -> Inv t'.
Proof.
  intros (Hwf & [es Hr] & Hor) Hf Hu. split; [by eapply update_dir_wf|].
  destruct (update_dir_lookup_at _ _ _ _ Hu) as (r & es' & Hl & Hl').
  rewrite Hr in Hl. injection Hl as <- <-. split; [by eexists|].
  by rewrite (update_root_frame _ _ _ Hu).
Qed.

(** ** Chaining *)

Lemma FilesKept_DirsKept E (t t' : node) : FilesKept E t t' -> DirsKept E t t'.
Proof. intros HF x Hx _ s. by apply HF. Qed.

Lemma DirsKept_weaken E E' (t t' : node) : E ⊆ E' -> DirsKept E t t' -> DirsKept E' t t'.
Proof. intros Hsub HD x Hx. apply HD. set_solver. Qed.

Lemma FilesKept_weaken E E' (t t' : node) : E ⊆ E' -> FilesKept E t t' -> FilesKept E' t t'.
Proof. intros Hsub HF x s Hx. apply HF. set_solver. Qed.

Lemma dir_at_same (t t' : node) x :
  (forall s, lookup t' (root </> x ++ s) = lookup t (root </> x ++ s)) ->
  dir_at t' (root </> x) = dir_at t (root </> x).
Proof. intros Hs. unfold dir_at. specialize (Hs []). by rewrite !app_nil_r in Hs; rewrite Hs. Qed.

Lemma DirsKept_trans E (t1 t2 t3 : node) : DirsKept E t1 t2 -> DirsKept E t2 t3 -> DirsKept E t1 t3.
Proof.
  intros H12 H23 x Hx Hd s.
  destruct Hd as [Hd|Hd].
  - assert (E12 := H12 x Hx (or_introl Hd)).
    assert (Hd2 : dir_at t2 (root </> x) = true) by by rewrite (dir_at_same _ _ _ E12).
    rewrite (H23 x Hx (or_introl Hd2)). apply E12.
  - assert (E23 := H23 x Hx (or_intror Hd)).
    assert (Hd2 : dir_at t2 (root </> x) = true) by by rewrite <- (dir_at_same _ _ _ E23).
    by rewrite E23, (H12 x Hx (or_intror Hd2)).
Qed.

Lemma FilesKept_trans E (t1 t2 t3 : node) : FilesKept E t1 t2 -> FilesKept E t2 t3 -> FilesKept E t1 t3.
Proof. intros H12 H23 x s Hx. by rewrite H23, H12. Qed.

Lemma Kept_refl E (t : node) : DirsKept E t t /\ FilesKept E t t.
Proof. done. Qed.

(** ** The system calls of a task *)

(** [os.Remove] of the file [root/w]. *)
Lemma remove_effect (t t' : node) w :
  Inv t -> fileExists t (root </> w) = true -> remove t (root </> w) = inl t' ->
  Inv t' /\ DirsKept [] t t' /\ FilesKept [w] t t'.
Proof.
  intros Hinv Hf Hr. apply remove_inl in Hr as (_ & _ & Hu).
  rewrite parent_snoc, base_snoc in Hu.
  assert (HF : FilesKept [w] t t').
  { intros x s Hx. rewrite (update_del_lookup _ _ _ _ x s (proj1 Hinv) Hu).
    rewrite bool_decide_eq_false_2; [done|set_solver]. }
  split; [eapply update_root_Inv; [done|apply del_entry_wf|exact Hu]|]. split; [|done].
  intros x _ Hd s. destruct (decide (x = w)) as [->|Hxw]; [|apply HF; set_solver].
  exfalso. pose proof (update_del_lookup _ _ _ _ w [] (proj1 Hinv) Hu) as E.
  rewrite bool_decide_eq_true_2, !app_nil_r in E by done.
  unfold dir_at, fileExists in *. rewrite E in Hd.
  destruct (lookup t (root </> w)) as [[]|]; naive_solver.
Qed.

(** [zipFolder] of [root/y] into [root/w]. *)
Lemma zip_effect (t t' : node) y w ls err :
  Inv t -> y <> w -> valid_component w = true ->
  zipFolder includePattern verbose t (root </> y) (root </> w) = (t', ls, err) ->
  Inv t' /\ DirsKept [] t t' /\ FilesKept [w] t t' /\
  (dir_at t (root </> w) = true -> t' = t /\ is_Some err) /\
  (err = None -> isEmptyFolder includePattern t (root </> y) = false ->
   isValidZip t' (root </> w) = true).
Proof.
  intros Hinv Hyw Hw Hz.
  destruct (zipFolder_effect _ _ _ _ _ _ _ _ _ Hyw Hz) as [[-> Herr]|(es & Hu & Hnd & Hne)].
  { split; [done|]. split; [done|]. split; [done|]. split; [done|].
    intros ->. by destruct Herr. }
  assert (HF : FilesKept [w] t t').
  { intros x s Hx. rewrite (update_put_lookup _ _ _ _ _ x s Hu).
    rewrite bool_decide_eq_false_2; [done|set_solver]. }
  pose proof (update_put_lookup _ _ _ _ _ w [] Hu) as Ew.
  rewrite bool_decide_eq_true_2, !app_nil_r in Ew by done.
  assert (Hnd' : dir_at t (root </> w) = false).
  { unfold dir_at. destruct (lookup t (root </> w)) as [n|] eqn:E; [|done].
    specialize (Hnd n eq_refl). by destruct n. }
  split; [refine (update_root_Inv _ _ _ Hinv _ Hu); intros r0 es0 Hd0; by apply put_entry_wf|].
  split; [|split; [done|split; [by rewrite Hnd'|]]].
  - intros x _ Hd s. destruct (decide (x = w)) as [->|Hxw]; [|apply HF; set_solver].
    exfalso. destruct Hd as [Hd|Hd]; [by rewrite Hnd' in Hd|]. unfold dir_at in Hd. by rewrite Ew in Hd.
  - intros Herr Hemp. unfold isValidZip. rewrite Ew. simpl.
    rewrite valid_archive_write. apply bool_decide_eq_true_2. by apply Hne.
Qed.

Lemma root_orig_ne y : root </> y <> orig </> y.
Proof. intros Heq. apply app_inj_tail in Heq as [Heq _]. apply app_inj_tail in Heq as [_ ?]. done. Qed.

(** [os.Rename] of [root/y] to [orig/y]. *)
Lemma move_effect (t t' : node) y :
  Inv t -> rename t (root </> y) (orig </> y) = inl t' ->
  Inv t' /\ FilesKept [y] t t' /\ lookup t' (root </> y) = None.
Proof.
  intros Hinv Hr. pose proof Hr as Hr'.
  apply rename_inl in Hr' as (n & t1 & Hl & Hu1 & Hu2); [|apply root_orig_ne].
  rewrite parent_snoc, base_snoc in Hu1, Hu2.
  assert (Hinv1 : Inv t1) by (eapply update_root_Inv; [done|apply del_entry_wf|exact Hu1]).
  assert (HF : FilesKept [y] t t').
  { intros x s Hx. rewrite root_below, (update_orig_frame _ _ _ _ Hu2), <- root_below.
    rewrite (update_del_lookup _ _ _ _ x s (proj1 Hinv) Hu1).
    rewrite bool_decide_eq_false_2; [done|set_solver]. }
  split; [|split; [done|]].
  - destruct Hinv as (Hwf & _ & _). destruct Hinv1 as (_ & [es Hroot] & _).
    split; [eapply rename_keeps_wf; [exact Hwf| |exact Hr]; rewrite base_snoc; by eapply lookup_valid_base|].
    split.
    + exists es. rewrite <- Hroot, <- (app_nil_r root), (update_orig_frame _ _ _ _ Hu2). done.
    + destruct (update_dir_lookup_at _ _ _ _ Hu2) as (r & es' & _ & Ho'). by exists r, (put_entry y n es').
  - rewrite <- (app_nil_r (root </> y)), root_below, (update_orig_frame _ _ _ _ Hu2), <- root_below.
    rewrite (update_del_lookup _ _ _ _ y [] (proj1 Hinv) Hu1). by rewrite bool_decide_eq_true_2.
Qed.

(** No "Error zipping" line. *)
Definition no_zip_error (l : list alog) : bool :=
  forallb (fun a => match a with AZipError _ => false | _ => true end) l.

Lemma valid_component_suffix (y s : name) :
  valid_component y = true -> existsb is_sep s = false -> 2 <= length s ->
  valid_component (y ++ s) = true.
Proof.
  unfold valid_component. intros Hy Hs Hl. bool_to_prop.
  assert (Hlen : forall z : name, length z < 3 -> y ++ s <> z).
  { intros z Hz Heq. apply (f_equal length) in Heq. rewrite length_app in Heq.
    destruct y; [done|]. simpl in Heq. lia. }
  repeat (apply andb_true_intro; split); apply bool_decide_eq_true_2 || idtac.
  - by destruct y.
  - rewrite existsb_app, Hs. by destruct (existsb is_sep y).
  - apply Hlen. simpl. lia.
  - apply Hlen. simpl. lia.
Qed.

Lemma valid_component_zip y : valid_component y = true -> valid_component (zx y) = true.
Proof. intros Hy. apply valid_component_suffix; [done|done|simpl; lia]. Qed.

Lemma zx_ne y : y <> zx y.
Proof. intros Heq. apply (f_equal length) in Heq. rewrite length_app in Heq. simpl in Heq. lia. Qed.

Lemma kept_lookup (t t' : node) E x :
  FilesKept E t t' -> x ∉ E -> lookup t' (root </> x) = lookup t (root </> x).
Proof. intros HF Hx. specialize (HF x [] Hx). by rewrite !app_nil_r in HF. Qed.

(** What the check of an existing zip (lines 86-94) leaves for [zipFolder]. *)
Lemma check_effect (t : node) w :
  Inv t -> isValidZip t (root </> w) = false ->
  let t1 := if fileExists t (root </> w)
            then match remove t (root </> w) with inl t' => t' | inr _ => t end else t in
  Inv t1 /\ DirsKept [] t t1 /\ FilesKept [w] t t1.
Proof.
  intros Hinv Hv t1. subst t1.
  destruct (fileExists t (root </> w)) eqn:Hf; [|done].
  destruct (remove t (root </> w)) as [t'|e] eqn:Hr; [|done].
  by apply remove_effect.
Qed.

Lemma isValidZip_fileExists (t : node) p : isValidZip t p = true -> fileExists t p = true.
Proof. unfold isValidZip, fileExists. by repeat case_match. Qed.

(** One task for the folder [y]: it changes only [root/y] and [root/y.zip]
    among the entries of the root and no directory but [root/y]; it leaves
    [root/y] in place or removes it; when it reports no zip error on a
    non-empty folder, [root/y.zip] is then a valid archive; and a task whose
    zip is valid changes nothing. *)
Lemma process_task_effect (t t' : node) k y total i l :
  Inv t -> valid_component y = true ->
  process_task includePattern verbose t orig total i (MkTask k y (root </> y) (root </> zx y)) = (t', l) ->
  Inv t' /\ DirsKept [y] t t' /\ FilesKept [y; zx y] t t' /\
  ((lookup t' (root </> y) = None /\
    (isEmptyFolder includePattern t (root </> y) = false -> isValidZip t' (root </> zx y) = true)) \/
   forall s, lookup t' (root </> y ++ s) = lookup t (root </> y ++ s)) /\
  (no_zip_error l = true -> isEmptyFolder includePattern t (root </> y) = false ->
   isValidZip t' (root </> zx y) = true) /\
  (isValidZip t (root </> zx y) = true -> t' = t).
Proof.
  intros Hinv Hy. unfold process_task. cbn [zipPath subfolder folderName].
  destruct (isValidZip t (root </> zx y)) eqn:Hv.
  { rewrite (isValidZip_fileExists _ _ Hv). simpl. intros [= <- _].
    split; [done|]. split; [done|]. split; [done|]. split; [by right|]. done. }
  destruct (check_effect t (zx y) Hinv Hv) as (Hinv1 & HD1 & HF1).
  set (t1 := if fileExists t (root </> zx y)
             then match remove t (root </> zx y) with inl t' => t' | inr _ => t end else t) in *.
  assert (Hstage : (if fileExists t (root </> zx y) then
              (match remove t (root </> zx y) with inl t' => t' | inr _ => t end, [AReCompress], true)
            else (t, [], true)) = (t1, if fileExists t (root </> zx y) then [AReCompress] else [], true))
    by (subst t1; by destruct (fileExists t (root </> zx y))).
  rewrite Hstage. simpl.
  destruct (zipFolder includePattern verbose t1 (root </> y) (root </> zx y)) as [[t2 l2] err] eqn:Hz.
  destruct (zip_effect t1 t2 y (zx y) l2 err Hinv1 (zx_ne y) (valid_component_zip y Hy) Hz)
    as (Hinv2 & HD2 & HF2 & _ & Hval2).
  assert (HD12 : DirsKept [y] t t2).
  { apply (DirsKept_trans _ _ t1); apply (DirsKept_weaken []); set_solver. }
  assert (HF12 : FilesKept [y; zx y] t t2).
  { apply (FilesKept_trans _ _ t1); eapply FilesKept_weaken; [|exact HF1| |exact HF2]; set_solver. }
  assert (Hy2 : forall s, lookup t2 (root </> y ++ s) = lookup t (root </> y ++ s)).
  { intros s. rewrite HF2, HF1; [done| |]; pose proof (zx_ne y); set_solver. }
  assert (Hval : err = None -> isEmptyFolder includePattern t (root </> y) = false ->
                 isValidZip t2 (root </> zx y) = true).
  { intros He Hemp. apply Hval2; [done|]. unfold isEmptyFolder in *.
    by rewrite (kept_lookup _ _ _ _ HF1) by (pose proof (zx_ne y); set_solver). }
  destruct err as [e|].
  - intros [= <- <-]. split; [done|]. split; [done|]. split; [done|]. split; [by right|].
    split; [|done]. intros Hne. exfalso. unfold no_zip_error in Hne.
    apply forallb_forall with (x := AZipError e) in Hne; [done|].
    right. rewrite app_assoc. apply in_or_app. right. by left.
  - destruct (rename t2 (root </> y) (orig </> y)) as [t3|e] eqn:Hr.
    + destruct (move_effect t2 t3 y Hinv2 Hr) as (Hinv3 & HF3 & Hnone). intros [= <- <-].
      split; [done|]. split.
      { apply (DirsKept_trans _ _ t2); [done|]. by apply FilesKept_DirsKept. }
      split; [apply (FilesKept_trans _ _ t2); [done|]; eapply FilesKept_weaken; [|exact HF3]; set_solver|].
      assert (Hv3 : isEmptyFolder includePattern t (root </> y) = false -> isValidZip t3 (root </> zx y) = true).
      { intros Hemp. unfold isValidZip. rewrite (kept_lookup _ _ _ _ HF3) by (pose proof (zx_ne y); set_solver).
        by apply Hval. }
      split; [by left|]. split; [|done]. intros _. exact Hv3.
    + intros [= <- <-]. split; [done|]. split; [done|]. split; [done|]. split; [by right|].
      split; [|done]. intros _. by apply Hval.
Qed.

(** A task as [prepare_tasks] builds it. *)
Definition task_shape (tk : Task) : Prop :=
  tk = MkTask (index tk) (folderName tk) (root </> folderName tk) (root </> zx (folderName tk)).

Lemma isEmptyFolder_same (t t' : node) p :
  lookup t' p = lookup t p -> isEmptyFolder includePattern t' p = isEmptyFolder includePattern t p.
Proof. unfold isEmptyFolder. by intros ->. Qed.

Lemma dir_at_valid (t : node) y : wf t = true -> dir_at t (root </> y) = true -> valid_component y = true.
Proof.
  intros Hwf Hd. unfold dir_at in Hd. destruct (lookup t (root </> y)) eqn:E; [|done].
  by eapply lookup_valid_base.
Qed.

(** After the task for [z], the folders of the later tasks are as they were. *)
Lemma tasks_rest (t0 t1 : node) z ts :
  DirsKept [z] t0 t1 -> z ∉ map folderName ts ->
  Forall (fun tk => dir_at t0 (root </> folderName tk) = true) ts ->
  (forall w, w ∈ map folderName ts -> forall s, lookup t1 (root </> w ++ s) = lookup t0 (root </> w ++ s)) /\
  Forall (fun tk => dir_at t1 (root </> folderName tk) = true) ts.
Proof.
  intros HD1 Hz Hdir.
  assert (Hsame : forall w, w ∈ map folderName ts -> forall s,
            lookup t1 (root </> w ++ s) = lookup t0 (root </> w ++ s)).
  { intros w Hw. apply HD1; [set_solver|]. left.
    apply list_elem_of_In, in_map_iff in Hw as (tk & <- & Hin).
    by eapply List.Forall_forall in Hdir; [|exact Hin]. }
  split; [done|]. apply List.Forall_forall. intros tk Hin.
  assert (Htk : folderName tk ∈ map folderName ts) by (apply list_elem_of_In, in_map_iff; by exists tk).
  rewrite (dir_at_same _ _ _ (Hsame _ Htk)).
  by eapply List.Forall_forall in Hdir; [|exact Hin].
Qed.

Lemma isValidZip_dir (t : node) p : dir_at t p = true -> isValidZip t p = false.
Proof. unfold dir_at, isValidZip. by repeat case_match. Qed.

(** A valid zip [y.zip] is no folder of a later task, and no later task
    writes it. *)
Lemma zip_not_later (t1 : node) y ts :
  isValidZip t1 (root </> zx y) = true -> y ∉ map folderName ts ->
  Forall (fun tk => dir_at t1 (root </> folderName tk) = true) ts ->
  zx y ∉ map folderName ts ++ map (fun tk => zx (folderName tk)) ts.
Proof.
  intros Hv Hy Hdir. rewrite elem_of_app. intros [Hin|Hin].
  - apply list_elem_of_In, in_map_iff in Hin as (tk & Heq & Hin).
    eapply List.Forall_forall in Hdir; [|exact Hin]. rewrite Heq in Hdir.
    by rewrite isValidZip_dir in Hv.
  - apply list_elem_of_In, in_map_iff in Hin as (tk & Heq & Hin).
    apply app_inv_tail in Heq. apply Hy, list_elem_of_In, in_map_iff. by exists tk.
Qed.

(** The loop of lines 83-108 over tasks for distinct folders of the root. *)
Lemma process_tasks_effect (t0 t' : node) total i ts l :
  Inv t0 -> Forall task_shape ts ->
  Forall (fun tk => dir_at t0 (root </> folderName tk) = true) ts ->
  NoDup (map folderName ts) ->
  process_tasks includePattern verbose t0 orig total i ts = (t', l) ->
  Inv t' /\ DirsKept (map folderName ts) t0 t' /\
  (forall y, y ∈ map folderName ts -> dir_at t' (root </> y) = true ->
     forall s, lookup t' (root </> y ++ s) = lookup t0 (root </> y ++ s)) /\
  (no_zip_error l = true -> forall y, y ∈ map folderName ts ->
     isEmptyFolder includePattern t0 (root </> y) = false -> isValidZip t' (root </> zx y) = true) /\
  FilesKept (map folderName ts ++ map (fun tk => zx (folderName tk)) ts) t0 t'.
Proof.
  revert t0 t' i l. induction ts as [|tk ts IH]; intros t0 t' i l Hinv Hsh Hdir Hnd.
  { intros [= <- <-]. split; [done|]. split; [done|]. split; [done|]. split; [|done].
    intros _ y Hy. by apply elem_of_nil in Hy. }
  inversion Hsh as [|? ? Htk Hsh']; subst. inversion Hdir as [|? ? Hd Hdir']; subst.
  simpl in Hnd. apply NoDup_cons in Hnd as [Hy Hnd]. simpl.
  destruct tk as [k y sp zp]. unfold task_shape in Htk. simpl in *. injection Htk as -> ->.
  destruct (process_task includePattern verbose t0 orig total i (MkTask k y (root </> y) (root </> zx y)))
    as [t1 l1] eqn:E1.
  destruct (process_task_effect t0 t1 k y total i l1 Hinv (dir_at_valid t0 y (proj1 Hinv) Hd) E1)
    as (Hinv1 & HD1 & HF1 & Hy1 & Hval1 & _).
  destruct (tasks_rest t0 t1 y ts HD1 Hy Hdir') as [Hsame Hdir1].
  destruct (process_tasks includePattern verbose t1 orig total (S i) ts) as [t2 l2] eqn:E2.
  destruct (IH t1 t2 (S i) l2 Hinv1 Hsh' Hdir1 Hnd E2) as (Hinv2 & HD2 & Hy2 & Hval2 & HF2).
  intros [= <- <-]. split; [done|]. split; [|split; [|split]].
  - apply (DirsKept_trans _ _ t1); eapply DirsKept_weaken; [|exact HD1| |exact HD2]; set_solver.
  - intros z Hz Hdz s. apply elem_of_cons in Hz as [->|Hz].
    + assert (E := HD2 y Hy (or_intror Hdz)). rewrite E.
      destruct Hy1 as [[Hnone _]|Hun]; [|apply Hun].
      rewrite (dir_at_same _ _ _ E) in Hdz. unfold dir_at in Hdz. by rewrite Hnone in Hdz.
    + rewrite (Hy2 z Hz Hdz s). by apply Hsame.
  - intros Hne z Hz Hemp. unfold no_zip_error in Hne. rewrite forallb_app in Hne.
    apply andb_prop in Hne as [Hne1 Hne2]. apply elem_of_cons in Hz as [->|Hz].
    + assert (Hv1 : isValidZip t1 (root </> zx y) = true) by by apply Hval1.
      unfold isValidZip in *. rewrite (kept_lookup _ _ _ _ HF2); [done|]. by apply (zip_not_later t1).
    + apply Hval2; [done|done|]. rewrite (isEmptyFolder_same t0); [done|].
      pose proof (Hsame z Hz []) as E. by rewrite !app_nil_r in E.
  - apply (FilesKept_trans _ _ t1); eapply FilesKept_weaken; [|exact HF1| |exact HF2]; set_solver.
Qed.

(** [os.MkdirAll(originalDir)] (line 52) below the parent of an existing
    root. *)
Lemma mkdir_orig_effect (t t1 : node) r es :
  wf t = true -> lookup t root = Some (Dir r es) -> MkdirAll t orig = inl t1 ->
  wf t1 = true /\ (exists r' es', lookup t1 orig = Some (Dir r' es')) /\
  (forall s, lookup t1 (root ++ s) = lookup t (root ++ s)).
Proof.
  intros Hwf Hr Hm.
  destruct (lookup t orig) as [[rf df|ro eso]|] eqn:Ho'.
  - by rewrite (MkdirAll_file _ _ _ _ Ho') in Hm.
  - rewrite (MkdirAll_dir _ _ _ _ Ho') in Hm. injection Hm as <-. eauto.
  - assert (HP : exists rP esP, lookup t P = Some (Dir rP esP)).
    { rewrite lookup_snoc in Hr. destruct (lookup t P) as [[]|]; eauto; done. }
    destruct HP as (rP & esP & HP).
    rewrite (MkdirAll_mkdir _ _ rP esP) in Hm; [|by destruct P|by rewrite parent_snoc|done].
    unfold mkdir in Hm. rewrite Ho', parent_snoc, HP, base_snoc in Hm.
    destruct (update_dir t P _) as [t2|] eqn:Hu; [injection Hm as <-|done].
    split; [by eapply mkdir_wf; [| |unfold mkdir; rewrite Ho', parent_snoc, HP, base_snoc, Hu]; rewrite ?base_snoc|].
    split.
    + pose proof (update_put_lookup _ _ _ _ _ o [] Hu) as E.
      rewrite bool_decide_eq_true_2, app_nil_r in E by done. rewrite E. eauto.
    + intros s. rewrite (update_put_lookup _ _ _ _ _ b s Hu). by rewrite bool_decide_eq_false_2.
Qed.

(** ** The entries of [<root>_original] *)

(** No entry of [orig] outside [E] changes. *)
Definition OrigKept (E : list name) (t t' : node) : Prop :=
  forall w s, w ∉ E -> lookup t' (orig </> w ++ s) = lookup t (orig </> w ++ s).

Lemma update_root_orig (t t' : node) f s :
  update_dir t root f = Some t' -> lookup t' (orig ++ s) = lookup t (orig ++ s).
Proof.
  intros Hu. eapply update_dir_lookup_diverge; [exact Hu| |]; rewrite <- !app_assoc; simpl.
  - replace (P ++ [b]) with (P ++ b :: []) by done. by apply diverge_app.
  - replace (P ++ [b]) with (P ++ b :: []) by done. by apply diverge_app.
Qed.

Lemma OrigKept_root (t t' : node) f : update_dir t root f = Some t' -> OrigKept [] t t'.
Proof. intros Hu w s _. rewrite <- (app_assoc orig [w] s). apply (update_root_orig _ _ _ _ Hu). Qed.

Lemma OrigKept_trans E (t1 t2 t3 : node) : OrigKept E t1 t2 -> OrigKept E t2 t3 -> OrigKept E t1 t3.
Proof. intros H12 H23 w s Hw. by rewrite H23, H12. Qed.

Lemma OrigKept_weaken E E' (t t' : node) : E ⊆ E' -> OrigKept E t t' -> OrigKept E' t t'.
Proof. intros Hsub HO w s Hw. apply HO. set_solver. Qed.

Lemma zip_orig (t t' : node) y w ls err :
  y <> w -> zipFolder includePattern verbose t (root </> y) (root </> w) = (t', ls, err) ->
  OrigKept [] t t'.
Proof.
  intros Hyw Hz.
  destruct (zipFolder_effect _ _ _ _ _ _ _ _ _ Hyw Hz) as [[-> _]|(es & Hu & _)]; [done|].
  by eapply OrigKept_root.
Qed.

Lemma move_orig (t t' : node) y :
  rename t (root </> y) (orig </> y) = inl t' -> OrigKept [y] t t'.
Proof.
  intros Hr. apply rename_inl in Hr as (n & t1 & _ & Hu1 & Hu2); [|apply root_orig_ne].
  rewrite parent_snoc, base_snoc in Hu1, Hu2. intros w s Hw.
  rewrite (update_put_lookup _ _ _ _ _ w s Hu2), bool_decide_eq_false_2 by set_solver.
  apply (OrigKept_root _ _ _ Hu1). set_solver.
Qed.

(** A task for [y] changes no entry of [orig] but [orig/y]. *)
Lemma process_task_orig (t t' : node) k y total i l :
  process_task includePattern verbose t orig total i (MkTask k y (root </> y) (root </> zx y)) = (t', l) ->
  OrigKept [y] t t'.
Proof.
  unfold process_task. cbn [zipPath subfolder folderName].
  assert (Hcheck : OrigKept [y] t
    (if fileExists t (root </> zx y)
     then match remove t (root </> zx y) with inl t' => t' | inr _ => t end else t)).
  { destruct (fileExists t (root </> zx y)); [|done].
    destruct (remove t (root </> zx y)) as [t1|] eqn:Hr; [|done].
    apply remove_inl in Hr as (_ & _ & Hu). rewrite parent_snoc, base_snoc in Hu.
    eapply OrigKept_weaken; [|by eapply OrigKept_root]. set_solver. }
  assert (Hrest : forall t1 l0 l1, OrigKept [y] t t1 ->
    (let '(t2, l2, err) := zipFolder includePattern verbose t1 (root </> y) (root </> zx y) in
     match err with
     | Some e => (t2, l0 ++ l1 ++ l2 ++ [AZipError e])
     | None => match rename t2 (root </> y) (orig </> y) with
               | inl t3 => (t3, l0 ++ l1 ++ l2)
               | inr e => (t2, l0 ++ l1 ++ l2 ++ [AMoveFailed e])
               end
     end) = (t', l) -> OrigKept [y] t t').
  { intros t1 l0 l1 H1.
    destruct (zipFolder includePattern verbose t1 (root </> y) (root </> zx y)) as [[t2 l2] err] eqn:Hz.
    assert (H12 : OrigKept [y] t t2).
    { eapply OrigKept_trans; [exact H1|]. eapply OrigKept_weaken; [|exact (zip_orig _ _ _ _ _ _ (zx_ne y) Hz)].
      set_solver. }
    destruct err; [by intros [= <- _]|].
    destruct (rename t2 (root </> y) (orig </> y)) as [t3|] eqn:Hr; [|by intros [= <- _]].
    intros [= <- _]. eapply OrigKept_trans; [exact H12|]. by apply move_orig. }
  destruct (fileExists t (root </> zx y)).
  - destruct (isValidZip t (root </> zx y)); [by intros [= <- _]|]. cbn [negb]. by apply Hrest.
  - cbn [negb]. by apply Hrest.
Qed.

Lemma process_tasks_orig (t t' : node) total i ts l :
  Forall task_shape ts ->
  process_tasks includePattern verbose t orig total i ts = (t', l) ->
  OrigKept (map folderName ts) t t'.
Proof.
  revert t t' i l. induction ts as [|tk ts IH]; intros t t' i l Hsh; simpl; [by intros [= <- _]|].
  inversion Hsh as [|? ? Htk Hsh']; subst. unfold task_shape in Htk. rewrite Htk.
  destruct (process_task _ _ _ _ _ _ _) as [t1 l1] eqn:E1.
  destruct (process_tasks _ _ _ _ _ _ ts) as [t2 l2] eqn:E2. intros [= <- _].
  eapply OrigKept_trans.
  - eapply OrigKept_weaken; [|exact (process_task_orig _ _ _ _ _ _ _ E1)]. set_solver.
  - eapply OrigKept_weaken; [|exact (IH _ _ _ _ Hsh' E2)]. set_solver.
Qed.

(** ** Folders moved to [orig] *)

(** No line of the log reports a failure. *)
Definition no_error_line (l : list alog) : bool :=
  forallb (fun a => match a with
                    | AInvalid _ | AReadDirFailed _ | AMkdirFailed _ | AZipError _ | AMoveFailed _ => false
                    | _ => true
                    end) l.

Lemma no_error_line_zip l : no_error_line l = true -> no_zip_error l = true.
Proof.
  unfold no_error_line, no_zip_error. rewrite !forallb_forall. intros Hl a Ha.
  specialize (Hl a Ha). by destruct a.
Qed.

Lemma no_error_line_app l1 l2 : no_error_line (l1 ++ l2) = no_error_line l1 && no_error_line l2.
Proof. apply forallb_app. Qed.

Lemma no_error_line_fail x l1 l2 a :
  no_error_line [a] = false -> no_error_line (x :: l1 ++ l2 ++ [a]) = false.
Proof. intros Ha. by rewrite app_comm_cons, app_assoc, no_error_line_app, Ha, andb_false_r. Qed.

Lemma move_lookup (t t' : node) y :
  rename t (root </> y) (orig </> y) = inl t' -> lookup t' (orig </> y) = lookup t (root </> y).
Proof.
  intros Hr. apply rename_inl in Hr as (n & t1 & Hl & _ & Hu2); [|apply root_orig_ne].
  rewrite parent_snoc, base_snoc in Hu2.
  pose proof (update_put_lookup _ _ _ _ _ y [] Hu2) as E.
  rewrite bool_decide_eq_true_2, app_nil_r in E by done. by rewrite E, Hl.
Qed.

(** A task for [y] whose zip is not valid and which logs no failure moves
    [root/y] as it was to [orig/y]. *)
Lemma process_task_moved (t t' : node) k y total i l :
  Inv t -> valid_component y = true -> isValidZip t (root </> zx y) = false ->
  process_task includePattern verbose t orig total i (MkTask k y (root </> y) (root </> zx y)) = (t', l) ->
  no_error_line l = true ->
  lookup t' (orig </> y) = lookup t (root </> y) /\ lookup t' (root </> y) = None.
Proof.
  intros Hinv Hy Hv. unfold process_task. cbn [zipPath subfolder folderName]. rewrite Hv.
  destruct (check_effect t (zx y) Hinv Hv) as (Hinv1 & _ & HF1).
  set (t1 := if fileExists t (root </> zx y)
             then match remove t (root </> zx y) with inl t' => t' | inr _ => t end else t) in *.
  assert (Hstage : (if fileExists t (root </> zx y) then
              (match remove t (root </> zx y) with inl t' => t' | inr _ => t end, [AReCompress], true)
            else (t, [], true)) = (t1, if fileExists t (root </> zx y) then [AReCompress] else [], true))
    by (subst t1; by destruct (fileExists t (root </> zx y))).
  rewrite Hstage. cbn [negb].
  destruct (zipFolder includePattern verbose t1 (root </> y) (root </> zx y)) as [[t2 l2] err] eqn:Hz.
  destruct (zip_effect t1 t2 y (zx y) l2 err Hinv1 (zx_ne y) (valid_component_zip y Hy) Hz)
    as (Hinv2 & _ & HF2 & _ & _).
  destruct err as [e|].
  { intros [= _ <-]. by rewrite no_error_line_fail. }
  destruct (rename t2 (root </> y) (orig </> y)) as [t3|e] eqn:Hr.
  2: { intros [= _ <-]. by rewrite no_error_line_fail. }
  intros [= <- _] _. split; [|by apply (move_effect t2 t3 y Hinv2 Hr)].
  rewrite (move_lookup _ _ _ Hr).
  rewrite (kept_lookup _ _ _ _ HF2), (kept_lookup _ _ _ _ HF1); [done| |]; pose proof (zx_ne y); set_solver.
Qed.

(** The loop of lines 83-108, when it logs no failure, moves every folder of
    a task whose zip was not valid to [orig], and no directory is left at
    its place in the root. *)
Lemma process_tasks_moved (t0 t' : node) total i ts l (y : name) :
  Inv t0 -> Forall task_shape ts ->
  Forall (fun tk => dir_at t0 (root </> folderName tk) = true) ts ->
  NoDup (map folderName ts) ->
  process_tasks includePattern verbose t0 orig total i ts = (t', l) -> no_error_line l = true ->
  y ∈ map folderName ts -> isValidZip t0 (root </> zx y) = false ->
  lookup t' (orig </> y) = lookup t0 (root </> y) /\ dir_at t' (root </> y) = false.
Proof.
  revert t0 t' i l. induction ts as [|tk ts IH]; intros t0 t' i l Hinv Hsh Hdir Hnd.
  { intros _ _ Hy. by apply elem_of_nil in Hy. }
  inversion Hsh as [|? ? Htk Hsh']; subst. inversion Hdir as [|? ? Hd Hdir']; subst.
  simpl in Hnd. apply NoDup_cons in Hnd as [Hz Hnd]. simpl.
  destruct tk as [k z sp zp]. unfold task_shape in Htk. simpl in *. injection Htk as -> ->.
  destruct (process_task includePattern verbose t0 orig total i (MkTask k z (root </> z) (root </> zx z)))
    as [t1 l1] eqn:E1.
  pose proof (dir_at_valid t0 z (proj1 Hinv) Hd) as Hvz.
  destruct (process_task_effect t0 t1 k z total i l1 Hinv Hvz E1) as (Hinv1 & HD1 & HF1 & Hz1 & _).
  destruct (tasks_rest t0 t1 z ts HD1 Hz Hdir') as [Hsame Hdir1].
  destruct (process_tasks includePattern verbose t1 orig total (S i) ts) as [t2 l2] eqn:E2.
  destruct (process_tasks_effect t1 t2 total (S i) ts l2 Hinv1 Hsh' Hdir1 Hnd E2) as (_ & HD2 & _).
  intros [= <- <-] Hne Hy Hv. rewrite no_error_line_app in Hne. apply andb_prop in Hne as [Hne1 Hne2].
  apply elem_of_cons in Hy as [<-|Hy].
  - destruct (process_task_moved t0 t1 k y total i l1 Hinv Hvz Hv E1 Hne1) as [Hoy Hr].
    split.
    + pose proof (process_tasks_orig _ _ _ _ _ _ Hsh' E2 y [] Hz) as E. rewrite !app_nil_r in E.
      etransitivity; [exact E|exact Hoy].
    + destruct (dir_at t2 (root </> y)) eqn:Hd2; [|done].
      pose proof (HD2 y Hz (or_intror Hd2)) as E. rewrite (dir_at_same _ _ _ E) in Hd2.
      unfold dir_at in Hd2. by rewrite Hr in Hd2.
  - assert (Hv1 : isValidZip t1 (root </> zx y) = false).
    { destruct (decide (zx y = z)) as [Heq|Hne].
      - rewrite Heq. destruct Hz1 as [[Hnone _]|Hun].
        + unfold isValidZip. by rewrite Hnone.
        + apply isValidZip_dir. by rewrite (dir_at_same _ _ _ Hun).
      - unfold isValidZip. rewrite (kept_lookup _ _ _ _ HF1); [done|].
        assert (y <> z) by (intros ->; contradiction).
        assert (zx y <> zx z) by (intros Heq; apply app_inv_tail in Heq; contradiction).
        set_solver. }
    destruct (IH t1 t2 (S i) l2 Hinv1 Hsh' Hdir1 Hnd E2 Hne2 Hy Hv1) as [Hoy Hd2].
    split; [|done]. rewrite Hoy. specialize (Hsame y Hy []). by rewrite !app_nil_r in Hsame.
Qed.

(** ** The task list *)

Definition selected (t : node) (e : name * node) : bool :=
  is_dir e.2 && negb (isHidden e.1) && negb (isEmptyFolder includePattern t (root </> e.1)).

Lemma prepare_tasks_names (t : node) es n :
  map folderName (prepare_tasks includePattern t root es n) = map fst (List.filter (selected t) es).
Proof.
  revert n; induction es as [|[x c] es IH]; intros n; [done|]. simpl.
  destruct (selected t (x, c)) eqn:Es; unfold selected in Es; simpl in Es; rewrite Es; simpl; by rewrite IH.
Qed.

Lemma prepare_tasks_shape (t : node) es n : Forall task_shape (prepare_tasks includePattern t root es n).
Proof.
  revert n; induction es as [|[x c] es IH]; intros n; simpl; [constructor|].
  case_match; [constructor; [done|apply IH]|apply IH].
Qed.

Lemma NoDup_map_fst_filter (f : name * node -> bool) (es : list (name * node)) :
  NoDup (map fst es) -> NoDup (map fst (List.filter f es)).
Proof.
  induction es as [|[x c] es IH]; simpl; [done|]. intros Hnd.
  apply NoDup_cons in Hnd as [Hx Hnd]. destruct (f (x, c)); [|by apply IH].
  simpl. constructor; [|by apply IH]. intros Hin. apply Hx.
  apply list_elem_of_In, in_map_iff in Hin as ([y d] & <- & Hin). apply filter_In in Hin as [Hin _].
  apply list_elem_of_In, in_map_iff. by exists (y, d).
Qed.

Lemma selected_names (t : node) es y :
  y ∈ map fst (List.filter (selected t) es) <-> exists c, In (y, c) es /\ selected t (y, c) = true.
Proof.
  rewrite list_elem_of_In, in_map_iff. split.
  - intros ([y' c] & <- & Hin). apply filter_In in Hin. by exists c.
  - intros (c & Hin & Hs). exists (y, c). split; [done|]. by apply filter_In.
Qed.

(** What [prepare_tasks] lists when the root holds the entries [es]. *)
Lemma prepare_tasks_facts (t : node) r es :
  wf t = true -> lookup t root = Some (Dir r es) ->
  let ts := prepare_tasks includePattern t root es 0 in
  Forall task_shape ts /\
  Forall (fun tk => dir_at t (root </> folderName tk) = true) ts /\
  NoDup (map folderName ts).
Proof.
  intros Hwf Hr ts. subst ts. pose proof (wf_lookup_NoDup _ _ _ _ Hwf Hr) as Hnd.
  split; [apply prepare_tasks_shape|]. rewrite prepare_tasks_names.
  split; [|by apply NoDup_map_fst_filter].
  apply List.Forall_forall. intros tk Hin.
  assert (Hy : folderName tk ∈ map fst (List.filter (selected t) es)).
  { rewrite <- (prepare_tasks_names t es 0). apply list_elem_of_In, in_map_iff. by exists tk. }
  apply selected_names in Hy as (c & Hin' & Hs). unfold selected in Hs. simpl in Hs.
  unfold dir_at. rewrite lookup_snoc, Hr, (find_entry_In _ _ _ Hnd Hin').
  destruct c; [done|]. done.
Qed.

End Run.

Section Runs.
Context {D : Type} `{ZipFormat D}.
Context (includePattern : name) (verbose : bool).

Abbreviation node := (FileSystem.node D).
Local Notation run := (archive_run includePattern verbose).
Local Notation ext_original := ⟨"_original"⟩.

Lemma original_ne (b : name) : b <> b ++ ext_original.
Proof. intros Heq. apply (f_equal length) in Heq. rewrite length_app in Heq. simpl in Heq. lia. Qed.

Lemma original_valid (t : node) P b n :
  wf t = true -> lookup t (P </> b) = Some n -> valid_component (b ++ ext_original) = true.
Proof. intros Hwf Hl. eapply valid_component_suffix; [eapply lookup_valid_base; eauto|done|simpl; lia]. Qed.

Lemma archive_run_snoc (t : node) P b :
  run t (P </> b) =
  match lookup t (P </> b) with
  | Some (Dir r entries) =>
      if negb r then (t, [AReadDirFailed ErrPermission]) else
      match MkdirAll t (P </> (b ++ ext_original)) with
      | inr e => (t, [AMkdirFailed e])
      | inl t1 =>
          match prepare_tasks includePattern t1 (P </> b) entries 0 with
          | [] => (t1, [ANoTasks])
          | tasks =>
              let '(t2, l) := process_tasks includePattern verbose t1 (P </> (b ++ ext_original))
                                (length tasks) 0 tasks in
              (t2, AFound (length tasks) :: l ++ [ADone])
          end
      end
  | _ => (t, [AInvalid (P </> b)])
  end.
Proof. unfold archive_run, originalDir_of. rewrite parent_snoc, base_snoc. by destruct P. Qed.

(** A run either leaves the tree as it is, or creates [<root>_original]
    (changing nothing below the root) and then finds no task or runs the
    loop of lines 83-108. *)
Lemma archive_run_effect (t t' : node) P b l :
  wf t = true -> run t (P </> b) = (t', l) ->
  t' = t \/
  exists es t1, lookup t (P </> b) = Some (Dir true es) /\
    Inv P b (b ++ ext_original) t1 /\
    (forall s, lookup t1 ((P </> b) ++ s) = lookup t ((P </> b) ++ s)) /\
    ((prepare_tasks includePattern t1 (P </> b) es 0 = [] /\ t' = t1) \/
     (exists l', prepare_tasks includePattern t1 (P </> b) es 0 <> [] /\
        process_tasks includePattern verbose t1 (P </> (b ++ ext_original))
          (length (prepare_tasks includePattern t1 (P </> b) es 0)) 0
          (prepare_tasks includePattern t1 (P </> b) es 0) = (t', l') /\
        l = AFound (length (prepare_tasks includePattern t1 (P </> b) es 0)) :: l' ++ [ADone])).
Proof.
  intros Hwf. rewrite archive_run_snoc.
  destruct (lookup t (P </> b)) as [[rf df|[] es]|] eqn:Hr; try (intros [= <- _]; by left).
  cbn [negb]. destruct (MkdirAll t (P </> (b ++ ext_original))) as [t1|e] eqn:Hm; [|intros [= <- _]; by left].
  destruct (mkdir_orig_effect P b (b ++ ext_original) ltac:(apply original_ne)
              (original_valid t P b _ Hwf Hr)
              t t1 true es Hwf Hr Hm) as (Hwf1 & Ho1 & Hfr).
  intros Hrun. right. exists es, t1. split; [done|].
  split; [split; [done|split; [|done]]; exists es; by rewrite <- (app_nil_r (P </> b)), Hfr, app_nil_r|].
  split; [done|].
  destruct (prepare_tasks includePattern t1 (P </> b) es 0) as [|tk ts] eqn:Et.
  - left. by injection Hrun as <-.
  - right. revert Hrun.
    destruct (process_tasks includePattern verbose t1 (P </> (b ++ ext_original))
                (length (tk :: ts)) 0 (tk :: ts)) as [t2 l'] eqn:Ep.
    intros [= <- <-]. by exists l'.
Qed.

(** Tasks whose zip is valid are all skipped. *)
Lemma process_tasks_skip (t : node) orig total i ts :
  Forall (fun tk => isValidZip t (zipPath tk) = true) ts ->
  (process_tasks includePattern verbose t orig total i ts).1 = t.
Proof.
  revert i. induction ts as [|tk ts IH]; intros i Hv; [done|]. inversion Hv as [|? ? Hv1 Hv2]; subst.
  simpl. unfold process_task. rewrite (isValidZip_fileExists _ _ Hv1), Hv1. simpl.
  destruct (process_tasks _ _ _ _ _ _ ts) as [t2 l2] eqn:E. simpl.
  specialize (IH (S i) Hv2). by rewrite E in IH.
Qed.

Lemma dir_at_selected (t : node) root r es y c :
  wf t = true -> lookup t root = Some (Dir r es) -> In (y, c) es ->
  lookup t (root </> y) = Some c.
Proof.
  intros Hwf Hr Hin. rewrite lookup_snoc, Hr.
  exact (find_entry_In _ _ _ (wf_lookup_NoDup _ _ _ _ Hwf Hr) Hin).
Qed.

(** C18: a directory of the root that is hidden or holds no matching file
    is neither archived nor moved: after the run everything below it is as
    it was. *)
Theorem archive_run_keeps_non_tasks (t : node) root x r es s :
  wf t = true -> lookup t (root </> x) = Some (Dir r es) ->
  isHidden x = true \/ isEmptyFolder includePattern t (root </> x) = true ->
  lookup (run t root).1 (root </> x ++ s) = lookup t (root </> x ++ s).
Proof.
  intros Hwf Hx Hsel. destruct (run t root) as [t' l] eqn:E. simpl.
  destruct (decide (root = [])) as [->|Hne]; [by injection E as <-|].
  destruct (exists_last Hne) as (P & b & ->).
  destruct (archive_run_effect t t' P b l Hwf E) as [->|(es0 & t1 & Hr & Hinv1 & Hfr & Hts)]; [done|].
  assert (Hx1 : forall s', lookup t1 (P </> b </> x ++ s') = lookup t (P </> b </> x ++ s')).
  { intros s'. rewrite !root_below. apply Hfr. }
  assert (Hx1' : lookup t1 (P </> b </> x) = Some (Dir r es)).
  { specialize (Hx1 []). rewrite !app_nil_r in Hx1. by rewrite Hx1. }
  destruct Hts as [[_ ->]|(l' & Hne' & Ep & _)]; [apply Hx1|].
  assert (Hr1 : lookup t1 (P </> b) = Some (Dir true es0)).
  { rewrite <- (app_nil_r (P </> b)), Hfr. by rewrite app_nil_r. }
  destruct Hinv1 as [Hwf1 Hinv1'].
  destruct (prepare_tasks_facts includePattern P b t1 true es0 Hwf1 Hr1) as (Hsh & Hdir & Hnd).
  destruct (process_tasks_effect includePattern verbose P b (b ++ ext_original) (original_ne b)
              (original_valid t P b _ Hwf Hr)
              t1 t' _ 0 _ l' (conj Hwf1 Hinv1') Hsh Hdir Hnd Ep) as (_ & HD & _).
  rewrite (HD x); [apply Hx1| |].
  - rewrite prepare_tasks_names, selected_names. intros (c & Hin & Hs).
    pose proof (dir_at_selected t1 _ _ _ x c Hwf1 Hr1 Hin) as Hc.
    rewrite Hx1' in Hc. injection Hc as <-.
    unfold selected in Hs. simpl in Hs. rewrite (isEmptyFolder_same includePattern t) in Hs.
    + destruct Hsel as [E1|E1]; rewrite E1 in Hs; [done|by rewrite andb_false_r in Hs].
    + by rewrite Hx1'.
  - left. unfold dir_at. by rewrite Hx1'.
Qed.

(** After a first run whose loop reported no zip error, every task of a
    second run finds a valid zip. *)
Lemma second_run_valid (t1 t' : node) P b es0 es' l' :
  let ts := prepare_tasks includePattern t1 (P </> b) es0 0 in
  wf t1 = true -> lookup t1 (P </> b) = Some (Dir true es0) ->
  wf t' = true -> lookup t' (P </> b) = Some (Dir true es') ->
  DirsKept P b (map folderName ts) t1 t' ->
  (forall y, y ∈ map folderName ts -> dir_at t' (P </> b </> y) = true ->
     forall s, lookup t' (P </> b </> y ++ s) = lookup t1 (P </> b </> y ++ s)) ->
  (no_zip_error l' = true -> forall y, y ∈ map folderName ts ->
     isEmptyFolder includePattern t1 (P </> b </> y) = false ->
     isValidZip t' (P </> b </> (y ++ ⟨".zip"⟩)) = true) ->
  no_zip_error l' = true ->
  Forall (fun tk => isValidZip t' (zipPath tk) = true) (prepare_tasks includePattern t' (P </> b) es' 0).
Proof.
  intros ts Hwf1 Hr1 Hwf' Hr' HD Hy Hval Hne. subst ts.
  pose proof (prepare_tasks_shape includePattern P b t' es' 0) as Hsh.
  apply List.Forall_forall. intros tk Hin.
  eapply List.Forall_forall in Hsh; [|exact Hin]. unfold task_shape in Hsh. rewrite Hsh. simpl.
  set (y := folderName tk).
  assert (Hy2 : y ∈ map fst (List.filter (selected includePattern P b t') es')).
  { rewrite <- (prepare_tasks_names includePattern P b t' es' 0). apply list_elem_of_In, in_map_iff. by exists tk. }
  apply selected_names in Hy2 as (c & Hin' & Hs). unfold selected in Hs. simpl in Hs.
  apply andb_prop in Hs as [Hs Hemp]. apply andb_prop in Hs as [Hc Hvis].
  pose proof (dir_at_selected t' _ _ _ y c Hwf' Hr' Hin') as Hyc.
  assert (Hdy : dir_at t' (P </> b </> y) = true) by (unfold dir_at; rewrite Hyc; by destruct c).
  apply negb_true_iff in Hemp.
  destruct (decide (y ∈ map folderName (prepare_tasks includePattern t1 (P </> b) es0 0))) as [Hy1|Hy1].
  - apply Hval; [done|done|]. rewrite <- Hemp. apply isEmptyFolder_same.
    specialize (Hy y Hy1 Hdy []). by rewrite !app_nil_r in Hy.
  - exfalso. apply Hy1. assert (E := HD y Hy1 (or_intror Hdy)).
    assert (Hyc1 : lookup t1 (P </> b </> y) = Some c).
    { specialize (E []). rewrite !app_nil_r in E. by rewrite <- E. }
    rewrite prepare_tasks_names, selected_names. exists c. split.
    + rewrite lookup_snoc, Hr1 in Hyc1. by apply find_entry_Some.
    + unfold selected. simpl. rewrite Hc, Hvis. simpl.
      rewrite (isEmptyFolder_same includePattern t' t1), Hemp; [done|].
      by rewrite Hyc1.
Qed.

(** C17: a second run leaves the tree exactly as the first run left it,
    provided the first run printed no "Error zipping" line: every folder the
    first run archived is gone from the root or has a valid zip, and no other
    folder becomes a task. *)
Theorem archive_run_idempotent (t : node) root :
  wf t = true -> no_zip_error (run t root).2 = true ->
  (run (run t root).1 root).1 = (run t root).1.
Proof.
  intros Hwf. destruct (run t root) as [t' l] eqn:E. simpl. intros Hne.
  destruct (decide (root = [])) as [->|Hnr]; [reflexivity|].
  destruct (exists_last Hnr) as (P & b & ->).
  destruct (archive_run_effect t t' P b l Hwf E) as [->|(es0 & t1 & Hr & Hinv1 & Hfr & Hts)];
    [by rewrite E|].
  assert (Hr1 : lookup t1 (P </> b) = Some (Dir true es0)).
  { rewrite <- (app_nil_r (P </> b)), Hfr. by rewrite app_nil_r. }
  destruct Hinv1 as (Hwf1 & _ & r1 & eso1 & Ho1).
  destruct Hts as [[Et ->]|(l' & _ & Ep & ->)].
  { rewrite archive_run_snoc, Hr1. cbn [negb]. rewrite (MkdirAll_dir t1 (P </> (b ++ ext_original)) r1 eso1 Ho1), Et. done. }
  destruct (prepare_tasks_facts includePattern P b t1 true es0 Hwf1 Hr1) as (Hsh & Hdir & Hnd).
  destruct (process_tasks_effect includePattern verbose P b (b ++ ext_original) (original_ne b)
              (original_valid t P b _ Hwf Hr)
              t1 t' _ 0 _ l' ltac:(split; [done|split; [by exists es0|eauto]]) Hsh Hdir Hnd Ep)
    as ((Hwf' & [es' Hr'] & r2 & eso2 & Ho2) & HD & Hy & Hval & _).
  assert (Hne' : no_zip_error l' = true).
  { unfold no_zip_error in *. simpl in Hne. rewrite forallb_app in Hne. by apply andb_prop in Hne as [? _]. }
  rewrite archive_run_snoc, Hr'. cbn [negb]. rewrite (MkdirAll_dir t' (P </> (b ++ ext_original)) r2 eso2 Ho2).
  pose proof (second_run_valid t1 t' P b es0 es' l' Hwf1 Hr1 Hwf' Hr' HD Hy Hval Hne') as Hv.
  destruct (prepare_tasks includePattern t' (P </> b) es' 0) as [|tk2 ts2]; [done|].
  pose proof (process_tasks_skip t' (P </> (b ++ ext_original)) (length (tk2 :: ts2)) 0 _ Hv) as Hs.
  destruct (process_tasks _ _ _ _ _ _ (tk2 :: ts2)) as [t3 l3]. simpl in *. by subst.
Qed.

(** C16: a run that logs no failure archives every task folder whose zip
    was not valid: the folder is moved unchanged to [<root>_original], no
    directory is left at its place in the root, and [<folder>.zip] next to
    it is a valid archive. *)
Theorem archive_run_archives (t : node) root (y : name) r es :
  wf t = true -> no_error_line (run t root).2 = true ->
  lookup t (root </> y) = Some (Dir r es) -> isHidden y = false ->
  isEmptyFolder includePattern t (root </> y) = false ->
  isValidZip t (root </> (y ++ ⟨".zip"⟩)) = false ->
  lookup (run t root).1 (originalDir_of root </> y) = Some (Dir r es) /\
  dir_at (run t root).1 (root </> y) = false /\
  isValidZip (run t root).1 (root </> (y ++ ⟨".zip"⟩)) = true.
Proof.
  intros Hwf. destruct (run t root) as [t' l] eqn:E. simpl. intros Hne Hy Hvis Hemp Hv.
  destruct (decide (root = [])) as [->|Hnr]; [by injection E as _ <-|].
  destruct (exists_last Hnr) as (P & b & ->). rewrite archive_run_snoc in E.
  assert (Hb : exists r0 es0, lookup t (P </> b) = Some (Dir r0 es0)).
  { rewrite lookup_snoc in Hy. destruct (lookup t (P </> b)) as [[|r0 es0]|]; [done|eauto|done]. }
  destruct Hb as ([] & es0 & Hr); rewrite Hr in E; cbn [negb] in E; [|by injection E as _ <-].
  pose proof (original_valid t P b _ Hwf Hr) as Hvo.
  destruct (MkdirAll t (P </> (b ++ ext_original))) as [t1|e] eqn:Hm; [|by injection E as _ <-].
  destruct (mkdir_orig_effect P b (b ++ ext_original) (original_ne b) Hvo t t1 true es0 Hwf Hr Hm)
    as (Hwf1 & Ho1 & Hfr).
  assert (Hr1 : lookup t1 (P </> b) = Some (Dir true es0)).
  { rewrite <- (app_nil_r (P </> b)), Hfr. by rewrite app_nil_r. }
  assert (Hy1 : forall s, lookup t1 (P </> b </> y ++ s) = lookup t (P </> b </> y ++ s)).
  { intros s. rewrite !root_below. apply Hfr. }
  assert (Hemp1 : isEmptyFolder includePattern t1 (P </> b </> y) = false).
  { rewrite (isEmptyFolder_same includePattern t t1); [done|]. specialize (Hy1 []). by rewrite !app_nil_r in Hy1. }
  destruct (prepare_tasks_facts includePattern P b t1 true es0 Hwf1 Hr1) as (Hsh & Hdir & Hnd).
  assert (Hin : y ∈ map folderName (prepare_tasks includePattern t1 (P </> b) es0 0)).
  { rewrite prepare_tasks_names, selected_names. exists (Dir r es). split.
    - rewrite lookup_snoc, Hr in Hy. by apply find_entry_Some.
    - unfold selected. simpl. by rewrite Hvis, Hemp1. }
  revert E Hsh Hdir Hnd Hin.
  destruct (prepare_tasks includePattern t1 (P </> b) es0 0) as [|tk ts]; [intros _ _ _ _ Hin; by apply elem_of_nil in Hin|].
  destruct (process_tasks includePattern verbose t1 (P </> (b ++ ext_original)) (length (tk :: ts)) 0 (tk :: ts))
    as [t2 l'] eqn:Ep.
  intros [= <- <-] Hsh Hdir Hnd Hin.
  assert (Hne' : no_error_line l' = true).
  { unfold no_error_line in *. simpl in Hne. rewrite forallb_app in Hne. by apply andb_prop in Hne as [? _]. }
  assert (Hinv1 : Inv P b (b ++ ext_original) t1) by (split; [done|split; [by exists es0|done]]).
  assert (Hvz : isValidZip t1 (P </> b </> (y ++ ⟨".zip"⟩)) = false) by (unfold isValidZip; by rewrite Hfr).
  destruct (process_tasks_moved includePattern verbose P b (b ++ ext_original) (original_ne b) Hvo
              t1 t2 _ 0 _ l' y Hinv1 Hsh Hdir Hnd Ep Hne' Hin Hvz) as [Ho Hd].
  destruct (process_tasks_effect includePattern verbose P b (b ++ ext_original) (original_ne b) Hvo
              t1 t2 _ 0 _ l' Hinv1 Hsh Hdir Hnd Ep) as (_ & _ & _ & Hval & _).
  unfold originalDir_of. rewrite parent_snoc, base_snoc.
  split; [|split; [done|by apply Hval; [apply no_error_line_zip| |]]].
  rewrite Ho. specialize (Hy1 []). rewrite !app_nil_r in Hy1. by rewrite Hy1.
Qed.

End Runs.

(** ** Concrete runs *)

Import Blob.

Lemma archive_run_keeps_non_tasks_witness :
  isEmptyFolder ⟨"*.raw"⟩ ex_study ([⟨"study"⟩] </> ⟨"B"⟩) = true /\
  lookup (archive_run ⟨"*.raw"⟩ false ex_study [⟨"study"⟩]).1 ([⟨"study"⟩] </> ⟨"B"⟩ ++ []) =
    lookup ex_study ([⟨"study"⟩] </> ⟨"B"⟩ ++ []).
Proof.
  split; [reflexivity|].
  exact (archive_run_keeps_non_tasks ⟨"*.raw"⟩ false ex_study [⟨"study"⟩] ⟨"B"⟩ true
           [(⟨"notes.txt"⟩, File true (Bytes 4))] [] eq_refl eq_refl (or_intror eq_refl)).
Defined.

Lemma archive_run_idempotent_witness :
  no_zip_error (archive_run ⟨"*.raw"⟩ false ex_study [⟨"study"⟩]).2 = true /\
  (archive_run ⟨"*.raw"⟩ false (archive_run ⟨"*.raw"⟩ false ex_study [⟨"study"⟩]).1 [⟨"study"⟩]).1 =
    (archive_run ⟨"*.raw"⟩ false ex_study [⟨"study"⟩]).1.
Proof.
  assert (Hne : no_zip_error (archive_run ⟨"*.raw"⟩ false ex_study [⟨"study"⟩]).2 = true)
    by (vm_compute; reflexivity).
  split; [exact Hne|].
  exact (archive_run_idempotent ⟨"*.raw"⟩ false ex_study [⟨"study"⟩] eq_refl Hne).
Defined.

Lemma archive_run_archives_witness :
  let t1 := (archive_run ⟨"*.raw"⟩ false ex_study [⟨"study"⟩]).1 in
  lookup t1 (originalDir_of [⟨"study"⟩] </> ⟨"A"⟩) =
    Some (Dir true [(⟨"a1.raw"⟩, File true (Bytes 1)); (⟨"a2.RAW"⟩, File true (Bytes 2))]) /\
  dir_at t1 ([⟨"study"⟩] </> ⟨"A"⟩) = false /\
  isValidZip t1 ([⟨"study"⟩] </> (⟨"A"⟩ ++ ⟨".zip"⟩)) = true.
Proof.
  assert (Hne : no_error_line (archive_run ⟨"*.raw"⟩ false ex_study [⟨"study"⟩]).2 = true)
    by (vm_compute; reflexivity).
  exact (archive_run_archives ⟨"*.raw"⟩ false ex_study [⟨"study"⟩] ⟨"A"⟩ true
           [(⟨"a1.raw"⟩, File true (Bytes 1)); (⟨"a2.RAW"⟩, File true (Bytes 2))]
           eq_refl Hne eq_refl eq_refl eq_refl eq_refl).
Defined.
