(* ===== verification/ArchiverSafety.v ===== *)
(** * No folder leaves the root without its archive

    [src/compress.go] moves a task's folder into [<root>_original] only
    after [zipFolder] returned no error (lines 96-107). This file shows
    that, whatever else fails during a run (a zip error, a failed move, an
    invalid zip found and removed), a directory that is no longer in the
    root at the end leaves a valid [<folder>.zip] in its place. *)

From stdpp Require Import base list sets strings.
From S2P Require Import Prelude GoStrings Glob FileSystem FileOps ZipFormat Archiver ArchiverRun.

Section Moves.
Context {D : Type} `{ZipFormat D}.
Context (includePattern : name) (verbose : bool).
Context (P : path) (b o : name).
Hypothesis Hbo : b <> o.
Hypothesis Ho : valid_component o = true.

Abbreviation node := (FileSystem.node D).
Local Notation root := (P </> b).
Local Notation orig := (P </> o).
Local Notation zx y := (y ++ ⟨".zip"⟩).

(** Along the loop of lines 83-108 over non-empty task folders: a folder of
    the root that is gone at the end has a valid zip. *)
Lemma process_tasks_moved_valid (t0 t' : node) total i ts l y :
  Inv P b o t0 -> Forall (task_shape P b) ts ->
  Forall (fun tk => dir_at t0 (root </> folderName tk) = true) ts -> NoDup (map folderName ts) ->
  Forall (fun tk => isEmptyFolder includePattern t0 (root </> folderName tk) = false) ts ->
  process_tasks includePattern verbose t0 orig total i ts = (t', l) ->
  dir_at t0 (root </> y) = true -> dir_at t' (root </> y) = false ->
  isValidZip t' (root </> zx y) = true.
Proof.
  revert t0 t' i l. induction ts as [|tk ts IH]; intros t0 t' i l Hinv Hsh Hdir Hnd Hemp.
  { intros [= <- _] Hd Hd'. congruence. }
  inversion Hsh as [|? ? Htk Hsh']; subst. inversion Hdir as [|? ? Hd Hdir']; subst.
  inversion Hemp as [|? ? He Hemp']; subst.
  simpl in Hnd. apply NoDup_cons in Hnd as [Hz Hnd]. simpl.
  destruct tk as [k z sp zp]. unfold task_shape in Htk. simpl in *. injection Htk as -> ->.
  destruct (process_task includePattern verbose t0 orig total i (MkTask k z (root </> z) (root </> zx z)))
    as [t1 l1] eqn:E1.
  pose proof (dir_at_valid P b t0 z (proj1 Hinv) Hd) as Hvz.
  destruct (process_task_effect includePattern verbose P b o Hbo Ho t0 t1 k z total i l1 Hinv Hvz E1)
    as (Hinv1 & HD1 & HF1 & Hz1 & _).
  destruct (tasks_rest P b o Hbo Ho t0 t1 z ts HD1 Hz Hdir') as [Hsame Hdir1].
  destruct (process_tasks includePattern verbose t1 orig total (S i) ts) as [t2 l2] eqn:E2.
  destruct (process_tasks_effect includePattern verbose P b o Hbo Ho t1 t2 total (S i) ts l2
              Hinv1 Hsh' Hdir1 Hnd E2) as (_ & HD2 & _ & _ & HF2).
  intros [= <- _] Hy Hy2.
  assert (Hemp1 : Forall (fun tk => isEmptyFolder includePattern t1 (root </> folderName tk) = false) ts).
  { apply List.Forall_forall. intros tk Hin. rewrite (isEmptyFolder_same _ t0).
    - by eapply List.Forall_forall in Hemp'; [|exact Hin].
    - pose proof (Hsame (folderName tk) ltac:(apply list_elem_of_In, in_map, Hin) []) as E.
      by rewrite !app_nil_r in E. }
  destruct (decide (y = z)) as [->|Hyz].
  - assert (Hd1 : dir_at t1 (root </> z) = false).
    { destruct (dir_at t1 (root </> z)) eqn:E; [|done]. rewrite <- Hy2, <- E.
      symmetry. apply dir_at_same, (HD2 z Hz). by left. }
    destruct Hz1 as [[_ Hv1]|Hun]; [|by rewrite (dir_at_same _ _ _ _ _ Hun), Hd in Hd1].
    specialize (Hv1 He). unfold isValidZip in Hv1 |- *.
    rewrite (kept_lookup _ _ _ _ _ _ HF2); [done|].
    apply (zip_not_later P b t1); [by unfold isValidZip|done|done].
  - destruct (decide (y ∈ map folderName ts)) as [Hin|Hnin].
    + apply (IH t1 t2 (S i) l2 Hinv1 Hsh' Hdir1 Hnd Hemp1 E2); [|done].
      by rewrite (dir_at_same _ _ _ _ _ (Hsame y Hin)).
    + exfalso.
      assert (HD : DirsKept P b (z :: map folderName ts) t0 t2).
      { apply (DirsKept_trans P b _ _ t1).
        - apply (DirsKept_weaken P b o Hbo Ho [z]); [set_solver|done].
        - apply (DirsKept_weaken P b o Hbo Ho (map folderName ts)); [set_solver|done]. }
      assert (Hy' : y ∉ z :: map folderName ts) by set_solver.
      rewrite (dir_at_same _ _ _ _ _ (HD y Hy' (or_introl Hy))), Hy in Hy2. done.
Qed.

End Moves.

Section Runs.
Context {D : Type} `{ZipFormat D}.
Context (includePattern : name) (verbose : bool).

Abbreviation node := (FileSystem.node D).
Local Notation run := (archive_run includePattern verbose).

(** Every task folder holds a file that matches (lines 61-63). *)
Lemma prepare_tasks_nonempty (t : node) root es n :
  Forall (fun tk => isEmptyFolder includePattern t (root </> folderName tk) = false)
    (prepare_tasks includePattern t root es n).
Proof.
  revert n. induction es as [|[x c] es IH]; intros n; simpl; [constructor|].
  destruct (is_dir c && negb (isHidden x) && negb (isEmptyFolder includePattern t (root </> x))) eqn:E;
    [|apply IH].
  constructor; [|apply IH]. cbn [folderName]. apply andb_prop in E as [_ E]. by apply negb_true_iff in E.
Qed.

(** C40: whatever fails during a run (a zip error, a failed move, an invalid
    zip removed), a directory of the root that is gone after the run leaves
    a valid [<folder>.zip] in its place: no folder disappears from the root
    without its archive. *)
Theorem archive_run_moves_only_archived (t : node) root y :
  wf t = true -> dir_at t (root </> y) = true -> dir_at (run t root).1 (root </> y) = false ->
  isValidZip (run t root).1 (root </> (y ++ ⟨".zip"⟩)) = true.
Proof.
  intros Hwf Hy. destruct (run t root) as [t' l] eqn:E. simpl. intros Hy'.
  destruct (decide (root = [])) as [->|Hne]; [injection E as <- _; congruence|].
  destruct (exists_last Hne) as (Q & b & ->).
  destruct (archive_run_effect includePattern verbose t t' Q b l Hwf E)
    as [->|(es & t1 & Hr & Hinv1 & Hfr & Hts)]; [congruence|].
  assert (Hy1 : dir_at t1 (Q </> b </> y) = true).
  { rewrite (dir_at_same Q b t t1 y); [done|]. intros s. rewrite !root_below. apply Hfr. }
  assert (Hr1 : lookup t1 (Q </> b) = Some (Dir true es)).
  { rewrite <- (app_nil_r (Q </> b)), Hfr. by rewrite app_nil_r. }
  destruct Hts as [[_ ->]|(l' & _ & Ep & _)]; [congruence|].
  destruct (prepare_tasks_facts includePattern Q b t1 true es (proj1 Hinv1) Hr1) as (Hsh & Hdir & Hnd).
  exact (process_tasks_moved_valid includePattern verbose Q b (b ++ ⟨"_original"⟩) (original_ne b)
           (original_valid t Q b _ Hwf Hr) t1 t' _ 0 _ l' y Hinv1 Hsh Hdir Hnd
           (prepare_tasks_nonempty t1 _ es 0) Ep Hy1 Hy').
Qed.

End Runs.

(** ** A concrete run *)

Import Blob.

Lemma archive_run_moves_only_archived_witness :
  wf ex_study = true /\ dir_at ex_study ([⟨"study"⟩] </> ⟨"A"⟩) = true /\
  dir_at (archive_run ⟨"*.raw"⟩ false ex_study [⟨"study"⟩]).1 ([⟨"study"⟩] </> ⟨"A"⟩) = false /\
  isValidZip (archive_run ⟨"*.raw"⟩ false ex_study [⟨"study"⟩]).1 ([⟨"study"⟩] </> (⟨"A"⟩ ++ ⟨".zip"⟩)) = true.
Proof.
  assert (H1 : wf ex_study = true) by reflexivity.
  assert (H2 : dir_at ex_study ([⟨"study"⟩] </> ⟨"A"⟩) = true) by reflexivity.
  assert (H3 : dir_at (archive_run ⟨"*.raw"⟩ false ex_study [⟨"study"⟩]).1 ([⟨"study"⟩] </> ⟨"A"⟩) = false)
    by (vm_compute; reflexivity).
  split; [exact H1|split; [exact H2|split; [exact H3|]]].
  exact (archive_run_moves_only_archived ⟨"*.raw"⟩ false ex_study [⟨"study"⟩] ⟨"A"⟩ H1 H2 H3).
Defined.
