(* ===== verification/ArchiverLog.v ===== *)
(** * The progress lines of the Archiver

    The loop of [src/compress.go] lines 83-108 prints
    ["[%d/%d] Checking: %s"] with [i+1] and [total] for every task, after
    ["Found %d folders to process."] (line 81). This file shows that the
    counters printed by a run are [1/n], ..., [n/n] in order. *)

From stdpp Require Import base list strings.
From S2P Require Import Prelude Glob FileSystem FileOps ZipFormat Archiver.

Section Progress.
Context {D : Type} `{ZipFormat D}.
Context (includePattern : name) (verbose : bool).
Abbreviation node := (FileSystem.node D).

(** The [[%d/%d] Checking: %s] lines of a log (line 84). *)
Definition checking_lines (l : list alog) : list (nat * nat * name) :=
  omap (fun a => match a with AChecking i n x => Some (i, n, x) | _ => None end) l.

Lemma checking_lines_app l1 l2 : checking_lines (l1 ++ l2) = checking_lines l1 ++ checking_lines l2.
Proof. apply omap_app. Qed.

(** [zipFolder] prints only the [+ relPath] lines. *)
Lemma zipFolder_checking (t : node) fp zp : checking_lines (zipFolder includePattern verbose t fp zp).1.2 = [].
Proof.
  assert (Hw : forall (t1 : node) (cs : list (@wcall D)), checking_lines (zip_walk includePattern verbose t1 fp cs).1.2 = []).
  { intros t1 cs. induction cs as [|c cs IH]; [done|]. cbn [zip_walk].
    destruct (wc_err c); [done|]. destruct (is_dir (wc_node c)); [done|].
    destruct (negb (include_match includePattern (base (wc_path c)))); [done|].
    destruct (open_file t1 (wc_path c)) as [d|e]; [|by destruct verbose].
    destruct (zip_walk includePattern verbose t1 fp cs) as [[es ls] err]. simpl in IH |- *.
    rewrite checking_lines_app, IH. by destruct verbose. }
  unfold zipFolder. destruct (create t zp empty_file) as [t1|e]; [|done].
  destruct (lookup t1 fp) as [n|]; [|done].
  specialize (Hw t1 (walk_calls fp n)).
  destruct (zip_walk includePattern verbose t1 fp (walk_calls fp n)) as [[es ls] err]. done.
Qed.

(** Each task prints one progress line, with its position and the total. *)
Lemma process_task_checking (t : node) o total i tk :
  checking_lines (process_task includePattern verbose t o total i tk).2 = [(S i, total, folderName tk)].
Proof.
  unfold process_task.
  destruct (fileExists t (zipPath tk)); [destruct (isValidZip t (zipPath tk))|];
    cbn beta iota; [reflexivity| |];
    match goal with |- context [zipFolder includePattern verbose ?t1 ?f ?z] =>
      pose proof (zipFolder_checking t1 f z) as Hz;
      destruct (zipFolder includePattern verbose t1 f z) as [[t2 l2] err] end;
    cbn [snd fst] in Hz; destruct err;
    try match goal with |- context [rename ?a ?b ?c] => destruct (rename a b c) end;
    cbn [snd negb]; rewrite !checking_lines_app, Hz; reflexivity.
Qed.

Lemma process_tasks_checking (t : node) o total i ts :
  checking_lines (process_tasks includePattern verbose t o total i ts).2 =
  imap (fun j tk => (S (i + j), total, folderName tk)) ts.
Proof.
  revert t i. induction ts as [|tk ts IH]; intros t i; [done|]. cbn [process_tasks].
  pose proof (process_task_checking t o total i tk) as H1.
  destruct (process_task includePattern verbose t o total i tk) as [t1 l1].
  specialize (IH t1 (S i)). destruct (process_tasks includePattern verbose t1 o total (S i) ts) as [t2 l2].
  simpl in H1, IH |- *. rewrite checking_lines_app, H1, IH, Nat.add_0_r. f_equal.
  apply imap_ext. intros j x _. unfold compose. by rewrite Nat.add_succ_r.
Qed.

Lemma imap_counter {A} (g : A -> name) n k (xs : list A) :
  map (fun c : nat * nat * name => c.1) (imap (fun j x => (S (k + j), n, g x)) xs) = map (fun i => (i, n : nat)) (seq (S k) (length xs)).
Proof.
  revert k. induction xs as [|x xs IH]; intros k; [done|]. cbn [imap map length seq].
  rewrite Nat.add_0_r. f_equal. rewrite <- (IH (S k)). f_equal. apply imap_ext. intros j y _.
  unfold compose. by rewrite Nat.add_succ_r.
Qed.

(** C33: the progress lines [[i/n] Checking: x] of a run count the tasks
    from 1 to n in order, n being the number printed first by
    ["Found %d folders to process."]: the counter shown stays within
    [1, n], starts at 1 and never skips or repeats a value. *)
Theorem archive_run_progress (t : node) root orig :
  let l := (archive_run_at includePattern verbose t root orig).2 in
  exists n : nat, map (fun c => c.1) (checking_lines l) = map (fun i => (i, n)) (seq 1 n) /\
            (n <> 0 -> head l = Some (AFound n)).
Proof.
  unfold archive_run_at. destruct (lookup t root) as [[|r es]|]; try by exists 0.
  destruct (negb r); [by exists 0|]. destruct (MkdirAll t orig) as [t1|e]; [|by exists 0].
  destruct (prepare_tasks includePattern t1 root es 0) as [|tk ts]; [by exists 0|].
  pose proof (process_tasks_checking t1 orig (length (tk :: ts)) 0 (tk :: ts)) as Hc.
  destruct (process_tasks includePattern verbose t1 orig (length (tk :: ts)) 0 (tk :: ts)) as [t2 l2].
  exists (length (tk :: ts)). simpl in Hc |- *. split; [|done].
  rewrite checking_lines_app, Hc, app_nil_r. apply (imap_counter folderName _ 0 (tk :: ts)).
Qed.

End Progress.
