(* ===== verification/ArchiverStuck.v ===== *)
(** * Folders no run archives

    A task of [src/compress.go] (lines 83-108) whose [<folder>.zip] is in a
    state that makes the task change nothing is repeated, unchanged, by
    every later run. Two such states exist:

    - [<folder>.zip] is a valid archive: the task prints "Valid zip exists"
      and skips the folder (lines 86-89). This holds for the partial archive
      that a failed [zipFolder] leaves behind (its deferred [Close] writes
      the entries added so far).
    - [<folder>.zip] is a directory: [fileExists] (lines 117-120) is false
      for it, so the task neither validates nor removes it, and
      [zipFolder]'s [os.Create] fails on it (line 155): the run prints
      "Error zipping".

    [process_tasks_stuck] and [archive_run_stuck] state once what a run does
    to such a folder; [runs_stuck] extends it to any number of runs; the
    two theorems instantiate it. *)

From stdpp Require Import base list sets strings.
From S2P Require Import Prelude GoStrings Glob FileSystem FileOps ZipFormat Archiver ArchiverRun ArchiverLog.

(** A line of a log and the line right after it. *)
Definition followed_by {A} (l : list A) (a b : A) : Prop :=
  exists pre post, l = pre ++ a :: b :: post.

Lemma followed_by_app_l {A} (l1 l2 : list A) a b : followed_by l2 a b -> followed_by (l1 ++ l2) a b.
Proof. intros (pre & post & ->). exists (l1 ++ pre), post. by rewrite <- app_assoc. Qed.

Lemma followed_by_cons {A} (l : list A) x a b : followed_by l a b -> followed_by (x :: l) a b.
Proof. apply (followed_by_app_l [x]). Qed.

Lemma followed_by_app_r {A} (l1 l2 : list A) a b : followed_by l1 a b -> followed_by (l1 ++ l2) a b.
Proof. intros (pre & post & ->). exists pre, (post ++ l2). by rewrite <- app_assoc. Qed.

Section Tasks.
Context {D : Type} `{ZipFormat D}.
Context (includePattern : name) (verbose : bool).
Context (P : path) (b o : name).
Hypothesis Hbo : b <> o.
Hypothesis Ho : valid_component o = true.

Abbreviation node := (FileSystem.node D).
Local Notation root := (P </> b).
Local Notation orig := (P </> o).
Local Notation zx y := (y ++ ⟨".zip"⟩).

(** A task whose zip path is a directory prints its progress line and
    [Error zipping: is a directory], and changes nothing. *)
Lemma process_task_zip_dir (t : node) o' total i tk :
  dir_at t (zipPath tk) = true ->
  process_task includePattern verbose t o' total i tk =
    (t, [AChecking (S i) total (folderName tk); AZipError ErrIsDir]).
Proof.
  unfold dir_at, process_task, fileExists, zipFolder, create. intros Hd.
  destruct (lookup t (zipPath tk)) as [[]|] eqn:E; [done| |done]. simpl. by rewrite E.
Qed.

(** A task whose zip is valid prints its progress line and "Valid zip
    exists", and changes nothing. *)
Lemma process_task_valid_zip (t : node) o' total i tk :
  isValidZip t (zipPath tk) = true ->
  process_task includePattern verbose t o' total i tk =
    (t, [AChecking (S i) total (folderName tk); ASkipValid]).
Proof. intros Hv. unfold process_task. by rewrite (isValidZip_fileExists _ _ Hv), Hv. Qed.

(** The progress lines of the loop name its tasks' folders only. *)
Lemma process_tasks_checking_name (t : node) total i ts j n x :
  AChecking j n x ∈ (process_tasks includePattern verbose t orig total i ts).2 -> x ∈ map folderName ts.
Proof.
  intros Hin. assert (Hc : (j, n, x) ∈ checking_lines (process_tasks includePattern verbose t orig total i ts).2).
  { unfold checking_lines. apply list_elem_of_omap. by exists (AChecking j n x). }
  rewrite process_tasks_checking in Hc.
  apply list_elem_of_lookup in Hc as [k Hk]. rewrite list_lookup_imap in Hk.
  destruct (ts !! k) as [tk|] eqn:E; [|done]. injection Hk as _ _ <-.
  apply list_elem_of_In, in_map, list_elem_of_In. by eapply list_elem_of_lookup_2.
Qed.

(** Along the loop, for a folder [x] whose task changes nothing and prints
    [a] after its progress line as long as [x.zip] is the node [z], and
    whose [x.zip] is no task folder: [x] and [x.zip] stay as they are, and
    the progress line of [x] is followed by [a]. *)
Lemma process_tasks_stuck (a : alog) (z t0 t' : node) total i ts l x :
  (forall (t : node) k total' i', lookup t (root </> zx x) = Some z ->
     process_task includePattern verbose t orig total' i' (MkTask k x (root </> x) (root </> zx x)) =
       (t, [AChecking (S i') total' x; a])) ->
  (forall j n, a <> AChecking j n x) ->
  Inv P b o t0 -> Forall (task_shape P b) ts ->
  Forall (fun tk => dir_at t0 (root </> folderName tk) = true) ts -> NoDup (map folderName ts) ->
  dir_at t0 (root </> x) = true -> lookup t0 (root </> zx x) = Some z -> zx x ∉ map folderName ts ->
  process_tasks includePattern verbose t0 orig total i ts = (t', l) ->
  (forall s, lookup t' (root </> x ++ s) = lookup t0 (root </> x ++ s)) /\
  lookup t' (root </> zx x) = Some z /\
  (forall j n, AChecking j n x ∈ l -> followed_by l (AChecking j n x) a).
Proof.
  intros Htask Ha. revert t0 i l. induction ts as [|tk ts IH]; intros t0 i l Hinv Hsh Hdir Hnd Hx Hz Hzn.
  { intros [= <- <-]. split; [done|]. split; [done|]. intros j n Hin. by apply elem_of_nil in Hin. }
  inversion Hsh as [|? ? Htk Hsh']; subst. inversion Hdir as [|? ? Hd Hdir']; subst.
  simpl in Hnd. apply NoDup_cons in Hnd as [Hy Hnd]. apply not_elem_of_cons in Hzn as [Hzy Hzn].
  destruct tk as [k y sp zp]. unfold task_shape in Htk. simpl in *. injection Htk as -> ->.
  destruct (process_task includePattern verbose t0 orig total i (MkTask k y (root </> y) (root </> zx y)))
    as [t1 l1] eqn:E1.
  destruct (process_task_effect includePattern verbose P b o Hbo Ho t0 t1 k y total i l1 Hinv
              (dir_at_valid P b t0 y (proj1 Hinv) Hd) E1) as (Hinv1 & HD1 & HF1 & _).
  destruct (tasks_rest P b o Hbo Ho t0 t1 y ts HD1 Hy Hdir') as [_ Hdir1].
  destruct (process_tasks includePattern verbose t1 orig total (S i) ts) as [t2 l2] eqn:E2.
  intros [= <- <-].
  destruct (decide (y = x)) as [->|Hyx].
  - rewrite (Htask t0 k total i Hz) in E1. injection E1 as <- <-.
    destruct (IH t0 (S i) l2 Hinv1 Hsh' Hdir1 Hnd Hx Hz Hzn E2) as (Hx2 & Hz2 & _).
    split; [done|]. split; [done|]. intros j n Hin. simpl in Hin.
    apply elem_of_cons in Hin as [[= -> ->]|Hin].
    { by exists [], l2. }
    apply elem_of_cons in Hin as [Hin|Hin]; [by destruct (Ha j n)|].
    exfalso. apply Hy. eapply process_tasks_checking_name. rewrite E2. exact Hin.
  - assert (Hx1 : forall s, lookup t1 (root </> x ++ s) = lookup t0 (root </> x ++ s))
      by (apply HD1; [set_solver|by left]).
    assert (Hz1 : lookup t1 (root </> zx x) = Some z).
    { rewrite (kept_lookup P b t0 t1 _ (zx x) HF1); [done|].
      intros Hin. apply elem_of_cons in Hin as [Hin|Hin]; [done|].
      apply list_elem_of_singleton in Hin. apply app_inv_tail in Hin. congruence. }
    destruct (IH t1 (S i) l2 Hinv1 Hsh' Hdir1 Hnd) as (Hx2 & Hz2 & Hl2);
      [by rewrite (dir_at_same _ _ _ _ _ Hx1)|done|done|done|].
    split; [intros s; by rewrite Hx2, Hx1|]. split; [done|].
    intros j n Hin. apply elem_of_app in Hin as [Hin|Hin]; [|apply followed_by_app_l, Hl2, Hin].
    exfalso. assert (Hc : (j, n, x) ∈ checking_lines l1).
    { unfold checking_lines. apply list_elem_of_omap. by exists (AChecking j n x). }
    pose proof (process_task_checking includePattern verbose t0 orig total i
                  (MkTask k y (root </> y) (root </> zx y))) as Hc1.
    rewrite E1 in Hc1. simpl in Hc1. rewrite Hc1 in Hc. apply list_elem_of_singleton in Hc. congruence.
Qed.

End Tasks.

Section Runs.
Context {D : Type} `{ZipFormat D}.
Context (includePattern : name) (verbose : bool).

Abbreviation node := (FileSystem.node D).
Local Notation run := (archive_run includePattern verbose).
Local Notation zx y := (y ++ ⟨".zip"⟩).

Lemma lookup_below (t t' : node) p :
  (forall s, lookup t' (p ++ s) = lookup t (p ++ s)) -> lookup t' p = lookup t p.
Proof. intros Hs. specialize (Hs []). by rewrite !app_nil_r in Hs. Qed.

Lemma dir_at_below (t t' : node) p :
  (forall s, lookup t' (p ++ s) = lookup t (p ++ s)) -> dir_at t' p = dir_at t p.
Proof. intros Hs. unfold dir_at. by rewrite (lookup_below t t' p Hs). Qed.

(** An entry of the root that is no directory, or a directory without a
    matching file, is no task folder (lines 61-63). *)
Lemma not_task (t : node) P b r es w c :
  wf t = true -> lookup t (P </> b) = Some (Dir r es) -> lookup t (P </> b </> w) = Some c ->
  is_dir c = false \/ isEmptyFolder includePattern t (P </> b </> w) = true ->
  w ∉ map folderName (prepare_tasks includePattern t (P </> b) es 0).
Proof.
  intros Hwf Hr Hc Hsel. rewrite prepare_tasks_names, selected_names. intros (c' & Hin & Hs).
  pose proof (dir_at_selected t _ _ _ w c' Hwf Hr Hin) as Hc'. rewrite Hc in Hc'. injection Hc' as <-.
  unfold selected in Hs. simpl in Hs.
  destruct Hsel as [E|E]; rewrite E in Hs; [done|by rewrite andb_false_r in Hs].
Qed.

(** [x.zip] is the node [z], which no task folder can be. *)
Definition zip_stays (t : node) root x (z : node) : Prop :=
  lookup t (root </> zx x) = Some z /\
  (is_dir z = false \/ isEmptyFolder includePattern t (root </> zx x) = true).

Lemma zip_stays_same (t t' : node) root x z :
  lookup t' (root </> zx x) = Some z -> zip_stays t root x z -> zip_stays t' root x z.
Proof.
  intros Hz' [Hz [E|E]]; split; [done|by left|done|right].
  by rewrite (isEmptyFolder_same includePattern t t'); [|rewrite Hz', Hz].
Qed.

(** One run on a folder [x] whose task changes nothing and prints [a] after
    its progress line while [x.zip] is [z]: the tree stays well formed, [x]
    and [x.zip] stay as they are, and every progress line of [x] is followed
    by [a]. *)
Lemma archive_run_stuck (a : alog) (z t : node) root x :
  (forall (t : node) o' k total i, lookup t (root </> zx x) = Some z ->
     process_task includePattern verbose t o' total i (MkTask k x (root </> x) (root </> zx x)) =
       (t, [AChecking (S i) total x; a])) ->
  (forall j n, a <> AChecking j n x) ->
  wf t = true -> dir_at t (root </> x) = true -> zip_stays t root x z ->
  wf (run t root).1 = true /\
  (forall s, lookup (run t root).1 (root </> x ++ s) = lookup t (root </> x ++ s)) /\
  lookup (run t root).1 (root </> zx x) = Some z /\
  (forall j n, AChecking j n x ∈ (run t root).2 -> followed_by (run t root).2 (AChecking j n x) a).
Proof.
  intros Htask Ha Hwf Hx [Hz Hsel]. destruct (run t root) as [t' l] eqn:E. simpl.
  destruct (decide (root = [])) as [->|Hnr].
  { injection E as <- <-. do 3 (split; [done|]). intros j n Hin. by apply list_elem_of_singleton in Hin. }
  destruct (exists_last Hnr) as (P & b & ->). rewrite archive_run_snoc in E.
  destruct (lookup t (P </> b)) as [[rf df|[] es0]|] eqn:Hr;
    try (injection E as <- <-; do 3 (split; [done|]); intros j n Hin; by apply list_elem_of_singleton in Hin).
  cbn [negb] in E. pose proof (original_valid t P b _ Hwf Hr) as Hvo.
  destruct (MkdirAll t (P </> (b ++ ⟨"_original"⟩))) as [t1|e] eqn:Hm;
    [|injection E as <- <-; do 3 (split; [done|]); intros j n Hin; by apply list_elem_of_singleton in Hin].
  destruct (mkdir_orig_effect P b (b ++ ⟨"_original"⟩) (original_ne b) Hvo t t1 true es0 Hwf Hr Hm)
    as (Hwf1 & Ho1 & Hfr).
  assert (Hb1 : forall y s, lookup t1 (P </> b </> y ++ s) = lookup t (P </> b </> y ++ s)).
  { intros y s. rewrite !root_below. apply Hfr. }
  assert (Hr1 : lookup t1 (P </> b) = Some (Dir true es0)) by (rewrite (lookup_below t t1); [done|apply Hfr]).
  assert (Hinv1 : Inv P b (b ++ ⟨"_original"⟩) t1) by (split; [done|split; [by exists es0|done]]).
  assert (Hz1 : lookup t1 (P </> b </> zx x) = Some z) by (rewrite (lookup_below t t1); [done|apply Hb1]).
  destruct (zip_stays_same t t1 (P </> b) x z Hz1 (conj Hz Hsel)) as [_ Hsel1].
  destruct (prepare_tasks_facts includePattern P b t1 true es0 Hwf1 Hr1) as (Hsh & Hdir & Hnd).
  pose proof (not_task t1 P b true es0 (zx x) z Hwf1 Hr1 Hz1 Hsel1) as Hzn.
  revert E Hsh Hdir Hnd Hzn.
  destruct (prepare_tasks includePattern t1 (P </> b) es0 0) as [|tk ts].
  { intros [= <- <-] _ _ _ _. split; [done|]. split; [apply Hb1|]. split; [done|].
    intros j n Hin. by apply list_elem_of_singleton in Hin. }
  destruct (process_tasks includePattern verbose t1 (P </> (b ++ ⟨"_original"⟩)) (length (tk :: ts)) 0 (tk :: ts))
    as [t2 l'] eqn:Ep.
  intros [= <- <-] Hsh Hdir Hnd Hzn.
  destruct (process_tasks_effect includePattern verbose P b (b ++ ⟨"_original"⟩) (original_ne b) Hvo
              t1 t2 _ 0 _ l' Hinv1 Hsh Hdir Hnd Ep) as ((Hwf2 & _) & _).
  assert (Hx1 : dir_at t1 (P </> b </> x) = true) by by rewrite (dir_at_same P b t t1).
  destruct (process_tasks_stuck includePattern verbose P b (b ++ ⟨"_original"⟩) (original_ne b) Hvo a z
              t1 t2 _ 0 _ l' x (fun t k tot j => Htask t _ k tot j) Ha Hinv1 Hsh Hdir Hnd Hx1 Hz1 Hzn Ep)
    as (Hx2 & Hz2 & Hl2).
  split; [done|]. split; [intros s; by rewrite Hx2, Hb1|]. split; [done|].
  intros j n Hin. apply followed_by_cons, followed_by_app_r, Hl2.
  apply elem_of_cons in Hin as [Hin|Hin]; [done|].
  apply elem_of_app in Hin as [Hin|Hin]; [done|]. by apply list_elem_of_singleton in Hin.
Qed.

(** Any number of runs: [x] and [x.zip] stay as they were, and every
    progress line of [x] is followed by [a]. *)
Lemma runs_stuck (a : alog) (z t : node) root x k :
  (forall (t : node) o' k total i, lookup t (root </> zx x) = Some z ->
     process_task includePattern verbose t o' total i (MkTask k x (root </> x) (root </> zx x)) =
       (t, [AChecking (S i) total x; a])) ->
  (forall j n, a <> AChecking j n x) ->
  wf t = true -> dir_at t (root </> x) = true -> zip_stays t root x z ->
  let tk := Nat.iter k (fun t => (run t root).1) t in
  (forall s, lookup tk (root </> x ++ s) = lookup t (root </> x ++ s)) /\
  lookup tk (root </> zx x) = Some z /\
  (forall j n, AChecking j n x ∈ (run tk root).2 -> followed_by (run tk root).2 (AChecking j n x) a).
Proof.
  intros Htask Ha Hwf Hx Hst.
  assert (Hk : forall k, let tk := Nat.iter k (fun t => (run t root).1) t in
             wf tk = true /\ (forall s, lookup tk (root </> x ++ s) = lookup t (root </> x ++ s)) /\
             lookup tk (root </> zx x) = Some z).
  { intros k'. induction k' as [|k' (Hwfk & Hxk & Hzk)]; [split; [done|]; split; [done|apply Hst]|].
    cbn [Nat.iter]. set (tk := Nat.iter k' (fun t => (run t root).1) t) in *.
    destruct (archive_run_stuck a z tk root x Htask Ha Hwfk) as (Hwf' & Hx' & Hz' & _);
      [by rewrite (dir_at_below t tk)|by apply (zip_stays_same t)|].
    split; [done|]. split; [intros s; by rewrite Hx', Hxk|done]. }
  intros tk. destruct (Hk k) as (Hwfk & Hxk & Hzk). fold tk in Hwfk, Hxk, Hzk.
  split; [done|]. split; [done|].
  apply (archive_run_stuck a z tk root x Htask Ha Hwfk); [by rewrite (dir_at_below t tk)|by apply (zip_stays_same t)].
Qed.

(** C13: a folder [x] of the root next to a directory [x.zip] that holds no
    matching file is never archived. [fileExists] is false for the
    directory, so no run validates or removes it; [zipFolder]'s [os.Create]
    fails on it. After any number of runs, everything below [x] is as it
    was, and every progress line a run prints for [x] is followed by
    "Error zipping". *)
Theorem blocked_zip_never_archived (t : node) root x k :
  wf t = true -> dir_at t (root </> x) = true -> dir_at t (root </> (x ++ ⟨".zip"⟩)) = true ->
  isEmptyFolder includePattern t (root </> (x ++ ⟨".zip"⟩)) = true ->
  let tk := Nat.iter k (fun t => (run t root).1) t in
  (forall s, lookup tk (root </> x ++ s) = lookup t (root </> x ++ s)) /\
  forall j n, AChecking j n x ∈ (run tk root).2 ->
    followed_by (run tk root).2 (AChecking j n x) (AZipError ErrIsDir).
Proof.
  intros Hwf Hx Hzx Hemp. unfold dir_at in Hzx.
  destruct (lookup t (root </> zx x)) as [[|r es]|] eqn:Hz; try done.
  destruct (runs_stuck (AZipError ErrIsDir) (Dir r es) t root x k) as (Hxk & _ & Hl); try done.
  - intros t' o' k' total i Hz'. apply process_task_zip_dir. unfold dir_at. simpl. by rewrite Hz'.
  - by split; [|right].
Qed.

(** C20: a folder whose [<folder>.zip] is a valid archive is skipped by
    every later run: after any number of runs everything below the folder
    and the zip are as they were, and every progress line a run prints for
    the folder is followed by "Valid zip exists — skipping". The partial
    archive that a failed [zipFolder] leaves is valid, so such a folder is
    never archived in full. *)
Theorem valid_zip_skipped_forever (t : node) root x k :
  wf t = true -> dir_at t (root </> x) = true -> isValidZip t (root </> (x ++ ⟨".zip"⟩)) = true ->
  let tk := Nat.iter k (fun t => (run t root).1) t in
  (forall s, lookup tk (root </> x ++ s) = lookup t (root </> x ++ s)) /\
  lookup tk (root </> (x ++ ⟨".zip"⟩)) = lookup t (root </> (x ++ ⟨".zip"⟩)) /\
  forall j n, AChecking j n x ∈ (run tk root).2 ->
    followed_by (run tk root).2 (AChecking j n x) ASkipValid.
Proof.
  intros Hwf Hx Hv. pose proof Hv as Hv'. unfold isValidZip in Hv'.
  destruct (lookup t (root </> zx x)) as [z|] eqn:Hz; [|done].
  destruct (runs_stuck ASkipValid z t root x k) as (Hxk & Hzk & Hl); try done.
  - intros t' o' k' total i Hz'. apply process_task_valid_zip. unfold isValidZip in *. simpl. by rewrite Hz'.
  - split; [done|left]. by destruct z as [[]|].
Qed.

End Runs.

(** ** Concrete runs *)

Import Blob.

(** [study/] holding [A/] with a raw file, and a directory [A.zip/] holding
    only a text file. *)
Definition ex_blocked : FileSystem.node blob :=
  Dir true [(⟨"study"⟩, Dir true [
     (⟨"A"⟩, Dir true [(⟨"a1.raw"⟩, File true (Bytes 1))]);
     (⟨"A.zip"⟩, Dir true [(⟨"notes.txt"⟩, File true (Bytes 2))])])].

Lemma blocked_zip_never_archived_witness :
  wf ex_blocked = true /\ dir_at ex_blocked ([⟨"study"⟩] </> ⟨"A"⟩) = true /\
  dir_at ex_blocked ([⟨"study"⟩] </> (⟨"A"⟩ ++ ⟨".zip"⟩)) = true /\
  isEmptyFolder ⟨"*.raw"⟩ ex_blocked ([⟨"study"⟩] </> (⟨"A"⟩ ++ ⟨".zip"⟩)) = true /\
  AChecking 1 1 ⟨"A"⟩ ∈ (archive_run ⟨"*.raw"⟩ false (Nat.iter 2 (fun t => (archive_run ⟨"*.raw"⟩ false t [⟨"study"⟩]).1) ex_blocked) [⟨"study"⟩]).2 /\
  followed_by (archive_run ⟨"*.raw"⟩ false (Nat.iter 2 (fun t => (archive_run ⟨"*.raw"⟩ false t [⟨"study"⟩]).1) ex_blocked) [⟨"study"⟩]).2
    (AChecking 1 1 ⟨"A"⟩) (AZipError ErrIsDir).
Proof.
  assert (H1 : wf ex_blocked = true) by reflexivity.
  assert (H2 : dir_at ex_blocked ([⟨"study"⟩] </> ⟨"A"⟩) = true) by reflexivity.
  assert (H3 : dir_at ex_blocked ([⟨"study"⟩] </> (⟨"A"⟩ ++ ⟨".zip"⟩)) = true) by reflexivity.
  assert (H4 : isEmptyFolder ⟨"*.raw"⟩ ex_blocked ([⟨"study"⟩] </> (⟨"A"⟩ ++ ⟨".zip"⟩)) = true)
    by (vm_compute; reflexivity).
  assert (H5 : AChecking 1 1 ⟨"A"⟩ ∈ (archive_run ⟨"*.raw"⟩ false (Nat.iter 2 (fun t =>
                 (archive_run ⟨"*.raw"⟩ false t [⟨"study"⟩]).1) ex_blocked) [⟨"study"⟩]).2)
    by (apply list_elem_of_In; vm_compute; tauto).
  split; [exact H1|split; [exact H2|split; [exact H3|split; [exact H4|split; [exact H5|]]]]].
  exact (proj2 (blocked_zip_never_archived ⟨"*.raw"⟩ false ex_blocked [⟨"study"⟩] ⟨"A"⟩ 2 H1 H2 H3 H4) 1 1 H5).
Defined.

(** The tree after the first run on [ex_partial], whose [zipFolder] failed
    on the unreadable [a2.raw]: [A.zip] holds [a1.raw] only. *)
Definition ex_after_partial : FileSystem.node blob :=
  (archive_run ⟨"*.raw"⟩ false ex_partial [⟨"study"⟩]).1.

Lemma valid_zip_skipped_forever_witness :
  wf ex_after_partial = true /\ dir_at ex_after_partial ([⟨"study"⟩] </> ⟨"A"⟩) = true /\
  isValidZip ex_after_partial ([⟨"study"⟩] </> (⟨"A"⟩ ++ ⟨".zip"⟩)) = true /\
  lookup ex_after_partial ([⟨"study"⟩] </> (⟨"A"⟩ ++ ⟨".zip"⟩)) =
    Some (File true (Archive [([⟨"A"⟩; ⟨"a1.raw"⟩], Bytes 1)])) /\
  AChecking 1 1 ⟨"A"⟩ ∈ (archive_run ⟨"*.raw"⟩ false (Nat.iter 3 (fun t => (archive_run ⟨"*.raw"⟩ false t [⟨"study"⟩]).1) ex_after_partial) [⟨"study"⟩]).2 /\
  followed_by (archive_run ⟨"*.raw"⟩ false (Nat.iter 3 (fun t => (archive_run ⟨"*.raw"⟩ false t [⟨"study"⟩]).1) ex_after_partial) [⟨"study"⟩]).2
    (AChecking 1 1 ⟨"A"⟩) ASkipValid.
Proof.
  assert (H1 : wf ex_after_partial = true) by (vm_compute; reflexivity).
  assert (H2 : dir_at ex_after_partial ([⟨"study"⟩] </> ⟨"A"⟩) = true) by (vm_compute; reflexivity).
  assert (H3 : isValidZip ex_after_partial ([⟨"study"⟩] </> (⟨"A"⟩ ++ ⟨".zip"⟩)) = true)
    by (vm_compute; reflexivity).
  assert (H4 : lookup ex_after_partial ([⟨"study"⟩] </> (⟨"A"⟩ ++ ⟨".zip"⟩)) =
                 Some (File true (Archive [([⟨"A"⟩; ⟨"a1.raw"⟩], Bytes 1)]))) by (vm_compute; reflexivity).
  assert (H5 : AChecking 1 1 ⟨"A"⟩ ∈ (archive_run ⟨"*.raw"⟩ false (Nat.iter 3 (fun t =>
                 (archive_run ⟨"*.raw"⟩ false t [⟨"study"⟩]).1) ex_after_partial) [⟨"study"⟩]).2)
    by (apply list_elem_of_In; vm_compute; tauto).
  split; [exact H1|split; [exact H2|split; [exact H3|split; [exact H4|split; [exact H5|]]]]].
  exact (proj2 (proj2 (valid_zip_skipped_forever ⟨"*.raw"⟩ false ex_after_partial [⟨"study"⟩] ⟨"A"⟩ 3
                         H1 H2 H3)) 1 1 H5).
Defined.
