(* ===== verification/Cli.v ===== *)
(** * The command lines of the two tools

    [main] of [src/compress.go] (lines 30-110) and of [src/rename.go]
    (lines 18-127) parse their flags with Go's [flag] package ([GoFlag]),
    take the first positional argument as the root, trim one trailing
    separator from it ([strings.TrimSuffix], [compress.go] line 38,
    [rename.go] line 38) and hand it to the work the other files model
    ([Archiver.archive_run_at], [Renamer.run]). This file models that layer:

    - [abs_path]: how [os.Stat], [os.ReadDir] and [filepath.Join] resolve a
      path string against the working directory ([..] resolved lexically,
      as [filepath.Clean] does; symbolic links are not modelled);
    - [compress_main], [rename_main]: the whole [main] of each tool, from
      the argument list to the final tree, the printed lines and the exit
      status.

    The theorems show that on a root written as an absolute path, with or
    without one trailing separator, the command lines run exactly the
    models of the other files, so every theorem about [archive_run] and
    [run] holds of the tools as invoked; and they record two behaviours of
    the command line that its usage text and the specification do not
    describe (flags after the folder are ignored; a doubled trailing
    separator puts the backup folder inside the root). *)

From stdpp Require Import base list strings.
From S2P Require Import Prelude GoStrings FileSystem Glob ZipFormat Archiver ArchiverRun Renamer GoFlag.

(** ** Path strings *)

(** The components of a path string, split at every separator (empty
    components included). *)
Fixpoint split_sep (s : name) (cur : name) : list name :=
  match s with
  | [] => [rev cur]
  | c :: s' => if is_sep c then rev cur :: split_sep s' [] else split_sep s' (c :: cur)
  end.

Definition abs_step (p : path) (x : name) : path :=
  if bool_decide (x = []) || bool_decide (x = ⟨"."⟩) then p
  else if bool_decide (x = ⟨".."⟩) then removelast p
  else p </> x.

(** The path a string names, from the working directory [cwd] unless it
    starts with a separator. *)
Definition abs_path (cwd : path) (s : name) : path :=
  fold_left abs_step (split_sep s [])
    (match s with c :: _ => if is_sep c then [] else cwd | [] => cwd end).

(** [os.Stat] refuses the empty path. *)
Definition stat_path (cwd : path) (s : name) : option path :=
  match s with [] => None | _ :: _ => Some (abs_path cwd s) end.

(** The absolute string of a path: ["/a/b"] for [[a; b]]. *)
Definition render (p : path) : name := concat (map (fun x => r_slash :: x) p).

(** ** The lines the tools print *)

Inductive cli_line :=
| CFlagError (e : flag_error)   (* the [flag] package's error message *)
| CDefaultUsage                 (* [flag.PrintDefaults] under "Usage of ...:" *)
| CUsage                        (* the tool's own usage text *)
| CNoFolder                     (* "Error: No folder path provided." *)
| CDryMode (dry : bool)         (* "Dry run mode: %v" *)
| CArchiver (a : alog)
| CRenamer (l : log_line).

Section Cli.
Context {D : Type} `{ZipFormat D}.
Abbreviation node := (FileSystem.node D).

(** ** The Archiver *)

(** [flag.StringVar(&includePattern, "include", "*", ...)] and
    [flag.BoolVar(&verbose, "verbose", false, ...)] (lines 18-21). *)
Definition archiver_flags : list flag_def :=
  [MkFlag ⟨"include"⟩ (FString ⟨"*"⟩); MkFlag ⟨"verbose"⟩ (FBool false)].

(** Lines 38-110 for the first positional argument [a]. *)
Definition compress_root (incl : name) (verb : bool) (cwd : path) (a : name) (t : node)
    : node * list cli_line :=
  let root := TrimSuffix a [r_slash] in
  match stat_path cwd root with
  | None => (t, [CArchiver (AInvalid [])])
  | Some rp =>
      let '(t', l) := archive_run_at incl verb t rp (abs_path cwd (root ++ ⟨"_original"⟩)) in
      (t', map CArchiver l)
  end.

(** [main] (lines 30-110): the tree, the printed lines and the exit status.
    On a flag error [flag.CommandLine] prints the error and the default usage
    and exits with 2; [-help] prints the usage and exits with 0. Without a
    folder the tool prints its usage line and returns (lines 33-36). *)
Definition compress_main (cwd : path) (args : list name) (t : node) : node * list cli_line * nat :=
  match flag_parse archiver_flags [] args with
  | PHelp => (t, [CDefaultUsage], 0)
  | PErr e => (t, [CFlagError e; CDefaultUsage], 2)
  | POk set pos =>
      match pos with
      | [] => (t, [CUsage], 0)
      | a :: _ =>
          let '(t', l) := compress_root (flag_string archiver_flags set ⟨"include"⟩)
                            (flag_bool archiver_flags set ⟨"verbose"⟩) cwd a t in
          (t', l, 0)
      end
  end.

(** ** The Renamer *)

(** [flag.Bool("dry", true, ...)] (line 19). *)
Definition renamer_flags : list flag_def := [MkFlag ⟨"dry"⟩ (FBool true)].

(** Lines 36-127 for the first positional argument [a]. *)
Definition rename_root (dry : bool) (cwd : path) (a : name) (fs : node) : node * list cli_line :=
  let root := TrimSuffix a [r_slash] in
  match stat_path cwd root with
  | None => (fs, [CDryMode dry; CRenamer (LInvalid [])])
  | Some rp => let '(fs', l) := run dry fs rp in (fs', CDryMode dry :: map CRenamer l)
  end.

(** [main] (lines 18-127). [flag.Usage] is replaced by the tool's own text
    (lines 20-27), which the [flag] package prints on errors; without a
    folder the tool exits with 1 (lines 30-34). *)
Definition rename_main (cwd : path) (args : list name) (fs : node) : node * list cli_line * nat :=
  match flag_parse renamer_flags [] args with
  | PHelp => (fs, [CUsage], 0)
  | PErr e => (fs, [CFlagError e; CUsage], 2)
  | POk set pos =>
      match pos with
      | [] => (fs, [CNoFolder; CUsage], 1)
      | a :: _ => let '(fs', l) := rename_root (flag_bool renamer_flags set ⟨"dry"⟩) cwd a fs in (fs', l, 0)
      end
  end.

End Cli.

(** ** Absolute path strings *)

Lemma valid_component_facts x : valid_component x = true -> x <> [] /\ existsb is_sep x = false.
Proof.
  unfold valid_component. intros Hx. apply andb_prop in Hx as [Hx _]. apply andb_prop in Hx as [Hx _].
  apply andb_prop in Hx as [Hx Hs]. split; [by apply bool_decide_eq_true in Hx|by apply negb_true_iff in Hs].
Qed.

Lemma split_sep_nosep x s cur :
  existsb is_sep x = false -> split_sep (x ++ s) cur = split_sep s (rev x ++ cur).
Proof.
  revert cur; induction x as [|c x IH]; intros cur; [done|]. simpl.
  destruct (is_sep c) eqn:Ec; [done|]. intros Hx. rewrite IH by done. by rewrite <- app_assoc.
Qed.

Lemma split_render P cur :
  Forall (fun x => valid_component x = true) P -> split_sep (render P) cur = rev cur :: P.
Proof.
  revert cur; induction P as [|x P IH]; intros cur HP; [done|].
  inversion HP as [|? ? Hx HP']; subst. unfold render. simpl. fold (render P).
  rewrite split_sep_nosep.
  - rewrite IH, app_nil_r, rev_involutive by done. done.
  - by apply valid_component_facts in Hx as [_ ?].
Qed.

Lemma abs_step_valid p x : valid_component x = true -> abs_step p x = p </> x.
Proof.
  unfold valid_component, abs_step. intros Hx. bool_to_prop.
  rewrite !bool_decide_eq_false_2 by done. done.
Qed.

Lemma fold_abs_step q P :
  Forall (fun x => valid_component x = true) P -> fold_left abs_step P q = q ++ P.
Proof.
  revert q; induction P as [|x P IH]; intros q HP; [by rewrite app_nil_r|].
  inversion HP; subst. simpl. rewrite abs_step_valid, IH by done. by rewrite <- app_assoc.
Qed.

(** An absolute path string names its path, from any working directory. *)
Lemma abs_path_render cwd P :
  Forall (fun x => valid_component x = true) P -> P <> [] -> abs_path cwd (render P) = P.
Proof.
  intros HP Hne. destruct P as [|x P']; [done|]. unfold abs_path.
  rewrite split_render by done. change (render (x :: P')) with (r_slash :: x ++ render P').
  cbn [fold_left rev]. change (is_sep r_slash) with true. cbn iota.
  replace (abs_step [] []) with (@nil name) by done.
  inversion HP as [|? ? Hx HP']; subst. rewrite abs_step_valid, fold_abs_step by done. done.
Qed.

Lemma render_snoc P x : render (P ++ [x]) = render P ++ r_slash :: x.
Proof. unfold render. rewrite map_app, concat_app. simpl. by rewrite app_nil_r. Qed.

Lemma render_no_trailing_sep P :
  Forall (fun x => valid_component x = true) P -> TrimSuffix (render P) [r_slash] = render P.
Proof.
  intros HP. apply TrimSuffix_not_suffix. destruct (HasSuffix (render P) [r_slash]) eqn:E; [|done].
  exfalso. apply HasSuffix_spec in E as [u Hu].
  destruct (decide (P = [])) as [->|Hne]; [by destruct u|].
  destruct (exists_last Hne) as (P' & x & ->).
  apply Forall_app in HP as [_ Hx]. inversion Hx as [|? ? Hv]; subst.
  rewrite render_snoc in Hu. apply valid_component_facts in Hv as [Hx0 Hsep].
  destruct (exists_last Hx0) as (x' & c & ->). rewrite app_comm_cons, app_assoc in Hu.
  apply app_inj_tail in Hu as [_ ->]. rewrite existsb_app in Hsep. simpl in Hsep.
  by rewrite orb_true_r in Hsep.
Qed.

(** [root + "_original"] for an absolute root is the sibling [originalDir_of]. *)
Lemma abs_path_original cwd P :
  Forall (fun x => valid_component x = true) P -> P <> [] ->
  abs_path cwd (render P ++ ⟨"_original"⟩) = originalDir_of P.
Proof.
  intros HP Hne. destruct (exists_last Hne) as (P' & b & ->).
  apply Forall_app in HP as [HP' Hb]. inversion Hb as [|? ? Hvb]; subst.
  rewrite render_snoc, <- app_assoc. cbn [app].
  replace (r_slash :: b ++ ⟨"_original"⟩) with (r_slash :: (b ++ ⟨"_original"⟩)) by done.
  rewrite <- render_snoc, abs_path_render.
  - unfold originalDir_of. by rewrite parent_snoc, base_snoc.
  - apply Forall_app. split; [done|]. constructor; [|done].
    apply valid_component_suffix; [done|done|simpl; lia].
  - by destruct P'.
Qed.

Lemma TrimSuffix_render P (trail : bool) :
  Forall (fun x => valid_component x = true) P ->
  TrimSuffix (render P ++ (if trail then [r_slash] else [])) [r_slash] = render P.
Proof.
  intros HP. destruct trail; [apply TrimSuffix_app|]. rewrite app_nil_r. by apply render_no_trailing_sep.
Qed.

Lemma render_nil_iff P : render P = [] <-> P = [].
Proof. destruct P; [done|]. by split. Qed.

(** ** The Renamer's flag *)

Lemma parse_named_dry_false s name :
  parse_named renamer_flags s name = OSet ⟨"dry"⟩ (FBool false) ->
  exists v, ParseBool v = Some false /\ name = ⟨"dry="⟩ ++ v.
Proof.
  unfold parse_named. destruct name as [|c q]; [done|].
  destruct (N.eqb c r_minus || N.eqb c r_equals); [done|].
  destruct (split_value (c :: q)) as [nm ov] eqn:Es. unfold find_flag. simpl.
  destruct (bool_decide (⟨"dry"⟩ = nm)) eqn:Ed.
  - apply bool_decide_eq_true in Ed. subst nm. destruct ov as [v|]; [|done].
    destruct (ParseBool v) as [b|] eqn:Eb; [|done]. intros [= <-].
    exists v. split; [done|]. by rewrite (split_value_Some _ _ _ Es).
  - by destruct (bool_decide (nm = ⟨"help"⟩) || bool_decide (nm = ⟨"h"⟩)).
Qed.

(** The arguments that turn the dry run off: [-dry=v] or [--dry=v] with a
    false value [v] of [strconv.ParseBool]. *)
Lemma parse_one_dry_false arg :
  parse_one renamer_flags arg = OSet ⟨"dry"⟩ (FBool false) ->
  exists v, ParseBool v = Some false /\ (arg = ⟨"-dry="⟩ ++ v \/ arg = ⟨"--dry="⟩ ++ v).
Proof.
  destruct arg as [|c0 [|c1 s2]]; try done. unfold parse_one.
  destruct (N.eqb c0 r_minus) eqn:E0; [|done]. apply N.eqb_eq in E0 as ->. cbn [negb].
  destruct (N.eqb c1 r_minus) eqn:E1.
  - apply N.eqb_eq in E1 as ->. destruct s2 as [|c2 s3]; [done|].
    intros (v & Hv & Hs)%parse_named_dry_false. exists v. split; [done|]. right. by rewrite Hs.
  - intros (v & Hv & Hs)%parse_named_dry_false. exists v. split; [done|]. left. by rewrite Hs.
Qed.

(** The Renamer has only a boolean flag: no argument gives it a string. *)
Lemma parse_one_renamer arg :
  match parse_one renamer_flags arg with OSet _ (FString _) | ONeedsValue _ => False | _ => True end.
Proof.
  assert (Hn : forall s name,
    match parse_named renamer_flags s name with OSet _ (FString _) | ONeedsValue _ => False | _ => True end).
  { intros s name. unfold parse_named. destruct name as [|c q]; [done|].
    destruct (N.eqb c r_minus || N.eqb c r_equals); [done|].
    destruct (split_value (c :: q)) as [nm ov]. unfold find_flag. simpl.
    destruct (bool_decide (⟨"dry"⟩ = nm)).
    - destruct ov as [v|]; [destruct (ParseBool v)|]; done.
    - by destruct (bool_decide (nm = ⟨"help"⟩) || bool_decide (nm = ⟨"h"⟩)). }
  destruct arg as [|c0 [|c1 s2]]; try done. unfold parse_one.
  destruct (negb (N.eqb c0 r_minus)); [done|].
  destruct (N.eqb c1 r_minus); [destruct s2; [done|apply Hn]|apply Hn].
Qed.

Section CliRuns.
Context {D : Type} `{ZipFormat D}.
Abbreviation node := (FileSystem.node D).

Lemma rename_root_dry cwd a (fs : node) : (rename_root true cwd a fs).1 = fs.
Proof.
  unfold rename_root. destruct (stat_path cwd (TrimSuffix a [r_slash])) as [rp|]; [|done].
  unfold run. destruct (lookup fs rp) as [[]|]; try done.
  rewrite apply_renames_dry. done.
Qed.

Lemma not_flag_render P : not_flag (render P) = true.
Proof.
  destruct P as [|x P]; [done|]. change (render (x :: P)) with (r_slash :: x ++ render P).
  unfold not_flag. by destruct (x ++ render P).
Qed.

Lemma flag_parse_render defs set P rest : flag_parse defs set (render P :: rest) = POk set (render P :: rest).
Proof. apply flag_parse_stop, not_flag_render. Qed.

(** C27: the flags of the Archiver are read only before the folder: any
    argument after it, [--include] and [--verbose] included, is ignored, so
    the command line of the usage text,
    [mtbls-compress <folder_path> [--include=...] [--verbose]], runs with
    the default pattern [*] and without verbose output. *)
Theorem compress_flags_after_folder cwd a rest (t : node) :
  not_flag a = true -> compress_main cwd (a :: rest) t = compress_main cwd [a] t.
Proof. intros Ha. unfold compress_main. by rewrite !flag_parse_stop. Qed.

(** C28: flags written before the folder are honoured: [--include=p] and
    [--verbose] set the pattern and the verbose mode of the run. *)
Theorem compress_main_flags cwd p (v : bool) a rest (t : node) :
  not_flag a = true ->
  compress_main cwd ((⟨"--include="⟩ ++ p) :: (if v then [⟨"--verbose"⟩] else []) ++ a :: rest) t =
  let '(t', l) := compress_root p v cwd a t in (t', l, 0).
Proof.
  intros Ha. unfold compress_main. destruct v; cbn [app flag_parse];
    change (parse_one archiver_flags (⟨"--include="⟩ ++ p)) with (OSet ⟨"include"⟩ (FString p));
    [change (parse_one archiver_flags ⟨"--verbose"⟩) with (OSet ⟨"verbose"⟩ (FBool true))|];
    rewrite parse_one_not_flag by done; reflexivity.
Qed.

(** C29: on a root written as an absolute path, with or without one
    trailing separator, the command lines run the models of the tools: the
    Archiver's [archive_run] with the backup folder [<root>_original] beside
    the root, and the Renamer's [run] on the root; so the theorems about
    those models hold of the tools as invoked. *)
Theorem cli_runs_models incl verb dry cwd P (trail : bool) (t : node) :
  Forall (fun x => valid_component x = true) P ->
  compress_root incl verb cwd (render P ++ (if trail then [r_slash] else [])) t =
    (let '(t', l) := archive_run incl verb t P in (t', map CArchiver l)) /\
  (P <> [] ->
   rename_root dry cwd (render P ++ (if trail then [r_slash] else [])) t =
     let '(t', l) := run dry t P in (t', CDryMode dry :: map CRenamer l)).
Proof.
  intros HP. unfold compress_root, rename_root. rewrite TrimSuffix_render by done.
  destruct (decide (P = [])) as [->|Hne]; [done|].
  assert (Hs : stat_path cwd (render P) = Some P).
  { unfold stat_path. destruct (render P) eqn:E; [by apply render_nil_iff in E|].
    rewrite <- E. by rewrite abs_path_render. }
  rewrite Hs, abs_path_original by done. split; [|done].
  unfold archive_run. by destruct P.
Qed.

(** C30: the Renamer changes the tree only when an argument [-dry=v] or
    [--dry=v] with a false value [v] of [strconv.ParseBool] turns the dry run
    off: without it every invocation, erroneous ones included, only reports. *)
Theorem rename_main_live_needs_flag cwd args (fs : node) :
  (rename_main cwd args fs).1.1 <> fs ->
  exists v, ParseBool v = Some false /\ ((⟨"-dry="⟩ ++ v) ∈ args \/ (⟨"--dry="⟩ ++ v) ∈ args).
Proof.
  unfold rename_main. destruct (flag_parse renamer_flags [] args) as [set pos| |e] eqn:Ep; try done.
  destruct pos as [|a pos']; [done|].
  destruct (flag_bool renamer_flags set ⟨"dry"⟩) eqn:Edry.
  { pose proof (rename_root_dry cwd a fs) as Hd.
    destruct (rename_root true cwd a fs) as [fs' l]. simpl in *. by subst. }
  intros _. unfold flag_bool, flag_get in Edry.
  destruct (List.find (fun e => bool_decide (e.1 = ⟨"dry"⟩)) set) as [[nm v]|] eqn:Ef; [|done].
  apply find_some in Ef as [Hin Hnm]. apply bool_decide_eq_true in Hnm. simpl in Hnm. subst nm.
  destruct (flag_parse_entries _ _ _ _ _ _ Ep Hin) as [[]|(arg & Harg & Harg2)].
  pose proof (parse_one_renamer arg) as Hren.
  destruct v as [[]|]; try done;
    [|by destruct Harg2 as [Ho|(nm & w & Ho & _)]; rewrite Ho in Hren].
  destruct Harg2 as [Ho|(nm & w & _ & Heq)]; [|by inversion Heq].
  apply list_elem_of_In in Harg.
  destruct (parse_one_dry_false arg Ho) as (w & Hw & Harg'). exists w. split; [done|].
  destruct Harg' as [<-|<-]; [by left|by right].
Qed.

End CliRuns.

(** ** Concrete invocations *)

Import Blob.

Definition ex_data : FileSystem.node blob := Dir true [(⟨"data"⟩, ex_study)].



Definition ex_plus : FileSystem.node blob :=
  Dir true [(⟨"data"⟩, Dir true [(⟨"a+b.raw"⟩, File true (Bytes 1))])].

Lemma compress_flags_after_folder_witness :
  not_flag ⟨"/data/study"⟩ = true /\
  compress_main [] [⟨"/data/study"⟩; ⟨"--include=*.raw"⟩] ex_data = compress_main [] [⟨"/data/study"⟩] ex_data.
Proof.
  split; [reflexivity|].
  exact (compress_flags_after_folder [] ⟨"/data/study"⟩ [⟨"--include=*.raw"⟩] ex_data eq_refl).
Defined.

Lemma compress_main_flags_witness :
  not_flag ⟨"/data/study"⟩ = true /\
  compress_main [] ((⟨"--include="⟩ ++ ⟨"*.raw"⟩) :: [⟨"--verbose"⟩] ++ ⟨"/data/study"⟩ :: []) ex_data =
  let '(t', l) := compress_root ⟨"*.raw"⟩ true [] ⟨"/data/study"⟩ ex_data in (t', l, 0).
Proof.
  split; [reflexivity|].
  exact (compress_main_flags [] ⟨"*.raw"⟩ true ⟨"/data/study"⟩ [] ex_data eq_refl).
Defined.

Lemma cli_runs_models_witness :
  Forall (fun x => valid_component x = true) [⟨"data"⟩; ⟨"study"⟩] /\
  compress_root ⟨"*.raw"⟩ false [] (render [⟨"data"⟩; ⟨"study"⟩] ++ [r_slash]) ex_data =
    (let '(t', l) := archive_run ⟨"*.raw"⟩ false ex_data [⟨"data"⟩; ⟨"study"⟩] in (t', map CArchiver l)) /\
  ([⟨"data"⟩; ⟨"study"⟩] <> [] ->
   rename_root true [] (render [⟨"data"⟩; ⟨"study"⟩] ++ [r_slash]) ex_data =
     let '(t', l) := run true ex_data [⟨"data"⟩; ⟨"study"⟩] in (t', CDryMode true :: map CRenamer l)).
Proof.
  assert (HP : Forall (fun x => valid_component x = true) [⟨"data"⟩; ⟨"study"⟩])
    by (repeat constructor).
  split; [exact HP|].
  exact (cli_runs_models ⟨"*.raw"⟩ false true [] [⟨"data"⟩; ⟨"study"⟩] true ex_data HP).
Defined.

Lemma rename_main_live_needs_flag_witness :
  (rename_main [] [⟨"--dry=false"⟩; ⟨"/data"⟩] ex_plus).1.1 <> ex_plus /\
  exists v, ParseBool v = Some false /\
    ((⟨"-dry="⟩ ++ v) ∈ [⟨"--dry=false"⟩; ⟨"/data"⟩] \/ (⟨"--dry="⟩ ++ v) ∈ [⟨"--dry=false"⟩; ⟨"/data"⟩]).
Proof.
  assert (Hch : (rename_main [] [⟨"--dry=false"⟩; ⟨"/data"⟩] ex_plus).1.1 <> ex_plus)
    by (vm_compute; discriminate).
  split; [exact Hch|].
  exact (rename_main_live_needs_flag [] [⟨"--dry=false"⟩; ⟨"/data"⟩] ex_plus Hch).
Defined.
